(* ===== verification/_CoqProject ===== *)
-Q . S2P
Prelude.v
Packing.v
Atomics.v
Table.v
TableSimd.v
TableSpec.v
TableThms.v
HashIface.v
HashSeq.v
HashProbe.v
KvItem.v
KvItemSpec.v
Cuckoo.v
CuckooSpec.v
CuckooThms.v
SegState.v
SegHeader.v
SegHeaderSpec.v
F64.v
Segment.v
SegmentSpec.v
SegmentThms.v
PinProtocol.v
PinSafety.v
PinThms.v
TtlBuckets.v
Eviction.v
EvictionSpec.v
Segments.v
SegmentsBuilder.v
Segcache.v
HeapRules.v
HeapShape.v
HeapContents.v
HeapDrain.v
HeapClear.v
HeapItems.v
HeapEvict.v
HeapRemove.v
HeapReserve.v
HeapBuild.v
CacheLookup.v
CacheState.v
CacheDelete.v
CacheNumeric.v
CacheSlots.v
CacheReserve.v
CacheAppend.v
CacheInsert.v
CachePublish.v
CacheCas.v
CacheOps.v
CacheStall.v
CacheThms.v
HeapThms.v
Datatier.v
DatatierSpec.v
DatatierThms.v
