(* ===== verification/Prelude.v ===== *)
(** * Verification of cache-rs

    cache-rs is a family of in-process caches. This library models the code
    under [crates/] that decides what they return: the segment-structured cache
    [segcache], the item format [keyvalue] it shares with [cuckoo], the
    fixed-array cache [cuckoo], and the byte pools of [datatier].

    ** The parts of the program, and the files that model them

    segcache keeps items in the order they arrive in fixed-size segments
    ([segments/]). A hashtable ([hashtable/table.rs]) maps a key to a 44-bit
    location (segment, incarnation tag, offset); a bucket per range of times to
    live ([ttl_buckets/]) chains its segments, oldest first, and appends to the
    last. Reading pins a segment; eviction ([eviction/], [segments/segments.rs])
    claims one, unlinks its items from the hashtable or moves them, and frees
    it. The segment's header word carries its state and its place in a chain.

    - [Prelude]: machine integers, buffers of bytes, lists, shared tactics.
    - [Packing]: [hashtable/location.rs], [hashtable/bucket.rs], [cas.rs],
      [rand.rs] and the location packing of [hashtable/mod.rs].
    - [Atomics]: the language in which code on shared memory is written down:
      programs over single atomic accesses, with other threads' writes from a
      schedule between any two of them, and the rules to reason about them.
    - [Table], [TableSimd], [TableSpec], [TableThms]: [hashtable/table.rs] and
      [hashtable/traits.rs]. Readers' frequency bumps race with every
      operation. [TableSimd] is the AVX2 and NEON scan.
    - [HashIface], [HashSeq], [HashProbe]: what the segment scans ask of the
      hashtable, as a class with its laws, and [MultiChoiceHashtable] as an
      instance; its operations that compare keys, run by one thread.
    - [KvItem], [KvItemSpec]: [keyvalue/src]: item layout, [define], the reads,
      CRC, version-locked updates of numeric items, parsing of numbers.
    - [Cuckoo], [CuckooSpec], [CuckooThms]: [cuckoo/src] and
      [keyvalue/src/tiny.rs], on the byte array of the cache.
    - [SegState], [SegHeader], [SegHeaderSpec]: [segments/state.rs] and
      [segments/header.rs]: the packed metadata word, every header operation as
      a program over its atomic fields.
    - [F64]: IEEE 754 doubles.
    - [Segment], [SegmentSpec], [SegmentThms]: [segments/segment.rs] and the
      item scans of [segments/segments.rs]: clear, prune, copy, promote.
    - [PinProtocol], [PinSafety], [PinThms]: the protocol by which readers,
      writers, removers, drains and the free queue share one segment, as a step
      relation of any number of threads ([segments/header.rs], [guard.rs],
      [free_queue.rs], [segments.rs], [ttl_bucket.rs]).
    - [TtlBuckets]: the bucket arithmetic of [ttl_buckets/ttl_buckets.rs].
    - [Eviction], [EvictionSpec]: [eviction/]: policies, ghost queue, ranking,
      and [least_valuable_seg] of [segments.rs].
    - [Segments], [SegmentsBuilder]: [segments/segments.rs],
      [segments/builder.rs], [ttl_buckets/ttl_bucket.rs]: the heap of segments
      with its queues and chains, reservation, expiry, every eviction policy,
      removal, construction.
    - [HeapRules]: rules for programs over the heap. [HeapShape]: every segment
      is in one queue, one chain, in hand, or left to its readers, and its
      header agrees. [HeapContents]: the items of every segment, and what the
      hashtable publishes of them. [HeapDrain], [HeapClear]: a segment leaves
      its chain; [at_rest] is the invariant between operations. [HeapItems],
      [HeapRemove]: items appended, rewritten, unlinked, taken out. [HeapEvict],
      [HeapReserve], [HeapBuild], [HeapThms]: eviction, expiry, clearing,
      reservation and construction from one such state to another.
    - [Segcache]: [segcache.rs], [builder.rs], [error.rs], [item/mod.rs] and the
      verifier of [hashtable/mod.rs]: every public operation of the cache.
    - [CacheLookup]: where published items lie, and what lookups find.
      [CacheState]: [cache_ok], the invariant between operations, and
      [contents_of], the map of keys to slots it stands for. [CacheDelete],
      [CacheNumeric], [CacheReserve], [CacheAppend], [CacheInsert],
      [CachePublish], [CacheCas]: the writing operations. [CacheSlots]: evictions
      leave the entries they do not unlink in their slots. [CacheStall]: the
      insert that does not end. [CacheOps], [CacheThms]: all of them as steps of
      the map.

    - [Datatier], [DatatierSpec], [DatatierThms]: [datatier/src/lib.rs]: pools of
      bytes in memory, in a mapped file, and in memory with a file behind it, on
      a model of files whose transfers may be partial or fail.

    ** What the theorems show

    - Hashtable: every operation's effect on every branch against racing
      frequency bumps; insert then lookup; the vector scans agree with the
      scalar one; run alone, it refines a map from locations to frequencies.
    - Items: what [define] writes is what the reads return; any history of
      in-place updates is the arithmetic of [u64] and keeps the CRC in step.
    - Cuckoo: the effect of every operation on the live items, an invariant of
      all histories, insert then get.
    - Headers and pins: reservations tile a segment; swaps of the metadata word
      succeed only from the state they name; a drain is exclusive; a pinned
      segment is not recycled, and outside of one race, which is exhibited, not
      freed; a condemned segment is not stranded.
    - Segments: a drain unlinks exactly the segment's entries, a copy relocates
      them with bytes, version and frequency; pruning ends, for NaN ratios too.
    - The heap: construction establishes its invariant, and evictions that drop
      a segment, expiry, clearing and reservations return and keep it, with
      their effect on chains, queues, items and index on every branch.
    - Eviction: the selections pick only evictable segments, the least by the
      policy's key when they rank again, the next of the ranking otherwise.
    - The cache, under the policies that drop segments: from construction on,
      every operation returns and refines a map that may forget, tokens of [cas]
      included; a lookup that hits shows what was last written; an item handed
      out pins its segment; a token from before an update is refused; a number
      that is over is not created anew.
    - Byte pools: whatever is flushed is there at the next open, of either kind of
      pool, however transfers are cut short; what opens, and which error is
      given; an interrupted flush shows as all or nothing; a changed byte is a
      collision of the hash; sizes that are not whole pages are lost.

    ** Conditions

    Where the code does not do what it promises, the theorems say under which
    conditions it does, and an example or a theorem of its own shows the rest.

    - The cuckoo cache: keys of at most 255 bytes, byte values of 1 to 255 bytes
      or numbers ([tiny_args], [op_ok]); an empty value is read back as a number
      from beyond its slot. Displacements at most 3 deep; the default is 2, and
      at 5 a chain can return to its start. Insert then get needs that no
      expired copy of the key is left, and an expiry other than 0.
    - Ranked eviction: within a second, and while 8 segments of the ranking are
      left, a selection goes on in the old ranking, whatever the keys are now.
    - The cache: sizes of items that fit a segment, but not behind its magic
      bytes, are left out ([asked]). Their insert does not return
      ([full_segment_item_stalls]) under [Random], without pins, and with two
      segments in the bucket or free; without a policy, or with one segment, it
      answers [NoFreeSegments].
    - A reader's segment is not freed under it on runs in which none is condemned
      while an earlier pin of it is still released ([calm]).
    - Byte pools: sizes that are whole pages.

    ** Fuel and bounds

    A retry loop around a compare-and-swap has fuel one more than the length of
    the schedule, since a retry consumes an interfering write. A scan over the
    items of a segment has one lap per byte and one more, and items have at
    least one byte. A walk of a chain has [cap + 1] laps, [reserve] has one for
    every free segment and two more. The loops of [segcache.rs] repeat when
    another thread interferes, or an eviction freed nothing: with one thread
    four laps are enough, but for one size of items, for which none may be. That
    these suffice is part of the theorems ([exists ..., op = Some ...]); a model
    that ran out would be stuck. A repeated transfer of [datatier] has a lap for
    every outcome the schedule still holds and one more. Its sizes are below
    2^53 - 4096, where the page count that is computed in doubles is exact. The
    pin protocol counts readers without wrapping: fewer than 2^32 threads.

    ** What is not modelled

    The theorems about the cache are of one thread, and leave out the eviction
    policies [Merge] and [S3Fifo], which are modelled. Not modelled are: memory
    orderings weaker than sequential consistency; metrics, logging, prefetching
    and fault-injection hooks; locks (a critical section is one step, or runs
    alone); the width of the coarse clock, whose instants are unbounded here;
    overflow checks, which the release profile has off; the header accessors of
    [datatier]'s [MmapFile], which return a reference into a stack frame that is
    gone, and what a power failure does to a mapping; the command-line tools,
    benchmarks, fuzzers and tests. Hash functions, CRC-32 and memory maps belong
    to other crates and are parameters, or for [datatier] what their
    documentation says of them. *)
From Stdlib Require Export ZArith Lia.
From stdpp Require Export base list option numbers tactics sets.

#[global] Open Scope Z_scope.

(** Integer literals of the machine types, and their wrap-around. *)
Declare Scope word_scope.
Delimit Scope word_scope with word.

(** [wrap w x] is the value of [x as u<w>]: the low [w] bits. *)
Definition wrap (w x : Z) : Z := x mod 2 ^ w.

Abbreviation u8 := (wrap 8).
Abbreviation u16 := (wrap 16).
Abbreviation u32 := (wrap 32).
Abbreviation u64 := (wrap 64).

Notation "x +w{ w } y" := (wrap w (x + y)) (at level 50, left associativity) : word_scope.
Notation "x -w{ w } y" := (wrap w (x - y)) (at level 50, left associativity) : word_scope.
Notation "x *w{ w } y" := (wrap w (x * y)) (at level 40, left associativity) : word_scope.

(** [saturating_sub], [saturating_add] of Rust's unsigned integers. *)
Definition sat_sub (x y : Z) : Z := Z.max 0 (x - y).
Definition sat_add (w x y : Z) : Z := Z.min (2 ^ w - 1) (x + y).

(** [checked_add], [checked_mul]: [None] on overflow. *)
Definition checked (w x : Z) : option Z :=
  if (0 <=? x) && (x <? 2 ^ w) then Some x else None.

(** [x] is a value of the unsigned type of width [w]. *)
Definition fits (w x : Z) : Prop := 0 <= x < 2 ^ w.

(** The [!] operator of a [w]-bit unsigned integer. *)
Definition wnot (w x : Z) : Z := Z.lxor x (Z.ones w).

(** ** Automation *)

Create HintDb words.
Create HintDb bytes_len.
Create Rewrite HintDb word_rw.
Create Rewrite HintDb bytes_rw.

(** Evaluates the powers of two, and turns shifts and masks by literals into
    products, quotients and remainders that [lia] understands. *)
Ltac pow2 :=
  repeat match goal with
  | H : context [2 ^ Z.pos ?p] |- _ =>
      is_ground p; let v := eval vm_compute in (2 ^ Z.pos p) in
      change (2 ^ Z.pos p) with v in H
  | |- context [2 ^ Z.pos ?p] =>
      is_ground p; let v := eval vm_compute in (2 ^ Z.pos p) in
      change (2 ^ Z.pos p) with v
  end.

Ltac dm := Z.to_euclidean_division_equations; lia.

Ltac case_bool :=
  repeat match goal with
  | H : context [Z.eqb ?a ?b] |- _ => destruct (Z.eqb_spec a b)
  | H : context [Z.ltb ?a ?b] |- _ => destruct (Z.ltb_spec a b)
  | H : context [Z.leb ?a ?b] |- _ => destruct (Z.leb_spec a b)
  | |- context [Z.eqb ?a ?b] => destruct (Z.eqb_spec a b)
  | |- context [Z.ltb ?a ?b] => destruct (Z.ltb_spec a b)
  | |- context [Z.leb ?a ?b] => destruct (Z.leb_spec a b)
  end; simpl in *.

(** Case analysis on every [match] scrutinee of the goal or of [H]. *)
Ltac case_match_in H :=
  repeat match type of H with
  | context [match ?x with _ => _ end] => destruct x eqn:?; simplify_eq/=
  end.

(** ** Words *)

Section Words.
Implicit Types (w x y k : Z).

Lemma wrap_fits w x : 0 <= w -> fits w (wrap w x).
Proof. intros. unfold fits, wrap. apply Z.mod_pos_bound, Z.pow_pos_nonneg; lia. Qed.

Lemma wrap_id w x : fits w x -> wrap w x = x.
Proof. intros. unfold wrap. by apply Z.mod_small. Qed.

Lemma wrap_wrap w x : wrap w (wrap w x) = wrap w x.
Proof. unfold wrap. apply Zmod_mod. Qed.

Lemma wrap_add_l w x y : wrap w (wrap w x + y) = wrap w (x + y).
Proof. unfold wrap. apply Zplus_mod_idemp_l. Qed.

Lemma wrap_add_r w x y : wrap w (x + wrap w y) = wrap w (x + y).
Proof. unfold wrap. apply Zplus_mod_idemp_r. Qed.

Lemma fits_mono w k x : 0 <= w <= k -> fits w x -> fits k x.
Proof.
  intros [? ?] [? ?]. split; [done|].
  eapply Z.lt_le_trans; [done|]. by apply Z.pow_le_mono_r; lia.
Qed.

Lemma fits_0 w : 0 <= w -> fits w 0.
Proof. intros. split; [done|]. by apply Z.pow_pos_nonneg. Qed.

(** Disjoint bit ranges: an [|] of them is their sum. *)
Lemma lor_add k hi lo :
  0 <= k -> hi mod 2 ^ k = 0 -> 0 <= lo < 2 ^ k -> Z.lor hi lo = hi + lo.
Proof.
  intros Hk Hhi Hlo. rewrite <- Z.lxor_lor, <- Z.add_nocarry_lxor; [done|..].
  all: apply Z.bits_inj'; intros i Hi; rewrite Z.land_spec, Z.bits_0.
  all: destruct (Z.lt_ge_cases i k).
  all: try (rewrite <- (Z.mod_pow2_bits_low hi k i) by lia;
            rewrite Hhi, Z.bits_0; done).
  all: rewrite <- (Z.mod_small lo (2 ^ k)) by lia;
    rewrite (Z.mod_pow2_bits_high lo k i) by lia; apply andb_false_r.
Qed.

Lemma lor_add_r k hi lo :
  0 <= k -> hi mod 2 ^ k = 0 -> 0 <= lo < 2 ^ k -> Z.lor lo hi = lo + hi.
Proof. intros. rewrite Z.lor_comm, (lor_add k); lia. Qed.

Lemma land_mask k x : 0 <= k -> Z.land x (2 ^ k - 1) = x mod 2 ^ k.
Proof. intros. rewrite <- Z.land_ones by done. by rewrite Z.ones_equiv, Z.sub_1_r. Qed.

(** Keeping the bits from [k] up to [w]. *)
Lemma land_high k w x :
  0 <= k <= w -> fits w x -> Z.land x (Z.shiftl (Z.ones (w - k)) k) = x - x mod 2 ^ k.
Proof.
  intros Hk Hx. transitivity (Z.shiftl (Z.shiftr x k) k).
  - apply Z.bits_inj'. intros i Hi. rewrite Z.land_spec, !Z.shiftl_spec by lia.
    destruct (Z.lt_ge_cases i k).
    + rewrite !(Z.testbit_neg_r _ (i - k)) by lia. apply andb_false_r.
    + rewrite Z.shiftr_spec by lia. replace (i - k + k) with i by lia.
      destruct (Z.lt_ge_cases i w).
      * rewrite Z.ones_spec_low by lia. apply andb_true_r.
      * rewrite <- (Z.mod_small x (2 ^ w)) by (unfold fits in *; lia).
        by rewrite Z.mod_pow2_bits_high by lia.
  - rewrite Z.shiftl_mul_pow2, Z.shiftr_div_pow2 by lia.
    pose proof (Z.pow_pos_nonneg 2 k ltac:(lia) ltac:(lia)).
    pose proof (Z.div_mod x (2 ^ k) ltac:(lia)). lia.
Qed.

(** A word differs from itself shifted right, unless it is zero: the step
    that makes [x ^ (x >> k)] injective. *)
Lemma xorshift_inj k x y :
  0 < k -> 0 <= x -> 0 <= y ->
  Z.lxor x (Z.shiftr x k) = Z.lxor y (Z.shiftr y k) -> x = y.
Proof.
  intros Hk Hx Hy E. apply Z.lxor_eq. set (d := Z.lxor x y).
  assert (0 <= d) as Hd by (apply Z.lxor_nonneg; lia).
  assert (d = Z.shiftr d k) as Hs.
  { unfold d. rewrite Z.shiftr_lxor. apply Z.lxor_eq.
    rewrite Z.lxor_assoc, <- (Z.lxor_assoc y), (Z.lxor_comm y), Z.lxor_assoc.
    rewrite <- E, <- Z.lxor_assoc. apply Z.lxor_nilpotent. }
  rewrite Z.shiftr_div_pow2 in Hs by lia.
  destruct (Z.eq_dec d 0) as [|]; [done|].
  pose proof (Z.pow_gt_1 2 k ltac:(lia)) as [Hp _]. specialize (Hp Hk).
  pose proof (Z.div_lt d (2 ^ k) ltac:(lia) Hp). lia.
Qed.

(** Multiplication by an odd constant, through its inverse modulo [2^w]. *)
Lemma wrap_mul_inj w c c' x y :
  0 <= w -> wrap w (c' * c) = 1 -> fits w x -> fits w y ->
  wrap w (x * c) = wrap w (y * c) -> x = y.
Proof.
  unfold wrap, fits. intros Hw Hc Hx Hy E.
  assert (forall z, 0 <= z < 2 ^ w -> (z * c) mod 2 ^ w * c' mod 2 ^ w = z) as Hinv.
  { intros z Hz. rewrite Zmult_mod_idemp_l.
    replace (z * c * c') with (z * (c' * c)) by lia.
    rewrite <- Zmult_mod_idemp_r, Hc, Z.mul_1_r. by apply Z.mod_small. }
  rewrite <- (Hinv x Hx), <- (Hinv y Hy), E. done.
Qed.

Lemma wnot_sub w x : 0 <= w -> fits w x -> wnot w x = 2 ^ w - 1 - x.
Proof.
  intros Hw Hx. unfold wnot.
  assert (Z.land x (Z.lxor x (Z.ones w)) = 0) as Hd.
  { apply Z.bits_inj'. intros i Hi. rewrite Z.land_spec, Z.lxor_spec, Z.bits_0.
    destruct (Z.lt_ge_cases i w).
    - rewrite Z.ones_spec_low by lia. by destruct (Z.testbit x i).
    - rewrite <- (Z.mod_small x (2 ^ w)) by (unfold fits in *; lia).
      by rewrite Z.mod_pow2_bits_high by lia. }
  pose proof (Z.add_nocarry_lxor _ _ Hd) as Ha.
  rewrite <- Z.lxor_assoc, Z.lxor_nilpotent, Z.lxor_0_l in Ha.
  pose proof (Z.ones_equiv w). lia.
Qed.
End Words.

(** Shifts by literals and masks of the form [2^k - 1] become arithmetic. *)
Ltac bits_arith :=
  rewrite ?Z.shiftl_mul_pow2, ?Z.shiftr_div_pow2, ?Z.mul_1_l by lia;
  rewrite ?land_mask by lia; unfold wrap in *; pow2.

#[export] Hint Resolve wrap_fits fits_mono : words.
#[export] Hint Rewrite wrap_wrap wrap_add_l wrap_add_r : word_rw.

(** ** Byte buffers

    A buffer is a [list Z] of bytes. [slice] is [&buf[off..off + len]] and
    [blit] is [buf[off..off + len].copy_from_slice(bs)] (it never changes the
    length of the buffer); both are only used where the bounds hold, which the
    theorems carry as hypotheses. *)

Abbreviation bytes := (list Z).

Definition is_byte (b : Z) : Prop := 0 <= b < 256.

Definition slice (off len : Z) (buf : bytes) : bytes :=
  take (Z.to_nat len) (drop (Z.to_nat off) buf).

Definition blit (off : Z) (bs buf : bytes) : bytes :=
  take (length buf)
    (take (Z.to_nat off) buf ++ bs ++ drop (Z.to_nat off + length bs) buf).

Definition blen (buf : bytes) : Z := Z.of_nat (length buf).

(** [to_le_bytes], [from_le_bytes] and their big-endian forms. *)
Fixpoint le_bytes (n : nat) (v : Z) : bytes :=
  match n with
  | O => []
  | S n => v mod 256 :: le_bytes n (v / 256)
  end.

Fixpoint le_value (bs : bytes) : Z :=
  match bs with
  | [] => 0
  | b :: bs => b + 256 * le_value bs
  end.

Definition be_bytes (n : nat) (v : Z) : bytes := reverse (le_bytes n v).
Definition be_value (bs : bytes) : Z := le_value (reverse bs).

Section Bytes.
Implicit Types (bs buf : bytes) (off len v : Z).

Lemma length_le_bytes n v : length (le_bytes n v) = n.
Proof. revert v. induction n; intros; simpl; auto. Qed.

Lemma length_be_bytes n v : length (be_bytes n v) = n.
Proof. unfold be_bytes. by rewrite length_reverse, length_le_bytes. Qed.

Lemma le_bytes_is_byte n v : Forall is_byte (le_bytes n v).
Proof.
  revert v. induction n; intros; simpl; constructor; auto.
  unfold is_byte. dm.
Qed.

Lemma le_value_le_bytes n v :
  fits (8 * Z.of_nat n) v -> le_value (le_bytes n v) = v.
Proof.
  revert v. induction n as [|n IH]; intros v Hv; cbn [le_bytes le_value].
  - unfold fits in Hv. simpl in Hv. lia.
  - rewrite IH; [dm|]. unfold fits in *.
    replace (8 * Z.of_nat (S n)) with (8 + 8 * Z.of_nat n) in Hv by lia.
    rewrite Z.pow_add_r in Hv by lia. pow2. dm.
Qed.

Lemma be_value_be_bytes n v :
  fits (8 * Z.of_nat n) v -> be_value (be_bytes n v) = v.
Proof. unfold be_value, be_bytes. rewrite reverse_involutive. apply le_value_le_bytes. Qed.

Lemma le_value_bounds bs :
  Forall is_byte bs -> fits (8 * Z.of_nat (length bs)) (le_value bs).
Proof.
  induction 1 as [|b bs Hb _ IH]; cbn [le_value length]; unfold fits, is_byte in *.
  - vm_compute. intuition congruence.
  - replace (8 * Z.of_nat (S (length bs))) with (8 + 8 * Z.of_nat (length bs)) by lia.
    rewrite Z.pow_add_r by lia. pow2. lia.
Qed.

Lemma le_bytes_le_value bs :
  Forall is_byte bs -> le_bytes (length bs) (le_value bs) = bs.
Proof.
  induction 1 as [|b bs Hb _ IH]; cbn [le_value length le_bytes]; [done|].
  unfold is_byte in Hb. f_equal; [dm|].
  assert ((b + 256 * le_value bs) / 256 = le_value bs) as -> by dm. done.
Qed.

Lemma blen_nonneg buf : 0 <= blen buf.
Proof. unfold blen. lia. Qed.

Lemma length_slice off len buf :
  0 <= off -> 0 <= len -> off + len <= blen buf ->
  length (slice off len buf) = Z.to_nat len.
Proof. intros. unfold slice, blen in *. rewrite length_take, length_drop. lia. Qed.

Lemma blen_slice off len buf :
  0 <= off -> 0 <= len -> off + len <= blen buf -> blen (slice off len buf) = len.
Proof. intros. unfold blen at 1. rewrite length_slice; lia. Qed.

Lemma length_blit off bs buf : length (blit off bs buf) = length buf.
Proof.
  unfold blit. rewrite length_take, !length_app, length_take, length_drop. lia.
Qed.

Lemma blen_blit off bs buf : blen (blit off bs buf) = blen buf.
Proof. unfold blen. by rewrite length_blit. Qed.

Lemma blit_in off bs buf :
  0 <= off -> off + blen bs <= blen buf ->
  blit off bs buf = take (Z.to_nat off) buf ++ bs ++ drop (Z.to_nat off + length bs) buf.
Proof.
  intros. unfold blit, blen in *. apply take_ge.
  rewrite !length_app, length_take, length_drop. lia.
Qed.

Lemma slice_blit_eq off bs buf len :
  0 <= off -> len = blen bs -> off + len <= blen buf ->
  slice off len (blit off bs buf) = bs.
Proof.
  intros ? -> ?. rewrite blit_in by done. unfold slice, blen in *.
  rewrite drop_app_length' by (rewrite length_take; lia).
  by rewrite take_app_length' by lia.
Qed.

Lemma slice_blit_before off bs buf o len :
  0 <= o -> 0 <= len -> o + len <= off -> off + blen bs <= blen buf ->
  slice o len (blit off bs buf) = slice o len buf.
Proof.
  intros. rewrite blit_in by lia. unfold slice, blen in *.
  rewrite drop_app_le by (rewrite length_take; lia).
  rewrite take_app_le by (rewrite length_drop, length_take; lia).
  rewrite <- (take_drop (Z.to_nat off) buf) at 2.
  rewrite drop_app_le by (rewrite length_take; lia).
  by rewrite take_app_le by (rewrite length_drop, length_take; lia).
Qed.

Lemma slice_blit_after off bs buf o len :
  0 <= off -> off + blen bs <= o -> off + blen bs <= blen buf ->
  slice o len (blit off bs buf) = slice o len buf.
Proof.
  intros. rewrite blit_in by lia. unfold slice, blen in *. f_equal.
  rewrite drop_app_ge by (rewrite length_take; lia).
  rewrite drop_app_ge by (rewrite length_take; lia).
  rewrite drop_drop. f_equal. rewrite length_take. lia.
Qed.

(** A slice that starts with the written range. *)
Lemma slice_app_slice o l1 l2 buf :
  0 <= o -> 0 <= l1 -> 0 <= l2 ->
  slice o (l1 + l2) buf = slice o l1 buf ++ slice (o + l1) l2 buf.
Proof.
  intros. unfold slice. rewrite Z2Nat.inj_add by lia.
  rewrite (Z2Nat.inj_add o) by lia. rewrite <- drop_drop. by rewrite take_take_drop.
Qed.

Lemma blen_app a b : blen (a ++ b) = blen a + blen b.
Proof. unfold blen. rewrite length_app. lia. Qed.

Lemma blen_le_bytes n v : blen (le_bytes n v) = Z.of_nat n.
Proof. unfold blen. by rewrite length_le_bytes. Qed.

Lemma blen_be_bytes n v : blen (be_bytes n v) = Z.of_nat n.
Proof. unfold blen. by rewrite length_be_bytes. Qed.

Lemma blen_replicate n (v : Z) : blen (replicate n v) = Z.of_nat n.
Proof. unfold blen. by rewrite length_replicate. Qed.

Lemma blen_nil : blen [] = 0.
Proof. done. Qed.

Lemma blen_cons (v : Z) bs : blen (v :: bs) = 1 + blen bs.
Proof. unfold blen. cbn [length]. lia. Qed.

Lemma slice_full len buf : len = blen buf -> slice 0 len buf = buf.
Proof. intros ->. unfold slice, blen. rewrite drop_0, take_ge by lia. done. Qed.

Lemma slice_slice o1 l1 o2 l2 buf :
  0 <= o1 -> 0 <= o2 -> 0 <= l2 -> o2 + l2 <= l1 ->
  slice o2 l2 (slice o1 l1 buf) = slice (o1 + o2) l2 buf.
Proof.
  intros. unfold slice. rewrite skipn_firstn_comm, take_take, drop_drop. 
  f_equal; [lia|]. f_equal. lia.
Qed.

Lemma slice_app_l o l bs buf :
  0 <= o -> 0 <= l -> o + l <= blen bs -> slice o l (bs ++ buf) = slice o l bs.
Proof.
  intros. unfold slice, blen in *.
  rewrite drop_app_le by lia. by rewrite take_app_le by (rewrite length_drop; lia).
Qed.

Lemma slice_app_r o l bs buf :
  blen bs <= o -> slice o l (bs ++ buf) = slice (o - blen bs) l buf.
Proof.
  intros. unfold slice, blen in *. f_equal. rewrite drop_app_ge by lia. f_equal. lia.
Qed.

Lemma Forall_slice (P : Z -> Prop) o l buf : Forall P buf -> Forall P (slice o l buf).
Proof. intros. by apply Forall_take, Forall_drop. Qed.

Lemma Forall_blit (P : Z -> Prop) o bs buf :
  Forall P bs -> Forall P buf -> Forall P (blit o bs buf).
Proof.
  intros. unfold blit. apply Forall_take, Forall_app. split; [by apply Forall_take|].
  apply Forall_app. split; [done|by apply Forall_drop].
Qed.

(** A write, position by position. *)
Lemma lookup_blit off bs buf (i : nat) :
  0 <= off -> off + blen bs <= blen buf ->
  blit off bs buf !! i =
    if decide (Z.to_nat off <= i < Z.to_nat off + length bs)%nat
    then bs !! (i - Z.to_nat off)%nat else buf !! i.
Proof.
  intros. rewrite blit_in by done. unfold blen in *. case_decide.
  - rewrite lookup_app_r by (rewrite length_take; lia).
    rewrite length_take, Nat.min_l by lia. by rewrite lookup_app_l by lia.
  - destruct (decide (i < Z.to_nat off)%nat).
    + rewrite lookup_app_l by (rewrite length_take; lia). by rewrite lookup_take_lt by lia.
    + rewrite lookup_app_r by (rewrite length_take; lia).
      rewrite length_take, Nat.min_l by lia. rewrite lookup_app_r by lia.
      rewrite lookup_drop. f_equal. lia.
Qed.

Lemma blit_slice_same off len buf :
  0 <= off -> 0 <= len -> off + len <= blen buf -> blit off (slice off len buf) buf = buf.
Proof.
  intros. apply list_eq. intros i. rewrite lookup_blit by (rewrite ?blen_slice; lia).
  case_decide as D; [|done]. rewrite length_slice in D by lia. unfold slice.
  rewrite lookup_take_lt, lookup_drop by lia. f_equal. lia.
Qed.

Lemma blit_blit off bs bs' buf :
  0 <= off -> length bs = length bs' -> off + blen bs <= blen buf ->
  blit off bs (blit off bs' buf) = blit off bs buf.
Proof.
  intros ? E ?. assert (blen bs = blen bs') by (unfold blen; lia).
  apply list_eq. intros i. rewrite !lookup_blit by (rewrite ?blen_blit; lia).
  repeat case_decide; done || lia.
Qed.

Lemma slice_blit_in n off bs buf :
  0 <= off -> off + blen bs <= n -> n <= blen buf ->
  slice 0 n (blit off bs buf) = blit off bs (slice 0 n buf).
Proof.
  intros. pose proof (blen_nonneg bs). apply list_eq. intros i.
  rewrite lookup_blit by (rewrite ?blen_slice; lia). unfold slice. rewrite !drop_0.
  destruct (decide (i < Z.to_nat n)%nat).
  - rewrite !lookup_take_lt by lia. by rewrite lookup_blit by lia.
  - rewrite !lookup_take_ge by lia. unfold blen in *. rewrite decide_False by lia. done.
Qed.

(** The bytes from [off] on. *)
Lemma slice_drop n o l buf :
  0 <= n -> 0 <= o -> slice o l (drop (Z.to_nat n) buf) = slice (n + o) l buf.
Proof. intros. unfold slice. rewrite drop_drop. do 2 f_equal. lia. Qed.

Lemma blen_drop n buf : 0 <= n <= blen buf -> blen (drop (Z.to_nat n) buf) = blen buf - n.
Proof. unfold blen. intros. rewrite length_drop. lia. Qed.

(** A write inside the bytes just written, through the suffix they start. *)
Lemma blit_nested off o bs part buf :
  0 <= off -> 0 <= o -> o + blen bs <= blen part -> off + blen part <= blen buf ->
  blit off (blit o bs (drop (Z.to_nat off) (blit off part buf))) (blit off part buf) =
    blit off (blit o bs part) buf.
Proof.
  intros. pose proof (blen_nonneg bs).
  assert (blen (drop (Z.to_nat off) (blit off part buf)) = blen buf - off) as E
    by (rewrite blen_drop; rewrite ?blen_blit; lia).
  apply list_eq. intros i.
  rewrite (lookup_blit off (blit o bs part)) by (rewrite ?blen_blit; lia).
  rewrite lookup_blit by (rewrite ?blen_blit, ?E; rewrite ?blen_blit; lia).
  rewrite !length_blit, length_drop, length_blit. unfold blen in *.
  destruct (decide (Z.to_nat off <= i)%nat).
  2: { rewrite !decide_False by lia. rewrite lookup_blit by (unfold blen; lia).
       by rewrite decide_False by lia. }
  destruct (decide (i < length buf)%nat).
  2: { rewrite !decide_False by lia. by rewrite lookup_blit, decide_False by (unfold blen; lia). }
  rewrite (decide_True (P := (_ <= i < _ + (_ - _))%nat)) by lia.
  rewrite lookup_blit by (unfold blen; rewrite ?length_drop, ?length_blit; lia).
  rewrite lookup_drop, lookup_blit by (unfold blen; lia).
  destruct (decide (i < Z.to_nat off + length part)%nat).
  - rewrite (decide_True (P := (_ <= i < _ + length part)%nat)) by lia.
    rewrite lookup_blit by (unfold blen; lia). case_decide; [done|].
    rewrite decide_True by lia. f_equal. lia.
  - rewrite (decide_False (P := (_ <= i < _ + length part)%nat)) by lia.
    rewrite !decide_False by lia. f_equal. lia.
Qed.

End Bytes.

#[export] Hint Rewrite length_le_bytes length_be_bytes length_blit : bytes_rw.
#[export] Hint Rewrite blen_blit blen_app blen_le_bytes blen_be_bytes blen_replicate
  blen_nil blen_cons : bytes_rw.

(** Side conditions on offsets and lengths. *)
Ltac blen_lia := autorewrite with bytes_rw; lia.

(** Reads through a stack of writes. *)
Ltac slices :=
  repeat first
    [ rewrite slice_blit_eq by blen_lia
    | rewrite slice_blit_before by blen_lia
    | rewrite slice_blit_after by blen_lia ].
#[export] Hint Resolve le_bytes_is_byte Forall_slice Forall_blit : bytes_len.
