(* ===== verification/Packing.v ===== *)
(** * Bit-packed words of the segment cache

    The 64-bit words the cache exchanges atomically, with their encoders and
    decoders: item locations ([hashtable/location.rs], [hashtable/mod.rs]),
    hashtable slots ([hashtable/bucket.rs]), CAS tokens ([cas.rs]) and the
    shared SplitMix64 source ([rand.rs]). Every word is a [Z]; shifts and
    masks are those of the source. *)
From S2P Require Import Prelude.

(** ** Item locations: [segment id : 18 | tag : 6 | offset / 8 : 20] *)
Module Location.
Definition SEG_ID_BITS : Z := 18.
Definition TAG_BITS : Z := 6.
Definition OFFSET_BITS : Z := 20.
Definition TAG_SHIFT : Z := OFFSET_BITS.
Definition SEG_ID_SHIFT : Z := OFFSET_BITS + TAG_BITS.
Definition TAG_MASK : Z := Z.shiftl 1 TAG_BITS - 1.
Definition OFFSET_MASK : Z := Z.shiftl 1 OFFSET_BITS - 1.

Definition MAX_RAW : Z := 0xFFFFFFFFFFF.
Definition MAX_SEGMENT_ID : Z := Z.shiftl 1 SEG_ID_BITS - 1.
Definition MAX_SEGMENTS : Z := MAX_SEGMENT_ID - 1.
Definition MAX_SEGMENT_BYTES : Z := Z.shiftl 1 (OFFSET_BITS + 3).
Definition GHOST : Z := MAX_RAW.

Definition from_raw (raw : Z) : Z := Z.land raw MAX_RAW.

Definition is_ghost (loc : Z) : bool := loc =? GHOST.

Definition tag (loc : Z) : Z := u8 (Z.land (Z.shiftr loc TAG_SHIFT) TAG_MASK).

Definition tag_for_generation (generation : Z) : Z := u8 (Z.land generation TAG_MASK).

(** [pack_location]: the incarnation tag is a projection of the generation. *)
Definition pack_location (seg_id generation offset : Z) : Z :=
  Z.lor
    (Z.lor (u64 (Z.shiftl seg_id SEG_ID_SHIFT))
           (u64 (Z.shiftl (tag_for_generation generation) TAG_SHIFT)))
    (Z.land (Z.shiftr offset 3) OFFSET_MASK).

(** [unpack_location]: the address only, without the tag. *)
Definition unpack_location (loc : Z) : Z * Z :=
  (u32 (Z.shiftr loc SEG_ID_SHIFT), Z.shiftl (Z.land loc OFFSET_MASK) 3).

(** The arguments a heap can issue: 1-based ids below the reserved one,
    16-bit generations and 8-aligned offsets of a segment of at most
    [MAX_SEGMENT_BYTES]. *)
Definition issuable (seg_id generation offset : Z) : Prop :=
  1 <= seg_id <= MAX_SEGMENTS /\ fits 16 generation /\
  0 <= offset < MAX_SEGMENT_BYTES /\ offset mod 8 = 0.

(** The arithmetic reading of the packed word. *)
Lemma pack_location_sum seg_id generation offset :
  0 <= seg_id < 2 ^ 18 -> 0 <= offset < MAX_SEGMENT_BYTES ->
  pack_location seg_id generation offset =
    seg_id * 2 ^ 26 + (generation mod 64) * 2 ^ 20 + offset / 8.
Proof.
  unfold pack_location, tag_for_generation, SEG_ID_SHIFT, TAG_SHIFT,
    OFFSET_MASK, TAG_MASK, MAX_SEGMENT_BYTES, OFFSET_BITS, TAG_BITS.
  change (20 + 6) with 26. change (20 + 3) with 23. bits_arith. intros.
  rewrite (lor_add 26 (_ mod _) (_ mod _)), (lor_add 20); pow2; dm.
Qed.

Lemma tag_sum loc : tag loc = loc / 2 ^ 20 mod 64.
Proof.
  unfold tag, TAG_SHIFT, TAG_MASK, OFFSET_BITS, TAG_BITS.
  bits_arith. dm.
Qed.

Lemma unpack_location_sum loc :
  fits 44 loc ->
  unpack_location loc = (loc / 2 ^ 26, (loc mod 2 ^ 20) * 8).
Proof.
  unfold unpack_location, SEG_ID_SHIFT, OFFSET_MASK, OFFSET_BITS, TAG_BITS, fits.
  change (20 + 6) with 26. bits_arith. intros. f_equal; dm.
Qed.

Lemma issuable_bounds seg_id generation offset :
  issuable seg_id generation offset ->
  1 <= seg_id <= 262142 /\ 0 <= generation < 65536 /\
  0 <= offset < 8388608 /\ offset mod 8 = 0.
Proof. done. Qed.

Lemma pack_issuable seg_id generation offset :
  issuable seg_id generation offset ->
  pack_location seg_id generation offset =
    seg_id * 2 ^ 26 + (generation mod 64) * 2 ^ 20 + offset / 8.
Proof.
  intros (? & ? & ? & ?)%issuable_bounds.
  apply pack_location_sum; [pow2; lia|]. by change MAX_SEGMENT_BYTES with 8388608.
Qed.

Lemma pack_location_fits seg_id generation offset :
  issuable seg_id generation offset -> fits 44 (pack_location seg_id generation offset).
Proof.
  intros H. rewrite (pack_issuable _ _ _ H).
  apply issuable_bounds in H. unfold fits. pow2. dm.
Qed.

(** Two issuable addresses share a location only if they are one address
    and their generations agree modulo 64. *)
Theorem pack_location_inj s g o s' g' o' :
  issuable s g o -> issuable s' g' o' ->
  pack_location s g o = pack_location s' g' o' <->
  s = s' /\ o = o' /\ g mod 64 = g' mod 64.
Proof.
  intros H H'. rewrite (pack_issuable _ _ _ H), (pack_issuable _ _ _ H').
  apply issuable_bounds in H, H'. pow2. split; [|intros (-> & -> & ->); done].
  intros. repeat split; dm.
Qed.

(** Every address a heap can issue is recovered from its location, the tag
    is the generation's, and the word is never the ghost sentinel. *)
Theorem pack_unpack_location seg_id generation offset :
  issuable seg_id generation offset ->
  unpack_location (pack_location seg_id generation offset) = (seg_id, offset) /\
  tag (pack_location seg_id generation offset) = tag_for_generation generation /\
  is_ghost (pack_location seg_id generation offset) = false.
Proof.
  intros H. rewrite unpack_location_sum by by apply pack_location_fits.
  rewrite tag_sum, (pack_issuable _ _ _ H). apply issuable_bounds in H.
  unfold is_ghost, GHOST, MAX_RAW, tag_for_generation, TAG_MASK, TAG_BITS.
  bits_arith. repeat split; [f_equal; dm | dm | apply Z.eqb_neq; dm].
Qed.

Lemma pack_unpack_location_witness :
  unpack_location (pack_location 262142 65535 8388600) = (262142, 8388600) /\
  tag (pack_location 262142 65535 8388600) = tag_for_generation 65535 /\
  is_ghost (pack_location 262142 65535 8388600) = false.
Proof. apply pack_unpack_location. vm_compute. intuition congruence. Defined.
End Location.

(** ** Hashtable slots: [tag : 12 | freq : 8 | location : 44] *)
Module Hashbucket.
Definition NUM_ITEM_SLOTS : nat := 8.

Definition new : list Z := repeat 0 NUM_ITEM_SLOTS.

Definition pack (tag freq location : Z) : Z :=
  let tag_64 := u64 (Z.shiftl (Z.land tag 0xFFF) 52) in
  let freq_64 := u64 (Z.shiftl (Z.land freq 0xFF) 44) in
  let loc_64 := Z.land location Location.MAX_RAW in
  Z.lor (Z.lor tag_64 freq_64) loc_64.

Definition tag (packed : Z) : Z := u16 (Z.shiftr packed 52).

Definition freq (packed : Z) : Z := u8 (Z.land (Z.shiftr packed 44) 0xFF).

Definition location (packed : Z) : Z := Location.from_raw packed.

Definition is_ghost (packed : Z) : bool :=
  negb (packed =? 0) && Location.is_ghost (location packed).

Definition pack_ghost (tag freq : Z) : Z := pack tag freq Location.GHOST.

Definition to_ghost (packed : Z) : Z := pack_ghost (tag packed) (freq packed).

Definition with_freq (packed freq : Z) : Z :=
  let freq_mask := u64 (Z.shiftl 0xFF 44) in
  Z.lor (Z.land packed (wnot 64 freq_mask)) (u64 (Z.shiftl freq 44)).

(** [try_update_freq]: every access counts up to 16, then one access in
    [freq] on the draw, saturating at 127. *)
Definition try_update_freq (packed freq draw : Z) : option Z :=
  if 127 <=? freq then None
  else
    let should_increment :=
      if freq <=? 16 then true else draw mod freq =? 0 in
    if should_increment then Some (with_freq packed (freq + 1)) else None.

(** The fields of a 64-bit slot as quotients and remainders. *)
Lemma pack_sum t f l :
  pack t f l = (t mod 2 ^ 12) * 2 ^ 52 + (f mod 2 ^ 8) * 2 ^ 44 + l mod 2 ^ 44.
Proof.
  unfold pack, Location.MAX_RAW.
  change 0xFFF with (2 ^ 12 - 1). change 0xFF with (2 ^ 8 - 1).
  change 0xFFFFFFFFFFF with (2 ^ 44 - 1). bits_arith.
  rewrite (lor_add 52 (_ mod _) (_ mod _)), (lor_add 44); pow2; dm.
Qed.

Lemma slot_tag_sum p : fits 64 p -> tag p = p / 2 ^ 52.
Proof. unfold tag, fits. bits_arith. intros. dm. Qed.

Lemma freq_sum p : freq p = p / 2 ^ 44 mod 2 ^ 8.
Proof. unfold freq. change 0xFF with (2 ^ 8 - 1). bits_arith. dm. Qed.

Lemma location_sum p : location p = p mod 2 ^ 44.
Proof.
  unfold location, Location.from_raw, Location.MAX_RAW.
  change 0xFFFFFFFFFFF with (2 ^ 44 - 1). by rewrite land_mask by lia.
Qed.

Lemma pack_fits t f l : fits 64 (pack t f l).
Proof. rewrite pack_sum. unfold fits. pow2. dm. Qed.

(** The three fields are read back as packed. *)
Theorem pack_fields t f l :
  fits 12 t -> fits 8 f -> fits 44 l ->
  tag (pack t f l) = t /\ freq (pack t f l) = f /\ location (pack t f l) = l.
Proof.
  unfold fits. rewrite freq_sum, location_sum, slot_tag_sum by apply pack_fits.
  rewrite pack_sum. pow2. intros. repeat split; dm.
Qed.

(** Conversely a 64-bit slot is the packing of its fields. *)
Lemma pack_of_fields p : fits 64 p -> pack (tag p) (freq p) (location p) = p.
Proof.
  intros H. rewrite pack_sum, freq_sum, location_sum, slot_tag_sum by done.
  unfold fits in H. pow2. dm.
Qed.

Lemma tag_fits p : fits 64 p -> fits 12 (tag p).
Proof. intros H. rewrite slot_tag_sum by done. unfold fits in *. pow2. dm. Qed.

Lemma freq_fits p : fits 8 (freq p).
Proof. rewrite freq_sum. unfold fits. pow2. dm. Qed.

Lemma location_fits p : fits 44 (location p).
Proof. rewrite location_sum. unfold fits. pow2. dm. Qed.

Lemma with_freq_pack p f :
  fits 64 p -> fits 8 f -> with_freq p f = pack (tag p) f (location p).
Proof.
  intros Hp Hf. rewrite pack_sum, location_sum, slot_tag_sum by done.
  unfold with_freq.
  change (wnot 64 (u64 (Z.shiftl 0xFF 44)))
    with (Z.lor (Z.shiftl (Z.ones (64 - 52)) 52) (2 ^ 44 - 1)).
  rewrite Z.land_lor_distr_r, land_high, land_mask by (done || lia).
  rewrite <- Z.lor_assoc. unfold fits in *. bits_arith.
  rewrite (lor_add_r 44 (_ mod _) (_ mod _)), (lor_add 52); pow2; dm.
Qed.

(** [with_freq] replaces the frequency and nothing else. *)
Lemma with_freq_fields p f :
  fits 64 p -> fits 8 f ->
  tag (with_freq p f) = tag p /\ freq (with_freq p f) = f /\
  location (with_freq p f) = location p.
Proof.
  intros. rewrite with_freq_pack by done.
  apply pack_fields; auto using tag_fits, location_fits.
Qed.

(** ASFC: an update adds one to a frequency below 127, keeps the tag and the
    location, and always happens up to 16. *)
Theorem try_update_freq_spec p draw :
  fits 64 p ->
  match try_update_freq p (freq p) draw with
  | Some p' => tag p' = tag p /\ location p' = location p /\
               freq p' = freq p + 1 /\ freq p' <= 127 /\ fits 64 p'
  | None => 127 <= freq p \/ (16 < freq p /\ draw mod freq p <> 0)
  end.
Proof.
  intros Hp. pose proof (freq_fits p) as Hf. unfold fits in Hf.
  unfold try_update_freq. destruct (Z.leb_spec 127 (freq p)); [lia|].
  assert (fits 8 (freq p + 1)) by (unfold fits in *; pow2; lia).
  destruct (with_freq_fields p (freq p + 1)) as (Ht & Hq & Hl); [done..|].
  destruct (Z.leb_spec (freq p) 16); [|destruct (Z.eqb_spec (draw mod freq p) 0)].
  all: rewrite ?Ht, ?Hq, ?Hl; repeat split; try lia.
  all: rewrite with_freq_pack by done; apply pack_fits.
Qed.

(** A ghost keeps the tag and the frequency of the entry it replaces. *)
Theorem to_ghost_spec p :
  fits 64 p ->
  is_ghost (to_ghost p) = true /\ tag (to_ghost p) = tag p /\
  freq (to_ghost p) = freq p.
Proof.
  intros Hp. unfold to_ghost, pack_ghost.
  destruct (pack_fields (tag p) (freq p) Location.GHOST) as (Ht & Hf & Hl);
    [by apply tag_fits | apply freq_fits | done |].
  unfold is_ghost. rewrite Hl, Ht, Hf. repeat split.
  destruct (Z.eqb_spec (pack (tag p) (freq p) Location.GHOST) 0) as [E|]; [|done].
  rewrite E in Hl. discriminate.
Qed.
End Hashbucket.

(** ** CAS tokens: [generation : 16 | location : 44] *)
Module CasToken.
Definition LOCATION_MASK : Z := 0xFFFFFFFFFFF.
Definition GENERATION_SHIFT : Z := 44.

Definition new (location generation : Z) : Z :=
  Z.lor location (u64 (Z.shiftl generation GENERATION_SHIFT)).

Definition location (raw : Z) : Z := Location.from_raw (Z.land raw LOCATION_MASK).

Definition generation (raw : Z) : Z := u16 (Z.shiftr raw GENERATION_SHIFT).

Definition mix_version (raw version : Z) : Z :=
  Z.lxor raw (u64 (version * 0x9E3779B97F4A7C15)).

(** A token names its location and its generation. *)
Theorem new_fields l g :
  fits 44 l -> fits 16 g -> location (new l g) = l /\ generation (new l g) = g.
Proof.
  unfold fits, location, generation, new, GENERATION_SHIFT, Location.from_raw,
    Location.MAX_RAW, LOCATION_MASK.
  change 0xFFFFFFFFFFF with (2 ^ 44 - 1). bits_arith. intros.
  rewrite (lor_add_r 44) by (pow2; dm). pow2. split; dm.
Qed.

(** In-place numeric updates change the token: for one entry, distinct
    seqlock versions give distinct tokens. *)
Theorem mix_version_inj raw v v' :
  fits 64 v -> fits 64 v' -> mix_version raw v = mix_version raw v' -> v = v'.
Proof.
  unfold mix_version. intros Hv Hv' E.
  apply (wrap_mul_inj 64 0x9E3779B97F4A7C15 0xF1DE83E19937733D); [lia|done..|].
  apply (f_equal (Z.lxor raw)) in E.
  by rewrite <- !Z.lxor_assoc, Z.lxor_nilpotent, !Z.lxor_0_l in E.
Qed.
End CasToken.

(** ** The shared SplitMix64 source *)
Module Random.
Definition GAMMA : Z := 0x9E3779B97F4A7C15.
Definition DEFAULT_SEED : Z := 0x2545F4914F6CDD1D.

(** The finalizer [next_u64] applies to the value its [fetch_add] returned. *)
Definition finalize (z : Z) : Z :=
  let z := u64 (Z.lxor z (Z.shiftr z 30) * 0xBF58476D1CE4E5B9) in
  let z := u64 (Z.lxor z (Z.shiftr z 27) * 0x94D049BB133111EB) in
  Z.lxor z (Z.shiftr z 31).

Definition next_u64 (state : Z) : Z * Z := (finalize state, u64 (state + GAMMA)).

Definition next_u32 (state : Z) : Z * Z :=
  let (z, state) := next_u64 state in (u32 z, state).

(** The draws of a generator used [n] times. *)
Fixpoint draws (n : nat) (state : Z) : list Z :=
  match n with
  | O => []
  | S n => let (z, state) := next_u64 state in z :: draws n state
  end.

Lemma xorshift_fits k z : 0 <= k -> fits 64 z -> fits 64 (Z.lxor z (Z.shiftr z k)).
Proof.
  intros Hk [Hz Hz']. rewrite <- (Z.mod_small z (2 ^ 64)) by lia.
  assert (Z.lxor (z mod 2 ^ 64) (Z.shiftr (z mod 2 ^ 64) k) mod 2 ^ 64 =
          Z.lxor (z mod 2 ^ 64) (Z.shiftr (z mod 2 ^ 64) k)) as <-.
  { apply Z.bits_inj'. intros i Hi. destruct (Z.lt_ge_cases i 64).
    - by rewrite Z.mod_pow2_bits_low by lia.
    - rewrite Z.mod_pow2_bits_high, Z.lxor_spec, Z.shiftr_spec by lia.
      by rewrite !Z.mod_pow2_bits_high by lia. }
  by apply wrap_fits.
Qed.

Lemma finalize_inj x y : fits 64 x -> fits 64 y -> finalize x = finalize y -> x = y.
Proof.
  unfold finalize. intros Hx Hy E.
  apply xorshift_inj in E; [|lia|apply wrap_fits; lia..].
  apply (wrap_mul_inj 64 _ 0x319642B2D24D8EC3) in E;
    [|lia|done|apply xorshift_fits; [lia|by apply wrap_fits]..].
  apply xorshift_inj in E; [|lia|apply wrap_fits; lia..].
  apply (wrap_mul_inj 64 _ 0x96DE1B173F119089) in E;
    [|lia|done|by apply xorshift_fits..].
  apply xorshift_inj in E; unfold fits in *; lia.
Qed.

Lemma draws_lookup n i s :
  fits 64 s -> (i < n)%nat ->
  draws n s !! i = Some (finalize (u64 (s + Z.of_nat i * GAMMA))).
Proof.
  revert i s. induction n as [|n IH]; intros [|i] s Hs Hi; [lia..| |].
  - change (draws (S n) s !! 0%nat) with (Some (finalize s)).
    replace (s + Z.of_nat 0 * GAMMA) with s by lia. by rewrite wrap_id.
  - change (draws (S n) s !! S i) with (draws n (u64 (s + GAMMA)) !! i).
    rewrite IH; [|by apply wrap_fits|lia]. rewrite wrap_add_l.
    do 3 f_equal. lia.
Qed.

(** The generator has the full period: among any [2^64] consecutive draws no
    value occurs twice. *)
Theorem draws_distinct n s :
  fits 64 s -> Z.of_nat n <= 2 ^ 64 -> NoDup (draws n s).
Proof.
  intros Hs Hn. apply NoDup_alt. intros i j z Hi Hj.
  assert (length (draws n s) = n) as Hlen.
  { clear. revert s. induction n; intros; simpl; auto. }
  pose proof (lookup_lt_Some _ _ _ Hi). pose proof (lookup_lt_Some _ _ _ Hj).
  rewrite draws_lookup in Hi, Hj by (done || lia). rewrite <- Hi in Hj.
  injection Hj as Hj.
  apply finalize_inj in Hj; [|by apply wrap_fits..].
  cut (Z.of_nat i = Z.of_nat j); [lia|].
  apply (wrap_mul_inj 64 GAMMA 0xF1DE83E19937733D);
    [lia|done|unfold fits; lia..|].
  apply (f_equal (fun x => wrap 64 (x - s))) in Hj. unfold wrap in *.
  rewrite !Zminus_mod_idemp_l in Hj.
  by rewrite !Z.add_simpl_l in Hj.
Qed.
End Random.

#[global] Arguments Hashbucket.tag : simpl never.
#[global] Arguments Hashbucket.freq : simpl never.
#[global] Arguments Hashbucket.location : simpl never.
#[global] Arguments Hashbucket.is_ghost : simpl never.
#[global] Arguments Hashbucket.pack : simpl never.
#[global] Arguments Hashbucket.with_freq : simpl never.
