(* ===== verification/Atomics.v ===== *)
(** * Programs over shared memory, with interference

    The lock-free code of the cache is a sequence of atomic accesses (loads,
    stores, [fetch_add], [compare_exchange]) to a shared memory. A program is
    modelled as one thread running against a schedule of what the other
    threads do: before each of its atomic accesses the next element of the
    schedule, a function on the memory, is applied. The empty schedule is the
    sequential run. Memory is sequentially consistent.

    The unbounded [loop] of a compare-and-swap retry is [retry]: its fuel is
    one lap more than the schedule is long, which is enough because a failed
    lap consumes at least one element of it ([retry_total]). [None] is a run
    that exhausts its fuel.

    [triple G P m Q] is total correctness under the rely [G]: from a memory
    satisfying [P], and against any schedule of functions that stay within
    [G], the program returns, and [Q] holds of its result and the memory. *)
From S2P Require Import Prelude.

Record St (Mem : Type) := mkSt { mem : Mem; sched : list (Mem -> Mem) }.
Arguments mkSt {Mem}.
Arguments mem {Mem}.
Arguments sched {Mem}.

Definition prog (Mem A : Type) : Type := St Mem -> option (A * St Mem).

#[global] Instance prog_ret Mem : MRet (prog Mem) := fun A a s => Some (a, s).
#[global] Instance prog_bind Mem : MBind (prog Mem) := fun A B k m s =>
  match m s with
  | Some (a, s') => k a s'
  | None => None
  end.

Section Programs.
Context {Mem : Type}.
Implicit Types (s : St Mem) (G : Mem -> Mem -> Prop).

(** What the other threads do before the next access. *)
Definition interfere s : St Mem :=
  match sched s with
  | [] => s
  | f :: fs => mkSt (f (mem s)) fs
  end.

(** One atomic access. *)
Definition atomic {A} (f : Mem -> A * Mem) : prog Mem A := fun s =>
  let s := interfere s in
  let (a, x) := f (mem s) in Some (a, mkSt x (sched s)).

(** [loop { body }]: [None] goes round again, [Some a] leaves with [a]. *)
Fixpoint laps {A} (fuel : nat) (body : prog Mem (option A)) : prog Mem A :=
  match fuel with
  | O => fun _ => None
  | S n => r ← body;
      match r with
      | Some a => mret a
      | None => laps n body
      end
  end.

Definition retry {A} (body : prog Mem (option A)) : prog Mem A := fun s =>
  laps (S (length (sched s))) body s.

(** [for i in l { if f(i) { return true } } false] *)
Fixpoint any_of {I} (l : list I) (f : I -> prog Mem bool) : prog Mem bool :=
  match l with
  | [] => mret false
  | i :: l => b ← f i; if b : bool then mret true else any_of l f
  end.

(** [for i in l { if let Some(a) = f(i) { return Some(a) } } None] *)
Fixpoint first_of {I A} (l : list I) (f : I -> prog Mem (option A))
    : prog Mem (option A) :=
  match l with
  | [] => mret None
  | i :: l => r ← f i;
      match r with
      | Some a => mret (Some a)
      | None => first_of l f
      end
  end.

(** [for i in l { f(i) }] *)
Fixpoint for_each {I} (l : list I) (f : I -> prog Mem unit) : prog Mem unit :=
  match l with
  | [] => mret tt
  | i :: l => _ ← f i; for_each l f
  end.

(** ** Total correctness under a rely *)

Definition within G s : Prop := Forall (fun f => forall x, G x (f x)) (sched s).

Definition stable G (P : Mem -> Prop) : Prop := forall x y, G x y -> P x -> P y.

Definition triple G (P : Mem -> Prop) {A} (m : prog Mem A)
    (Q : A -> Mem -> Prop) : Prop :=
  forall s, within G s -> P (mem s) ->
    exists a s', m s = Some (a, s') /\ (exists k, sched s' = drop k (sched s)) /\
      Q a (mem s').

(** A lap that asks for another one has used up part of the schedule. *)
Definition paid {A} (body : prog Mem (option A)) : Prop :=
  forall s s', body s = Some (None, s') ->
    (length (sched s') < length (sched s))%nat.

Lemma within_drop G s s' k : sched s' = drop k (sched s) -> within G s -> within G s'.
Proof. unfold within. intros ->. apply Forall_drop. Qed.

Lemma triple_ret G (P : Mem -> Prop) {A} (a : A) (Q : A -> Mem -> Prop) :
  (forall x, P x -> Q a x) -> triple G P (mret a) Q.
Proof.
  intros H s _ HP. exists a, s. split; [done|]. split; [by exists 0%nat|by apply H].
Qed.

Lemma triple_bind G P {A B} (m : prog Mem A) (k : A -> prog Mem B)
    (R : A -> Mem -> Prop) (Q : B -> Mem -> Prop) :
  triple G P m R -> (forall a, triple G (R a) (k a) Q) ->
  triple G P (a ← m; k a) Q.
Proof.
  intros Hm Hk s Hs HP.
  destruct (Hm s Hs HP) as (a & s1 & E1 & [n1 D1] & HR).
  destruct (Hk a s1 (within_drop _ _ _ _ D1 Hs) HR) as (b & s2 & E2 & [n2 D2] & HQ).
  exists b, s2. split; [unfold mbind, prog_bind; by rewrite E1|]. split; [|done].
  exists (n1 + n2)%nat. by rewrite D2, D1, drop_drop.
Qed.

Lemma triple_weaken G (P P' : Mem -> Prop) {A} (m : prog Mem A)
    (Q Q' : A -> Mem -> Prop) :
  triple G P' m Q' -> (forall x, P x -> P' x) -> (forall a x, Q' a x -> Q a x) ->
  triple G P m Q.
Proof.
  intros H HP HQ s Hs Hx. destruct (H s Hs (HP _ Hx)) as (a & s' & ? & ? & ?).
  exists a, s'. auto.
Qed.

Lemma triple_pure G (P : Mem -> Prop) (A : Prop) {B} (m : prog Mem B) Q :
  (A -> triple G P m Q) -> triple G (fun x => P x /\ A) m Q.
Proof. intros H s Hs [HP HA]. by apply H. Qed.

Lemma triple_conj_pure G (P : Mem -> Prop) {A} (m : prog Mem A) Q (R : Prop) :
  R -> triple G P m Q -> triple G P m (fun a x => Q a x /\ R).
Proof. intros. eapply triple_weaken; eauto. Qed.

Lemma triple_atomic G (P : Mem -> Prop) {A} (f : Mem -> A * Mem)
    (Q : A -> Mem -> Prop) :
  stable G P -> (forall x, P x -> Q (f x).1 (f x).2) -> triple G P (atomic f) Q.
Proof.
  intros Hst H s Hs HP. unfold atomic, interfere. unfold within in Hs.
  destruct (sched s) as [|g gs] eqn:E.
  - specialize (H _ HP). destruct (f (mem s)) as [a x]. do 2 eexists.
    split; [done|]. simpl. rewrite E. split; [by exists 0%nat|done].
  - apply Forall_cons_1 in Hs as [Hg _].
    specialize (H (g (mem s)) (Hst (mem s) (g (mem s)) (Hg (mem s)) HP)).
    simpl. destruct (f (g (mem s))) as [a x]. do 2 eexists.
    split; [done|]. simpl. split; [by exists 1%nat|done].
Qed.

Lemma triple_laps G P {A} (body : prog Mem (option A)) (Q : A -> Mem -> Prop) n :
  paid body ->
  triple G P body (fun r x => match r with Some a => Q a x | None => P x end) ->
  forall s, within G s -> P (mem s) -> (length (sched s) < n)%nat ->
    exists a s', laps n body s = Some (a, s') /\
      (exists k, sched s' = drop k (sched s)) /\ Q a (mem s').
Proof.
  intros Hpay Hb. induction n as [|n IH]; intros s Hs HP Hn; [lia|].
  destruct (Hb s Hs HP) as (r & s1 & E & [k D] & HQ).
  simpl. unfold mbind, prog_bind. rewrite E. destruct r as [a|].
  - exists a, s1. split; [done|]. split; [by exists k|done].
  - pose proof (Hpay _ _ E).
    destruct (IH s1) as (a & s2 & E2 & [k2 D2] & HQ2);
      [by eapply within_drop|done|lia|].
    exists a, s2. split; [done|]. split; [|done].
    exists (k + k2)%nat. by rewrite D2, D, drop_drop.
Qed.

(** A retry loop whose failed laps are paid for by the schedule returns. *)
Lemma triple_retry G P {A} (body : prog Mem (option A)) (Q : A -> Mem -> Prop) :
  paid body ->
  triple G P body (fun r x => match r with Some a => Q a x | None => P x end) ->
  triple G P (retry body) Q.
Proof. intros Hpay Hb s Hs HP. eapply triple_laps; eauto. Qed.

Lemma triple_any_of G {I} (l : list I) (f : I -> prog Mem bool)
    (Inv : list I -> Mem -> Prop) (Q : bool -> Mem -> Prop) :
  (forall d i r, l = d ++ i :: r ->
     triple G (Inv d) (f i)
       (fun b x => if b then Q true x else Inv (d ++ [i]) x)) ->
  (forall x, Inv l x -> Q false x) ->
  triple G (Inv []) (any_of l f) Q.
Proof.
  intros Hf Hend.
  assert (forall d r, l = d ++ r -> triple G (Inv d) (any_of r f) Q) as H.
  { intros d r. revert d. induction r as [|i r IH]; intros d Hl; simpl.
    - apply triple_ret. rewrite app_nil_r in Hl. by subst.
    - eapply triple_bind; [by eapply Hf|]. intros [|]; simpl.
      + by apply triple_ret.
      + apply IH. by rewrite <- app_assoc. }
  by apply H.
Qed.

Lemma triple_first_of G {I A} (l : list I) (f : I -> prog Mem (option A))
    (Inv : list I -> Mem -> Prop) (Q : option A -> Mem -> Prop) :
  (forall d i r, l = d ++ i :: r ->
     triple G (Inv d) (f i)
       (fun o x => match o with Some a => Q (Some a) x | None => Inv (d ++ [i]) x end)) ->
  (forall x, Inv l x -> Q None x) ->
  triple G (Inv []) (first_of l f) Q.
Proof.
  intros Hf Hend.
  assert (forall d r, l = d ++ r -> triple G (Inv d) (first_of r f) Q) as H.
  { intros d r. revert d. induction r as [|i r IH]; intros d Hl; simpl.
    - apply triple_ret. rewrite app_nil_r in Hl. by subst.
    - eapply triple_bind; [by eapply Hf|]. intros [|]; simpl.
      + by apply triple_ret.
      + apply IH. by rewrite <- app_assoc. }
  by apply H.
Qed.

Lemma triple_for_each G {I} (l : list I) (f : I -> prog Mem unit) P :
  (forall i, i ∈ l -> triple G P (f i) (fun _ => P)) ->
  triple G P (for_each l f) (fun _ => P).
Proof.
  induction l as [|i l IH]; intros H; simpl; [by apply triple_ret|].
  eapply triple_bind; [apply H; by left|]. intros [].
  apply IH. intros j Hj. apply H. by right.
Qed.

(** A lap beginning with an atomic access is paid for as soon as it cannot ask
    for another one in a run without interference. *)
Lemma paid_atomic {A B} (f : Mem -> B * Mem) (k : B -> prog Mem (option A)) :
  (forall b s, triple (fun _ _ => True) (fun _ => True) (k b) (fun _ _ => True)) ->
  (forall x x', (a ← atomic f; k a) (mkSt x []) <> Some (None, mkSt x' [])) ->
  paid (a ← atomic f; k a).
Proof.
  intros Ht Hno s s' E. destruct s as [x [|g gs]].
  - exfalso. destruct s' as [x' fs].
    assert (fs = []) as ->; [|by eapply Hno].
    revert E. unfold mbind, prog_bind, atomic, interfere. simpl.
    destruct (f x) as [b y]. intros E.
    destruct (Ht b (mkSt y []) (mkSt y [])) as (a & s2 & E2 & [n D] & _);
      [by constructor|done|].
    rewrite E2 in E. simplify_eq. simpl in D. by destruct n.
  - revert E. unfold mbind, prog_bind, atomic, interfere. simpl.
    destruct (f (g x)) as [b y]. intros E.
    destruct (Ht b (mkSt y gs) (mkSt y gs)) as (a & s2 & E2 & [n D] & _);
      [by apply Forall_true|done|].
    rewrite E2 in E. simplify_eq. simpl in *. rewrite D, length_drop. lia.
Qed.

(** The sequential run. *)
Definition run {A} (m : prog Mem A) (x : Mem) : option (A * Mem) :=
  match m (mkSt x []) with
  | Some (a, s) => Some (a, mem s)
  | None => None
  end.

Lemma triple_run G (P : Mem -> Prop) {A} (m : prog Mem A) Q x :
  triple G P m Q -> P x -> exists a y, run m x = Some (a, y) /\ Q a y.
Proof.
  intros H HP. destruct (H (mkSt x [])) as (a & s' & E & _ & HQ); [constructor|done|].
  exists a, (mem s'). unfold run. by rewrite E.
Qed.
End Programs.

(** Under [eq] as rely every assertion is stable. *)
Lemma stable_eq {Mem} (P : Mem -> Prop) : stable eq P.
Proof. by intros x y ->. Qed.

#[export] Hint Resolve stable_eq : core.
