(* ===== verification/Table.v ===== *)
(** * The N-choice hashtable

    [MultiChoiceHashtable] of [hashtable/table.rs] and the interfaces of
    [hashtable/traits.rs], as programs over the shared memory of [Atomics]:
    every load, [compare_exchange] and draw of the source is one access, and
    the same-slot retry loops are [cas_loop]. The key hash (the [ahash]
    crate) is a parameter, and so is what the verifier compares keys against:
    the class [KeyVerifier] is the trait the hashtable is generic in. *)
From S2P Require Import Prelude Packing Atomics.

(** ** The interfaces *)

Inductive Verified (Pin : Type) :=
| Match (pin : Pin)
| DifferentKey
| Unverified (location : Z).
Arguments Match {Pin}.
Arguments DifferentKey {Pin}.
Arguments Unverified {Pin}.

(** The verifier reads a part [W] of the memory the hashtable does not own. *)
Class KeyVerifier (W Pin : Type) := {
  verify : W -> bytes -> Z -> bool -> Verified Pin
}.

(** What the hashtable's clients promise about it: whether a tombstone may
    match does not change the answer (the verifier compares key bytes). *)
Class LawfulVerifier (W Pin : Type) {KV : KeyVerifier W Pin} : Prop := {
  verify_allow_deleted w key l : verify w key l true = verify w key l false
}.

Inductive Lookup (T : Type) :=
| Found (t : T)
| Absent
| Unknown (location : Z).
Arguments Found {T}.
Arguments Absent {T}.
Arguments Unknown {T}.

Record SlotRef := { bucket_index : Z; slot_index : Z; slot_tag : Z }.

Record Hit (Pin : Type) := { hit_location : Z; hit_slot : SlotRef; hit_pin : Pin }.
Arguments Build_Hit {Pin}.
Arguments hit_location {Pin}.
Arguments hit_slot {Pin}.
Arguments hit_pin {Pin}.

Inductive Insert :=
| Created
| Replaced (old : Z)
| InsertUnknown (location : Z).

Inductive RelinkFreq := Preserve | Decrement.

(** The immutable part of [MultiChoiceHashtable]. *)
Record Table := { num_buckets : Z; mask : Z; num_choices : nat }.

(** The shared memory: the buckets, the frequency generator and the
    verifier's world. *)
Record TMem (W : Type) := mkTMem {
  buckets : list (list Z);
  freq_rng : Z;
  world : W
}.
Arguments mkTMem {W}.
Arguments buckets {W}.
Arguments freq_rng {W}.
Arguments world {W}.

Definition MAX_CHOICES : Z := 8.
Definition NUM_STRIPES : Z := 1024.

(** [with_choices]: [None] where an [assert!] fails. *)
Definition with_choices {W} (power choices : Z) (w : W) : option (Table * TMem W) :=
  if negb (7 <=? power) then None
  else if negb ((1 <=? choices) && (choices <=? MAX_CHOICES)) then None
  else
    let bucket_power := power - 3 in
    if negb (bucket_power <? 32) then None
    else
      let n := Z.shiftl 1 bucket_power in
      Some ({| num_buckets := n; mask := n - 1; num_choices := Z.to_nat choices |},
            mkTMem (replicate (Z.to_nat n) Hashbucket.new) Random.DEFAULT_SEED w).

(** ** Hashing *)

Definition rotate_left (x r : Z) : Z := Z.lor (u64 (Z.shiftl x r)) (Z.shiftr x (64 - r)).

Definition bucket_indices (t : Table) (hash : Z) : list nat :=
  map (fun h => Z.to_nat (Z.land h (mask t)))
    [ hash;
      Z.lxor hash (Z.shiftr hash 32);
      Z.lxor (Z.shiftr hash 16) (u64 (Z.shiftl hash 16));
      Z.lxor (Z.lxor (Z.shiftr hash 48) (Z.shiftr hash 8)) hash;
      Z.lxor (rotate_left hash 17) hash;
      Z.lxor (rotate_left hash 31) (Z.shiftr hash 16);
      Z.shiftr (u64 (hash * 0x9E3779B97F4A7C15)) 32;
      Z.shiftr (u64 (hash * 0x517CC1B727220A95)) 32 ].

Definition tag_from_hash (hash : Z) : Z := u16 (Z.land (Z.shiftr hash 32) 0xFFF).

Definition stripe (hash : Z) : Z := Z.land hash (NUM_STRIPES - 1).

(** ** Tag scanning *)

Definition TAG_MASK : Z := 0xFFF0000000000000.
Definition GHOST_LOCATION : Z := 0x00000FFFFFFFFFFF.

(** A live slot carrying the tag: the scalar scan's condition. *)
Definition tag_hit (tag_shifted packed : Z) : bool :=
  negb (packed =? 0) && negb (Z.land packed GHOST_LOCATION =? GHOST_LOCATION)
  && (Z.land packed TAG_MASK =? tag_shifted).

(** Vector registers as lists of 64-bit lanes. *)
Definition vand (a b : list Z) : list Z := zip_with Z.land a b.
Definition vxor (a b : list Z) : list Z := zip_with Z.lxor a b.
Definition vnot (a : list Z) : list Z := map (wnot 64) a.
Definition vcmpeq (a b : list Z) : list Z :=
  zip_with (fun x y => if x =? y then 2 ^ 64 - 1 else 0) a b.
Definition vset1 (lanes : nat) (x : Z) : list Z := replicate lanes x.

(** [_mm256_movemask_pd]: the sign bit of every lane. *)
Fixpoint movemask (v : list Z) : Z :=
  match v with
  | [] => 0
  | x :: v => Z.lor (Z.shiftr x 63) (Z.shiftl (movemask v) 1)
  end.

(** One 256-bit half of the AVX2 scan. *)
Definition avx2_valid (tag_shifted : Z) (slots : list Z) : list Z :=
  let tag_mask := vset1 4 TAG_MASK in
  let tag_vec := vset1 4 tag_shifted in
  let ghost_vec := vset1 4 GHOST_LOCATION in
  let zero := vset1 4 0 in
  let all_ones := vset1 4 (2 ^ 64 - 1) in
  let tags := vand slots tag_mask in
  let tag_match := vcmpeq tags tag_vec in
  let nonzero := vxor (vcmpeq slots zero) all_ones in
  let locs := vand slots (vset1 4 GHOST_LOCATION) in
  let nonghost := vxor (vcmpeq locs ghost_vec) all_ones in
  vand tag_match (vand nonzero nonghost).

Definition find_tag_matches_avx2 (bucket : list Z) (tag_shifted : Z) : Z :=
  let slots_0_3 := take 4 bucket in
  let slots_4_7 := take 4 (drop 4 bucket) in
  let mask_0_3 := u8 (movemask (avx2_valid tag_shifted slots_0_3)) in
  let mask_4_7 := u8 (movemask (avx2_valid tag_shifted slots_4_7)) in
  Z.lor mask_0_3 (u8 (Z.shiftl mask_4_7 4)).

(** One 128-bit pair of the NEON scan. *)
Definition neon_valid (tag_shifted : Z) (slots : list Z) : list Z :=
  let tags := vand slots (vset1 2 TAG_MASK) in
  let tag_match := vcmpeq tags (vset1 2 tag_shifted) in
  let nonzero := vnot (vcmpeq slots (vset1 2 0)) in
  let locs := vand slots (vset1 2 GHOST_LOCATION) in
  let nonghost := vnot (vcmpeq locs (vset1 2 GHOST_LOCATION)) in
  vand tag_match (vand nonzero nonghost).

Definition neon_bit (v : list Z) (lane : nat) (k : Z) : Z :=
  u8 (Z.shiftl (Z.shiftr (nth lane v 0) 63) k).

Definition find_tag_matches_neon (bucket : list Z) (tag_shifted : Z) : Z :=
  let v0_1 := neon_valid tag_shifted (take 2 bucket) in
  let v2_3 := neon_valid tag_shifted (take 2 (drop 2 bucket)) in
  let v4_5 := neon_valid tag_shifted (take 2 (drop 4 bucket)) in
  let v6_7 := neon_valid tag_shifted (take 2 (drop 6 bucket)) in
  let r0 := neon_bit v0_1 0 0 in
  let r1 := neon_bit v0_1 1 1 in
  let r2 := neon_bit v2_3 0 2 in
  let r3 := neon_bit v2_3 1 3 in
  let r4 := neon_bit v4_5 0 4 in
  let r5 := neon_bit v4_5 1 5 in
  let r6 := neon_bit v6_7 0 6 in
  let r7 := neon_bit v6_7 1 7 in
  Z.lor (Z.lor (Z.lor (Z.lor (Z.lor (Z.lor (Z.lor r0 r1) r2) r3) r4) r5) r6) r7.

(** [mask.trailing_zeros()] and the walk
    [while mask != 0 { ..; mask &= mask - 1 }] over an 8-bit mask. *)
Fixpoint trailing_zeros (fuel : nat) (m : Z) : nat :=
  match fuel with
  | O => O
  | S n => if Z.odd m then O else S (trailing_zeros n (Z.shiftr m 1))
  end.

Fixpoint mask_slots (fuel : nat) (m : Z) : list nat :=
  match fuel with
  | O => []
  | S n => if m =? 0 then []
           else trailing_zeros 8 m :: mask_slots n (Z.land m (m - 1))
  end.

(** ** Slot access *)

Section Table.
Context {W Pin : Type} {KV : KeyVerifier W Pin} (hash_key : bytes -> Z).
Implicit Types (x : TMem W) (b i : nat) (key : bytes) (t : Table).

Abbreviation tprog := (prog (TMem W)).

Definition slot x b i : Z := nth i (nth b (buckets x) []) 0.

Definition set_slot x b i (v : Z) : TMem W :=
  mkTMem (alter (fun bk => <[i := v]> bk) b (buckets x)) (freq_rng x) (world x).

Definition load b i : tprog Z := atomic (fun x => (slot x b i, x)).

Definition compare_exchange b i (old new : Z) : tprog bool :=
  atomic (fun x => if slot x b i =? old then (true, set_slot x b i new) else (false, x)).

Definition store b i (v : Z) : tprog unit := atomic (fun x => (tt, set_slot x b i v)).

Definition next_draw : tprog Z :=
  atomic (fun x =>
    let (z, r) := Random.next_u64 (freq_rng x) in
    (z, mkTMem (buckets x) r (world x))).

Definition verify_at key (location : Z) (allow_deleted : bool) : tprog (Verified Pin) :=
  atomic (fun x => (verify (world x) key location allow_deleted, x)).

(** [self.stripe(hash).lock()]: a synchronization point; what the lock rules
    out is a property of the schedule from here on. *)
Definition lock_stripe (hash : Z) : tprog Z := atomic (fun x => (stripe hash, x)).

Definition slots : list nat := seq 0 Hashbucket.NUM_ITEM_SLOTS.

(** [loop { let packed = load; ..; match compare_exchange(packed, new) {
    Ok => return a, Err => continue } }]: the body looks at the loaded word
    and either leaves the loop or proposes the word to swap in. *)
Inductive step A := Leave (a : A) | Swap (new : Z) (a : A).
Arguments Leave {A}.
Arguments Swap {A}.

Definition cas_lap {A} b i (body : Z -> tprog (step A)) : tprog (option A) :=
  packed ← load b i;
  st ← body packed;
  match st with
  | Leave a => mret (Some a)
  | Swap new a =>
      ok ← compare_exchange b i packed new;
      if ok : bool then mret (Some a) else mret None
  end.

Definition cas_loop {A} b i (body : Z -> tprog (step A)) : tprog A :=
  retry (cas_lap b i body).

(** ** Scans *)

(** The fold of the per-bucket and of the per-slot scans: a [Found] wins,
    the first [Unknown] is remembered. *)
Fixpoint fold_choices_from {T} (unknown : option Z) (choices : list nat)
    (scan : nat -> tprog (Lookup T)) : tprog (Lookup T) :=
  match choices with
  | [] => mret (match unknown with
                | Some location => Unknown location
                | None => Absent
                end)
  | c :: choices => r ← scan c;
      match r with
      | Found found => mret (Found found)
      | Absent => fold_choices_from unknown choices scan
      | Unknown location =>
          fold_choices_from
            (match unknown with Some u => Some u | None => Some location end)
            choices scan
      end
  end.

Definition fold_choices {T} (choices : list nat) (scan : nat -> tprog (Lookup T))
    : tprog (Lookup T) := fold_choices_from None choices scan.

(** [find_tag_matches_simd], scalar fallback. *)
Fixpoint find_tag_matches_from (l : list nat) (b : nat) (tag_shifted result : Z)
    : tprog Z :=
  match l with
  | [] => mret result
  | i :: l => packed ← load b i;
      find_tag_matches_from l b tag_shifted
        (if tag_hit tag_shifted packed
         then Z.lor result (u8 (Z.shiftl 1 (Z.of_nat i))) else result)
  end.

Definition find_tag_matches b (tag_shifted : Z) : tprog Z :=
  find_tag_matches_from slots b tag_shifted 0.

Definition bump_freq b i (packed : Z) : tprog unit :=
  let freq := Hashbucket.freq packed in
  if freq <? 127 then
    draw ← next_draw;
    match Hashbucket.try_update_freq packed freq draw with
    | Some new_packed => _ ← compare_exchange b i packed new_packed; mret tt
    | None => mret tt
    end
  else mret tt.

(** The body of [search_bucket]'s loop, for one slot of the mask. *)
Definition search_slot (update_freq : bool) b (tag tag_shifted : Z) key i
    : tprog (Lookup (Hit Pin)) :=
  packed ← load b i;
  if (packed =? 0) || Hashbucket.is_ghost packed then mret Absent
  else if negb (Z.land packed TAG_MASK =? tag_shifted) then mret Absent
  else
    let location := Hashbucket.location packed in
    v ← verify_at key location false;
    match v with
    | Match pin =>
        _ ← (if update_freq then bump_freq b i packed else mret tt);
        mret (Found {|
          hit_location := location;
          hit_slot := {| bucket_index := u32 (Z.of_nat b);
                         slot_index := u8 (Z.of_nat i); slot_tag := tag |};
          hit_pin := pin |})
    | DifferentKey => mret Absent
    | Unverified location => mret (Unknown location)
    end.

Definition search_bucket (update_freq : bool) (tag : Z) key b : tprog (Lookup (Hit Pin)) :=
  let tag_shifted := u64 (Z.shiftl tag 52) in
  m ← find_tag_matches b tag_shifted;
  fold_choices (mask_slots 8 m) (search_slot update_freq b tag tag_shifted key).

Definition ghost_with_tag (tag packed : Z) : bool :=
  Hashbucket.is_ghost packed && (Hashbucket.tag packed =? tag).

Definition search_bucket_for_ghost (tag : Z) b : tprog (option Z) :=
  first_of slots (fun i =>
    speculative ← load b i;
    if ghost_with_tag tag speculative then
      packed ← load b i;
      mret (if ghost_with_tag tag packed then Some (Hashbucket.freq packed) else None)
    else mret None).

Definition increment_ghost_freq_in_bucket (tag : Z) b : tprog unit :=
  for_each slots (fun i =>
    packed ← load b i;
    if negb (packed =? 0) && Hashbucket.is_ghost packed && (Hashbucket.tag packed =? tag)
    then bump_freq b i packed else mret tt).

(** Neither empty, nor a ghost, nor another tag. *)
Definition live_with_tag (tag packed : Z) : bool :=
  negb ((packed =? 0) || Hashbucket.is_ghost packed || negb (Hashbucket.tag packed =? tag)).

Definition search_bucket_for_freq (tag : Z) key b : tprog (Lookup Z) :=
  fold_choices slots (fun i =>
    speculative ← load b i;
    if live_with_tag tag speculative then
      packed ← load b i;
      if live_with_tag tag packed then
        v ← verify_at key (Hashbucket.location packed) false;
        mret (match v with
              | Match _ => Found (Hashbucket.freq packed)
              | DifferentKey => Absent
              | Unverified location => Unknown location
              end)
      else mret Absent
    else mret Absent).

Definition search_bucket_for_item_freq (tag location : Z) b : tprog (option Z) :=
  first_of slots (fun i =>
    speculative ← load b i;
    if live_with_tag tag speculative then
      packed ← load b i;
      mret (if live_with_tag tag packed && (Hashbucket.location packed =? location)
            then Some (Hashbucket.freq packed) else None)
    else mret None).

(** ** Insert and remove helpers *)

Definition try_replace_existing (tag : Z) key (new_packed : Z) b : tprog (Lookup Z) :=
  fold_choices slots (fun i => cas_loop b i (fun packed =>
    if live_with_tag tag packed then
      let location := Hashbucket.location packed in
      v ← verify_at key location true;
      mret (match v with
            | Match _ =>
                Swap (Hashbucket.with_freq new_packed (Hashbucket.freq packed))
                     (Found location)
            | DifferentKey => Leave Absent
            | Unverified location => Leave (Unknown location)
            end)
    else mret (Leave Absent))).

(** The three passes of [try_claim_new_slot]. *)
Definition claim_matching_ghost (tag new_packed : Z) b : tprog bool :=
  any_of slots (fun i => cas_loop b i (fun packed =>
    mret (if negb (Hashbucket.tag packed =? tag) || negb (Hashbucket.is_ghost packed)
          then Leave false
          else Swap (Hashbucket.with_freq new_packed (Hashbucket.freq packed)) true))).

Definition claim_empty (new_packed : Z) b : tprog bool :=
  any_of slots (fun i =>
    packed ← load b i;
    if packed =? 0 then compare_exchange b i 0 new_packed else mret false).

Definition claim_any_ghost (new_packed : Z) b : tprog bool :=
  any_of slots (fun i =>
    speculative ← load b i;
    if Hashbucket.is_ghost speculative then
      packed ← load b i;
      if Hashbucket.is_ghost packed then compare_exchange b i packed new_packed
      else mret false
    else mret false).

Definition try_claim_new_slot (tag new_packed : Z) b : tprog bool :=
  c ← claim_matching_ghost tag new_packed b;
  if c : bool then mret true else
  c ← claim_empty new_packed b;
  if c : bool then mret true else
  claim_any_ghost new_packed b.

(** The entry at [expected]: the guard of the three mutators below. *)
Definition is_entry (tag expected packed : Z) : bool :=
  negb ((packed =? 0) || Hashbucket.is_ghost packed
        || negb (Hashbucket.tag packed =? tag)
        || negb (Hashbucket.location packed =? expected)).

Definition try_unlink_in_bucket (tag expected : Z) b : tprog bool :=
  any_of slots (fun i => cas_loop b i (fun packed =>
    mret (if is_entry tag expected packed then Swap 0 true else Leave false))).

Definition try_to_ghost_in_bucket (tag expected : Z) b : tprog bool :=
  any_of slots (fun i => cas_loop b i (fun packed =>
    mret (if is_entry tag expected packed
          then Swap (Hashbucket.to_ghost packed) true else Leave false))).

Definition relink_freq (relink : RelinkFreq) (freq : Z) : Z :=
  match relink with
  | Preserve => freq
  | Decrement => sat_sub freq 1
  end.

Definition try_cas_in_bucket (tag old_location new_location : Z) (relink : RelinkFreq) b
    : tprog bool :=
  any_of slots (fun i => cas_loop b i (fun packed =>
    mret (if is_entry tag old_location packed
          then Swap (Hashbucket.pack tag (relink_freq relink (Hashbucket.freq packed))
                       new_location) true
          else Leave false))).

Definition count_occupied b : tprog nat :=
  (fix go (l : list nat) (count : nat) : tprog nat :=
     match l with
     | [] => mret count
     | i :: l => packed ← load b i;
         go l (if negb (packed =? 0) && negb (Hashbucket.is_ghost packed)
               then S count else count)
     end) slots 0%nat.

Definition slot_publishes (s : SlotRef) (location : Z) : tprog bool :=
  packed ← load (Z.to_nat (bucket_index s)) (Z.to_nat (slot_index s));
  mret (Hashbucket.location packed =? location).

Definition cas_location_at (s : SlotRef) (old_location new_location : Z)
    (preserve_freq : bool) : tprog bool :=
  cas_loop (Z.to_nat (bucket_index s)) (Z.to_nat (slot_index s)) (fun packed =>
    mret (if (packed =? 0) || Hashbucket.is_ghost packed then Leave false
          else if negb (Hashbucket.tag packed =? slot_tag s)
                  || negb (Hashbucket.location packed =? old_location)
          then Leave false
          else
            let freq := if preserve_freq then Hashbucket.freq packed else 1 in
            Swap (Hashbucket.pack (slot_tag s) freq new_location) true)).

(** ** The [Hashtable] trait *)

Definition probe_with_hash t key : Z * Z * list nat :=
  let hash := hash_key key in
  (hash, tag_from_hash hash, bucket_indices t hash).

Definition probe t key : Z * list nat :=
  let '(_, tag, buckets) := probe_with_hash t key in (tag, buckets).

Definition choices t (buckets : list nat) : list nat := take (num_choices t) buckets.

Definition lookup t key : tprog (Lookup (Hit Pin)) :=
  let (tag, buckets) := probe t key in
  let choices := choices t buckets in
  r ← fold_choices choices (search_bucket true tag key);
  match r with
  | Found hit => mret (Found hit)
  | Unknown location => mret (Unknown location)
  | Absent =>
      _ ← for_each choices (increment_ghost_freq_in_bucket tag);
      mret Absent
  end.

Definition lookup_no_freq_update t key : tprog (Lookup (Hit Pin)) :=
  let (tag, buckets) := probe t key in
  fold_choices (choices t buckets) (search_bucket false tag key).

Definition lookup_slot t key : tprog (Lookup (Z * SlotRef)) :=
  r ← lookup_no_freq_update t key;
  mret (match r with
        | Found hit => Found (hit_location hit, hit_slot hit)
        | Absent => Absent
        | Unknown location => Unknown location
        end).

Definition contains t key : tprog (Lookup unit) :=
  r ← lookup_no_freq_update t key;
  mret (match r with
        | Found _ => Found tt
        | Absent => Absent
        | Unknown location => Unknown location
        end).

(** [sort_unstable_by_key] on at most eight elements: insertion sort by the
    occupancy each bucket was counted at. *)
Fixpoint insert_by_key (e : nat * nat) (l : list (nat * nat)) : list (nat * nat) :=
  match l with
  | [] => [e]
  | e' :: l => if (snd e' <=? snd e)%nat then e' :: insert_by_key e l else e :: e' :: l
  end.

Fixpoint count_all (l : list nat) : tprog (list (nat * nat)) :=
  match l with
  | [] => mret []
  | b :: l => n ← count_occupied b; r ← count_all l; mret ((b, n) :: r)
  end.

Definition sort_by_occupancy (l : list (nat * nat)) : list nat :=
  map fst (foldl (fun acc e => insert_by_key e acc) [] l).

(** The part of [insert] that runs under the stripe lock. *)
Definition insert_locked t (tag : Z) key (new_packed : Z) (choices : list nat)
    : tprog (option Insert) :=
  r ← fold_choices choices (try_replace_existing tag key new_packed);
  match r with
  | Found old => mret (Some (Replaced old))
  | Unknown location => mret (Some (InsertUnknown location))
  | Absent =>
      c ← any_of choices (try_claim_new_slot tag new_packed);
      if c : bool then mret (Some Created) else
      if (1 <? num_choices t)%nat then
        counted ← count_all choices;
        c ← any_of (sort_by_occupancy counted) (try_claim_new_slot tag new_packed);
        if c : bool then mret (Some Created) else mret None
      else mret None
  end.

(** [None] is [Err(())]: every candidate slot holds a live entry. *)
Definition insert t key (location : Z) : tprog (option Insert) :=
  let '(hash, tag, buckets) := probe_with_hash t key in
  let choices := choices t buckets in
  let new_packed := Hashbucket.pack tag 1 location in
  r ← fold_choices choices (try_replace_existing tag key new_packed);
  match r with
  | Found old => mret (Some (Replaced old))
  | Unknown location => mret (Some (InsertUnknown location))
  | Absent =>
      _ ← lock_stripe hash;
      insert_locked t tag key new_packed choices
  end.

Definition remove t key (expected : Z) : tprog bool :=
  let (tag, buckets) := probe t key in
  any_of (choices t buckets) (try_unlink_in_bucket tag expected).

Definition convert_to_ghost t key (expected : Z) : tprog bool :=
  let (tag, buckets) := probe t key in
  any_of (choices t buckets) (try_to_ghost_in_bucket tag expected).

Definition cas_location t key (old_location new_location : Z) (freq : RelinkFreq)
    : tprog bool :=
  let (tag, buckets) := probe t key in
  any_of (choices t buckets) (try_cas_in_bucket tag old_location new_location freq).

Definition get_frequency t key : tprog (Lookup Z) :=
  let (tag, buckets) := probe t key in
  fold_choices (choices t buckets) (search_bucket_for_freq tag key).

Definition get_item_frequency t key (location : Z) : tprog (option Z) :=
  let (tag, buckets) := probe t key in
  first_of (choices t buckets) (search_bucket_for_item_freq tag location).

Definition get_ghost_frequency t key : tprog (option Z) :=
  let (tag, buckets) := probe t key in
  first_of (choices t buckets) (search_bucket_for_ghost tag).

Definition clear t : tprog unit :=
  for_each (seq 0 (Z.to_nat (num_buckets t))) (fun b =>
    for_each slots (fun i => store b i 0)).
End Table.

Arguments Leave {A}.
Arguments Swap {A}.
