(* ===== verification/TableSimd.v ===== *)
(** * The vectorized tag scans agree with the scalar one

    The AVX2 and NEON variants of [find_tag_matches_simd] compute the same
    8-bit mask as the scalar fallback, and the walk over the mask visits
    exactly the slots of the bucket that match, in order. *)
From S2P Require Import Prelude Packing Atomics Table.

(** The mask whose bit [i] is the [i]-th boolean. *)
Fixpoint hit_mask (hits : list bool) : Z :=
  match hits with
  | [] => 0
  | h :: hits => Z.b2z h + 2 * hit_mask hits
  end.

(** The positions of the true booleans, in increasing order. *)
Fixpoint hit_slots (i : nat) (hits : list bool) : list nat :=
  match hits with
  | [] => []
  | h :: hits => if h then i :: hit_slots (S i) hits else hit_slots (S i) hits
  end.

Definition lane (h : bool) : Z := if h then 2 ^ 64 - 1 else 0.

(** One lane of either vector scan. *)
Lemma lane_valid tag_shifted p :
  Z.land (if Z.land p TAG_MASK =? tag_shifted then 2 ^ 64 - 1 else 0)
    (Z.land (Z.lxor (if p =? 0 then 2 ^ 64 - 1 else 0) (2 ^ 64 - 1))
            (Z.lxor (if Z.land p GHOST_LOCATION =? GHOST_LOCATION then 2 ^ 64 - 1 else 0)
                    (2 ^ 64 - 1))) = lane (tag_hit tag_shifted p).
Proof.
  unfold tag_hit. destruct (p =? 0), (Z.land p GHOST_LOCATION =? GHOST_LOCATION),
    (Z.land p TAG_MASK =? tag_shifted); reflexivity.
Qed.

Lemma wnot_lane h : wnot 64 (lane h) = Z.lxor (lane h) (2 ^ 64 - 1).
Proof. by destruct h. Qed.

Lemma avx2_valid_lanes ts a b c d :
  avx2_valid ts [a; b; c; d] = map (fun p => lane (tag_hit ts p)) [a; b; c; d].
Proof.
  unfold avx2_valid, vand, vxor, vcmpeq, vset1. cbn [replicate zip_with map].
  by rewrite !lane_valid.
Qed.

Lemma neon_valid_lanes ts a b :
  neon_valid ts [a; b] = map (fun p => lane (tag_hit ts p)) [a; b].
Proof.
  unfold neon_valid, vand, vnot, vcmpeq, vset1. cbn [replicate zip_with map].
  change (wnot 64) with (fun x => Z.lxor x (2 ^ 64 - 1)). cbv beta.
  by rewrite !lane_valid.
Qed.

Lemma length_8 {A} (l : list A) :
  length l = 8%nat -> exists a b c d e f g h, l = [a; b; c; d; e; f; g; h].
Proof.
  destruct l as [|? [|? [|? [|? [|? [|? [|? [|? [|? ?]]]]]]]]]; try done.
  intros _. by repeat eexists.
Qed.

Ltac bucket8 H := apply length_8 in H as (? & ? & ? & ? & ? & ? & ? & ? & ->).

Ltac case_hits :=
  repeat match goal with |- context [tag_hit ?ts ?p] => destruct (tag_hit ts p) end;
  reflexivity.

Theorem avx2_hit_mask bucket ts :
  length bucket = 8%nat ->
  find_tag_matches_avx2 bucket ts = hit_mask (map (tag_hit ts) bucket).
Proof.
  intros H. bucket8 H. unfold find_tag_matches_avx2.
  cbn [drop take].  rewrite !avx2_valid_lanes. simpl map.
  case_hits.
Qed.

Theorem neon_hit_mask bucket ts :
  length bucket = 8%nat ->
  find_tag_matches_neon bucket ts = hit_mask (map (tag_hit ts) bucket).
Proof.
  intros H. bucket8 H. unfold find_tag_matches_neon.
  cbn [drop take]. rewrite !neon_valid_lanes. simpl map.
  case_hits.
Qed.

Lemma mask_slots_hits hits :
  length hits = 8%nat -> mask_slots 8 (hit_mask hits) = hit_slots 0 hits.
Proof.
  intros H. bucket8 H.
  repeat match goal with b : bool |- _ => destruct b end; reflexivity.
Qed.

Section Scalar.
Context {W : Type}.
Implicit Types (x : TMem W).

(** The scalar loop, run without interference from slot [i] on. *)
Lemma find_tag_matches_from_run b ts l r x :
  run (find_tag_matches_from l b ts r) x =
    Some (fold_left (fun r i => if tag_hit ts (slot x b i)
                                then Z.lor r (u8 (Z.shiftl 1 (Z.of_nat i))) else r) l r, x).
Proof.
  revert r. unfold run. induction l as [|i l IH]; intros r; [done|].
  simpl. unfold mbind, prog_bind, load, atomic, interfere. simpl. apply IH.
Qed.

(** C37. The three variants of [find_tag_matches_simd] compute one mask. *)
Theorem find_tag_matches_equiv b ts x :
  length (nth b (buckets x) []) = 8%nat ->
  let bucket := nth b (buckets x) [] in
  run (find_tag_matches b ts) x = Some (find_tag_matches_avx2 bucket ts, x) /\
  find_tag_matches_neon bucket ts = find_tag_matches_avx2 bucket ts /\
  mask_slots 8 (find_tag_matches_avx2 bucket ts) = hit_slots 0 (map (tag_hit ts) bucket).
Proof.
  intros H bucket. unfold find_tag_matches. rewrite find_tag_matches_from_run.
  rewrite neon_hit_mask, avx2_hit_mask, mask_slots_hits by (rewrite ?length_map; done).
  repeat split. f_equal. f_equal. unfold slot. fold bucket. fold bucket in H.
  clearbody bucket. bucket8 H. unfold slots, Hashbucket.NUM_ITEM_SLOTS.
  cbn [seq fold_left nth map].
  case_hits.
Qed.
End Scalar.

Lemma find_tag_matches_equiv_witness :
  let x := mkTMem [[0x0AB0000000000010; 0; 0x0AB00FFFFFFFFFFF; 0x0AC0000000000010;
                    0x0AB0100000000020; 0; 0; 0x0AB7F00000000001]] 0 tt in
  let bucket := nth 0 (buckets x) [] in
  run (find_tag_matches 0 0x0AB0000000000000) x =
    Some (find_tag_matches_avx2 bucket 0x0AB0000000000000, x) /\
  find_tag_matches_neon bucket 0x0AB0000000000000 =
    find_tag_matches_avx2 bucket 0x0AB0000000000000 /\
  mask_slots 8 (find_tag_matches_avx2 bucket 0x0AB0000000000000) =
    hit_slots 0 (map (tag_hit 0x0AB0000000000000) bucket).
Proof. apply (find_tag_matches_equiv 0). reflexivity. Defined.
