(* ===== verification/TableSpec.v ===== *)
(** * What the hashtable operations do

    Total correctness of the operations of [Table] against concurrent readers:
    the rely [benign] lets other threads change the frequency of any entry at
    any time, which is what every lookup hit does to the words the mutators
    compare-and-swap. The sequential run is the special case of the empty
    schedule. Each slot is classified by [examine], which is invariant under
    [benign], and the operations are specified by that classification. *)
From S2P Require Import Prelude Packing Atomics Table TableSimd.

(** ** Entries up to their frequency *)

Definition same_entry (p q : Z) : Prop :=
  q = p \/ (p <> 0 /\ q <> 0 /\ fits 64 q /\ Hashbucket.tag q = Hashbucket.tag p /\
            Hashbucket.location q = Hashbucket.location p).

#[export] Instance same_entry_preorder : PreOrder same_entry.
Proof.
  split; [by left|]. intros p q r [->|(?&?&?&?&?)] [->|(?&?&?&?&?)];
    unfold same_entry; auto; right; intuition congruence.
Qed.

Lemma same_entry_zero p q : same_entry p q -> (q =? 0) = (p =? 0).
Proof.
  intros [->|(?&?&_)]; [done|]. destruct (Z.eqb_spec q 0), (Z.eqb_spec p 0); done.
Qed.

Lemma same_entry_location p q :
  same_entry p q -> Hashbucket.location q = Hashbucket.location p.
Proof. intros [->|(?&?&?&?&?)]; done. Qed.

Lemma same_entry_tag p q : same_entry p q -> Hashbucket.tag q = Hashbucket.tag p.
Proof. intros [->|(?&?&?&?&?)]; done. Qed.

Lemma same_entry_ghost p q :
  same_entry p q -> Hashbucket.is_ghost q = Hashbucket.is_ghost p.
Proof.
  intros H. unfold Hashbucket.is_ghost.
  by rewrite (same_entry_zero _ _ H), (same_entry_location _ _ H).
Qed.

Lemma same_entry_live tag p q :
  same_entry p q -> live_with_tag tag q = live_with_tag tag p.
Proof.
  intros H. unfold live_with_tag.
  by rewrite (same_entry_zero _ _ H), (same_entry_ghost _ _ H), (same_entry_tag _ _ H).
Qed.

Lemma same_entry_is_entry tag loc p q :
  same_entry p q -> is_entry tag loc q = is_entry tag loc p.
Proof.
  intros H. unfold is_entry.
  by rewrite (same_entry_zero _ _ H), (same_entry_ghost _ _ H),
    (same_entry_tag _ _ H), (same_entry_location _ _ H).
Qed.

(** Shifted-tag comparison of the scans. *)
Lemma land_tag_mask p : fits 64 p -> Z.land p TAG_MASK = Hashbucket.tag p * 2 ^ 52.
Proof.
  intros H. change TAG_MASK with (Z.shiftl (Z.ones (64 - 52)) 52).
  rewrite land_high, Hashbucket.slot_tag_sum by (done || lia).
  unfold fits in H. pow2. dm.
Qed.

Lemma land_ghost_location p : Z.land p GHOST_LOCATION = Hashbucket.location p.
Proof. done. Qed.

Lemma tag_shifted_eq tag : fits 12 tag -> u64 (Z.shiftl tag 52) = tag * 2 ^ 52.
Proof. unfold fits. bits_arith. intros. dm. Qed.

Lemma tag_hit_live tag p :
  fits 12 tag -> fits 64 p ->
  tag_hit (u64 (Z.shiftl tag 52)) p = live_with_tag tag p.
Proof.
  intros Ht Hp. unfold tag_hit, live_with_tag, Hashbucket.is_ghost, Location.is_ghost.
  rewrite land_tag_mask, land_ghost_location, tag_shifted_eq by done.
  change GHOST_LOCATION with Location.GHOST.
  assert ((Hashbucket.tag p * 2 ^ 52 =? tag * 2 ^ 52) = (Hashbucket.tag p =? tag)) as ->.
  { destruct (Z.eqb_spec (Hashbucket.tag p) tag) as [->|]; [apply Z.eqb_refl|].
    apply Z.eqb_neq. lia. }
  by destruct (p =? 0), (Hashbucket.location p =? Location.GHOST), (Hashbucket.tag p =? tag).
Qed.

(** The two rejections of [search_slot] leave exactly the live slots of the tag. *)
Lemma search_guards tag p :
  fits 12 tag -> fits 64 p ->
  negb ((p =? 0) || Hashbucket.is_ghost p) &&
  negb (negb (Z.land p TAG_MASK =? u64 (Z.shiftl tag 52))) = live_with_tag tag p.
Proof.
  intros Ht Hp. rewrite <- tag_hit_live by done. unfold tag_hit, Hashbucket.is_ghost,
    Location.is_ghost. rewrite land_ghost_location.
  change GHOST_LOCATION with Location.GHOST.
  by destruct (p =? 0), (Hashbucket.location p =? Location.GHOST), (Z.land p TAG_MASK =? _).
Qed.

(** ** The memory *)

Section Memory.
Context {W : Type}.
Implicit Types (x y z : TMem W) (b i : nat).

Record wf_mem x : Prop := {
  wf_lengths : Forall (eq 8%nat) (map length (buckets x));
  wf_words : forall b i, fits 64 (slot x b i)
}.

(** [b, i] is a slot of the table. *)
Definition in_table x b i : Prop := (b < length (buckets x))%nat /\ (i < 8)%nat.

Record benign x y : Prop := {
  benign_shape : map length (buckets y) = map length (buckets x);
  benign_world : world y = world x;
  benign_slots : forall b i, same_entry (slot x b i) (slot y b i)
}.

#[export] Instance benign_preorder : PreOrder benign.
Proof.
  split.
  - intros x. split; reflexivity.
  - intros x y z [? ? ?] [? ? ?]. split; [congruence..|].
    intros b i. transitivity (slot y b i); auto.
Qed.

Lemma benign_wf x y : benign x y -> wf_mem x -> wf_mem y.
Proof.
  intros [Hs _ Hb] [Hl Hw]. split; [by rewrite Hs|].
  intros b i. destruct (Hb b i) as [->|(?&?&?&?)]; done.
Qed.

Lemma benign_length x y : benign x y -> length (buckets y) = length (buckets x).
Proof. intros [H _ _]. apply (f_equal length) in H. by rewrite !length_map in H. Qed.

Lemma bucket_length x b :
  wf_mem x -> (b < length (buckets x))%nat -> length (nth b (buckets x) []) = 8%nat.
Proof.
  intros [H _] Hb. rewrite Forall_forall in H. symmetry. apply H, list_elem_of_In.
  apply in_map, nth_In. done.
Qed.

Lemma nth_alter {A} (f : A -> A) b b' l d :
  (b < length l)%nat ->
  nth b' (alter f b l) d = if decide (b' = b) then f (nth b l d) else nth b' l d.
Proof.
  intros Hb. rewrite !nth_lookup. destruct (decide (b' = b)) as [->|].
  - destruct (lookup_lt_is_Some_2 _ _ Hb) as [a Ha].
    by rewrite list_lookup_alter_eq, Ha.
  - by rewrite list_lookup_alter_ne.
Qed.

Lemma nth_insert {A} (v : A) i j l d :
  (i < length l)%nat -> nth j (<[i:=v]> l) d = if decide (j = i) then v else nth j l d.
Proof.
  intros Hi. rewrite !nth_lookup. destruct (decide (j = i)) as [->|].
  - by rewrite list_lookup_insert_eq.
  - by rewrite list_lookup_insert_ne.
Qed.

Lemma slot_set_slot x b i b' i' v :
  wf_mem x -> in_table x b i ->
  slot (set_slot x b i v) b' i' =
    if decide (b' = b /\ i' = i) then v else slot x b' i'.
Proof.
  intros Hwf [Hb Hi]. unfold slot, set_slot. simpl. rewrite nth_alter by done.
  destruct (decide (b' = b)) as [->|]; [|by rewrite decide_False by naive_solver].
  rewrite nth_insert by (rewrite bucket_length by done; lia).
  destruct (decide (i' = i)) as [->|];
    [by rewrite decide_True|by rewrite decide_False by naive_solver].
Qed.

Lemma set_slot_shape x b i v :
  map length (buckets (set_slot x b i v)) = map length (buckets x).
Proof.
  simpl. apply list_eq. intros j. rewrite !list_lookup_fmap.
  destruct (decide (j = b)) as [->|].
  - rewrite list_lookup_alter_eq. destruct (buckets x !! b); [|done].
    simpl. by rewrite length_insert.
  - by rewrite list_lookup_alter_ne.
Qed.

Lemma set_slot_wf x b i v :
  wf_mem x -> in_table x b i -> fits 64 v -> wf_mem (set_slot x b i v).
Proof.
  intros Hwf Hin Hv. split; [rewrite set_slot_shape; apply Hwf|].
  intros b' i'. rewrite slot_set_slot by done. case_decide; [done|apply Hwf].
Qed.

(** Swapping an entry for itself with another frequency is benign. *)
Lemma set_slot_benign x b i v :
  wf_mem x -> in_table x b i -> same_entry (slot x b i) v -> benign x (set_slot x b i v).
Proof.
  intros Hwf Hin Hv. split; [apply set_slot_shape|done|].
  intros b' i'. rewrite slot_set_slot by done.
  case_decide as E; [|done]. destruct E as [-> ->]. done.
Qed.
End Memory.

(** ** Access rules *)

Section Rules.
Context {W Pin : Type} {KV : KeyVerifier W Pin}.
Implicit Types (x y z : TMem W) (b i : nat) (key : bytes).

Abbreviation tprog := (prog (TMem W)).

Lemma stable_benign x : stable benign (benign x).
Proof. intros y z H H'. by transitivity y. Qed.

Lemma stable_benign_entry x b i p :
  stable benign (fun y => benign x y /\ same_entry p (slot y b i)).
Proof.
  intros y z Hyz [Hx Hp]. split; [by transitivity y|].
  transitivity (slot y b i); [done|apply Hyz].
Qed.

Lemma triple_load x b i :
  triple benign (benign x) (load b i)
    (fun p y => (benign x y /\ same_entry p (slot y b i)) /\ same_entry (slot x b i) p).
Proof.
  apply triple_atomic; [apply stable_benign|]. intros y Hy. simpl.
  split; [split; [done|reflexivity]|apply Hy].
Qed.

(** The common form: the loaded word is the initial one up to its frequency. *)
Lemma triple_load_entry x b i :
  triple benign (benign x) (load b i)
    (fun p y => benign x y /\ same_entry (slot x b i) p).
Proof. eapply triple_weaken; [apply triple_load|done|]. naive_solver. Qed.

Lemma triple_verify x key loc ad :
  triple benign (benign x) (verify_at key loc ad)
    (fun v y => benign x y /\ v = verify (world x) key loc ad).
Proof.
  apply triple_atomic; [apply stable_benign|]. intros y Hy. simpl.
  by rewrite (benign_world _ _ Hy).
Qed.

Lemma bump_same_entry p draw q :
  fits 64 p -> p <> 0 ->
  Hashbucket.try_update_freq p (Hashbucket.freq p) draw = Some q -> same_entry p q.
Proof.
  intros Hp Hnz E. pose proof (Hashbucket.try_update_freq_spec p draw Hp) as H.
  rewrite E in H. destruct H as (Ht & Hl & Hf & _ & Hfit). right.
  repeat split; try done; try apply Hfit. intros ->.
  pose proof (Hashbucket.freq_fits p). change (Hashbucket.freq 0) with 0 in Hf.
  unfold fits in *. lia.
Qed.

Lemma triple_cas_benign x b i p q :
  wf_mem x -> in_table x b i -> same_entry p q ->
  triple benign (benign x) (compare_exchange b i p q) (fun _ => benign x).
Proof.
  intros Hwf Hin Hpq. apply triple_atomic; [apply stable_benign|]. intros y Hy.
  destruct (Z.eqb_spec (slot y b i) p) as [<-|]; [|done]. simpl.
  transitivity y; [done|]. apply set_slot_benign; [by eapply benign_wf| |done].
  destruct Hin. split; [by erewrite benign_length|done].
Qed.

Lemma triple_bump_freq x b i p :
  wf_mem x -> in_table x b i -> fits 64 p -> p <> 0 ->
  triple benign (benign x) (bump_freq b i p) (fun _ => benign x).
Proof.
  intros Hwf Hin Hp Hnz. unfold bump_freq.
  destruct (Hashbucket.freq p <? 127); [|by apply triple_ret].
  eapply triple_bind with (R := fun _ => benign x).
  - apply triple_atomic; [apply stable_benign|]. intros y [Hs Hw Hb].
    destruct (Random.next_u64 (freq_rng y)). by split.
  - intros draw. destruct (Hashbucket.try_update_freq _ _ _) as [q|] eqn:E;
      [|by apply triple_ret].
    eapply triple_bind.
    + apply triple_cas_benign; [done..|]. by eapply bump_same_entry.
    + intros ?. by apply triple_ret.
Qed.

(** ** The retry loops *)

(** A body that only inspects: it returns against any schedule, and leaves
    the memory of a run without interference alone. *)
Definition inspecting {A} (m : tprog A) : Prop :=
  triple (fun _ _ => True) (fun _ => True) m (fun _ _ => True) /\
  forall x, exists a, m (mkSt x []) = Some (a, mkSt x []).

Lemma inspecting_ret {A} (a : A) : inspecting (mret a).
Proof. split; [by apply triple_ret|]. intros x. by exists a. Qed.

Lemma inspecting_verify {A} key loc ad (k : Verified Pin -> A) :
  inspecting (v ← verify_at key loc ad; mret (k v)).
Proof.
  split.
  - eapply triple_bind; [apply triple_atomic; [by intros ?|by intros ? _; instantiate (1 := fun _ _ => True)]|].
    intros v. by apply triple_ret.
  - intros x. by eexists.
Qed.

Lemma triple_true_atomic {A} (f : TMem W -> A * TMem W) :
  triple (fun _ _ => True) (fun _ => True) (atomic f) (fun _ _ => True).
Proof. by apply triple_atomic. Qed.

(** A lap that asks for another one lost its compare-and-swap to somebody. *)
Lemma cas_lap_paid {A} b i (body : Z -> tprog (step A)) :
  (forall p, inspecting (body p)) -> paid (cas_lap b i body).
Proof.
  intros Hb. apply paid_atomic.
  - intros p s. eapply triple_bind; [apply Hb|]. intros [a|new a]; [by apply triple_ret|].
    eapply triple_bind; [apply triple_true_atomic|]. intros [|]; by apply triple_ret.
  - intros x x' E. unfold mbind, prog_bind, atomic, interfere in E. simpl in E.
    destruct (proj2 (Hb (slot x b i)) x) as [st Est]. rewrite Est in E.
    destruct st as [a|new a]; [done|].
    unfold compare_exchange, atomic, interfere in E. simpl in E.
    by rewrite Z.eqb_refl in E.
Qed.

Lemma triple_cas_loop {A} G (P : TMem W -> Prop) (R : Z -> TMem W -> Prop) b i
    (body : Z -> tprog (step A)) (Q : A -> TMem W -> Prop) :
  (forall p, inspecting (body p)) ->
  stable G P -> (forall p, stable G (R p)) ->
  (forall y, P y -> R (slot y b i) y) -> (forall p y, R p y -> P y) ->
  (forall p, triple G (R p) (body p) (fun st y =>
     match st with
     | Leave a => Q a y
     | Swap new a =>
         R p y /\ (forall z, R p z -> slot z b i = p -> Q a (set_slot z b i new))
     end)) ->
  triple G P (cas_loop b i body) Q.
Proof.
  intros Hins HP HR Hload Hback Hbody. apply triple_retry; [by apply cas_lap_paid|].
  eapply triple_bind with (R := R).
  - apply triple_atomic; [done|]. intros y Hy. by apply Hload.
  - intros p. eapply triple_bind; [apply Hbody|]. intros [a|new a]; [by apply triple_ret|].
    eapply triple_bind with
      (R := fun ok y => if ok : bool then Q a y else P y).
    + apply triple_pure. intros Hswap. apply triple_atomic; [done|]. intros y Hy.
      destruct (Z.eqb_spec (slot y b i) p); simpl; eauto.
    + intros [|]; by apply triple_ret.
Qed.
End Rules.

(** ** Scans *)

Section Scans.
Context {W Pin : Type} {KV : KeyVerifier W Pin}.
Implicit Types (x y z : TMem W) (b i : nat) (key : bytes) (c : nat * nat).

(** What a scan for [key] finds at a slot. *)
Definition examine x (tag : Z) key (ad : bool) c : Verified Pin :=
  let p := slot x c.1 c.2 in
  if live_with_tag tag p then verify (world x) key (Hashbucket.location p) ad
  else DifferentKey.

Definition bucket_slots b : list (nat * nat) := map (pair b) slots.
Definition table_slots (bs : list nat) : list (nat * nat) := bs ≫= bucket_slots.

Lemma elem_of_slots i : i ∈ slots <-> (i < 8)%nat.
Proof.
  rewrite list_elem_of_In. unfold slots, Hashbucket.NUM_ITEM_SLOTS. rewrite in_seq. lia.
Qed.

Lemma elem_of_bucket_slots b c : c ∈ bucket_slots b <-> c.1 = b /\ (c.2 < 8)%nat.
Proof.
  unfold bucket_slots. change (map (pair b) slots) with (pair b <$> slots).
  rewrite list_elem_of_fmap. setoid_rewrite elem_of_slots. destruct c. simpl. naive_solver.
Qed.

Lemma elem_of_table_slots bs c : c ∈ table_slots bs <-> c.1 ∈ bs /\ (c.2 < 8)%nat.
Proof.
  unfold table_slots. rewrite list_elem_of_bind. setoid_rewrite elem_of_bucket_slots.
  naive_solver.
Qed.

(** The outcome of a scan of the slots [cs]: a match wins, nothing is reported
    absent unless every slot was seen to hold another key, and an unverifiable
    slot is reported when it could hide the answer. *)
Definition scanned {T} (ex : nat * nat -> Verified Pin) (cs : list (nat * nat))
    (F : nat * nat -> Pin -> T -> TMem W -> Prop) x (r : Lookup T) y : Prop :=
  match r with
  | Found t => exists c pin, c ∈ cs /\ ex c = Match pin /\ F c pin t y
  | Absent => benign x y /\ forall c, c ∈ cs -> ex c = DifferentKey
  | Unknown u => benign x y /\ (exists c, c ∈ cs /\ ex c = Unverified u) /\
                 forall c pin, c ∈ cs -> ex c <> Match pin
  end.

Lemma scanned_mono {T} ex cs cs' (F : _ -> _ -> T -> _ -> Prop) x r y :
  (forall c, c ∈ cs -> c ∈ cs') ->
  (forall c, c ∈ cs' -> c ∈ cs \/ ex c = DifferentKey) ->
  scanned ex cs F x r y -> scanned ex cs' F x r y.
Proof.
  intros Hsub Hrest. destruct r as [t| |u]; simpl.
  - naive_solver.
  - intros [Hb Hd]. split; [done|]. intros c Hc. destruct (Hrest c Hc); auto.
  - intros (Hb & (c & Hc & E) & Hn). split; [done|]. split; [eauto|].
    intros c' pin Hc'. destruct (Hrest c' Hc') as [|E']; [auto|by rewrite E'].
Qed.

Lemma triple_fold_choices {T} x ex (F : _ -> _ -> T -> _ -> Prop)
    (l : list nat) (cs : nat -> list (nat * nat)) (scan : nat -> prog (TMem W) (Lookup T)) :
  (forall k, k ∈ l -> triple benign (benign x) (scan k) (scanned ex (cs k) F x)) ->
  triple benign (benign x) (fold_choices l scan) (scanned ex (l ≫= cs) F x).
Proof.
  intros Hscan. unfold fold_choices.
  assert (forall d k c, c ∈ (d ++ [k]) ≫= cs <-> c ∈ d ≫= cs \/ c ∈ cs k) as Hsnoc.
  { intros d k c. rewrite bind_app, elem_of_app. simpl. by rewrite app_nil_r. }
  (* the scan of [r], with [d] behind it and [u] remembered *)
  assert (forall r d (u : option Z), l = d ++ r ->
    (forall c pin, c ∈ d ≫= cs -> ex c <> Match pin) ->
    match u with
    | Some v => exists c, c ∈ d ≫= cs /\ ex c = Unverified v
    | None => forall c, c ∈ d ≫= cs -> ex c = DifferentKey
    end ->
    triple benign (benign x) (fold_choices_from u r scan) (scanned ex (l ≫= cs) F x))
    as H; [|apply (H l [] None); [done|by intros ? ? ?%elem_of_nil|by intros ? ?%elem_of_nil]].
  induction r as [|k r IH]; intros d u Hl Hno Hu; simpl.
  - apply triple_ret. rewrite app_nil_r in Hl. subst d. by destruct u; simpl; auto.
  - eapply triple_bind; [apply Hscan; subst l; apply elem_of_app; right; by left|]. intros [t| |v]; simpl.
    + apply triple_ret. intros y (c & pin & Hc & ? & ?). exists c, pin.
      split; [|done]. apply list_elem_of_bind. exists k. split; [done|]. subst l. apply elem_of_app. right. by left.
    + apply triple_pure. intros Hk. apply (IH (d ++ [k])); [by rewrite <- app_assoc|..].
      * intros c pin [Hc|Hc]%Hsnoc; [by apply Hno|]. by rewrite Hk.
      * destruct u; [destruct Hu as (c & ? & ?); exists c; split; [|done];
          apply Hsnoc; auto|].
        intros c [Hc|Hc]%Hsnoc; auto.
    + apply triple_pure. intros [(c0 & Hc0 & E0) Hk].
      apply (IH (d ++ [k])); [by rewrite <- app_assoc|..].
      * intros c pin [Hc|Hc]%Hsnoc; [by apply Hno|by apply Hk].
      * destruct u; [destruct Hu as (c & ? & ?); exists c|exists c0];
          (split; [|done]); apply Hsnoc; auto.
Qed.

(** ** Lookups *)

(** A lookup hit at slot [c] of the initial memory. *)
Definition hit_at x (tag : Z) c (pin : Pin) (h : Hit Pin) y : Prop :=
  benign x y /\
  h = {| hit_location := Hashbucket.location (slot x c.1 c.2);
         hit_slot := {| bucket_index := u32 (Z.of_nat c.1);
                        slot_index := u8 (Z.of_nat c.2); slot_tag := tag |};
         hit_pin := pin |}.

Lemma examine_same x tag key ad c p :
  same_entry (slot x c.1 c.2) p ->
  examine x tag key ad c =
    if live_with_tag tag p then verify (world x) key (Hashbucket.location p) ad
    else DifferentKey.
Proof.
  intros H. unfold examine.
  by rewrite (same_entry_live _ _ _ H), (same_entry_location _ _ H).
Qed.

Lemma same_entry_fits p q : same_entry p q -> fits 64 p -> fits 64 q.
Proof. intros [->|(?&?&?&?)]; done. Qed.

Lemma triple_search_slot x uf b i tag key :
  wf_mem x -> in_table x b i -> fits 12 tag ->
  triple benign (benign x)
    (search_slot uf b tag (u64 (Z.shiftl tag 52)) key i)
    (scanned (examine x tag key false) [(b, i)] (hit_at x tag) x).
Proof.
  intros Hwf Hin Htag. unfold search_slot.
  eapply triple_bind; [apply triple_load_entry|]. intros p. apply triple_pure. intros Hp.
  assert (fits 64 p) as Hfit by (eapply same_entry_fits; [done|apply Hwf]).
  pose proof (examine_same x tag key false (b, i) p Hp) as Hex.
  rewrite <- (search_guards tag p) in Hex by done.
  destruct ((p =? 0) || Hashbucket.is_ghost p) eqn:Hg; simpl in Hex.
  { apply triple_ret. intros y Hy. split; [done|]. by intros c ->%list_elem_of_singleton. }
  destruct (Z.land p TAG_MASK =? u64 (Z.shiftl tag 52)); simpl in Hex |- *.
  2:{ apply triple_ret. intros y Hy. split; [done|]. by intros c ->%list_elem_of_singleton. }
  eapply triple_bind; [apply triple_verify|]. intros v. apply triple_pure. intros ->.
  destruct (verify (world x) key (Hashbucket.location p) false) as [pin| |u] eqn:Ev.
  - eapply triple_bind with (R := fun _ => benign x).
    + destruct uf; [|by apply triple_ret].
      apply triple_bump_freq; [done..|]. intros ->. done.
    + intros []. apply triple_ret. intros y Hy. exists (b, i), pin.
      split; [by left|]. split; [done|]. split; [done|].
      simpl. by rewrite <- (same_entry_location _ _ Hp).
  - apply triple_ret. intros y Hy. split; [done|]. by intros c ->%list_elem_of_singleton.
  - apply triple_ret. intros y Hy. split; [done|]. split.
    + exists (b, i). split; [by left|done].
    + intros c pin ->%list_elem_of_singleton. by rewrite Hex.
Qed.

(** The tag scan sees the slots that are live with the tag. *)
Lemma triple_find_tag_matches x b tag :
  wf_mem x -> (b < length (buckets x))%nat -> fits 12 tag ->
  triple benign (benign x) (find_tag_matches b (u64 (Z.shiftl tag 52)))
    (fun m y => benign x y /\
       m = hit_mask (map (fun i => live_with_tag tag (slot x b i)) slots)).
Proof.
  intros Hwf Hb Htag. unfold find_tag_matches.
  set (ts := u64 (Z.shiftl tag 52)).
  set (f := fun r i => if live_with_tag tag (slot x b i)
                       then Z.lor r (u8 (Z.shiftl 1 (Z.of_nat i))) else r).
  assert (forall l r, triple benign (benign x) (find_tag_matches_from l b ts r)
            (fun m y => benign x y /\ m = fold_left f l r)) as H.
  { induction l as [|i l IH]; intros r; simpl; [by apply triple_ret|].
    eapply triple_bind; [apply triple_load_entry|]. intros p. apply triple_pure. intros Hp.
    unfold ts. rewrite tag_hit_live, (same_entry_live _ _ _ Hp);
      [|done|eapply same_entry_fits; [done|apply Hwf]]. apply IH. }
  eapply triple_weaken; [apply H|done|]. intros m y [? ->]. split; [done|].
  unfold slots, Hashbucket.NUM_ITEM_SLOTS, f. cbn [seq fold_left map].
  repeat match goal with
  | |- context [live_with_tag tag ?p] => destruct (live_with_tag tag p)
  end; reflexivity.
Qed.

Lemma elem_of_hit_slots k hits i :
  i ∈ hit_slots k hits <-> (k <= i)%nat /\ hits !! (i - k)%nat = Some true.
Proof.
  revert k. induction hits as [|h hits IH]; intros k; simpl.
  - rewrite elem_of_nil. naive_solver.
  - destruct (decide (i = k)) as [->|].
    + rewrite Nat.sub_diag. simpl. destruct h; rewrite ?elem_of_cons, IH; naive_solver lia.
    + replace (i - k)%nat with (if decide (k < i)%nat then S (i - S k) else 0)%nat
        by (case_decide; lia).
      destruct h; rewrite ?elem_of_cons, IH; case_decide; simpl; naive_solver lia.
Qed.

Lemma triple_search_bucket x uf b tag key :
  wf_mem x -> (b < length (buckets x))%nat -> fits 12 tag ->
  triple benign (benign x) (search_bucket uf tag key b)
    (scanned (examine x tag key false) (bucket_slots b) (hit_at x tag) x).
Proof.
  intros Hwf Hb Htag. unfold search_bucket.
  eapply triple_bind; [by apply triple_find_tag_matches|].
  intros m. apply triple_pure. intros ->.
  rewrite mask_slots_hits by by rewrite length_map.
  set (hits := map _ _).
  assert (forall i, i ∈ hit_slots 0 hits <->
            (i < 8)%nat /\ live_with_tag tag (slot x b i) = true) as Hhits.
  { intros i. rewrite elem_of_hit_slots, Nat.sub_0_r. unfold hits.
    change (map ?f slots) with (f <$> slots). rewrite list_lookup_fmap_Some.
    unfold slots, Hashbucket.NUM_ITEM_SLOTS. setoid_rewrite lookup_seq. simpl. split.
    - by intros (_ & j & ? & -> & ?).
    - intros [? ?]. split; [lia|]. by exists i. }
  eapply triple_weaken;
    [apply (triple_fold_choices x (examine x tag key false) (hit_at x tag) _ (fun i => [(b, i)]))
    |done|].
  - intros i [Hi _]%Hhits. by apply triple_search_slot.
  - intros r y. apply scanned_mono.
    + intros c (i & ->%list_elem_of_singleton & [? _]%Hhits)%list_elem_of_bind.
      by apply elem_of_bucket_slots.
    + intros [b' i] [Hb' Hi]%elem_of_bucket_slots. simpl in Hb', Hi. subst b'.
      destruct (live_with_tag tag (slot x b i)) eqn:E.
      * left. apply list_elem_of_bind. exists i. split; [by left|by apply Hhits].
      * right. unfold examine. cbn [fst snd]. by rewrite E.
Qed.

(** ** Mutators *)

(** The word of slot [c] was replaced by [upd] of it, frequencies aside. *)
Definition swapped x c (upd : Z -> Z) y : Prop :=
  exists z, benign x z /\ y = set_slot z c.1 c.2 (upd (slot z c.1 c.2)).

Definition entry_invariant (guard : Z -> bool) : Prop :=
  forall p q, same_entry p q -> guard q = guard p.

Lemma triple_any_scan x (l : list nat) (cs : nat -> list (nat * nat))
    (f : nat -> prog (TMem W) bool) (T : nat * nat -> TMem W -> Prop)
    (N : nat * nat -> Prop) :
  (forall k, k ∈ l -> triple benign (benign x) (f k) (fun ok y =>
     if ok then exists c, c ∈ cs k /\ T c y
     else benign x y /\ forall c, c ∈ cs k -> N c)) ->
  triple benign (benign x) (any_of l f) (fun ok y =>
     if ok then exists c, c ∈ l ≫= cs /\ T c y
     else benign x y /\ forall c, c ∈ l ≫= cs -> N c).
Proof.
  intros Hf.
  eapply triple_weaken; [apply (triple_any_of _ l f
      (fun d y => benign x y /\ forall c, c ∈ d ≫= cs -> N c)
      (fun ok y => if ok : bool then exists c, c ∈ l ≫= cs /\ T c y
                   else benign x y /\ forall c, c ∈ l ≫= cs -> N c)); [|done]
    |intros y Hy; split; [done|by intros ? ?%elem_of_nil]|done].
  intros d k r Hl. apply triple_pure. intros Hd.
  eapply triple_weaken; [apply Hf; subst l; apply elem_of_app; right; by left|done|].
  intros [|] y; simpl.
  - intros (c & Hc & HT). exists c. split; [|done]. apply list_elem_of_bind.
    exists k. split; [done|]. subst l. apply elem_of_app. right. by left.
  - intros [Hy HN]. split; [done|]. intros c. rewrite bind_app, elem_of_app. simpl.
    rewrite app_nil_r. naive_solver.
Qed.

Lemma triple_any_slots x b (f : nat -> prog (TMem W) bool)
    (T : nat * nat -> TMem W -> Prop) (N : nat * nat -> Prop) :
  (forall i, (i < 8)%nat -> triple benign (benign x) (f i) (fun ok y =>
     if ok then T (b, i) y else benign x y /\ N (b, i))) ->
  triple benign (benign x) (any_of slots f) (fun ok y =>
     if ok then exists c, c ∈ bucket_slots b /\ T c y
     else benign x y /\ forall c, c ∈ bucket_slots b -> N c).
Proof.
  intros Hf. apply (triple_any_scan x slots (fun i => [(b, i)]) f T N).
  intros i Hi%elem_of_slots. eapply triple_weaken; [by apply Hf|done|].
  intros [|] y.
  - exists (b, i). split; [by left|done].
  - intros [? ?]. split; [done|]. by intros c ->%list_elem_of_singleton.
Qed.

(** A retry loop under a guard the frequency does not matter to. *)
Lemma triple_guarded_swap {A} x b i (guard : Z -> bool) (upd : Z -> Z) (ok no : A)
    (st : Z -> step A) :
  wf_mem x -> in_table x b i -> entry_invariant guard ->
  (forall p, st p = if guard p then Swap (upd p) ok else Leave no) ->
  triple benign (benign x) (cas_loop b i (fun p => mret (st p)))
    (fun r y => (r = ok /\ guard (slot x b i) = true /\ swapped x (b, i) upd y) \/
                (r = no /\ guard (slot x b i) = false /\ benign x y)).
Proof.
  intros Hwf Hin Hinv Hst.
  apply (triple_cas_loop benign (benign x)
           (fun p y => benign x y /\ same_entry (slot x b i) p)).
  - intros p. apply inspecting_ret.
  - apply stable_benign.
  - intros p y z Hyz [? ?]. split; [by transitivity y|done].
  - intros y Hy. split; [done|]. apply Hy.
  - by intros p y [? ?].
  - intros p. apply triple_ret. intros y [Hy Hp].
    rewrite Hst, (Hinv _ _ Hp). destruct (guard (slot x b i)); [|by right].
    split; [done|]. intros z [Hz _] <-. left. split; [done|]. split; [done|]. by exists z.
Qed.

(** The three mutators of an entry by location. *)
Lemma triple_entry_mutator x bs tag expected (upd : Z -> Z) :
  wf_mem x -> (forall b, b ∈ bs -> (b < length (buckets x))%nat) ->
  triple benign (benign x)
    (any_of bs (fun b => any_of slots (fun i => cas_loop b i (fun p =>
       mret (if is_entry tag expected p then Swap (upd p) true else Leave false)))))
    (fun ok y =>
       if ok then exists c, c ∈ table_slots bs /\
                    (is_entry tag expected (slot x c.1 c.2) = true /\ swapped x c upd y)
       else benign x y /\ forall c, c ∈ table_slots bs ->
              is_entry tag expected (slot x c.1 c.2) = false).
Proof.
  intros Hwf Hbs. apply (triple_any_scan x bs bucket_slots). intros b Hb.
  apply (triple_any_slots x b _
    (fun c y => is_entry tag expected (slot x c.1 c.2) = true /\ swapped x c upd y)
    (fun c => is_entry tag expected (slot x c.1 c.2) = false)).
  intros i Hi. eapply triple_weaken;
    [apply (triple_guarded_swap x b i (is_entry tag expected) upd true false)|done|].
  - done.
  - split; [by apply Hbs|done].
  - intros p q. apply same_entry_is_entry.
  - done.
  - by intros ok y [(-> & Hg & Hs)|(-> & Hg & Hy)].
Qed.

(** ** Inserting *)

(** [y] is [x] with the live entry at [c] replaced by [new], its frequency
    carried over from the moment of the swap. *)
Definition carried (new p : Z) : Z := Hashbucket.with_freq new (Hashbucket.freq p).

Definition replaced_at x new c (pin : Pin) (old : Z) y : Prop :=
  old = Hashbucket.location (slot x c.1 c.2) /\ swapped x c (carried new) y.

Lemma triple_replace_slot x b i tag key new :
  wf_mem x -> in_table x b i ->
  triple benign (benign x)
    (cas_loop b i (fun packed =>
       if live_with_tag tag packed then
         v ← verify_at key (Hashbucket.location packed) true;
         mret (match v with
               | Match _ => Swap (carried new packed) (Found (Hashbucket.location packed))
               | DifferentKey => Leave Absent
               | Unverified location => Leave (Unknown location)
               end)
       else mret (Leave Absent)))
    (scanned (examine x tag key true) [(b, i)] (replaced_at x new) x).
Proof.
  intros Hwf Hin.
  apply (triple_cas_loop benign (benign x)
           (fun p y => benign x y /\ same_entry (slot x b i) p)).
  - intros p. destruct (live_with_tag tag p); [|apply inspecting_ret].
    apply inspecting_verify.
  - apply stable_benign.
  - intros p y z Hyz [? ?]. split; [by transitivity y|done].
  - intros y Hy. split; [done|]. apply Hy.
  - by intros p y [? ?].
  - intros p. apply triple_pure. intros Hp.
    pose proof (examine_same x tag key true (b, i) p Hp) as Hex.
    destruct (live_with_tag tag p).
    2:{ apply triple_ret. intros y Hy. split; [done|]. by intros c ->%list_elem_of_singleton. }
    eapply triple_bind; [apply triple_verify|]. intros v. apply triple_pure. intros <-% eq_sym.
    destruct (verify (world x) key (Hashbucket.location p) true) as [pin| |u] eqn:Ev.
    all: apply triple_ret; intros y Hy.
    + split; [done|]. intros z [Hz _] <-. exists (b, i), pin.
      split; [by left|]. split; [done|]. split; [by rewrite (same_entry_location _ _ Hp)|].
      by exists z.
    + split; [done|]. by intros c ->%list_elem_of_singleton.
    + split; [done|]. split; [exists (b, i); split; [by left|done]|].
      intros c pin ->%list_elem_of_singleton. by rewrite Hex.
Qed.

Lemma triple_try_replace_existing x b tag key new :
  wf_mem x -> (b < length (buckets x))%nat ->
  triple benign (benign x) (try_replace_existing tag key new b)
    (scanned (examine x tag key true) (bucket_slots b) (replaced_at x new) x).
Proof.
  intros Hwf Hb.
  apply (triple_fold_choices x (examine x tag key true) (replaced_at x new)
           slots (fun i => [(b, i)])).
  intros i Hi%elem_of_slots. by apply triple_replace_slot.
Qed.

(** A new entry was created at [c]: in an empty slot, or in place of a ghost,
    whose frequency it inherits when their tags agree. *)
Definition created_at x (tag new : Z) c y : Prop :=
  let p := slot x c.1 c.2 in
  (p = 0 /\ swapped x c (fun _ => new) y) \/
  (Hashbucket.is_ghost p = true /\ swapped x c (fun _ => new) y) \/
  (Hashbucket.is_ghost p = true /\ Hashbucket.tag p = tag /\ swapped x c (carried new) y).

(** Not available to a claim, whatever the readers do. *)
Definition taken x (tag : Z) c : Prop :=
  slot x c.1 c.2 <> 0 /\ ghost_with_tag tag (slot x c.1 c.2) = false.

Lemma triple_claim_matching_ghost x b tag new :
  wf_mem x -> (b < length (buckets x))%nat ->
  triple benign (benign x) (claim_matching_ghost tag new b) (fun ok y =>
    if ok then exists c, c ∈ bucket_slots b /\ created_at x tag new c y
    else benign x y /\ forall c, c ∈ bucket_slots b ->
           ghost_with_tag tag (slot x c.1 c.2) = false).
Proof.
  intros Hwf Hb. apply (triple_any_slots x b _ (created_at x tag new)
    (fun c => ghost_with_tag tag (slot x c.1 c.2) = false)).
  intros i Hi. eapply triple_weaken; [apply (triple_guarded_swap x b i
    (ghost_with_tag tag) (carried new) true false)|done|].
  - done.
  - done.
  - intros p q H. unfold ghost_with_tag.
    by rewrite (same_entry_ghost _ _ H), (same_entry_tag _ _ H).
  - intros p. unfold ghost_with_tag.
    by destruct (Hashbucket.tag p =? tag), (Hashbucket.is_ghost p).
  - intros ok y [(-> & Hg & Hs)|(-> & Hg & Hy)]; [|done].
    apply andb_true_iff in Hg as [? ?%Z.eqb_eq]. by right; right.
Qed.

(** Claiming an empty slot cannot be disturbed by readers. *)
Lemma triple_claim_empty x b tag new :
  wf_mem x -> (b < length (buckets x))%nat ->
  triple benign (benign x) (claim_empty new b) (fun ok y =>
    if ok then exists c, c ∈ bucket_slots b /\ created_at x tag new c y
    else benign x y /\ forall c, c ∈ bucket_slots b -> slot x c.1 c.2 <> 0).
Proof.
  intros Hwf Hb. apply (triple_any_slots x b _ (created_at x tag new)
    (fun c => slot x c.1 c.2 <> 0)).
  intros i Hi. eapply triple_bind; [apply triple_load_entry|]. intros p.
  apply triple_pure. intros Hp. pose proof (same_entry_zero _ _ Hp) as Hz.
  destruct (Z.eqb_spec p 0) as [->|].
  2:{ apply triple_ret. intros y Hy. split; [done|]. symmetry in Hz.
      by apply Z.eqb_neq in Hz. }
  symmetry in Hz. apply Z.eqb_eq in Hz.
  apply triple_atomic; [apply stable_benign|]. intros y Hy.
  pose proof (same_entry_zero _ _ (benign_slots _ _ Hy b i)) as E.
  rewrite Hz in E. apply Z.eqb_eq in E. rewrite E. simpl.
  left. split; [done|]. by exists y.
Qed.

Lemma triple_claim_any_ghost x b tag new :
  wf_mem x -> (b < length (buckets x))%nat ->
  triple benign (benign x) (claim_any_ghost new b) (fun ok y =>
    if ok then exists c, c ∈ bucket_slots b /\ created_at x tag new c y
    else benign x y /\ forall c, c ∈ bucket_slots b -> True).
Proof.
  intros Hwf Hb. apply (triple_any_slots x b _ (created_at x tag new) (fun _ => True)).
  intros i Hi. eapply triple_bind; [apply triple_load_entry|]. intros p.
  apply triple_pure. intros Hp.
  destruct (Hashbucket.is_ghost p); [|by apply triple_ret].
  eapply triple_bind; [apply triple_load_entry|]. intros q. apply triple_pure. intros Hq.
  destruct (Hashbucket.is_ghost q) eqn:Hg; [|by apply triple_ret].
  apply triple_atomic; [apply stable_benign|]. intros y Hy.
  destruct (Z.eqb_spec (slot y b i) q) as [E|]; [|done]. simpl.
  right. left. cbn [fst snd]. rewrite <- (same_entry_ghost _ _ Hq).
  split; [done|]. by exists y.
Qed.

Lemma triple_try_claim x b tag new :
  wf_mem x -> (b < length (buckets x))%nat ->
  triple benign (benign x) (try_claim_new_slot tag new b) (fun ok y =>
    if ok then exists c, c ∈ bucket_slots b /\ created_at x tag new c y
    else benign x y /\ forall c, c ∈ bucket_slots b -> taken x tag c).
Proof.
  intros Hwf Hb. unfold try_claim_new_slot.
  eapply triple_bind; [by apply triple_claim_matching_ghost|].
  intros [|]; [by apply triple_ret|]. apply triple_pure. intros Hm.
  eapply triple_bind; [by apply (triple_claim_empty x b tag)|].
  intros [|]; [by apply triple_ret|]. apply triple_pure. intros He.
  eapply triple_weaken; [by apply (triple_claim_any_ghost x b tag)|done|].
  intros [|] y; [done|]. intros [Hy _]. split; [done|]. intros c Hc. split; auto.
Qed.
End Scans.
