(* ===== verification/TableThms.v ===== *)
(** * Correctness of the hashtable

    The specifications of the operations of the [Hashtable] trait, against
    concurrent readers, and what follows from them: no key is ever given two
    entries, an inserted key is found where it was inserted, and an unlink, a
    ghost conversion or a relocation takes effect exactly when the entry is
    published, however many frequency bumps race with it. *)
From S2P Require Import Prelude Packing Atomics Table TableSimd TableSpec.

Section Theorems.
Context {W Pin : Type} {KV : KeyVerifier W Pin} (hash_key : bytes -> Z).
Implicit Types (x y z : TMem W) (t : Table) (key : bytes) (c : nat * nat).

(** A table as [with_choices] builds it, and as every operation keeps it. *)
Record wf_table t x : Prop := {
  wf_power : exists k, 0 <= k < 32 /\ num_buckets t = 2 ^ k;
  wf_mask : mask t = num_buckets t - 1;
  wf_length : Z.of_nat (length (buckets x)) = num_buckets t;
  wf_choices : (1 <= num_choices t <= 8)%nat;
  wf_memory : wf_mem x
}.

Definition key_tag key : Z := tag_from_hash (hash_key key).
Definition key_buckets t key : list nat := choices t (bucket_indices t (hash_key key)).
Definition candidates t key : list (nat * nat) := table_slots (key_buckets t key).

Lemma slot_replicate_new n r (w : W) b i :
  slot (mkTMem (replicate n Hashbucket.new) r w) b i = 0.
Proof.
  unfold slot. simpl.
  destruct (nth_in_or_default b (replicate n Hashbucket.new) []) as [Hin| ->];
    [|by destruct i].
  apply list_elem_of_In, elem_of_replicate in Hin as [-> _]. do 8 (destruct i as [|i]; [done|]). by destruct i.
Qed.

(** A built table is well formed and empty. *)
Theorem with_choices_wf power n (w : W) t x :
  with_choices power n w = Some (t, x) ->
  wf_table t x /\ (forall b i, slot x b i = 0) /\ num_buckets t * 8 = 2 ^ power.
Proof.
  unfold with_choices, MAX_CHOICES. case_bool; intros E; simplify_eq.
  rewrite Z.shiftl_mul_pow2, Z.mul_1_l by lia.
  assert (0 < 2 ^ (power - 3)) by (apply Z.pow_pos_nonneg; lia).
  split; [|split].
  - split; simpl; rewrite ?length_replicate; try lia.
    + exists (power - 3). lia.
    + split.
      * simpl. apply Forall_forall. intros k [bk Hbk]%list_elem_of_fmap.
        destruct Hbk as [-> [-> _]%elem_of_replicate]. done.
      * intros b i. rewrite slot_replicate_new. done.
  - intros b i. apply slot_replicate_new.
  - simpl. change 8 with (2 ^ 3). rewrite <- Z.pow_add_r by lia. f_equal. lia.
Qed.

Lemma wf_table_benign t x y : wf_table t x -> benign x y -> wf_table t y.
Proof.
  intros [] Hb. split; try done; [by rewrite (benign_length _ _ Hb)|by eapply benign_wf].
Qed.

Lemma wf_table_set_slot t x c v :
  wf_table t x -> in_table x c.1 c.2 -> fits 64 v -> wf_table t (set_slot x c.1 c.2 v).
Proof.
  intros [] Hin Hv. split; try done; [|by apply set_slot_wf].
  simpl. by rewrite length_alter.
Qed.

Lemma key_tag_fits key : fits 12 (key_tag key).
Proof.
  unfold key_tag, tag_from_hash. change 0xFFF with (2 ^ 12 - 1). unfold fits.
  bits_arith. dm.
Qed.

(** Every candidate bucket of a key exists. *)
Lemma bucket_indices_bound t x h b :
  wf_table t x -> b ∈ bucket_indices t h -> (b < length (buckets x))%nat.
Proof.
  intros [(k & Hk & Hn) Hm Hl _ _] Hb.
  assert (forall v, 0 <= Z.land v (mask t) < num_buckets t) as Hland.
  { intros v. rewrite Hm, Hn, land_mask by lia. apply Z.mod_pos_bound, Z.pow_pos_nonneg; lia. }
  unfold bucket_indices in Hb. apply list_elem_of_fmap in Hb as (v & -> & _).
  specialize (Hland v). lia.
Qed.

Lemma key_buckets_bound t x key b :
  wf_table t x -> b ∈ key_buckets t key -> (b < length (buckets x))%nat.
Proof.
  intros Hwf Hb. eapply bucket_indices_bound; [done|].
  by eapply subseteq_take.
Qed.

Lemma candidates_in_table t x key c :
  wf_table t x -> c ∈ candidates t key -> in_table x c.1 c.2.
Proof.
  intros Hwf [Hb Hi]%elem_of_table_slots. split; [by eapply key_buckets_bound|done].
Qed.

Hint Resolve wf_memory key_tag_fits : core.

(** ** Lookups *)

Lemma triple_key_search uf t x key :
  wf_table t x ->
  triple benign (benign x) (fold_choices (key_buckets t key) (search_bucket uf (key_tag key) key))
    (scanned (examine x (key_tag key) key false) (candidates t key)
       (hit_at x (key_tag key)) x).
Proof.
  intros Hwf. apply (triple_fold_choices x _ _ _ bucket_slots).
  intros b Hb. apply triple_search_bucket; eauto using key_buckets_bound.
Qed.

Lemma triple_increment_ghosts t x key b :
  wf_table t x -> (b < length (buckets x))%nat ->
  triple benign (benign x) (increment_ghost_freq_in_bucket (key_tag key) b)
    (fun _ => benign x).
Proof.
  intros Hwf Hb. apply triple_for_each. intros i Hi%elem_of_slots.
  eapply triple_bind; [apply triple_load_entry|]. intros p. apply triple_pure. intros Hp.
  destruct (Z.eqb_spec p 0); [by apply triple_ret|]. cbn [negb andb].
  destruct (Hashbucket.is_ghost p && _); [|by apply triple_ret].
  apply triple_bump_freq; [by eapply wf_memory|done| |done].
  eapply same_entry_fits; [done|]. by eapply wf_words, wf_memory.
Qed.

Lemma lookup_spec_aux t x key :
  wf_table t x ->
  triple benign (benign x) (lookup hash_key t key)
    (scanned (examine x (key_tag key) key false) (candidates t key)
       (hit_at x (key_tag key)) x).
Proof.
  intros Hwf. unfold lookup. change (probe hash_key t key) with
    (key_tag key, bucket_indices t (hash_key key)).
  cbv beta iota. fold (key_buckets t key). eapply triple_bind; [by apply triple_key_search|].
  intros [h| |u]; [by apply triple_ret| |by apply triple_ret].
  apply triple_pure. intros Habs. eapply triple_bind.
  - apply triple_for_each. intros b Hb.
    by eapply triple_increment_ghosts, key_buckets_bound.
  - intros []. by apply triple_ret.
Qed.

(** C33. [lookup]: against concurrent readers it returns; it changes nothing but
    frequencies; it finds a slot holding the key if there is one, says
    [Absent] only when every candidate was seen to hold another key, and
    reports an unverifiable candidate otherwise. *)
Theorem lookup_spec t x key :
  wf_table t x ->
  triple benign (benign x) (lookup hash_key t key)
    (scanned (examine x (key_tag key) key false) (candidates t key)
       (hit_at x (key_tag key)) x).
Proof. apply lookup_spec_aux. Qed.

(** ** Removing, ghosting, relocating *)

(** The effect of [remove] and its siblings: they succeed exactly when some
    candidate slot publishes the key's tag at [expected], and then rewrite
    that slot and nothing else, frequencies aside. *)
Definition mutated t x key expected (upd : Z -> Z) (ok : bool) y : Prop :=
  if ok then exists c, c ∈ candidates t key /\
               (is_entry (key_tag key) expected (slot x c.1 c.2) = true /\ swapped x c upd y)
  else benign x y /\ forall c, c ∈ candidates t key ->
         is_entry (key_tag key) expected (slot x c.1 c.2) = false.

(** C29. [remove] clears the slot publishing the entry at [expected], exactly when
    there is one, whatever frequency bumps its compare-and-swap loses to. *)
Theorem remove_spec t x key expected :
  wf_table t x ->
  triple benign (benign x) (remove hash_key t key expected)
    (mutated t x key expected (fun _ => 0)).
Proof.
  intros Hwf. apply triple_entry_mutator; eauto using key_buckets_bound.
Qed.

(** [convert_to_ghost] turns the published entry into a ghost carrying the
    frequency the slot had at the swap. *)
Theorem convert_to_ghost_spec t x key expected :
  wf_table t x ->
  triple benign (benign x) (convert_to_ghost hash_key t key expected)
    (mutated t x key expected Hashbucket.to_ghost).
Proof.
  intros Hwf. apply triple_entry_mutator; eauto using key_buckets_bound.
Qed.

(** [cas_location] relinks the published entry, with the frequency the slot
    had at the swap, kept or decremented. *)
Theorem cas_location_spec t x key old new relink :
  wf_table t x ->
  triple benign (benign x) (cas_location hash_key t key old new relink)
    (mutated t x key old (fun p =>
       Hashbucket.pack (key_tag key) (relink_freq relink (Hashbucket.freq p)) new)).
Proof.
  intros Hwf. apply (triple_entry_mutator x _ _ _ (fun p =>
    Hashbucket.pack (key_tag key) (relink_freq relink (Hashbucket.freq p)) new)); eauto using key_buckets_bound.
Qed.

(** ** Inserting *)

Definition inserted t x key new (r : option Insert) y : Prop :=
  let ex := examine x (key_tag key) key true in
  let cs := candidates t key in
  match r with
  | Some (Replaced old) =>
      exists c pin, c ∈ cs /\ ex c = Match pin /\ replaced_at x new c pin old y
  | Some (InsertUnknown u) =>
      benign x y /\ (exists c, c ∈ cs /\ ex c = Unverified u) /\
      forall c pin, c ∈ cs -> ex c <> Match pin
  | Some Created =>
      (forall c, c ∈ cs -> ex c = DifferentKey) /\
      exists c, c ∈ cs /\ created_at x (key_tag key) new c y
  | None =>
      benign x y /\ (forall c, c ∈ cs -> ex c = DifferentKey) /\
      forall c, c ∈ cs -> taken x (key_tag key) c
  end.

Lemma triple_replace_scan t x key new :
  wf_table t x ->
  triple benign (benign x)
    (fold_choices (key_buckets t key) (try_replace_existing (key_tag key) key new))
    (scanned (examine x (key_tag key) key true) (candidates t key) (replaced_at x new) x).
Proof.
  intros Hwf. apply (triple_fold_choices x _ _ _ bucket_slots). intros b Hb.
  apply triple_try_replace_existing; eauto using key_buckets_bound.
Qed.

Lemma triple_claim_scan t x key new bs :
  wf_table t x -> (forall b, b ∈ bs -> b ∈ key_buckets t key) ->
  triple benign (benign x) (any_of bs (try_claim_new_slot (key_tag key) new))
    (fun ok y =>
       if ok then exists c, c ∈ candidates t key /\ created_at x (key_tag key) new c y
       else benign x y /\ forall c, c ∈ table_slots bs -> taken x (key_tag key) c).
Proof.
  intros Hwf Hbs. eapply triple_weaken;
    [apply (triple_any_scan x bs bucket_slots _ (created_at x (key_tag key) new)
              (taken x (key_tag key)))|done|].
  - intros b Hb. apply triple_try_claim; eauto using key_buckets_bound.
  - intros [|] y; [|done]. intros (c & Hc & ?). exists c. split; [|done].
    apply elem_of_table_slots in Hc as [? ?]. apply elem_of_table_slots; auto.
Qed.

Lemma triple_count_all x bs :
  triple benign (benign x) (count_all bs) (fun r y => benign x y /\ map fst r = bs).
Proof.
  induction bs as [|b bs IH]; simpl; [by apply triple_ret|].
  eapply triple_bind with (R := fun _ => benign x).
  - unfold count_occupied. generalize slots, 0%nat. intros l.
    induction l as [|i l IHl]; intros n; [by apply triple_ret|].
    eapply triple_bind; [apply triple_load_entry|]. intros p. apply triple_pure.
    intros _. apply IHl.
  - intros n. eapply triple_bind; [apply IH|]. intros r. apply triple_pure.
    intros <-. by apply triple_ret.
Qed.

Lemma elem_of_sorted l b : b ∈ sort_by_occupancy l -> b ∈ map fst l.
Proof.
  unfold sort_by_occupancy.
  assert (forall e l, insert_by_key e l ≡ₚ e :: l) as Hins.
  { clear. intros e l. induction l as [|e' l IH]; simpl; [done|].
    destruct (_ <=? _)%nat; [|done]. rewrite IH. constructor. }
  assert (forall l acc, foldl (fun acc e => insert_by_key e acc) acc l ≡ₚ l ++ acc) as Hf.
  { clear -Hins. induction l as [|e l IH]; intros acc; simpl; [done|].
    rewrite IH, Hins. by rewrite Permutation_middle. }
  change (map fst ?l) with (fst <$> l). rewrite Hf, app_nil_r. done.
Qed.

Lemma scanned_inserted t x key new r y :
  scanned (examine x (key_tag key) key true) (candidates t key) (replaced_at x new) x r y ->
  match r with
  | Found old => inserted t x key new (Some (Replaced old)) y
  | Unknown u => inserted t x key new (Some (InsertUnknown u)) y
  | Absent => benign x y /\
      forall c, c ∈ candidates t key -> examine x (key_tag key) key true c = DifferentKey
  end.
Proof. by destruct r. Qed.

Lemma triple_insert_locked t x key new :
  wf_table t x ->
  triple benign (benign x) (insert_locked t (key_tag key) key new (key_buckets t key))
    (inserted t x key new).
Proof.
  intros Hwf. unfold insert_locked.
  eapply triple_bind; [by apply triple_replace_scan|].
  intros [old| |u]; [by apply triple_ret| |by apply triple_ret].
  apply triple_pure. intros Hdiff. eapply triple_bind; [by apply triple_claim_scan|].
  intros [|]; [by apply triple_ret|]. apply triple_pure. intros Htaken.
  destruct (1 <? num_choices t)%nat; [|by apply triple_ret].
  eapply triple_bind; [apply triple_count_all|]. intros counted. apply triple_pure.
  intros Hc. eapply triple_bind; [apply triple_claim_scan; [done|]|].
  - intros b Hb%elem_of_sorted. by rewrite Hc in Hb.
  - intros [|]; [by apply triple_ret|]. by apply triple_ret; intros y [Hy _].
Qed.

Lemma insert_spec_aux t x key location :
  wf_table t x ->
  triple benign (benign x) (insert hash_key t key location)
    (inserted t x key (Hashbucket.pack (key_tag key) 1 location)).
Proof.
  intros Hwf. unfold insert.
  change (probe_with_hash hash_key t key) with
    (hash_key key, key_tag key, bucket_indices t (hash_key key)).
  cbv beta iota zeta. fold (key_buckets t key).
  eapply triple_bind; [by apply triple_replace_scan|].
  intros [old| |u]; [by apply triple_ret| |by apply triple_ret].
  apply triple_pure. intros _. eapply triple_bind with (R := fun _ => benign x).
  - apply triple_atomic; [apply stable_benign|done].
  - intros _. by apply triple_insert_locked.
Qed.

(** C27. [insert], on every branch: the key's live entry is replaced in place with
    its frequency; with no entry and nothing unverifiable a new one is created
    in an empty slot or over a ghost; an unverifiable candidate stops it; and
    it gives up only when no candidate slot is empty or a ghost of its tag. *)
Theorem insert_spec t x key location :
  wf_table t x ->
  triple benign (benign x) (insert hash_key t key location)
    (inserted t x key (Hashbucket.pack (key_tag key) 1 location)).
Proof. apply insert_spec_aux. Qed.

(** ** No duplicates; inserted keys are found *)

(** A location an item can have: 44 bits, neither 0 nor the ghost's. *)
Definition item_location (l : Z) : Prop := fits 44 l /\ l <> 0 /\ l <> Location.GHOST.

(** At most one candidate slot of the key verifies. *)
Definition unique_entry t x key : Prop :=
  forall c c' pin pin', c ∈ candidates t key -> c' ∈ candidates t key ->
    examine x (key_tag key) key true c = Match pin ->
    examine x (key_tag key) key true c' = Match pin' -> c = c'.

Lemma new_word key l v :
  item_location l ->
  (v = Hashbucket.pack (key_tag key) 1 l \/
   exists p, v = carried (Hashbucket.pack (key_tag key) 1 l) p) ->
  fits 64 v /\ live_with_tag (key_tag key) v = true /\ Hashbucket.location v = l.
Proof.
  intros (Hl & Hnz & Hng) Hv.
  assert (exists f, fits 8 f /\ v = Hashbucket.pack (key_tag key) f l) as (f & Hf & ->).
  { assert (fits 8 1) by (vm_compute; intuition congruence).
    destruct (Hashbucket.pack_fields (key_tag key) 1 l) as (Ht & _ & El); auto.
    destruct Hv as [->|[p ->]]; [by exists 1|].
    exists (Hashbucket.freq p). split; [apply Hashbucket.freq_fits|]. unfold carried.
    rewrite Hashbucket.with_freq_pack;
      [by rewrite Ht, El|apply Hashbucket.pack_fits|apply Hashbucket.freq_fits]. }
  destruct (Hashbucket.pack_fields (key_tag key) f l) as (Ht & _ & El); auto.
  split; [apply Hashbucket.pack_fits|]. split; [|done].
  unfold live_with_tag, Hashbucket.is_ghost, Location.is_ghost. rewrite Ht, El, Z.eqb_refl.
  apply Z.eqb_neq in Hng. rewrite Hng, andb_false_r.
  destruct (Z.eqb_spec (Hashbucket.pack (key_tag key) f l) 0) as [E|]; [|done].
  rewrite E in El. change (Hashbucket.location 0) with 0 in El. congruence.
Qed.

(** After a swap at [c] the other slots examine as before, and [c] as the new
    word. *)
Lemma examine_swapped t x y key ad c c' upd :
  wf_table t x -> in_table x c.1 c.2 -> swapped x c upd y ->
  (forall z, live_with_tag (key_tag key) (upd (slot z c.1 c.2)) = true) ->
  examine y (key_tag key) key ad c' =
    if decide (c' = c)
    then verify (world x) key (Hashbucket.location (slot y c.1 c.2)) ad
    else examine x (key_tag key) key ad c'.
Proof.
  intros Hwf Hin (z & Hz & ->) Hlive.
  assert (in_table z c.1 c.2) as Hin'.
  { destruct Hin. split; [by rewrite (benign_length _ _ Hz)|done]. }
  assert (wf_mem z) as Hwfz by by eapply benign_wf, wf_memory.
  unfold examine. rewrite !slot_set_slot by done.
  rewrite (decide_True (P := c.1 = c.1 /\ c.2 = c.2)) by done.
  change (world (set_slot z _ _ _)) with (world z). rewrite (benign_world _ _ Hz).
  destruct (decide (c' = c)) as [->|Hne].
  - rewrite decide_True by done. by rewrite Hlive.
  - rewrite decide_False by (intros [? ?]; apply Hne; destruct c, c'; simpl in *; congruence).
    pose proof (benign_slots _ _ Hz c'.1 c'.2) as Hs.
    by rewrite (same_entry_live _ _ _ Hs), (same_entry_location _ _ Hs).
Qed.

(** The entry [insert] leaves behind on success. *)
Lemma inserted_entry t x key l r y :
  wf_table t x -> item_location l ->
  inserted t x key (Hashbucket.pack (key_tag key) 1 l) r y ->
  match r with
  | Some (Replaced _) | Some Created =>
      exists c upd, c ∈ candidates t key /\ swapped x c upd y /\
        (forall p, upd p = Hashbucket.pack (key_tag key) 1 l \/
                   upd p = carried (Hashbucket.pack (key_tag key) 1 l) p) /\
        (forall c' pin, c' ∈ candidates t key ->
           examine x (key_tag key) key true c' = Match pin ->
           unique_entry t x key -> c' = c)
  | _ => benign x y
  end.
Proof.
  intros Hwf Hl. destruct r as [[|old|u]|]; simpl; [..|naive_solver].
  - intros (Hdiff & c & Hc & Hcr). 
    assert (forall c' pin, c' ∈ candidates t key ->
              examine x (key_tag key) key true c' = Match pin ->
              unique_entry t x key -> c' = c) as Huniq.
    { intros c' pin Hc' E. by rewrite Hdiff in E. }
    destruct Hcr as [[_ Hs]|[[_ Hs]|(_ & _ & Hs)]]; do 2 eexists; repeat split; eauto.
  - intros (c & pin & Hc & Hm & _ & Hs). do 2 eexists. repeat split; eauto.
  - naive_solver.
Qed.

Lemma triple_from (P : TMem W -> Prop) {A} (m : prog (TMem W) A) Q :
  (forall y, P y -> triple benign (benign y) m Q) -> triple benign P m Q.
Proof. intros H s Hs HP. by apply (H (mem s) HP). Qed.

(** What the entry just inserted looks like to a scan. *)
Lemma examine_inserted `{!LawfulVerifier W Pin} t x y key l c upd pin ad :
  wf_table t x -> item_location l -> c ∈ candidates t key ->
  verify (world x) key l true = Match pin ->
  (forall p, upd p = Hashbucket.pack (key_tag key) 1 l \/
             upd p = carried (Hashbucket.pack (key_tag key) 1 l) p) ->
  swapped x c upd y ->
  wf_table t y /\ Hashbucket.location (slot y c.1 c.2) = l /\
  forall c', examine y (key_tag key) key ad c' =
    if decide (c' = c) then Match pin else examine x (key_tag key) key true c'.
Proof.
  intros Hwf Hl Hc Hv Hupd Hs.
  assert (in_table x c.1 c.2) as Hin by by eapply candidates_in_table.
  assert (forall p, fits 64 (upd p) /\ live_with_tag (key_tag key) (upd p) = true /\
                    Hashbucket.location (upd p) = l) as Hw.
  { intros p. apply new_word; [done|].
    destruct (Hupd p); [by left|right; by eexists]. }
  assert (Hs' := Hs). destruct Hs' as (z & Hz & ->).
  assert (in_table z c.1 c.2) as Hin'.
  { destruct Hin. split; [by rewrite (benign_length _ _ Hz)|done]. }
  assert (wf_table t z) as Hwfz by by eapply wf_table_benign.
  assert (Hashbucket.location
            (slot (set_slot z c.1 c.2 (upd (slot z c.1 c.2))) c.1 c.2) = l) as Hloc.
  { rewrite slot_set_slot by (done || by eapply wf_memory).
    rewrite decide_True by done. apply Hw. }
  split; [apply wf_table_set_slot; [done..|apply Hw]|]. split; [done|].
  assert (forall k w loc, verify w k loc ad = verify w k loc true) as Had.
  { intros. destruct ad; [done|]. symmetry. apply verify_allow_deleted. }
  intros c'. rewrite (examine_swapped t x _ key ad c c' upd); [|done..|intros; apply Hw].
  rewrite Hloc, Had, Hv. unfold examine. by rewrite Had.
Qed.

Lemma examine_benign x y tag key ad c :
  benign x y -> examine x tag key ad c = examine y tag key ad c.
Proof.
  intros H. unfold examine. pose proof (benign_slots _ _ H c.1 c.2) as Hs.
  by rewrite (same_entry_live _ _ _ Hs), (same_entry_location _ _ Hs), (benign_world _ _ H).
Qed.

Lemma unique_benign t x y key : benign x y -> unique_entry t x key -> unique_entry t y key.
Proof.
  intros Hy Hu c c' p p' Hc Hc'. rewrite <- !(examine_benign x y) by done. by apply Hu.
Qed.

(** Uniqueness after a swap at [c], when nothing else matched before. *)
Lemma unique_swapped t x y key c pin :
  (forall c' p, c' ∈ candidates t key ->
     examine x (key_tag key) key true c' = Match p -> c' = c) ->
  (forall c', examine y (key_tag key) key true c' =
     if decide (c' = c) then Match pin else examine x (key_tag key) key true c') ->
  unique_entry t y key.
Proof.
  intros Honly Hex c1 c2 p1 p2 H1 H2. rewrite !Hex.
  destruct (decide (c1 = c)) as [->|], (decide (c2 = c)) as [->|]; try done;
    intros E1 E2; try by rewrite (Honly _ _ H1 E1) || by rewrite (Honly _ _ H2 E2).
  by rewrite (Honly _ _ H1 E1), (Honly _ _ H2 E2).
Qed.

(** A lookup finds the only match. *)
Lemma found_inserted `{!LawfulVerifier W Pin} t x y key c pin h :
  c ∈ candidates t key -> unique_entry t x key ->
  examine x (key_tag key) key true c = Match pin ->
  scanned (examine x (key_tag key) key false) (candidates t key)
    (hit_at x (key_tag key)) x h y ->
  exists h', h = Found h' /\ hit_location h' = Hashbucket.location (slot x c.1 c.2) /\
    benign x y.
Proof.
  intros Hc Huniq Hm.
  assert (forall c, examine x (key_tag key) key false c =
                    examine x (key_tag key) key true c) as Had.
  { intros c'. unfold examine. by rewrite verify_allow_deleted. }
  destruct h as [h| |u]; simpl.
  - intros (c' & p & Hc' & E & Hy & ->). rewrite Had in E.
    eexists. split; [done|]. by rewrite (Huniq _ _ _ _ Hc' Hc E Hm).
  - intros [_ Hd]. specialize (Hd c Hc). rewrite Had in Hd. congruence.
  - intros (_ & _ & Hn). specialize (Hn c pin Hc). rewrite Had in Hn. congruence.
Qed.

(** The insert-then-lookup client. *)
Definition insert_lookup t key (location : Z)
    : prog (TMem W) (option Insert * option (Lookup (Hit Pin))) :=
  r ← insert hash_key t key location;
  match r with
  | Some (Replaced _) | Some Created =>
      h ← lookup hash_key t key; mret (r, Some h)
  | _ => mret (r, None)
  end.

(** C3. Inserting keeps the key's entry unique, and whenever it succeeds the next
    lookup of the key returns exactly the inserted location. *)
Theorem insert_then_lookup `{!LawfulVerifier W Pin} t x key location pin :
  wf_table t x -> item_location location -> unique_entry t x key ->
  verify (world x) key location true = Match pin ->
  triple benign (benign x) (insert_lookup t key location) (fun rh y =>
    match rh with
    | (Some (Replaced _), Some (Found h)) | (Some Created, Some (Found h)) =>
        hit_location h = location /\ unique_entry t y key
    | (None, None) => unique_entry t y key
    | (Some (InsertUnknown _), None) => unique_entry t y key
    | _ => False
    end).
Proof.
  intros Hwf Hl Huniq Hv.
  eapply triple_bind; [by apply insert_spec|]. intros r.
  destruct r as [[|old|u]|].
  3,4: apply triple_ret; intros y (Hy & _); by eapply unique_benign.
  all: apply triple_from; intros y Hins;
    destruct (inserted_entry _ _ _ _ _ _ Hwf Hl Hins) as (c & upd & Hc & Hs & Hu & Honly);
    destruct (examine_inserted t x y key location c upd pin true) as (Hwfy & Hloc & Hex);
    [done..|].
  all: assert (unique_entry t y key) as Huy by
    (eapply unique_swapped; [intros; by eapply Honly|done]).
  all: eapply triple_bind; [by apply lookup_spec|]; intros h; apply triple_ret; intros y' Hh.
  all: destruct (found_inserted t y y' key c pin h Hc Huy) as (h' & -> & Hh' & Hy'); [|done|].
  all: try by rewrite Hex, decide_True.
  all: split; [congruence|by eapply unique_benign].
Qed.
End Theorems.

(** ** A concrete table

    128 slots, two choices; the verifier's world lists which key each location
    holds, and a location it does not list cannot be verified. *)
Module Demo.
Definition Heap : Type := list (Z * bytes).

#[export] Instance heap_verifier : KeyVerifier Heap Z := {
  verify w key l _ :=
    match list_find (fun e => e.1 = l) w with
    | Some (_, (_, k)) => if decide (k = key) then Match l else DifferentKey
    | None => Unverified l
    end
}.

#[export] Instance heap_lawful : LawfulVerifier Heap Z.
Proof. done. Qed.

Definition hash (key : bytes) : Z := u64 (le_value key * 0x9E3779B97F4A7C15).

Definition heap : Heap := [(4096, [1; 2; 3]); (8192, [7]); (12288, [1; 2; 3])].

Definition built : option (Table * TMem Heap) := with_choices 7 2 heap.
Definition table : Table := default {| num_buckets := 0; mask := 0; num_choices := 0 |} (fst <$> built).
Definition empty_mem : TMem Heap := default (mkTMem [] 0 heap) (snd <$> built).

Lemma wf_empty : wf_table table empty_mem.
Proof. apply (with_choices_wf 7 2 heap). reflexivity. Qed.

Lemma unique_empty key : unique_entry hash table empty_mem key.
Proof.
  intros c c' pin pin' _ _ E. exfalso. revert E. unfold examine.
  destruct (with_choices_wf 7 2 heap table empty_mem) as (_ & -> & _); [reflexivity|].
  done.
Qed.

Lemma item_4096 : item_location 4096.
Proof. vm_compute. intuition congruence. Qed.

(** The memory after the first insert. *)
Definition one_entry : TMem Heap :=
  default empty_mem (snd <$> run (insert hash table [1; 2; 3] 4096) empty_mem).

(** A memory of the demo's table, by looking at its words. *)
Definition words_ok (m : TMem Heap) : bool :=
  bool_decide (length (buckets m) = length (buckets empty_mem)) &&
  bool_decide (Forall (eq 8%nat) (map length (buckets m))) &&
  bool_decide (Forall (Forall (fun p => 0 <= p < 18446744073709551616)) (buckets m)).

Lemma wf_words_ok m : words_ok m = true -> wf_table table m.
Proof.
  unfold words_ok. rewrite !andb_true_iff, !bool_decide_eq_true. intros [[Hn Hl] H].
  destruct wf_empty as [H1 H2 H3 H4 _]. split; try done; [by rewrite Hn|].
  split; [done|]. intros b i. unfold slot.
  destruct (nth_in_or_default b (buckets m) []) as [Hb| ->]; [|by destruct i].
  rewrite Forall_forall in H. apply list_elem_of_In, H in Hb.
  destruct (nth_in_or_default i (nth b (buckets m) []) 0) as [Hi| ->]; [|done].
  rewrite Forall_forall in Hb. by apply list_elem_of_In, Hb in Hi.
Qed.

Lemma wf_one_entry : wf_table table one_entry.
Proof. apply wf_words_ok. by vm_compute. Qed.

Lemma insert_then_lookup_witness :
  exists rh y, run (insert_lookup hash table [1; 2; 3] 4096) empty_mem = Some (rh, y) /\
    match rh with
    | (Some (Replaced _), Some (Found h)) | (Some Created, Some (Found h)) =>
        hit_location h = 4096 /\ unique_entry hash table y [1; 2; 3]
    | (None, None) => unique_entry hash table y [1; 2; 3]
    | (Some (InsertUnknown _), None) => unique_entry hash table y [1; 2; 3]
    | _ => False
    end.
Proof.
  apply (triple_run benign (benign empty_mem)); [|reflexivity].
  apply (insert_then_lookup hash table empty_mem [1; 2; 3] 4096 4096).
  - apply wf_empty.
  - apply item_4096.
  - apply unique_empty.
  - reflexivity.
Defined.

Lemma insert_spec_witness :
  exists r y, run (insert hash table [1; 2; 3] 12288) one_entry = Some (r, y) /\
    inserted hash table one_entry [1; 2; 3]
      (Hashbucket.pack (key_tag hash [1; 2; 3]) 1 12288) r y.
Proof.
  apply (triple_run benign (benign one_entry)); [|reflexivity]. apply (insert_spec hash table), wf_one_entry.
Defined.

Lemma lookup_spec_witness :
  exists r y, run (lookup hash table [1; 2; 3]) one_entry = Some (r, y) /\
    scanned (examine one_entry (key_tag hash [1; 2; 3]) [1; 2; 3] false)
      (candidates hash table [1; 2; 3]) (hit_at one_entry (key_tag hash [1; 2; 3]))
      one_entry r y.
Proof.
  apply (triple_run benign (benign one_entry)); [|reflexivity]. apply (lookup_spec hash table), wf_one_entry.
Defined.

Lemma remove_spec_witness :
  exists ok y, run (remove hash table [1; 2; 3] 4096) one_entry = Some (ok, y) /\
    mutated hash table one_entry [1; 2; 3] 4096 (fun _ => 0) ok y.
Proof.
  apply (triple_run benign (benign one_entry)); [|reflexivity]. apply (remove_spec hash table), wf_one_entry.
Defined.

Lemma convert_to_ghost_spec_witness :
  exists ok y, run (convert_to_ghost hash table [1; 2; 3] 4096) one_entry = Some (ok, y) /\
    mutated hash table one_entry [1; 2; 3] 4096 Hashbucket.to_ghost ok y.
Proof.
  apply (triple_run benign (benign one_entry)); [|reflexivity].
  apply (convert_to_ghost_spec hash table), wf_one_entry.
Defined.

Lemma cas_location_spec_witness :
  exists ok y,
    run (cas_location hash table [1; 2; 3] 4096 12288 Decrement) one_entry = Some (ok, y) /\
    mutated hash table one_entry [1; 2; 3] 4096 (fun p =>
      Hashbucket.pack (key_tag hash [1; 2; 3])
        (relink_freq Decrement (Hashbucket.freq p)) 12288) ok y.
Proof.
  apply (triple_run benign (benign one_entry)); [|reflexivity].
  apply (cas_location_spec hash table), wf_one_entry.
Defined.

(** The scenario, evaluated: created, found, replaced, relinked, removed. *)
Example scenario :
  (r1 ← insert hash table [1; 2; 3] 4096;
   r2 ← insert hash table [1; 2; 3] 12288;
   f ← get_item_frequency hash table [1; 2; 3] 12288;
   c ← cas_location hash table [1; 2; 3] 12288 4096 Preserve;
   d ← remove hash table [1; 2; 3] 12288;
   e ← remove hash table [1; 2; 3] 4096;
   h ← contains hash table [1; 2; 3];
   mret (r1, r2, f, c, (d, e), h)) (mkSt empty_mem []) =
  Some ((Some Created, Some (Replaced 4096), Some 1, true, (false, true), Absent),
        mkSt (mkTMem (buckets empty_mem) Random.DEFAULT_SEED heap) []).
Proof. vm_compute. reflexivity. Qed.
End Demo.
