(* ===== verification/HashIface.v ===== *)
(** * What the segments ask of the hashtable

    The part of the [Hashtable] trait of [hashtable/traits.rs] that the segment
    scans ([clear], [prune], [copy_into], the S3-FIFO promotion) go through, as
    a class, with the laws they rely on: an index of item locations, in which a
    location is published under a key with a frequency. The scans run under a
    drain claim, alone with the segment, and the laws are those of a sequential
    run; [HashSeq] shows that [MultiChoiceHashtable] obeys them. *)
From S2P Require Import Prelude Packing Table.

Class Hashtable (H : Type) := {
  get_item_frequency : H -> bytes -> Z -> option Z;
  remove : H -> bytes -> Z -> bool * H;
  cas_location : H -> bytes -> Z -> Z -> RelinkFreq -> bool * H
}.

(** A location an item can have: 44 bits, neither 0 nor the ghost's. *)
Definition item_loc (l : Z) : Prop := fits 44 l /\ l <> 0 /\ l <> Location.GHOST.

(** No key is published at [l]. *)
Definition unpublished `{Hashtable H} (h : H) (l : Z) : Prop :=
  forall k, get_item_frequency h k l = None.

(** The same entries are published, with the same frequencies. *)
Definition same_index `{Hashtable H} (h h' : H) : Prop :=
  forall k l, get_item_frequency h' k l = get_item_frequency h k l.

Class LawfulHashtable (H : Type) {HT : Hashtable H} := {
  ht_inv : H -> Prop;
  (** An entry is removed by its key and location, and nothing else is. *)
  remove_published h k l f :
    ht_inv h -> get_item_frequency h k l = Some f ->
    exists h', remove h k l = (true, h') /\ ht_inv h' /\
      forall k' l', get_item_frequency h' k' l' =
        if l' =? l then None else get_item_frequency h k' l';
  remove_unpublished h k l :
    ht_inv h -> get_item_frequency h k l = None -> remove h k l = (false, h);
  (** A relocation moves the entry to a location nothing is published at. *)
  cas_published h k old new r f :
    ht_inv h -> get_item_frequency h k old = Some f ->
    item_loc new -> unpublished h new ->
    exists h', cas_location h k old new r = (true, h') /\ ht_inv h' /\
      forall k' l', get_item_frequency h' k' l' =
        if l' =? new then relink_freq r <$> get_item_frequency h k' old
        else if l' =? old then None else get_item_frequency h k' l';
  cas_unpublished h k old new r :
    ht_inv h -> get_item_frequency h k old = None -> cas_location h k old new r = (false, h);
  (** What is published is at an item's location. *)
  published_loc h k l f : ht_inv h -> get_item_frequency h k l = Some f -> item_loc l
}.

#[export] Instance same_index_equiv `{Hashtable H} : Equivalence same_index.
Proof. split; [by intros ???|by intros ?????|intros ??? E1 E2 k l; by rewrite E2, E1]. Qed.

#[export] Instance get_item_frequency_proper `{Hashtable H} :
  Proper (same_index ==> eq ==> eq ==> eq) get_item_frequency.
Proof. intros h h' E k ? <- l ? <-. symmetry. apply E. Qed.

#[export] Instance unpublished_proper `{Hashtable H} :
  Proper (same_index ==> eq ==> iff) unpublished.
Proof. intros h h' E l ? <-. split; intros Hu k; [rewrite <- E|rewrite E]; apply Hu. Qed.
