(* ===== verification/HashSeq.v ===== *)
(** * The hashtable, run by one thread

    [MultiChoiceHashtable] as an instance of [HashIface.Hashtable]: the three
    operations of [Table] run on the empty schedule. A sequential run is exact
    about frequencies, which the specifications of [TableThms], against racing
    frequency bumps, cannot be; the invariant says that live words are words of
    the candidate slots of some key, and that no location is published twice. *)
From S2P Require Import Prelude Packing Atomics Table TableSpec TableThms HashIface.

Section Scans.
Context {W : Type}.
Implicit Types (x y : TMem W) (b i : nat) (c : nat * nat).

Abbreviation alone x := (mkSt x []).

(** A slot's loop, run alone, decides on the word that is there. *)
Lemma seq_cas_loop {A} x b i (st : Z -> step A) :
  cas_loop b i (fun p => mret (st p)) (alone x) =
    Some (match st (slot x b i) with
          | Leave a => (a, alone x)
          | Swap new a => (a, alone (set_slot x b i new))
          end).
Proof.
  unfold cas_loop, retry, cas_lap, laps, mbind, prog_bind, load, atomic, interfere. cbn.
  destruct (st (slot x b i)); [done|]. unfold compare_exchange, atomic, interfere. cbn.
  by rewrite Z.eqb_refl.
Qed.

Lemma find_app {A} (g : A -> bool) l l' :
  List.find g (l ++ l') = match List.find g l with Some a => Some a | None => List.find g l' end.
Proof. induction l as [|a l IH]; simpl; [done|]. by destruct (g a). Qed.

Lemma find_map {A B} (g : B -> bool) (f : A -> B) l :
  List.find g (map f l) = f <$> List.find (fun a => g (f a)) l.
Proof. induction l as [|a l IH]; simpl; [done|]. by destruct (g (f a)). Qed.

Section Bodies.
Context (x : TMem W) (g : nat * nat -> bool).

(** Scans whose body acts on the first slot [g] accepts. *)
Lemma seq_any_slots (upd : nat * nat -> TMem W) (h : nat -> nat -> prog (TMem W) bool) bs :
  (forall b i, h b i (alone x) = Some (g (b, i), alone (if g (b, i) then upd (b, i) else x))) ->
  any_of bs (fun b => any_of slots (h b)) (alone x) =
    Some (match List.find g (table_slots bs) with
          | Some c => (true, alone (upd c))
          | None => (false, alone x)
          end).
Proof.
  intros Hh.
  assert (forall b l, any_of l (h b) (alone x) =
    Some (match List.find g (map (pair b) l) with
          | Some c => (true, alone (upd c))
          | None => (false, alone x)
          end)) as Hb.
  { intros b l. induction l as [|i l IH]; simpl; [done|].
    unfold mbind, prog_bind. rewrite Hh. by destruct (g (b, i)). }
  induction bs as [|b bs IH]; [done|].
  cbn [any_of]. unfold mbind, prog_bind. rewrite Hb.
  unfold table_slots, bucket_slots. cbn [mbind list_bind]. rewrite find_app.
  destruct (List.find g (map (pair b) slots)); [done|]. apply IH.
Qed.

Lemma seq_first_slots {A} (val : nat * nat -> A) (h : nat -> nat -> prog (TMem W) (option A)) bs :
  (forall b i, h b i (alone x) = Some (if g (b, i) then Some (val (b, i)) else None, alone x)) ->
  first_of bs (fun b => first_of slots (h b)) (alone x) =
    Some (val <$> List.find g (table_slots bs), alone x).
Proof.
  intros Hh.
  assert (forall b l, first_of l (h b) (alone x) =
    Some (val <$> List.find g (map (pair b) l), alone x)) as Hb.
  { intros b l. induction l as [|i l IH]; simpl; [done|].
    unfold mbind, prog_bind. rewrite Hh. by destruct (g (b, i)). }
  induction bs as [|b bs IH]; [done|].
  cbn [first_of]. unfold mbind, prog_bind. rewrite Hb.
  unfold table_slots, bucket_slots. cbn [mbind list_bind]. rewrite find_app.
  destruct (List.find g (map (pair b) slots)); [done|]. apply IH.
Qed.
End Bodies.
End Scans.

(** ** The instance *)

Record Index (W : Type) := mkIndex { table : Table; memory : TMem W }.
Arguments mkIndex {W}.
Arguments table {W}.
Arguments memory {W}.

Section Index.
Context {W : Type} (hash_key : bytes -> Z).
Implicit Types (x : Index W) (c : nat * nat).

(** [run] of an operation of the table; it always returns. *)
Definition exec {A} (d : A) (p : prog (TMem W) A) x : A * Index W :=
  match run p (memory x) with
  | Some (a, m) => (a, mkIndex (table x) m)
  | None => (d, x)
  end.

#[export] Instance index_hashtable : Hashtable (Index W) := {
  get_item_frequency x k l := (exec None (Table.get_item_frequency hash_key (table x) k l) x).1;
  remove x k l := exec false (Table.remove hash_key (table x) k l) x;
  cas_location x k old new r :=
    exec false (Table.cas_location hash_key (table x) k old new r) x
}.

Definition word x c : Z := slot (memory x) c.1 c.2.

Definition entry_at x k l : option (nat * nat) :=
  List.find (fun c => is_entry (key_tag hash_key k) l (word x c)) (candidates hash_key (table x) k).

Definition live_word (p : Z) : bool := negb ((p =? 0) || Hashbucket.is_ghost p).

Record index_inv x : Prop := {
  inv_table : wf_table (table x) (memory x);
  inv_placed c : in_table (memory x) c.1 c.2 -> live_word (word x c) = true ->
    exists k, c ∈ candidates hash_key (table x) k /\
      Hashbucket.tag (word x c) = key_tag hash_key k;
  inv_unique c c' : in_table (memory x) c.1 c.2 -> in_table (memory x) c'.1 c'.2 ->
    live_word (word x c) = true -> live_word (word x c') = true ->
    Hashbucket.location (word x c) = Hashbucket.location (word x c') -> c = c';
  inv_loc c : in_table (memory x) c.1 c.2 -> live_word (word x c) = true ->
    item_loc (Hashbucket.location (word x c))
}.

Lemma is_entry_live tag l p :
  is_entry tag l p = true <->
  live_word p = true /\ Hashbucket.tag p = tag /\ Hashbucket.location p = l.
Proof.
  unfold is_entry, live_word. rewrite !negb_true_iff, !orb_false_iff, !negb_false_iff, !Z.eqb_eq.
  tauto.
Qed.

Lemma get_entry x k l :
  get_item_frequency x k l = (fun c => Hashbucket.freq (word x c)) <$> entry_at x k l.
Proof.
  cbn [get_item_frequency index_hashtable]. unfold exec, run, Table.get_item_frequency, probe, probe_with_hash.
  cbv beta iota zeta. fold (key_buckets hash_key (table x) k). unfold search_bucket_for_item_freq.
  rewrite (seq_first_slots (memory x) (fun c => is_entry (tag_from_hash (hash_key k)) l (word x c))
    (fun c => Hashbucket.freq (word x c))); [done|].
  intros b i. unfold mbind, prog_bind, load, atomic, interfere. cbn.
  unfold live_with_tag, is_entry, word. cbn [fst snd].
  destruct ((slot (memory x) b i =? 0) || Hashbucket.is_ghost (slot (memory x) b i)
    || negb (Hashbucket.tag (slot (memory x) b i) =? tag_from_hash (hash_key k))) eqn:E; cbn; [done|].
  rewrite E. cbn. by destruct (_ =? l).
Qed.

(** A mutator swaps the word of the entry. *)
Lemma mutator_entry x k l (upd : Z -> Z) (h : nat -> prog (TMem W) bool) :
  (forall b, h b = any_of slots (fun i => cas_loop b i (fun p =>
     mret (if is_entry (key_tag hash_key k) l p then Swap (upd p) true else Leave false)))) ->
  exec false (any_of (key_buckets hash_key (table x) k) h) x =
    match entry_at x k l with
    | Some c => (true, mkIndex (table x) (set_slot (memory x) c.1 c.2 (upd (word x c))))
    | None => (false, x)
    end.
Proof.
  intros Hh. unfold exec, run.
  assert (any_of (key_buckets hash_key (table x) k) h =
    any_of (key_buckets hash_key (table x) k) (fun b => any_of slots (fun i => cas_loop b i (fun p =>
     mret (if is_entry (key_tag hash_key k) l p then Swap (upd p) true else Leave false))))) as ->.
  { induction (key_buckets hash_key (table x) k) as [|b bs IH]; simpl; [done|]. by rewrite Hh, IH. }
  rewrite (seq_any_slots (memory x) (fun c => is_entry (key_tag hash_key k) l (word x c))
    (fun c => set_slot (memory x) c.1 c.2 (upd (word x c)))).
  - fold (candidates hash_key (table x) k) (entry_at x k l). destruct (entry_at x k l); [done|]. by destruct x.
  - intros b i. rewrite seq_cas_loop. unfold word. cbn [fst snd]. by destruct (is_entry _ _ _).
Qed.

(** ** The laws *)

Lemma entry_at_spec x k l c :
  entry_at x k l = Some c ->
  c ∈ candidates hash_key (table x) k /\ is_entry (key_tag hash_key k) l (word x c) = true.
Proof. intros [? ?]%List.find_some. by rewrite list_elem_of_In. Qed.

Lemma find_ext {A} (f g : A -> bool) l :
  (forall a, a ∈ l -> f a = g a) -> List.find f l = List.find g l.
Proof.
  induction l as [|a l IH]; intros H; simpl; [done|].
  rewrite (H a) by by left. rewrite IH; [done|]. intros b Hb. apply H. by right.
Qed.

Lemma find_none_all {A} (f : A -> bool) l :
  (forall a, a ∈ l -> f a = false) -> List.find f l = None.
Proof.
  induction l as [|a l IH]; intros H; simpl; [done|].
  rewrite (H a) by by left. apply IH. intros b Hb. apply H. by right.
Qed.

Section Update.
Context (x : Index W) (k : bytes) (l : Z) (c : nat * nat) (v : Z).
Context (Hinv : index_inv x) (He : entry_at x k l = Some c).

Definition updated : Index W := mkIndex (table x) (set_slot (memory x) c.1 c.2 v).

Lemma entry_cell : in_table (memory x) c.1 c.2 /\ live_word (word x c) = true /\
  Hashbucket.tag (word x c) = key_tag hash_key k /\ Hashbucket.location (word x c) = l.
Proof.
  destruct (entry_at_spec _ _ _ _ He) as [Hc (? & ? & ?)%is_entry_live].
  split; [|done]. eapply candidates_in_table; [apply Hinv|done].
Qed.

Lemma word_updated c' : word updated c' = if decide (c' = c) then v else word x c'.
Proof.
  unfold word, updated. cbn [memory]. destruct entry_cell as [Hc _].
  rewrite slot_set_slot by (try done; apply Hinv). destruct c, c'. cbn [fst snd].
  repeat case_decide; naive_solver.
Qed.

Lemma in_table_updated c' : in_table (memory updated) c'.1 c'.2 <-> in_table (memory x) c'.1 c'.2.
Proof. unfold in_table, updated. cbn [memory set_slot buckets]. by rewrite length_alter. Qed.

(** A candidate of another key at the same location is the same cell. *)
Lemma only_entry k' c' :
  c' ∈ candidates hash_key (table x) k' ->
  is_entry (key_tag hash_key k') l (word x c') = true -> c' = c.
Proof.
  intros Hc' (? & _ & ?)%is_entry_live. destruct entry_cell as (? & ? & _ & ?).
  eapply inv_unique; try done; [|congruence]. eapply candidates_in_table; [apply Hinv|done].
Qed.

Lemma updated_inv :
  fits 64 v ->
  (live_word v = true -> Hashbucket.tag v = key_tag hash_key k /\
     item_loc (Hashbucket.location v) /\
     forall c', in_table (memory x) c'.1 c'.2 -> live_word (word x c') = true ->
       Hashbucket.location (word x c') <> Hashbucket.location v) ->
  index_inv updated.
Proof.
  intros Hv Hl. destruct Hinv as [Hwf Hplaced Huniq Hloc]. destruct entry_cell as (Hc & _).
  split.
  - apply wf_table_set_slot; done.
  - intros c' Hc'%in_table_updated. rewrite word_updated. case_decide as E; [subst c'|by apply Hplaced].
    intros Hlv. exists k. split; [by apply entry_at_spec in He as [? _]|by apply Hl].
  - intros c1 c2 H1%in_table_updated H2%in_table_updated. rewrite !word_updated.
    repeat case_decide; subst; try done.
    + intros Hlv Hlw E. destruct (Hl Hlv) as (_ & _ & Hne). exfalso. by apply (Hne c2).
    + intros Hlw Hlv E. destruct (Hl Hlv) as (_ & _ & Hne). exfalso. by apply (Hne c1).
    + by apply Huniq.
  - intros c' Hc'%in_table_updated. rewrite word_updated. case_decide as E; [subst c'|by apply Hloc].
    intros Hlv. by apply Hl.
Qed.
End Update.

Lemma remove_entry x k l :
  remove x k l = match entry_at x k l with
                 | Some c => (true, updated x c 0)
                 | None => (false, x)
                 end.
Proof. apply (mutator_entry x k l (fun _ => 0)). done. Qed.

Lemma cas_entry x k old new r :
  cas_location x k old new r =
    match entry_at x k old with
    | Some c => (true, updated x c (Hashbucket.pack (key_tag hash_key k)
                  (relink_freq r (Hashbucket.freq (word x c))) new))
    | None => (false, x)
    end.
Proof.
  apply (mutator_entry x k old (fun p =>
    Hashbucket.pack (key_tag hash_key k) (relink_freq r (Hashbucket.freq p)) new)). done.
Qed.

Lemma entry_at_unlinked x k l c k' l' :
  index_inv x -> entry_at x k l = Some c ->
  entry_at (updated x c 0) k' l' = if l' =? l then None else entry_at x k' l'.
Proof.
  intros Hinv He. unfold entry_at at 1. destruct (Z.eqb_spec l' l) as [->|Hne].
  - apply find_none_all. intros c' Hc'. rewrite (word_updated x k l) by done.
    case_decide as E; [done|]. destruct (is_entry _ l (word x c')) eqn:Ei; [|done].
    exfalso. by eapply E, only_entry.
  - apply find_ext. intros c' Hc'. rewrite (word_updated x k l) by done.
    case_decide as E; [subst c'|done]. symmetry.
    destruct (is_entry _ l' (word x c)) eqn:Ei; [|done]. exfalso.
    apply is_entry_live in Ei as (_ & _ & El). apply Hne. rewrite <- El.
    by destruct (entry_cell x k l c) as (_ & _ & _ & ?).
Qed.

Lemma get_unlinked x k l c k' l' :
  index_inv x -> entry_at x k l = Some c ->
  get_item_frequency (updated x c 0) k' l' = if l' =? l then None else get_item_frequency x k' l'.
Proof.
  intros Hinv He. rewrite !get_entry, (entry_at_unlinked x k l) by done.
  destruct (Z.eqb_spec l' l) as [->|Hne]; [done|].
  destruct (entry_at x k' l') as [c'|] eqn:E'; [|done]. cbn [fmap option_fmap option_map].
  rewrite (word_updated x k l) by done. case_decide; [subst c'|done].
  apply entry_at_spec in E' as [_ (_ & _ & E')%is_entry_live].
  destruct (entry_cell x k l c) as (_ & _ & _ & ?); [done..|]. congruence.
Qed.

Section Relocate.
Context (x : Index W) (k : bytes) (old new : Z) (r : RelinkFreq) (c : nat * nat).
Context (Hinv : index_inv x) (He : entry_at x k old = Some c).
Context (Hnew : item_loc new) (Hfree : unpublished x new).

Definition moved_word : Z :=
  Hashbucket.pack (key_tag hash_key k) (relink_freq r (Hashbucket.freq (word x c))) new.

Lemma relink_freq_fits f : fits 8 f -> fits 8 (relink_freq r f).
Proof. unfold fits, relink_freq, sat_sub. pow2. destruct r; lia. Qed.

Lemma moved_fields :
  Hashbucket.tag moved_word = key_tag hash_key k /\
  Hashbucket.freq moved_word = relink_freq r (Hashbucket.freq (word x c)) /\
  Hashbucket.location moved_word = new /\ live_word moved_word = true.
Proof.
  destruct Hnew as (Hf & H0 & Hg). unfold moved_word.
  destruct (Hashbucket.pack_fields (key_tag hash_key k) (relink_freq r (Hashbucket.freq (word x c))) new)
    as (E1 & E2 & E3); [apply key_tag_fits|apply relink_freq_fits, Hashbucket.freq_fits|done|].
  split_and!; try done. unfold live_word, Hashbucket.is_ghost, Location.is_ghost. rewrite E3.
  rewrite (proj2 (Z.eqb_neq new _)) by done. rewrite andb_false_r.
  destruct (Z.eqb_spec (Hashbucket.pack (key_tag hash_key k) (relink_freq r (Hashbucket.freq (word x c))) new) 0)
    as [E|]; [|done]. exfalso. apply H0. rewrite <- E3, E. done.
Qed.

(** No live word holds a location that is published nowhere. *)
Lemma unpublished_word c' :
  in_table (memory x) c'.1 c'.2 -> live_word (word x c') = true ->
  Hashbucket.location (word x c') <> new.
Proof.
  intros Hc Hl E. destruct (inv_placed _ Hinv _ Hc Hl) as (k' & Hc' & Ht).
  specialize (Hfree k'). rewrite get_entry in Hfree. unfold entry_at in Hfree.
  destruct (List.find _ _) eqn:F; [done|].
  apply list_elem_of_In, (List.find_none _ _ F c') in Hc'.
  revert Hc'. rewrite <- not_true_iff_false, is_entry_live. tauto.
Qed.

Lemma moved_inv : index_inv (updated x c moved_word).
Proof.
  destruct moved_fields as (Ht & _ & El & _).
  eapply updated_inv; [done|done|apply Hashbucket.pack_fits|]. intros _. rewrite Ht, El.
  split; [done|]. split; [done|]. intros c' Hc' Hlv. by apply unpublished_word.
Qed.

Lemma entry_at_moved k' l' :
  entry_at (updated x c moved_word) k' l' =
    if l' =? new then entry_at x k' old else if l' =? old then None else entry_at x k' l'.
Proof.
  destruct moved_fields as (Ht & _ & El & Hlv).
  destruct (entry_cell x k old c Hinv He) as (Hc & Hlw & Htw & Hlo).
  assert (forall c', c' ∈ candidates hash_key (table x) k' ->
    is_entry (key_tag hash_key k') l' (word (updated x c moved_word) c') =
      if decide (c' = c) then (key_tag hash_key k =? key_tag hash_key k') && (l' =? new)
      else is_entry (key_tag hash_key k') l' (word x c')) as Hw.
  { intros c' _. rewrite (word_updated x k old) by done. case_decide; [|done].
    apply eq_bool_prop_intro. rewrite !Is_true_true, is_entry_live, andb_true_iff, !Z.eqb_eq, Ht, El. intuition. }
  assert (forall c' l1, c' ∈ candidates hash_key (table x) k' -> is_entry (key_tag hash_key k') l1 (word x c') = true ->
    in_table (memory x) c'.1 c'.2 /\ live_word (word x c') = true /\ Hashbucket.location (word x c') = l1) as Hcand.
  { intros c' l1 Hc' (? & _ & ?)%is_entry_live. split; [|done].
    eapply candidates_in_table; [apply Hinv|done]. }
  unfold entry_at at 1. destruct (Z.eqb_spec l' new) as [->|Hn]; [|destruct (Z.eqb_spec l' old) as [->|Ho]].
  - apply find_ext. intros c' Hc'. rewrite Hw by done. case_decide as E.
    + subst c'. rewrite andb_true_r. apply eq_bool_prop_intro.
      rewrite !Is_true_true, is_entry_live, Z.eqb_eq, Htw. tauto.
    + transitivity false.
      * destruct (is_entry _ new _) eqn:Ei; [|done]. exfalso.
        apply Hcand in Ei as (? & ? & ?); [|done]. by eapply unpublished_word.
      * symmetry. destruct (is_entry _ old _) eqn:Ei; [|done]. exfalso.
        by eapply E, only_entry.
  - apply find_none_all. intros c' Hc'. rewrite Hw by done. case_decide as E.
    + by rewrite andb_false_r.
    + destruct (is_entry _ old _) eqn:Ei; [|done]. exfalso. by eapply E, only_entry.
  - apply find_ext. intros c' Hc'. rewrite Hw by done. case_decide as E; [subst c'|done].
    rewrite andb_false_r. symmetry.
    destruct (is_entry _ l' _) eqn:Ei; [|done]. exfalso.
    apply Hcand in Ei as (_ & _ & ?); [|done]. congruence.
Qed.

Lemma get_moved k' l' :
  get_item_frequency (updated x c moved_word) k' l' =
    if l' =? new then relink_freq r <$> get_item_frequency x k' old
    else if l' =? old then None else get_item_frequency x k' l'.
Proof.
  destruct moved_fields as (_ & Ef & _).
  rewrite !get_entry, entry_at_moved. destruct (Z.eqb_spec l' new) as [->|Hn].
  - destruct (entry_at x k' old) as [c'|] eqn:E'; [|done]. cbn [fmap option_fmap option_map].
    apply entry_at_spec in E' as [Hc' Hi]. apply (only_entry x k old c) in Hi; [subst c'|done..].
    rewrite (word_updated x k old) by done. by rewrite decide_True, Ef by done.
  - destruct (Z.eqb_spec l' old) as [->|Ho]; [done|].
    destruct (entry_at x k' l') as [c'|] eqn:E'; [|done]. cbn [fmap option_fmap option_map].
    rewrite (word_updated x k old) by done. case_decide; [subst c'|done].
    apply entry_at_spec in E' as [_ (_ & _ & E')%is_entry_live].
    destruct (entry_cell x k old c) as (_ & _ & _ & ?); [done..|]. congruence.
Qed.
End Relocate.

Lemma get_none x k l : get_item_frequency x k l = None <-> entry_at x k l = None.
Proof. rewrite get_entry. by destruct (entry_at x k l). Qed.

Lemma index_remove_published x k l f :
  index_inv x -> get_item_frequency x k l = Some f ->
  exists x', remove x k l = (true, x') /\ index_inv x' /\
    forall k' l', get_item_frequency x' k' l' =
      if l' =? l then None else get_item_frequency x k' l'.
Proof.
  intros Hi Hg. rewrite remove_entry. rewrite get_entry in Hg.
  destruct (entry_at x k l) as [c|] eqn:E; [|done]. eexists. split; [done|]. split.
  - eapply updated_inv; [done|done|by vm_compute|]. done.
  - intros k' l'. by apply (get_unlinked x k l).
Qed.

Lemma index_cas_published x k old new r f :
  index_inv x -> get_item_frequency x k old = Some f -> item_loc new -> unpublished x new ->
  exists x', cas_location x k old new r = (true, x') /\ index_inv x' /\
    forall k' l', get_item_frequency x' k' l' =
      if l' =? new then relink_freq r <$> get_item_frequency x k' old
      else if l' =? old then None else get_item_frequency x k' l'.
Proof.
  intros Hi Hg Hn Hf. rewrite cas_entry. rewrite get_entry in Hg.
  destruct (entry_at x k old) as [c|] eqn:E; [|done]. eexists. split; [done|]. split.
  - by apply (moved_inv x k old).
  - intros k' l'. by apply (get_moved x k old).
Qed.

Lemma index_remove_unpublished x k l :
  index_inv x -> get_item_frequency x k l = None -> remove x k l = (false, x).
Proof. intros Hi Hg%get_none. by rewrite remove_entry, Hg. Qed.

Lemma index_cas_unpublished x k old new r :
  index_inv x -> get_item_frequency x k old = None -> cas_location x k old new r = (false, x).
Proof. intros Hi Hg%get_none. by rewrite cas_entry, Hg. Qed.

Lemma index_published_loc x k l f :
  index_inv x -> get_item_frequency x k l = Some f -> item_loc l.
Proof.
  intros Hi Hg. rewrite get_entry in Hg. destruct (entry_at x k l) as [c|] eqn:E; [|done].
  destruct (entry_cell x k l c) as (? & ? & _ & <-); [done..|]. by apply Hi.
Qed.

#[export] Instance index_lawful : LawfulHashtable (Index W) := {
  ht_inv := index_inv;
  remove_published := index_remove_published;
  remove_unpublished := index_remove_unpublished;
  cas_published := index_cas_published;
  cas_unpublished := index_cas_unpublished;
  published_loc := index_published_loc
}.

(** The table as it is built. *)
Lemma index_new power n (w : W) t m :
  with_choices power n w = Some (t, m) ->
  index_inv (mkIndex t m) /\ forall k l, get_item_frequency (mkIndex t m) k l = None.
Proof.
  intros Hb. destruct (with_choices_wf power n w t m Hb) as (Hwf & Hz & _).
  assert (forall c, word (mkIndex t m) c = 0) as Hw by (intros c; apply Hz).
  split.
  - split; [done|..]; intros *; by rewrite ?Hw.
  - intros k l. apply get_none, find_none_all. intros c _. by rewrite Hw.
Qed.

(** A finite account of a table: the cells that are live, with the key of each. *)
Section Known.
Context (x : Index W) (known : list (nat * nat * bytes)).

Definition all_known : bool :=
  forallb (fun c => negb (live_word (word x c)) || bool_decide (c ∈ known.*1))
    (table_slots (seq 0 (length (buckets (memory x))))).

Definition known_placed (q : nat * nat * bytes) : bool :=
  let l := Hashbucket.location (word x q.1) in
  bool_decide (q.1 ∈ candidates hash_key (table x) q.2) &&
  (Hashbucket.tag (word x q.1) =? key_tag hash_key q.2) &&
  (0 <? l) && (l <? Location.GHOST).

Definition known_distinct : bool :=
  bool_decide (NoDup (map (fun q => Hashbucket.location (word x q.1)) known)).

Context (Hwf : wf_table (table x) (memory x)) (Hall : all_known = true)
  (Hplaced : forallb known_placed known = true) (Hdistinct : known_distinct = true).

Lemma live_known c :
  in_table (memory x) c.1 c.2 -> live_word (word x c) = true ->
  exists q, q ∈ known /\ q.1 = c /\ known_placed q = true.
Proof.
  intros [Hb Hi] Hl. unfold all_known in Hall. rewrite forallb_forall in Hall.
  assert (c ∈ known.*1) as (q & -> & Hq)%list_elem_of_fmap.
  { apply (bool_decide_unpack _). specialize (Hall c). rewrite Hl in Hall. apply Is_true_true, Hall.
    rewrite <- list_elem_of_In. rewrite elem_of_table_slots. split; [apply elem_of_seq; lia|done]. }
  exists q. split; [done|]. split; [done|]. rewrite forallb_forall in Hplaced.
  apply Hplaced. by apply list_elem_of_In.
Qed.

Lemma known_placed_spec q : known_placed q = true ->
  q.1 ∈ candidates hash_key (table x) q.2 /\ Hashbucket.tag (word x q.1) = key_tag hash_key q.2 /\
  item_loc (Hashbucket.location (word x q.1)).
Proof.
  unfold known_placed. rewrite !andb_true_iff, bool_decide_eq_true, Z.eqb_eq, !Z.ltb_lt.
  intros [[[? ?] ?] ?]. split; [done|]. split; [done|].
  split; [apply Hashbucket.location_fits|lia].
Qed.

Lemma known_inv : index_inv x.
Proof.
  split; [done|..].
  - intros c Hc Hl. destruct (live_known c Hc Hl) as (q & _ & <- & (? & ? & _)%known_placed_spec). eauto.
  - intros c c' Hc Hc' Hl Hl' E.
    destruct (live_known c Hc Hl) as (q & Hq & <- & _). destruct (live_known c' Hc' Hl') as (q' & Hq' & <- & _).
    unfold known_distinct in Hdistinct. rewrite bool_decide_eq_true in Hdistinct.
    apply list_elem_of_lookup in Hq as [i Hi], Hq' as [j Hj].
    assert (i = j) as ->; [|congruence].
    eapply NoDup_lookup; [exact Hdistinct|..].
    + by rewrite list_lookup_fmap, Hi.
    + by rewrite list_lookup_fmap, Hj, E.
  - intros c Hc Hl. by destruct (live_known c Hc Hl) as (q & _ & <- & (_ & _ & ?)%known_placed_spec).
Qed.

(** What is published is at a known location. *)
Lemma known_published k l f :
  get_item_frequency x k l = Some f -> exists q, q ∈ known /\ Hashbucket.location (word x q.1) = l.
Proof.
  intros Hg. rewrite get_entry in Hg. destruct (entry_at x k l) as [c|] eqn:E; [|done].
  apply entry_at_spec in E as [Hc (Hl & _ & <-)%is_entry_live].
  destruct (live_known c) as (q & Hq & <- & _); [eapply candidates_in_table; [apply Hwf|done]|done|eauto].
Qed.
End Known.

(** C22. The mutators of a sequential table are the updates of a map from locations
    to frequencies: an unlink takes out the one entry at its location and a
    relocation renames it, exactly when the key is published there, and the
    invariant is kept. *)
Theorem index_refines x k l new r :
  index_inv x -> item_loc new -> unpublished x new ->
  let f := get_item_frequency x in
  let hit := bool_decide (is_Some (f k l)) in
  (let '(ok, y) := remove x k l in
   ok = hit /\ index_inv y /\
   forall k' l', get_item_frequency y k' l' = if hit && (l' =? l) then None else f k' l') /\
  (let '(ok, y) := cas_location x k l new r in
   ok = hit /\ index_inv y /\
   forall k' l', get_item_frequency y k' l' =
     if negb hit then f k' l' else
     if l' =? new then relink_freq r <$> f k' l else if l' =? l then None else f k' l').
Proof.
  intros Hi Hn Hu f hit. subst f hit. destruct (get_item_frequency x k l) as [q|] eqn:E.
  - destruct (index_remove_published x k l q Hi E) as (y & -> & ? & ?).
    destruct (index_cas_published x k l new r q Hi E Hn Hu) as (z & -> & ? & ?).
    rewrite bool_decide_eq_true_2 by done. done.
  - rewrite index_remove_unpublished, index_cas_unpublished by done.
    rewrite bool_decide_eq_false_2 by (by intros [? ?]). done.
Qed.
End Index.

Module IndexDemo.
Import TableThms.Demo.

#[local] Instance demo_hashtable : Hashtable (Index Heap) := index_hashtable hash.

Definition x : Index Heap := mkIndex table one_entry.

#[local] Opaque one_entry.

(** The one live cell of the table. *)
Definition cells : list (nat * nat * bytes) :=
  [(default (0%nat, 0%nat) (entry_at hash x [1; 2; 3] 4096), [1; 2; 3])].

Lemma index_inv_x : index_inv hash x.
Proof. apply (known_inv hash x cells); [apply wf_one_entry|by vm_compute..]. Qed.

Lemma index_refines_witness :
  (let '(ok, y) := remove x [1; 2; 3] 4096 in
   ok = bool_decide (is_Some (get_item_frequency x [1; 2; 3] 4096)) /\ index_inv hash y /\
   forall k' l', get_item_frequency y k' l' =
     if bool_decide (is_Some (get_item_frequency x [1; 2; 3] 4096)) && (l' =? 4096) then None
     else get_item_frequency x k' l') /\
  (let '(ok, y) := cas_location x [1; 2; 3] 4096 12288 Decrement in
   ok = bool_decide (is_Some (get_item_frequency x [1; 2; 3] 4096)) /\ index_inv hash y /\
   forall k' l', get_item_frequency y k' l' =
     if negb (bool_decide (is_Some (get_item_frequency x [1; 2; 3] 4096)))
     then get_item_frequency x k' l' else
     if l' =? 12288 then relink_freq Decrement <$> get_item_frequency x k' 4096
     else if l' =? 4096 then None else get_item_frequency x k' l').
Proof.
  apply (index_refines hash x [1; 2; 3] 4096 12288 Decrement index_inv_x).
  - vm_compute. intuition congruence.
  - intros k. destruct (get_item_frequency x k 12288) as [f|] eqn:E; [|done]. exfalso.
    apply (known_published hash x cells) in E as (q & ->%list_elem_of_singleton & E);
      [revert E; by vm_compute|apply wf_one_entry|by vm_compute..].
Defined.

Example unlinked_and_gone :
  get_item_frequency x [1; 2; 3] 4096 = Some 1 /\
  get_item_frequency (remove x [1; 2; 3] 4096).2 [1; 2; 3] 4096 = None /\
  get_item_frequency (cas_location x [1; 2; 3] 4096 12288 Decrement).2 [1; 2; 3] 12288 = Some 0.
Proof. by vm_compute. Qed.
End IndexDemo.
