(* ===== verification/HashProbe.v ===== *)
(** * The hashtable and its verifier, run by one thread

    The operations of [Table] that compare keys, or go to a slot they were told
    of, on a table that obeys [index_inv]: what they answer in terms of what is
    published and of the verifier, and what they leave published. *)
From S2P Require Import Prelude Packing Atomics Table TableSpec TableThms HashIface HashSeq.

Section Probe.
Context {W Pin : Type} {KV : KeyVerifier W Pin} (hash_key : bytes -> Z).
Implicit Types (i : Index unit) (w : W) (k : bytes) (l : Z) (c : nat * nat).

#[local] Hint Extern 0 (Hashtable (Index unit)) => exact (index_hashtable hash_key) : typeclass_instances.

Abbreviation index_inv := (index_inv hash_key).
Abbreviation entry_at := (entry_at hash_key).
Abbreviation key_tag := (key_tag hash_key).
Abbreviation candidates i := (candidates hash_key (table i)).

(** The table with a verifier's world beside it, and back. *)
Definition lift_index w i : TMem W := mkTMem (buckets (memory i)) (freq_rng (memory i)) w.
Definition drop_index (t : Table) (m : TMem W) : Index unit :=
  mkIndex t (mkTMem (buckets m) (freq_rng m) tt).

Lemma drop_lift w i : drop_index (table i) (lift_index w i) = i.
Proof. by destruct i as [t [b r []]]. Qed.

Lemma word_drop t m c : word (drop_index t m) c = slot m c.1 c.2.
Proof. done. Qed.

Lemma wf_lift w i : wf_table (table i) (memory i) -> wf_table (table i) (lift_index w i).
Proof. intros [X1 X2 X3 X4 [X5 X6]]. split; done. Qed.

(** ** The same entries, with other frequencies *)

Definition similar i i' : Prop := table i' = table i /\ benign (memory i) (memory i').

Lemma similar_refl i : similar i i.
Proof. by split. Qed.

Lemma similar_benign w i m : benign (lift_index w i) m -> similar i (drop_index (table i) m).
Proof. intros [B1 _ B2]. split; [done|]. split; [exact B1|by destruct (world (memory i))|]. intros b j. apply B2. Qed.

Lemma similar_word i i' c : similar i i' -> same_entry (word i c) (word i' c).
Proof. intros [_ Hb]. apply Hb. Qed.

Lemma same_entry_live_word p q : same_entry p q -> live_word q = live_word p.
Proof. intros H. unfold live_word. by rewrite (same_entry_zero _ _ H), (same_entry_ghost _ _ H). Qed.

Lemma similar_entry_at i i' k l : similar i i' -> entry_at i' k l = entry_at i k l.
Proof.
  intros Hs. pose proof Hs as [Et _]. unfold HashSeq.entry_at. rewrite Et. apply find_ext.
  intros c _. apply same_entry_is_entry. by apply similar_word.
Qed.

Lemma similar_in_table i i' c : similar i i' -> in_table (memory i') c.1 c.2 <-> in_table (memory i) c.1 c.2.
Proof. intros [_ Hb]. unfold in_table. by rewrite (benign_length _ _ Hb). Qed.

Lemma similar_inv i i' : index_inv i -> similar i i' -> index_inv i'.
Proof.
  intros [I1 I2 I3 I4] Hs. pose proof Hs as [Et Hb].
  assert (forall c, live_word (word i' c) = live_word (word i c) /\
    Hashbucket.tag (word i' c) = Hashbucket.tag (word i c) /\
    Hashbucket.location (word i' c) = Hashbucket.location (word i c)) as Hw.
  { intros c. pose proof (similar_word _ _ c Hs) as Hc.
    by rewrite (same_entry_live_word _ _ Hc), (same_entry_tag _ _ Hc), (same_entry_location _ _ Hc). }
  split.
  - rewrite Et. by eapply wf_table_benign.
  - intros c. rewrite (similar_in_table _ _ _ Hs). destruct (Hw c) as (-> & -> & _). rewrite Et. apply I2.
  - intros c c'. rewrite !(similar_in_table _ _ _ Hs).
    destruct (Hw c) as (-> & _ & ->), (Hw c') as (-> & _ & ->). apply I3.
  - intros c. rewrite (similar_in_table _ _ _ Hs). destruct (Hw c) as (-> & _ & ->). apply I4.
Qed.

Lemma similar_sym i i' : index_inv i -> similar i i' -> similar i' i.
Proof.
  intros Hi [Et [B1 B2 B3]]. split; [done|]. split; [done|done|]. intros b j.
  destruct (B3 b j) as [->|(? & ? & ? & ? & ?)]; [by left|]. right.
  do 2 (split; [done|]). split; [apply (inv_table _ _ Hi)|done].
Qed.

Lemma similar_trans i i' i'' : similar i i' -> similar i' i'' -> similar i i''.
Proof. intros [E1 B1] [E2 B2]. split; [congruence|by transitivity (memory i')]. Qed.

(** The key is published at [l]. *)
Definition published i k l : Prop := is_Some (get_item_frequency i k l).

Lemma published_entry i k l : published i k l <-> is_Some (entry_at i k l).
Proof. unfold published. rewrite get_entry, fmap_is_Some. done. Qed.

Lemma similar_published i i' k l : similar i i' -> published i' k l <-> published i k l.
Proof. intros Hs. by rewrite !published_entry, (similar_entry_at i i'). Qed.

(** A live candidate with the key's tag publishes the key. *)
Lemma candidate_entry i k c :
  index_inv i -> c ∈ candidates i k -> live_with_tag (key_tag k) (word i c) = true ->
  entry_at i k (Hashbucket.location (word i c)) = Some c.
Proof.
  intros Hi Hc Hl.
  assert (is_entry (key_tag k) (Hashbucket.location (word i c)) (word i c) = true) as He.
  { unfold is_entry, live_with_tag in *. rewrite Z.eqb_refl. cbn [negb]. by rewrite orb_false_r. }
  unfold HashSeq.entry_at. destruct (List.find _ _) as [c'|] eqn:E.
  - f_equal. symmetry. eapply (only_entry hash_key i k (Hashbucket.location (word i c)) c' Hi E k c); done.
  - apply list_elem_of_In, (List.find_none _ _ E c) in Hc. congruence.
Qed.

Lemma entry_live i k l c :
  entry_at i k l = Some c ->
  c ∈ candidates i k /\ live_with_tag (key_tag k) (word i c) = true /\ Hashbucket.location (word i c) = l.
Proof.
  intros [Hc He]%entry_at_spec. split; [done|]. unfold is_entry, live_with_tag in *.
  rewrite negb_true_iff, orb_false_iff, negb_false_iff, Z.eqb_eq in He. destruct He as [He ->].
  split; [|done]. by rewrite He.
Qed.

(** ** Lookups *)

Definition slot_of k c : SlotRef :=
  {| bucket_index := u32 (Z.of_nat c.1); slot_index := u8 (Z.of_nat c.2); slot_tag := key_tag k |}.

Lemma slot_back i k l c :
  index_inv i -> entry_at i k l = Some c ->
  Z.to_nat (bucket_index (slot_of k c)) = c.1 /\ Z.to_nat (slot_index (slot_of k c)) = c.2.
Proof.
  intros Hi He. destruct (entry_cell hash_key i k l c Hi He) as ([Hb Hj] & _).
  destruct (inv_table _ _ Hi) as [(n & Hn & En) _ El _ _].
  assert (2 ^ n < 2 ^ 32) by (apply Z.pow_lt_mono_r; lia).
  cbn [slot_of bucket_index slot_index]. rewrite !wrap_id; [lia|unfold fits; pow2; lia..].
Qed.

(** What a search for [k] answers. *)
Definition answered i w k (r : Lookup (Hit Pin)) : Prop :=
  match r with
  | Found h => exists c pin, entry_at i k (hit_location h) = Some c /\
      verify w k (hit_location h) false = Match pin /\
      h = Build_Hit (hit_location h) (slot_of k c) pin
  | Absent => forall l, published i k l -> verify w k l false = DifferentKey
  | Unknown u => exists l, published i k l /\ verify w k l false = Unverified u
  end.

Lemma scanned_answered i w k r m :
  index_inv i ->
  scanned (examine (lift_index w i) (key_tag k) k false) (candidates i k)
    (hit_at (lift_index w i) (key_tag k)) (lift_index w i) r m ->
  similar i (drop_index (table i) m) /\ answered i w k r.
Proof.
  intros Hi. destruct r as [h| |u]; cbn [scanned answered].
  - intros (c & pin & Hc & Hex & Hm & ->). split; [by eapply similar_benign|].
    unfold examine in Hex. cbn [hit_location].
    change (slot (lift_index w i) c.1 c.2) with (word i c) in *.
    destruct (live_with_tag _ _) eqn:El; [|done]. exists c, pin.
    split; [by apply candidate_entry|]. done.
  - intros [Hm Hd]. split; [by eapply similar_benign|]. intros l [c He]%published_entry.
    destruct (entry_live _ _ _ _ He) as (Hc & El & <-). specialize (Hd c Hc). unfold examine in Hd.
    change (slot (lift_index w i) c.1 c.2) with (word i c) in Hd. by rewrite El in Hd.
  - intros (Hm & (c & Hc & Hex) & _). split; [by eapply similar_benign|].
    unfold examine in Hex. change (slot (lift_index w i) c.1 c.2) with (word i c) in Hex.
    destruct (live_with_tag _ _) eqn:El; [|done]. exists (Hashbucket.location (word i c)).
    split; [|done]. apply published_entry. eexists. by apply candidate_entry.
Qed.

Lemma probe_lookup (uf : bool) i w k :
  index_inv i -> exists r m,
    run (if uf then lookup hash_key (table i) k else lookup_no_freq_update hash_key (table i) k)
      (lift_index w i) = Some (r, m) /\
    similar i (drop_index (table i) m) /\ answered i w k r.
Proof.
  intros Hi. pose proof (wf_lift w i (inv_table _ _ Hi)) as Hwf.
  assert (exists r m,
    run (if uf then lookup hash_key (table i) k else lookup_no_freq_update hash_key (table i) k)
      (lift_index w i) = Some (r, m) /\
    scanned (examine (lift_index w i) (key_tag k) k false) (candidates i k)
      (hit_at (lift_index w i) (key_tag k)) (lift_index w i) r m) as (r & m & E & Hs).
  { destruct uf; apply (triple_run benign (benign (lift_index w i))); try reflexivity;
      [by apply lookup_spec_aux|by apply triple_key_search]. }
  exists r, m. split; [done|]. by apply scanned_answered.
Qed.

(** [lookup_slot] keeps the location and the slot. *)
Definition slot_hit (r : Lookup (Hit Pin)) : Lookup (Z * SlotRef) :=
  match r with
  | Found h => Found (hit_location h, hit_slot h)
  | Absent => Absent
  | Unknown u => Unknown u
  end.

Lemma probe_lookup_slot i w k :
  index_inv i -> exists r m,
    run (lookup_slot hash_key (table i) k) (lift_index w i) = Some (slot_hit r, m) /\
    similar i (drop_index (table i) m) /\ answered i w k r.
Proof.
  intros Hi. destruct (probe_lookup false i w k Hi) as (r & m & E & Hs & Ha).
  exists r, m. split; [|done]. revert E. unfold run, lookup_slot, mbind, prog_bind.
  destruct (lookup_no_freq_update hash_key (table i) k (mkSt (lift_index w i) [])) as [[r' s']|]; [|done].
  intros E. injection E as -> <-. by destruct r.
Qed.

(** ** A slot that is known *)

Lemma probe_publishes i w k l c l' :
  index_inv i -> entry_at i k l = Some c ->
  run (slot_publishes (slot_of k c) l') (lift_index w i) = Some (l =? l', lift_index w i).
Proof.
  intros Hi He. destruct (slot_back i k l c Hi He) as [E1 E2].
  unfold slot_publishes, run, mbind, prog_bind, load, atomic, interfere. cbn [mem sched].
  rewrite E1, E2. change (slot (lift_index w i) c.1 c.2) with (word i c).
  by destruct (entry_live _ _ _ _ He) as (_ & _ & ->).
Qed.

Lemma lift_updated w i c v : set_slot (lift_index w i) c.1 c.2 v = lift_index w (updated i c v).
Proof. done. Qed.

(** The exchange at the slot of the entry is [cas_location]'s. *)
Lemma probe_cas_at i w k old new c :
  index_inv i -> entry_at i k old = Some c ->
  run (cas_location_at (slot_of k c) old new true) (lift_index w i) =
    Some (true, lift_index w (cas_location i k old new Preserve).2) /\
  (cas_location i k old new Preserve).1 = true.
Proof.
  intros Hi He. rewrite cas_entry, He. split; [|done]. destruct (slot_back i k old c Hi He) as [E1 E2].
  unfold cas_location_at, run. rewrite E1, E2.
  rewrite (seq_cas_loop (lift_index w i) c.1 c.2).
  change (slot (lift_index w i) c.1 c.2) with (word i c).
  destruct (entry_cell hash_key i k old c Hi He) as (_ & Hl & Ht & El).
  unfold live_word in Hl. rewrite negb_true_iff in Hl. rewrite Hl. cbn [slot_tag slot_of].
  by rewrite Ht, El, !Z.eqb_refl.
Qed.

(** ** Operations without the verifier *)

Abbreviation indexed w i := (mkIndex (table i) (lift_index w i) : Index W).

Lemma indexed_entry w i k l : HashSeq.entry_at hash_key (indexed w i) k l = entry_at i k l.
Proof. done. Qed.

Lemma probe_remove i w k l :
  run (Table.remove hash_key (table i) k l) (lift_index w i) =
    Some ((remove i k l).1, lift_index w (remove i k l).2).
Proof.
  rewrite (remove_entry hash_key i k l).
  assert (exists q, run (Table.remove hash_key (table i) k l) (lift_index w i) = Some q) as [[b m] E].
  { unfold run, Table.remove, probe, probe_with_hash.
    fold (key_buckets hash_key (table i) k). unfold try_unlink_in_bucket.
    rewrite (seq_any_slots (lift_index w i)
      (fun c => is_entry (tag_from_hash (hash_key k)) l (slot (lift_index w i) c.1 c.2))
      (fun c => set_slot (lift_index w i) c.1 c.2 0)); [destruct (List.find _ _); eauto|].
    intros b j. rewrite seq_cas_loop. cbn [fst snd]. by destruct (is_entry _ _ _). }
  pose proof (remove_entry hash_key (indexed w i) k l) as Er.
  cbn [HashIface.remove index_hashtable] in Er. unfold exec in Er. cbn [table memory] in Er.
  rewrite indexed_entry in Er. rewrite E in Er |- *.
  destruct (entry_at i k l) as [c|]; injection Er as -> ->; done.
Qed.

Lemma probe_frequency i w k l :
  run (Table.get_item_frequency hash_key (table i) k l) (lift_index w i) =
    Some (get_item_frequency i k l, lift_index w i).
Proof.
  rewrite (get_entry hash_key i k l).
  unfold run, Table.get_item_frequency, probe, probe_with_hash. fold (key_buckets hash_key (table i) k).
  unfold search_bucket_for_item_freq.
  rewrite (seq_first_slots (lift_index w i)
    (fun c => is_entry (tag_from_hash (hash_key k)) l (word i c)) (fun c => Hashbucket.freq (word i c))); [done|].
  intros b j. unfold mbind, prog_bind, load, atomic, interfere. cbn [mem sched].
  change (slot (lift_index w i) b j) with (word i (b, j)).
  unfold live_with_tag, is_entry.
  destruct ((word i (b, j) =? 0) || Hashbucket.is_ghost (word i (b, j))
    || negb (Hashbucket.tag (word i (b, j)) =? tag_from_hash (hash_key k))) eqn:E; cbn [negb orb]; [done|].
  cbn [mem sched]. change (slot (lift_index w i) b j) with (word i (b, j)).
  rewrite E. cbn [negb andb orb]. by destruct (_ =? l).
Qed.

(** ** A new entry *)

Section Fresh.
Context (i : Index unit) (k : bytes) (l : Z) (c : nat * nat) (v : Z).
Context (Hi : index_inv i) (Hc : c ∈ candidates i k) (Hdead : live_word (word i c) = false).
Context (Hv : fits 64 v) (Hlv : live_word v = true) (Ht : Hashbucket.tag v = key_tag k).
Context (Hl : Hashbucket.location v = l) (Hloc : item_loc l) (Hun : unpublished i l).

Lemma fresh_cell : in_table (memory i) c.1 c.2.
Proof. eapply candidates_in_table; [apply (inv_table _ _ Hi)|done]. Qed.

Lemma word_fresh c' : word (updated i c v) c' = if decide (c' = c) then v else word i c'.
Proof.
  unfold word, updated. cbn [memory].
  rewrite slot_set_slot by (exact fresh_cell || apply (inv_table _ _ Hi)).
  destruct c, c'. cbn [fst snd]. repeat case_decide; naive_solver.
Qed.

Lemma in_table_fresh c' : in_table (memory (updated i c v)) c'.1 c'.2 <-> in_table (memory i) c'.1 c'.2.
Proof. unfold in_table, updated. cbn [memory set_slot buckets]. by rewrite length_alter. Qed.

Lemma fresh_unpublished c' :
  in_table (memory i) c'.1 c'.2 -> live_word (word i c') = true -> Hashbucket.location (word i c') <> l.
Proof. intros. by eapply unpublished_word. Qed.

Lemma fresh_inv : index_inv (updated i c v).
Proof.
  destruct Hi as [I1 I2 I3 I4]. split.
  - apply wf_table_set_slot; [done|exact fresh_cell|done].
  - intros c' Hc'%in_table_fresh. rewrite word_fresh. case_decide; [subst c'|by apply I2].
    intros _. by exists k.
  - intros c1 c2 H1%in_table_fresh H2%in_table_fresh. rewrite !word_fresh.
    destruct (decide (c1 = c)) as [->|], (decide (c2 = c)) as [->|]; try done.
    + rewrite Hl. intros _ H3 E. exfalso. by apply (fresh_unpublished c2 H2 H3).
    + rewrite Hl. intros H3 _ E. exfalso. by apply (fresh_unpublished c1 H1 H3).
    + by apply I3.
  - intros c' Hc'%in_table_fresh. rewrite word_fresh. case_decide; [by rewrite Hl|by apply I4].
Qed.

Lemma fresh_entry_at k' l' :
  l' <> l -> entry_at (updated i c v) k' l' = entry_at i k' l'.
Proof.
  intros Hne. unfold HashSeq.entry_at. apply find_ext. intros c' _. rewrite word_fresh.
  case_decide; [subst c'|done]. unfold live_word in Hdead. rewrite negb_false_iff in Hdead.
  transitivity false; [|unfold is_entry; by rewrite Hdead].
  unfold is_entry. rewrite Hl, (proj2 (Z.eqb_neq l l')) by done. cbn [negb]. by rewrite orb_true_r.
Qed.

Lemma fresh_new : entry_at (updated i c v) k l = Some c.
Proof.
  pose proof (candidate_entry (updated i c v) k c fresh_inv Hc) as E.
  rewrite word_fresh, decide_True in E by done. rewrite Hl in E. apply E.
  unfold live_with_tag. unfold live_word in Hlv. rewrite negb_true_iff in Hlv.
  by rewrite Hlv, Ht, Z.eqb_refl.
Qed.
End Fresh.

(** [insert] of a key whose published candidates all hold other keys. *)
Lemma probe_insert i w k l :
  index_inv i -> item_loc l -> unpublished i l ->
  (forall l', published i k l' -> verify w k l' true = DifferentKey) ->
  exists r m, run (Table.insert hash_key (table i) k l) (lift_index w i) = Some (r, m) /\
    let i' := drop_index (table i) m in
    match r with
    | Some Created => index_inv i' /\ published i' k l /\
        forall k' l', l' <> l -> published i' k' l' <-> published i k' l'
    | None => similar i i'
    | _ => False
    end.
Proof.
  intros Hi Hl Hun Hd. pose proof (wf_lift w i (inv_table _ _ Hi)) as Hwf.
  assert (exists r m, run (Table.insert hash_key (table i) k l) (lift_index w i) = Some (r, m) /\
    inserted hash_key (table i) (lift_index w i) k (Hashbucket.pack (key_tag k) 1 l) r m) as (r & m & E & Hr).
  { apply (triple_run benign (benign (lift_index w i))); [by apply insert_spec_aux|reflexivity]. }
  exists r, m. split; [done|]. cbv zeta.
  assert (forall c, c ∈ candidates i k -> examine (lift_index w i) (key_tag k) k true c = DifferentKey) as Hex.
  { intros c Hc. unfold examine. change (slot (lift_index w i) c.1 c.2) with (word i c).
    destruct (live_with_tag _ _) eqn:El; [|done]. apply Hd, published_entry. eexists. by apply candidate_entry. }
  destruct r as [[|old|u]|].
  - destruct Hr as [_ (c & Hc & Hcr)].
    assert (live_word (word i c) = false /\ exists upd, swapped (lift_index w i) c upd m /\
      forall p, fits 64 (upd p) /\ live_with_tag (key_tag k) (upd p) = true /\ Hashbucket.location (upd p) = l)
      as (Hdead & upd & (z & Hz & ->) & Hupd).
    { unfold created_at in Hcr. cbv zeta in Hcr. change (slot (lift_index w i) c.1 c.2) with (word i c) in Hcr.
      assert (forall v, (v = Hashbucket.pack (key_tag k) 1 l \/ exists p, v = carried (Hashbucket.pack (key_tag k) 1 l) p) ->
        fits 64 v /\ live_with_tag (key_tag k) v = true /\ Hashbucket.location v = l) as Hnew.
      { intros v. by apply new_word. }
      assert (forall p, p = 0 \/ Hashbucket.is_ghost p = true -> live_word p = false) as Hgh.
      { intros p. unfold live_word. intros [->| ->]; [done|by rewrite orb_true_r]. }
      destruct Hcr as [[Hp Hs]|[[Hp Hs]|(Hp & _ & Hs)]]; (split; [by apply Hgh; auto|]);
        eexists; (split; [exact Hs|]); intros p; apply Hnew; eauto. }
    destruct (Hupd (slot z c.1 c.2)) as (U1 & U2 & U3).
    set (v := upd (slot z c.1 c.2)) in *. set (i1 := drop_index (table i) z).
    pose proof (similar_benign w i z Hz) as Hs1. fold i1 in Hs1.
    pose proof (similar_inv i i1 Hi Hs1) as Hi1.
    assert (drop_index (table i) (set_slot z c.1 c.2 v) = updated i1 c v) as -> by done.
    assert (live_word (word i1 c) = false) as Hd1.
    { by rewrite (same_entry_live_word _ _ (similar_word i i1 c Hs1)). }
    assert (unpublished i1 l) as Hu1.
    { intros k'. destruct (get_item_frequency i1 k' l) as [f|] eqn:Ef; [|done]. exfalso.
      assert (published i1 k' l) as [f' Hf']%(similar_published i i1 k' l Hs1) by (eexists; exact Ef).
      by rewrite (Hun k') in Hf'. }
    assert (live_word v = true /\ Hashbucket.tag v = key_tag k) as [Hlv Htv].
    { unfold live_with_tag, live_word in *. rewrite negb_true_iff, orb_false_iff, negb_false_iff, Z.eqb_eq in U2.
      destruct U2 as [-> ->]. done. }
    split; [by apply (fresh_inv i1 k l c v)|].
    split; [apply published_entry; exists c; by apply (fresh_new i1 k l c v)|].
    intros k' l' Hne. rewrite !published_entry, (fresh_entry_at i1 k l c v) by done.
    by rewrite (similar_entry_at i i1).
  - destruct Hr as (c & pin & Hc & Hm & _). rewrite Hex in Hm; done.
  - destruct Hr as (_ & (c & Hc & Hm) & _). rewrite Hex in Hm; done.
  - destruct Hr as (Hb & _). by eapply similar_benign.
Qed.
End Probe.
