(* ===== verification/KvItem.v ===== *)
(** * Cache items

    The item representation of the [keyvalue] crate: sizes ([lib.rs],
    [item/mod.rs]), the header accessors ([item/header.rs]) and [RawItem]
    with its numeric version guard ([item/raw.rs]), on the bytes of the buffer
    the item starts at. [integrity] is the cargo feature; [crc32] is the hash
    of the [crc32fast] crate, of which only that it is a function of the
    concatenated input is used. Native-endian fields are little-endian, as on
    the supported targets. The operations here are those of one thread:
    the races on the version word of a numeric item are not modelled. *)
From S2P Require Import Prelude.

Inductive Value :=
| Bytes (v : bytes)
| U64 (v : Z).

(** A value as the API accepts it. *)
Definition value_ok (v : Value) : Prop :=
  match v with
  | Bytes v => Forall is_byte v /\ fits 32 (blen v)
  | U64 v => fits 64 v
  end.

Definition size_of (value : Value) : Z :=
  match value with
  | Bytes v => blen v
  | U64 _ => 8
  end.

(** [parse_simple_numeric]: [None] for anything but a canonical decimal. *)
Definition is_ascii_digit (b : Z) : bool := (48 <=? b) && (b <=? 57).

Fixpoint parse_digits (bs : bytes) (value : Z) : option Z :=
  match bs with
  | [] => Some value
  | b :: bs =>
      if negb (is_ascii_digit b) then None
      else
        value ← checked 64 (value * 10);
        value ← checked 64 (value + (b - 48));
        parse_digits bs value
  end.

Definition parse_simple_numeric (bs : bytes) : option Z :=
  match bs with
  | [] => None
  | b :: rest =>
      if (1 <? blen bs) && (b =? 48) then None else parse_digits bs 0
  end.

Section Item.
Context (integrity : bool) (crc32 : bytes -> Z).
Implicit Types (buf key optional : bytes) (value : Value).

(** ** Layout *)

Definition ITEM_HDR_SIZE : Z := if integrity then 12 else 6.
Definition ITEM_MAGIC : bytes := [0xCA; 0xFE].
Definition NUMERIC_MASK : Z := 0x80.
Definition DELETE_MASK : Z := 0x40.
Definition OLEN_MASK : Z := 0x3F.

(** [ItemHeader]: magic (with integrity), klen, flags, vlen, crc32 (with
    integrity). *)
Definition KLEN_OFFSET : Z := if integrity then 2 else 0.
Definition FLAGS_OFFSET : Z := KLEN_OFFSET + 1.
Definition VLEN_OFFSET : Z := KLEN_OFFSET + 2.
Definition CRC_OFFSET : Z := ITEM_HDR_SIZE - 4.

Definition numeric_value_pad (klen olen : Z) : Z :=
  (8 - ((ITEM_HDR_SIZE + olen + klen) mod 8)) mod 8.

Definition item_size_for (klen olen extra vlen : Z) : Z :=
  let raw := ITEM_HDR_SIZE + olen + klen + extra + vlen in
  Z.shiftl (Z.shiftr raw 3 + 1) 3.

Definition item_size (klen : Z) value (olen : Z) : Z :=
  let extra := match value with
               | U64 _ => numeric_value_pad klen olen + 8
               | Bytes _ => 0
               end in
  item_size_for klen olen extra (size_of value).

(** ** Header accessors *)

Definition get_uint (n : nat) (off : Z) buf : Z := le_value (slice off (Z.of_nat n) buf).
Definition set_uint (n : nat) (off v : Z) buf : bytes := blit off (le_bytes n v) buf.

Definition klen buf : Z := get_uint 1 KLEN_OFFSET buf.
Definition set_klen (v : Z) buf : bytes := set_uint 1 KLEN_OFFSET v buf.
Definition flags buf : Z := get_uint 1 FLAGS_OFFSET buf.
Definition set_flags (v : Z) buf : bytes := set_uint 1 FLAGS_OFFSET v buf.
Definition vlen buf : Z := get_uint 4 VLEN_OFFSET buf.
Definition set_vlen (v : Z) buf : bytes := set_uint 4 VLEN_OFFSET v buf.
Definition stored_crc32 buf : Z := get_uint 4 CRC_OFFSET buf.
Definition set_crc32 (v : Z) buf : bytes := set_uint 4 CRC_OFFSET v buf.

Definition init buf : bytes :=
  let buf := set_klen 0 buf in
  let buf := set_flags 0 buf in
  let buf := set_vlen 0 buf in
  if integrity then set_crc32 0 (blit 0 ITEM_MAGIC buf) else buf.

(** [check_magic]: whether its [assert_eq!] holds. *)
Definition check_magic buf : bool :=
  if integrity then bool_decide (slice 0 2 buf = ITEM_MAGIC) else true.

Definition olen buf : Z := Z.land (flags buf) OLEN_MASK.

Definition set_olen (v : Z) buf : bytes :=
  set_flags (Z.lor (Z.land (flags buf) (wnot 8 OLEN_MASK)) (Z.land v OLEN_MASK)) buf.

Definition is_numeric buf : bool := negb (Z.land (flags buf) NUMERIC_MASK =? 0).

Definition set_numeric (numeric : bool) buf : bytes :=
  if numeric then set_flags (Z.lor (flags buf) NUMERIC_MASK) buf
  else set_flags (Z.land (flags buf) (wnot 8 NUMERIC_MASK)) buf.

Definition is_deleted buf : bool := negb (Z.land (flags buf) DELETE_MASK =? 0).

(** [set_deleted]: one atomic [fetch_or] or [fetch_and] on the flags byte. *)
Definition set_deleted (deleted : bool) buf : bytes :=
  if deleted then set_flags (Z.lor (flags buf) DELETE_MASK) buf
  else set_flags (Z.land (flags buf) (wnot 8 DELETE_MASK)) buf.

(** ** Offsets and reads *)

Definition optional_offset : Z := ITEM_HDR_SIZE.
Definition key_offset buf : Z := optional_offset + olen buf.

Definition value_offset buf : Z :=
  let unpadded := key_offset buf + klen buf in
  if is_numeric buf then unpadded + numeric_value_pad (klen buf) (olen buf) else unpadded.

Definition size buf : Z :=
  let extra := if is_numeric buf then numeric_value_pad (klen buf) (olen buf) + 8 else 0 in
  let raw := ITEM_HDR_SIZE + olen buf + klen buf + extra + vlen buf in
  Z.shiftl (Z.shiftr raw 3 + 1) 3.

Definition key buf : bytes := slice (key_offset buf) (klen buf) buf.

Definition optional buf : option bytes :=
  if 0 <? olen buf then Some (slice optional_offset (olen buf) buf) else None.

Definition value_word buf : Z := get_uint 8 (value_offset buf) buf.
Definition set_value_word (v : Z) buf : bytes := set_uint 8 (value_offset buf) v buf.
Definition version_word buf : Z := get_uint 8 (value_offset buf + 8) buf.
Definition set_version_word (v : Z) buf : bytes := set_uint 8 (value_offset buf + 8) v buf.

(** [value]: without other threads, a version left odd makes the seqlock
    reader spin forever ([None]). *)
Definition read_value buf : option Value :=
  if is_numeric buf then
    if Z.odd (version_word buf) then None else Some (U64 (value_word buf))
  else Some (Bytes (slice (value_offset buf) (vlen buf) buf)).

Definition numeric_version buf : option Z :=
  if is_numeric buf then Some (version_word buf) else None.

(** ** Integrity *)

Definition header_prefix buf : bytes :=
  slice 0 FLAGS_OFFSET buf ++ [flags buf] ++
  slice (FLAGS_OFFSET + 1) (CRC_OFFSET - FLAGS_OFFSET - 1) buf ++ [0; 0; 0; 0].

Definition compute_crc_numeric (value : Z) buf : Z :=
  let after_offset := CRC_OFFSET + 4 in
  let value_offset := value_offset buf in
  crc32 (header_prefix buf ++
         (if after_offset <? value_offset
          then slice after_offset (value_offset - after_offset) buf else []) ++
         le_bytes 8 value).

Definition compute_crc_span (e : Z) buf : Z :=
  let after_offset := CRC_OFFSET + 4 in
  crc32 (header_prefix buf ++
         (if after_offset <? e then slice after_offset (e - after_offset) buf else [])).

Definition compute_crc buf : Z :=
  if is_numeric buf then compute_crc_numeric (value_word buf) buf
  else compute_crc_span (value_offset buf + vlen buf) buf.

Definition check_integrity buf : option bool :=
  if is_numeric buf then
    if Z.odd (version_word buf) then None
    else Some (stored_crc32 buf =? compute_crc_numeric (value_word buf) buf)
  else Some (stored_crc32 buf =? compute_crc buf).

(** ** [define] *)

Definition define (k : bytes) (v : Value) (o : bytes) buf : bytes :=
  let buf := init buf in
  let buf := set_olen (u8 (blen o)) buf in
  let buf := set_klen (u8 (blen k)) buf in
  let buf := blit optional_offset o buf in
  let buf := blit (key_offset buf) k buf in
  let buf :=
    match v with
    | Bytes v =>
        let buf := set_numeric false buf in
        let buf := set_vlen (u32 (blen v)) buf in
        blit (value_offset buf) v buf
    | U64 v =>
        let buf := set_numeric true buf in
        let buf := set_vlen 8 buf in
        let pad := numeric_value_pad (blen k) (blen o) in
        let buf := if 0 <? pad
                   then blit (key_offset buf + blen k) (replicate (Z.to_nat pad) 0) buf
                   else buf in
        let buf := set_value_word v buf in
        set_version_word 0 buf
    end in
  if integrity then set_crc32 (compute_crc buf) buf else buf.

(** ** In-place numeric updates *)

Inductive Numeric (A : Type) :=
| NumericOk (a : A)
| NotNumericError
| Spins.

(** [lock_numeric_version]: the even version observed, and the buffer with the
    odd one. *)
Definition lock_numeric_version buf : Numeric (Z * bytes) :=
  if negb (is_numeric buf) then NotNumericError _
  else
    let v := version_word buf in
    if Z.odd v then Spins _
    else NumericOk _ (v, set_version_word (u64 (v + 1)) buf).

(** [NumericVersionGuard::update]. *)
Definition guard_update (version : Z) (op : Z -> Z) buf : Z * bytes :=
  let new := op (value_word buf) in
  let buf := set_value_word new buf in
  let buf := if integrity then set_crc32 (compute_crc_numeric new buf) buf else buf in
  (new, set_version_word (u64 (version + 2)) buf).

(** [Drop for NumericVersionGuard]. *)
Definition guard_drop (version : Z) buf : bytes := set_version_word version buf.

(** [stamp_relocated_copy]: [None] where its [assert!] fails. *)
Definition stamp_relocated_copy (version : Z) (copy : bytes) : option bytes :=
  if is_numeric copy then Some (set_version_word version copy) else None.

Definition locked_numeric_update (op : Z -> Z) buf : Numeric (Z * bytes) :=
  match lock_numeric_version buf with
  | NumericOk _ (version, buf) => NumericOk _ (guard_update version op buf)
  | NotNumericError _ => NotNumericError _
  | Spins _ => Spins _
  end.

Definition fetch_wrapping_add (rhs : Z) buf : Numeric (Z * bytes) :=
  locked_numeric_update (fun v => u64 (v + rhs)) buf.

Definition fetch_saturating_sub (rhs : Z) buf : Numeric (Z * bytes) :=
  locked_numeric_update (fun v => sat_sub v rhs) buf.
End Item.

Arguments NumericOk {A}.
Arguments NotNumericError {A}.
Arguments Spins {A}.
