(* ===== verification/KvItemSpec.v ===== *)
(** * Correctness of the item representation

    What [KvItem]'s operations do to a buffer: [define] followed by any read
    gives back what was stored, sizes cover and align every footprint, the
    numeric updates change exactly the value and the version, and the CRC is
    kept in step with both. *)
From S2P Require Import Prelude KvItem.

(** ** Sizes *)

Section Spec.
Context (integrity : bool) (crc32 : bytes -> Z).
Context (crc32_u32 : forall bs, fits 32 (crc32 bs)).
Implicit Types (buf k o : bytes) (v : Value).

Lemma layout :
  exists b, 0 <= b <= 1 /\ (integrity = true -> b = 1) /\
    KLEN_OFFSET integrity = 2 * b /\ FLAGS_OFFSET integrity = 2 * b + 1 /\
    VLEN_OFFSET integrity = 2 * b + 2 /\ ITEM_HDR_SIZE integrity = 6 + 6 * b /\
    CRC_OFFSET integrity = 2 + 6 * b.
Proof.
  exists (Z.b2z integrity). unfold FLAGS_OFFSET, VLEN_OFFSET, CRC_OFFSET,
    KLEN_OFFSET, ITEM_HDR_SIZE. destruct integrity; simpl; lia.
Qed.

Lemma item_size_for_sum klen olen extra vl :
  item_size_for integrity klen olen extra vl =
    ((ITEM_HDR_SIZE integrity + olen + klen + extra + vl) / 8 + 1) * 8.
Proof. unfold item_size_for. bits_arith. done. Qed.

Lemma if_true {A} (b : bool) (x y : A) : b = true -> (if b then x else y) = x.
Proof. by intros ->. Qed.

Lemma if_false {A} (b : bool) (x y : A) : b = false -> (if b then x else y) = y.
Proof. by intros ->. Qed.

Lemma pad_bound klen olen : 0 <= numeric_value_pad integrity klen olen < 8.
Proof. unfold numeric_value_pad. dm. Qed.

Lemma pad_aligns klen olen :
  (ITEM_HDR_SIZE integrity + olen + klen + numeric_value_pad integrity klen olen) mod 8 = 0.
Proof. unfold numeric_value_pad. dm. Qed.

(** Where the value of an item starts, and where its stored bytes end. *)
Definition value_start k v o : Z :=
  ITEM_HDR_SIZE integrity + blen o + blen k +
  match v with
  | U64 _ => numeric_value_pad integrity (blen k) (blen o)
  | Bytes _ => 0
  end.

Definition stored_end k v o : Z :=
  match v with
  | U64 _ => value_start k v o + 16
  | Bytes v' => value_start k v o + blen v'
  end.

(** [item_size] covers the stored bytes, with between one and eight bytes to
    spare, and is a multiple of 8; the words of a numeric item are aligned. *)
Lemma item_size_covers_aux k v o :
  let n := item_size integrity (blen k) v (blen o) in
  n mod 8 = 0 /\ stored_end k v o < n <= stored_end k v o + 8 /\
  match v with U64 _ => value_start k v o mod 8 = 0 | Bytes _ => True end.
Proof.
  unfold item_size, stored_end, value_start. rewrite item_size_for_sum.
  pose proof (pad_aligns (blen k) (blen o)).
  destruct v as [v|v]; simpl; repeat split; dm.
Qed.

(** ** Reading and writing fields *)

Lemma get_set n off (v : Z) buf :
  0 <= off -> off + Z.of_nat n <= blen buf -> fits (8 * Z.of_nat n) v ->
  get_uint n off (set_uint n off v buf) = v.
Proof.
  intros. unfold get_uint, set_uint.
  rewrite slice_blit_eq by blen_lia. by apply le_value_le_bytes.
Qed.

Lemma get_blit_other n off (o : Z) bs buf :
  0 <= off -> 0 <= o -> o + blen bs <= blen buf ->
  off + Z.of_nat n <= o \/ o + blen bs <= off ->
  get_uint n off (blit o bs buf) = get_uint n off buf.
Proof. intros ? ? ? [?|?]; unfold get_uint; slices; done. Qed.

Lemma get_set_other n m off (o v : Z) buf :
  0 <= off -> 0 <= o -> o + Z.of_nat m <= blen buf ->
  off + Z.of_nat n <= o \/ o + Z.of_nat m <= off ->
  get_uint n off (set_uint m o v buf) = get_uint n off buf.
Proof. intros. apply get_blit_other; blen_lia. Qed.

Lemma blen_set n off (v : Z) buf : blen (set_uint n off v buf) = blen buf.
Proof. apply blen_blit. Qed.

Hint Rewrite blen_set : bytes_rw.

(** The flags byte of an item. *)
Definition flags_byte v o (deleted : bool) : Z :=
  blen o + 64 * Z.b2z deleted + 128 * match v with U64 _ => 1 | Bytes _ => 0 end.

(** All 256 flag bytes, by computation. *)
Lemma flags_fields (olen : Z) (num del : bool) :
  0 <= olen <= 63 ->
  let f := olen + 64 * Z.b2z del + 128 * Z.b2z num in
  Z.land f OLEN_MASK = olen /\ Z.land f NUMERIC_MASK = 128 * Z.b2z num /\
  Z.land f DELETE_MASK = 64 * Z.b2z del /\
  Z.lor f NUMERIC_MASK = olen + 64 * Z.b2z del + 128 /\
  Z.land f (wnot 8 NUMERIC_MASK) = olen + 64 * Z.b2z del /\
  Z.lor f DELETE_MASK = olen + 64 + 128 * Z.b2z num /\
  Z.land f (wnot 8 DELETE_MASK) = olen + 128 * Z.b2z num /\
  0 <= f < 256.
Proof.
  intros Ho f.
  set (test := fun n =>
    let olen := Z.of_nat n in let f := olen + 64 * Z.b2z del + 128 * Z.b2z num in
    (Z.land f OLEN_MASK =? olen) && (Z.land f NUMERIC_MASK =? 128 * Z.b2z num) &&
    (Z.land f DELETE_MASK =? 64 * Z.b2z del) &&
    (Z.lor f NUMERIC_MASK =? olen + 64 * Z.b2z del + 128) &&
    (Z.land f (wnot 8 NUMERIC_MASK) =? olen + 64 * Z.b2z del) &&
    (Z.lor f DELETE_MASK =? olen + 64 + 128 * Z.b2z num) &&
    (Z.land f (wnot 8 DELETE_MASK) =? olen + 128 * Z.b2z num)).
  assert (forallb test (seq 0 64) = true) as H
    by (destruct del, num; vm_compute; reflexivity).
  rewrite forallb_forall in H. specialize (H (Z.to_nat olen)).
  assert (In (Z.to_nat olen) (seq 0 64)) as Hin by (apply in_seq; lia).
  specialize (H Hin). unfold test in H. rewrite Z2Nat.id in H by lia.
  rewrite !andb_true_iff, !Z.eqb_eq in H.
  destruct H as ((((((?&?)&?)&?)&?)&?)&?).
  repeat split; try done; unfold f; destruct del, num; simpl; lia.
Qed.

(** ** A buffer that holds an item *)

Definition is_u64 v : bool := match v with U64 _ => true | Bytes _ => false end.

Record item_args k v o : Prop := {
  arg_key : blen k <= 255;
  arg_optional : blen o <= 63;
  arg_value : value_ok v
}.

Definition value_bytes v : bytes :=
  match v with U64 n => le_bytes 8 n | Bytes b => b end.

(** The bytes of [buf] are the item [k], [v], [o], with seqlock version [ver]
    (of a numeric item) and the delete mark [del]. *)
Record holds k v o (ver : Z) (del : bool) buf : Prop := {
  holds_klen : klen integrity buf = blen k;
  holds_flags : flags integrity buf = flags_byte v o del;
  holds_vlen : vlen integrity buf = size_of v;
  holds_magic : integrity = true -> slice 0 2 buf = ITEM_MAGIC;
  holds_optional : slice (ITEM_HDR_SIZE integrity) (blen o) buf = o;
  holds_key : slice (ITEM_HDR_SIZE integrity + blen o) (blen k) buf = k;
  holds_value : slice (value_start k v o) (size_of v) buf = value_bytes v;
  holds_version : is_u64 v = true ->
    slice (value_start k v o + 8) 8 buf = le_bytes 8 ver /\ fits 64 ver;
  holds_room : stored_end k v o <= blen buf
}.

Definition crc_ok buf : Prop :=
  integrity = true -> stored_crc32 integrity buf = compute_crc integrity crc32 buf.

Section Holds.
Context (k o : bytes) (v : Value) (ver : Z) (del : bool) (buf : bytes).
Context (Hargs : item_args k v o) (H : holds k v o ver del buf).

Lemma flags_decode :
  let f := flags integrity buf in
  Z.land f OLEN_MASK = blen o /\ Z.land f NUMERIC_MASK = 128 * Z.b2z (is_u64 v) /\
  Z.land f DELETE_MASK = 64 * Z.b2z del.
Proof.
  destruct H, Hargs. simpl. rewrite holds_flags0. pose proof (blen_nonneg o).
  destruct (flags_fields (blen o) (is_u64 v) del) as (E1 & E2 & E3 & _); [lia|].
  unfold flags_byte. by destruct v.
Qed.

Lemma holds_olen : olen integrity buf = blen o.
Proof. apply flags_decode. Qed.

Lemma holds_numeric : is_numeric integrity buf = is_u64 v.
Proof.
  unfold is_numeric. destruct flags_decode as (_ & -> & _). by destruct (is_u64 v).
Qed.

Lemma holds_deleted : is_deleted integrity buf = del.
Proof.
  unfold is_deleted. destruct flags_decode as (_ & _ & ->). by destruct del.
Qed.

Lemma holds_value_offset : value_offset integrity buf = value_start k v o.
Proof.
  unfold value_offset, key_offset, optional_offset, value_start.
  rewrite holds_numeric, holds_olen, (holds_klen _ _ _ _ _ _ H). destruct v; simpl; lia.
Qed.

Lemma holds_size : size integrity buf = item_size integrity (blen k) v (blen o).
Proof.
  unfold size, item_size, item_size_for.
  rewrite holds_numeric, holds_olen, (holds_klen _ _ _ _ _ _ H), (holds_vlen _ _ _ _ _ _ H).
  by destruct v.
Qed.

Lemma holds_read_key : key integrity buf = k.
Proof.
  unfold key, key_offset, optional_offset.
  rewrite holds_olen, (holds_klen _ _ _ _ _ _ H). apply (holds_key _ _ _ _ _ _ H).
Qed.

Lemma holds_read_optional :
  optional integrity buf = if 0 <? blen o then Some o else None.
Proof.
  unfold optional, optional_offset. rewrite holds_olen.
  by rewrite (holds_optional _ _ _ _ _ _ H).
Qed.

Lemma holds_value_word : match v with
  | U64 n => value_word integrity buf = n
  | Bytes _ => True
  end.
Proof.
  pose proof (holds_value _ _ _ _ _ _ H) as Hv. pose proof (arg_value _ _ _ Hargs) as Ha.
  unfold value_word, get_uint. rewrite holds_value_offset. destruct v as [|n]; [done|].
  change (Z.of_nat 8) with (size_of (U64 n)). rewrite Hv. by apply le_value_le_bytes.
Qed.

Lemma holds_version_word : is_u64 v = true -> version_word integrity buf = ver.
Proof.
  intros Hu. destruct (holds_version _ _ _ _ _ _ H Hu) as [Hv Hf].
  unfold version_word, get_uint. rewrite holds_value_offset. change (Z.of_nat 8) with 8.
  rewrite Hv. by apply le_value_le_bytes.
Qed.

Lemma holds_read_value :
  read_value integrity buf =
    match v with
    | U64 n => if Z.odd ver then None else Some (U64 n)
    | Bytes b => Some (Bytes b)
    end.
Proof.
  unfold read_value. rewrite holds_numeric. pose proof holds_value_word as Hw.
  pose proof holds_version_word as Hver. pose proof holds_value_offset as Ho.
  pose proof (holds_value _ _ _ _ _ _ H) as Hv. pose proof (holds_vlen _ _ _ _ _ _ H) as Hl.
  destruct v as [b|n]; simpl in *; [by rewrite Ho, Hl, Hv|].
  by rewrite Hver, Hw.
Qed.

Lemma holds_check_magic : check_magic integrity buf = true.
Proof.
  unfold check_magic. pose proof (holds_magic _ _ _ _ _ _ H) as Hm.
  destruct integrity; [|done]. by rewrite bool_decide_eq_true, Hm.
Qed.
End Holds.

(** ** [define] *)

(** The header fields of a buffer with room for a header. *)
Record header (kl fl vl : Z) buf : Prop := {
  h_klen : klen integrity buf = kl;
  h_flags : flags integrity buf = fl;
  h_vlen : vlen integrity buf = vl;
  h_magic : integrity = true -> slice 0 2 buf = ITEM_MAGIC;
  h_room : ITEM_HDR_SIZE integrity <= blen buf
}.

Ltac offsets :=
  destruct layout as (b & Hb & Hb1 & EK & EF & EV & EH & EC);
  unfold klen, flags, vlen, set_klen, set_flags, set_vlen, stored_crc32, set_crc32 in *;
  rewrite ?EK, ?EF, ?EV, ?EH, ?EC in *.

Ltac magic :=
  let Hi := fresh in
  intros Hi;
  match goal with H : integrity = true -> _ = 1 |- _ => pose proof (H Hi) end;
  unfold set_uint; slices; auto.

Ltac fields :=
  repeat first
    [ rewrite get_set by (blen_lia || assumption || (apply fits_0; lia))
    | rewrite get_set_other by blen_lia
    | rewrite get_blit_other by blen_lia ].

Lemma header_set_flags kl fl vl f buf :
  header kl fl vl buf -> fits 8 f -> header kl f vl (set_flags integrity f buf).
Proof.
  intros [] Hf. split; unfold set_flags; rewrite ?blen_set; try done;
    offsets; fields; try done.
  magic.
Qed.

Lemma header_set_klen kl fl vl f buf :
  header kl fl vl buf -> fits 8 f -> header f fl vl (set_klen integrity f buf).
Proof.
  intros [] Hf. split; unfold set_klen; rewrite ?blen_set; try done;
    offsets; fields; try done.
  magic.
Qed.

Lemma header_set_vlen kl fl vl f buf :
  header kl fl vl buf -> fits 32 f -> header kl fl f (set_vlen integrity f buf).
Proof.
  intros [] Hf. split; unfold set_vlen; rewrite ?blen_set; try done;
    offsets; fields; try done.
  magic.
Qed.

Lemma header_blit kl fl vl off bs buf :
  header kl fl vl buf -> ITEM_HDR_SIZE integrity <= off -> off + blen bs <= blen buf ->
  header kl fl vl (blit off bs buf).
Proof.
  intros [] Ho Hr. split; rewrite ?blen_blit; try done; offsets; fields; try done.
  magic.
Qed.

Lemma header_set_crc kl fl vl c buf :
  integrity = true -> header kl fl vl buf -> header kl fl vl (set_crc32 integrity c buf).
Proof.
  intros Hi []. split; unfold set_crc32; rewrite ?blen_set; try done; offsets;
    pose proof (Hb1 Hi); fields; try done. magic.
Qed.

Lemma header_init buf : ITEM_HDR_SIZE integrity <= blen buf -> header 0 0 0 (init integrity buf).
Proof.
  intros Hr. unfold init. destruct integrity eqn:Ei; rewrite <- Ei in *.
  - unfold set_crc32. offsets. pose proof (Hb1 Ei).
    assert (blen ITEM_MAGIC = 2) as Hm by done.
    split; unfold klen, flags, vlen; rewrite ?blen_set, ?blen_blit, ?EK, ?EF, ?EV, ?EH; fields;
      try done; autorewrite with bytes_rw; try lia. magic.
  - offsets. split; unfold klen, flags, vlen; rewrite ?blen_set, ?EK, ?EF, ?EV, ?EH; fields;
      try done; autorewrite with bytes_rw; try done; lia || (intros; congruence).
Qed.

(** Payload reads see through the header writes. *)
Lemma slice_init off len buf :
  ITEM_HDR_SIZE integrity <= off -> ITEM_HDR_SIZE integrity <= blen buf -> 0 <= len ->
  slice off len (init integrity buf) = slice off len buf.
Proof.
  intros. unfold init. assert (blen ITEM_MAGIC = 2) as Hm by done.
  destruct integrity eqn:Ei; rewrite <- Ei in *; offsets; unfold set_uint; [|slices; done].
  pose proof (Hb1 Ei). by slices.
Qed.

(** The numeric part of a flags byte, as [define] builds it. *)
Lemma define_flags k v o del :
  item_args k v o ->
  fits 8 (u8 (blen k)) /\ u8 (blen k) = blen k /\ u8 (blen o) = blen o /\
  Z.lor (Z.land 0 (wnot 8 OLEN_MASK)) (Z.land (blen o) OLEN_MASK) = blen o /\
  Z.lor (blen o) NUMERIC_MASK = blen o + 128 /\
  Z.land (blen o) (wnot 8 NUMERIC_MASK) = blen o /\
  Z.land (blen o) OLEN_MASK = blen o /\ fits 8 (flags_byte v o del).
Proof.
  intros [Hk Ho _]. pose proof (blen_nonneg k). pose proof (blen_nonneg o).
  destruct (flags_fields (blen o) false false) as (E1 & _ & _ & E2 & E3 & _); [lia|].
  simpl in E1, E2, E3. rewrite !Z.add_0_r in E1, E2, E3.
  rewrite Z.land_0_l, Z.lor_0_l. rewrite !wrap_id by (unfold fits; pow2; lia).
  repeat split; try done; try lia; unfold flags_byte; destruct del, v; simpl; lia.
Qed.

Lemma header_reads fl vl kl buf :
  header kl fl vl buf ->
  Z.land fl OLEN_MASK = olen integrity buf /\
  negb (Z.land fl NUMERIC_MASK =? 0) = is_numeric integrity buf.
Proof. intros [_ Hf _ _ _]. unfold olen, is_numeric. by rewrite Hf. Qed.

(** Before the value is written: header, optional and key are in place. *)
Definition define_prefix k o buf : bytes :=
  let buf := init integrity buf in
  let buf := set_olen integrity (u8 (blen o)) buf in
  let buf := set_klen integrity (u8 (blen k)) buf in
  let buf := blit (optional_offset integrity) o buf in
  blit (key_offset integrity buf) k buf.

Lemma define_prefix_spec k v o buf :
  item_args k v o -> ITEM_HDR_SIZE integrity + blen o + blen k <= blen buf ->
  let b := define_prefix k o buf in
  header (blen k) (blen o) 0 b /\ blen b = blen buf /\
  slice (ITEM_HDR_SIZE integrity) (blen o) b = o /\
  slice (ITEM_HDR_SIZE integrity + blen o) (blen k) b = k /\
  (forall off len, ITEM_HDR_SIZE integrity + blen o + blen k <= off -> 0 <= len ->
     slice off len b = slice off len buf).
Proof.
  intros Ha Hr. pose proof (blen_nonneg k). pose proof (blen_nonneg o).
  destruct (define_flags k v o false Ha) as (Fk & Ek & Eo & F1 & _ & _ & F2 & _).
  assert (fits 8 (blen o)) by (destruct Ha; unfold fits; pow2; lia).
  assert (fits 8 (blen k)) by (destruct Ha; unfold fits; pow2; lia).
  unfold define_prefix. rewrite Ek, Eo. cbv zeta.
  pose proof (header_init buf ltac:(lia)) as G0.
  unfold set_olen. rewrite (h_flags _ _ _ _ G0), F1.
  apply (header_set_flags _ _ _ (blen o)) in G0 as G1; [|done].
  apply (header_set_klen _ _ _ (blen k)) in G1 as G2; [|done].
  set (b2 := set_klen _ _ _) in *.
  assert (blen b2 = blen buf) as L2.
  { unfold b2, set_klen, set_flags. autorewrite with bytes_rw. unfold init.
    destruct integrity; unfold set_crc32, set_klen, set_flags, set_vlen;
      by autorewrite with bytes_rw. }
  assert (forall off len, ITEM_HDR_SIZE integrity <= off -> 0 <= len ->
            slice off len b2 = slice off len buf) as P2.
  { intros off len Ho Hl. rewrite <- (slice_init off len buf) by lia.
    unfold b2, set_klen, set_flags, set_uint.
    assert (blen (init integrity buf) = blen buf) as Li.
    { rewrite <- L2. unfold b2, set_klen, set_flags. by autorewrite with bytes_rw. }
    destruct layout as (b & ? & ? & -> & -> & ? & ? & ?). by slices. }
  change (optional_offset integrity) with (ITEM_HDR_SIZE integrity).
  apply (header_blit _ _ _ (ITEM_HDR_SIZE integrity) o) in G2 as G3; [|lia..].
  set (b3 := blit _ o b2) in *.
  assert (key_offset integrity b3 = ITEM_HDR_SIZE integrity + blen o) as ->.
  { unfold key_offset. destruct (header_reads _ _ _ _ G3) as [<- _]. by rewrite F2. }
  assert (blen b3 = blen buf) as L3 by (unfold b3; by autorewrite with bytes_rw).
  split; [apply header_blit; [done|lia..]|].
  destruct layout as (b & ? & ? & _ & _ & _ & EH & _). rewrite EH in *.
  split; [by autorewrite with bytes_rw|].
  split; [unfold b3; rewrite EH; by slices|]. split; [by slices|].
  intros off len Ho Hl. unfold b3. rewrite EH. slices. by apply P2; lia.
Qed.

(** The value part of [define], after which only the CRC is missing. *)
Definition define_value k v o buf : bytes :=
  match v with
  | Bytes v =>
      let buf := set_numeric integrity false buf in
      let buf := set_vlen integrity (u32 (blen v)) buf in
      blit (value_offset integrity buf) v buf
  | U64 v =>
      let buf := set_numeric integrity true buf in
      let buf := set_vlen integrity 8 buf in
      let pad := numeric_value_pad integrity (blen k) (blen o) in
      let buf := if 0 <? pad
                 then blit (key_offset integrity buf + blen k) (replicate (Z.to_nat pad) 0) buf
                 else buf in
      let buf := set_value_word integrity v buf in
      set_version_word integrity 0 buf
  end.

Lemma define_split k v o buf :
  define integrity crc32 k v o buf =
    let b := define_value k v o (define_prefix k o buf) in
    if integrity then set_crc32 integrity (compute_crc integrity crc32 b) b else b.
Proof. unfold define, define_value, define_prefix. by destruct v. Qed.

(** Header offsets from the header alone. *)
Lemma header_value_offset kl fl vl buf :
  header kl fl vl buf ->
  key_offset integrity buf = ITEM_HDR_SIZE integrity + Z.land fl OLEN_MASK /\
  value_offset integrity buf =
    ITEM_HDR_SIZE integrity + Z.land fl OLEN_MASK + kl +
    if negb (Z.land fl NUMERIC_MASK =? 0)
    then numeric_value_pad integrity kl (Z.land fl OLEN_MASK) else 0.
Proof.
  intros H. destruct (header_reads _ _ _ _ H) as [Ho Hn].
  unfold value_offset, key_offset, optional_offset.
  rewrite <- Ho, <- Hn, (h_klen _ _ _ _ H).
  split; [done|]. destruct (negb _); lia.
Qed.

(** What the value part leaves in the buffer. *)
Definition value_stored k v o buf b : Prop :=
  header (blen k) (flags_byte v o false) (size_of v) b /\ blen b = blen buf /\
  slice (value_start k v o) (size_of v) b = value_bytes v /\
  (is_u64 v = true -> slice (value_start k v o + 8) 8 b = le_bytes 8 0) /\
  (forall off len, ITEM_HDR_SIZE integrity <= off -> 0 <= len ->
     off + len <= ITEM_HDR_SIZE integrity + blen o + blen k \/ stored_end k v o <= off ->
     slice off len b = slice off len buf).

Lemma define_value_bytes k (v' : bytes) o buf :
  let v := Bytes v' in
  item_args k v o -> stored_end k v o <= blen buf ->
  header (blen k) (blen o) 0 buf -> value_stored k v o buf (define_value k v o buf).
Proof.
  intros v Ha Hr Hh. unfold stored_end, value_start in Hr. simpl in Hr.
  pose proof (blen_nonneg k). pose proof (blen_nonneg o). pose proof (blen_nonneg v').
  destruct (define_flags k v o false Ha) as (_ & _ & _ & _ & _ & F3 & F2 & F4).
  destruct (flags_fields (blen o) false false) as (_ & F5 & _); [destruct Ha; lia|].
  simpl in F5. rewrite !Z.add_0_r in F5.
  assert (fits 8 (blen o)) by (destruct Ha; unfold fits; pow2; lia).
  assert (fits 32 (blen v')) by apply Ha.
  unfold define_value, v. unfold set_numeric. rewrite (h_flags _ _ _ _ Hh), F3.
  rewrite (wrap_id 32) by done.
  apply (header_set_flags _ _ _ (blen o)) in Hh as G1; [|done].
  apply (header_set_vlen _ _ _ (blen v')) in G1 as G2; [|done].
  destruct (header_value_offset _ _ _ _ G2) as [_ ->]. rewrite F2, F5.
  change (negb (0 =? 0)) with false. cbv iota. rewrite Z.add_0_r.
  set (b2 := set_vlen _ _ _) in *.
  assert (blen b2 = blen buf) as L2
    by (unfold b2, set_vlen, set_flags; by autorewrite with bytes_rw).
  unfold value_stored, stored_end, value_start, flags_byte. simpl.
  rewrite !Z.add_0_r. split; [apply header_blit; [done|lia..]|].
  destruct layout as (b & ? & ? & _ & EF & EV & EH & _). rewrite EH in *.
  split; [by autorewrite with bytes_rw|]. split; [by slices|]. split; [done|].
  intros off len Ho Hl Hd.
  assert (slice off len b2 = slice off len buf) as P2.
  { unfold b2, set_vlen, set_flags, set_uint. rewrite EF, EV. by slices. }
  rewrite <- P2. destruct Hd as [?|?]; by slices.
Qed.

Lemma define_value_u64 k n o buf :
  let v := U64 n in
  item_args k v o -> stored_end k v o <= blen buf ->
  header (blen k) (blen o) 0 buf -> value_stored k v o buf (define_value k v o buf).
Proof.
  intros v Ha Hr Hh. unfold stored_end, value_start in Hr. simpl in Hr.
  pose proof (blen_nonneg k). pose proof (blen_nonneg o).
  pose proof (pad_bound (blen k) (blen o)) as Hp.
  set (pad := numeric_value_pad integrity (blen k) (blen o)) in *.
  destruct (define_flags k v o false Ha) as (_ & _ & _ & _ & F3 & _ & F2 & F4).
  destruct (flags_fields (blen o) true false) as (F6 & F5 & _); [destruct Ha; lia|].
  simpl in F5, F6. rewrite !Z.add_0_r in F5, F6. change (128 * 1) with 128 in F5, F6.
  assert (fits 8 (blen o + 128)) by (destruct Ha; unfold fits; pow2; lia).
  unfold define_value, v. unfold set_numeric. rewrite (h_flags _ _ _ _ Hh), F3.
  apply (header_set_flags _ _ _ (blen o + 128)) in Hh as G1; [|done].
  apply (header_set_vlen _ _ _ 8) in G1 as G2; [|vm_compute; intuition congruence].
  destruct (header_value_offset _ _ _ _ G2) as [-> _]. rewrite F6. fold pad.
  set (b2 := set_vlen _ _ _) in *.
  assert (blen b2 = blen buf) as L2
    by (unfold b2, set_vlen, set_flags; by autorewrite with bytes_rw).
  set (start := ITEM_HDR_SIZE integrity + blen o + blen k) in *.
  assert (0 <= start) by
    (unfold start; destruct layout as (? & ? & ? & ? & ? & ? & -> & ?); lia).
  (* the pad *)
  set (b3 := if 0 <? pad then _ else b2).
  assert (header (blen k) (blen o + 128) 8 b3 /\ blen b3 = blen buf /\
          forall off len, 0 <= off -> 0 <= len -> off + len <= start \/ start + pad <= off ->
            slice off len b3 = slice off len b2) as (G3 & L3 & P3).
  { unfold b3. destruct (Z.ltb_spec 0 pad); [|done].
    split; [apply header_blit; [done|lia|autorewrite with bytes_rw; lia]|].
    split; [by autorewrite with bytes_rw|].
    intros off len ? ? [?|?]; by slices. }
  clearbody b3.
  destruct (header_value_offset _ _ _ _ G3) as [_ E3]. rewrite F5, F6 in E3.
  change (negb (128 =? 0)) with true in E3. cbv iota in E3. fold pad start in E3.
  unfold set_value_word. rewrite E3. unfold set_uint.
  assert (header (blen k) (blen o + 128) 8 (blit (start + pad) (le_bytes 8 n) b3)) as G4.
  { apply header_blit; [done|lia|autorewrite with bytes_rw; lia]. }
  unfold set_version_word, set_uint. destruct (header_value_offset _ _ _ _ G4) as [_ E4].
  rewrite F5, F6 in E4.
  change (negb (128 =? 0)) with true in E4. cbv iota in E4. fold pad start in E4.
  rewrite E4. unfold value_stored, value_start, stored_end, value_start, flags_byte. simpl.
  rewrite !Z.add_0_r. fold pad. fold start. split; [|split; [by autorewrite with bytes_rw|]].
  { apply header_blit; [done|lia|autorewrite with bytes_rw; lia]. }
  destruct layout as (b & ? & ? & _ & EF & EV & EH & _).
  split; [by slices|]. split; [intros _; by slices|].
  intros off len Ho Hl Hd.
  assert (slice off len b2 = slice off len buf) as <-.
  { unfold b2, set_vlen, set_flags, set_uint. rewrite EF, EV. by slices. }
  rewrite <- (P3 off len) by lia. destruct Hd as [?|?]; by slices.
Qed.

Lemma value_start_bound k v o :
  ITEM_HDR_SIZE integrity + blen o + blen k <= value_start k v o <= stored_end k v o /\
  6 <= ITEM_HDR_SIZE integrity.
Proof.
  pose proof (pad_bound (blen k) (blen o)). unfold stored_end, value_start.
  destruct layout as (b & ? & _ & _ & _ & _ & -> & _).
  destruct v as [v|n]; [pose proof (blen_nonneg v)|]; lia.
Qed.

Lemma holds_header k v o ver del buf :
  holds k v o ver del buf -> header (blen k) (flags_byte v o del) (size_of v) buf.
Proof.
  intros []. split; auto. pose proof (value_start_bound k v o).
  pose proof (blen_nonneg k). pose proof (blen_nonneg o). lia.
Qed.

Lemma holds_intro k v o ver del buf :
  header (blen k) (flags_byte v o del) (size_of v) buf ->
  slice (ITEM_HDR_SIZE integrity) (blen o) buf = o ->
  slice (ITEM_HDR_SIZE integrity + blen o) (blen k) buf = k ->
  slice (value_start k v o) (size_of v) buf = value_bytes v ->
  (is_u64 v = true -> slice (value_start k v o + 8) 8 buf = le_bytes 8 ver /\ fits 64 ver) ->
  stored_end k v o <= blen buf ->
  holds k v o ver del buf.
Proof. intros []. by split. Qed.

(** Two buffers that differ at most in the CRC field. *)
Definition agree_but_crc b b' : Prop :=
  forall off len, 0 <= off -> 0 <= len ->
    off + len <= CRC_OFFSET integrity \/ CRC_OFFSET integrity + 4 <= off ->
    slice off len b' = slice off len b.

Section Agree.
Context (b b' : bytes) (Hi : integrity = true) (Hagree : agree_but_crc b b').

Lemma agree_get n off :
  0 <= off -> off + Z.of_nat n <= CRC_OFFSET integrity \/ CRC_OFFSET integrity + 4 <= off ->
  get_uint n off b' = get_uint n off b.
Proof. intros. unfold get_uint. f_equal. apply Hagree; lia. Qed.

Lemma agree_fields :
  klen integrity b' = klen integrity b /\ flags integrity b' = flags integrity b /\
  vlen integrity b' = vlen integrity b /\ value_offset integrity b' = value_offset integrity b.
Proof.
  assert (klen integrity b' = klen integrity b /\ flags integrity b' = flags integrity b /\
          vlen integrity b' = vlen integrity b) as (Ek & Ef & Ev).
  { unfold klen, flags, vlen. destruct layout as (z & ? & Hz & -> & -> & -> & _ & E).
    specialize (Hz Hi). repeat split; apply agree_get; lia. }
  repeat split; try done. unfold value_offset, key_offset, olen, is_numeric.
  by rewrite Ek, Ef.
Qed.

Lemma agree_crc :
  12 <= value_offset integrity b -> 0 <= vlen integrity b ->
  compute_crc integrity crc32 b' = compute_crc integrity crc32 b.
Proof.
  intros Hoff Hv. destruct agree_fields as (Ek & Ef & Ev & Eo).
  assert (CRC_OFFSET integrity = 8) as HC by (unfold CRC_OFFSET, ITEM_HDR_SIZE; by rewrite Hi).
  assert (FLAGS_OFFSET integrity = 3) as HF
    by (unfold FLAGS_OFFSET, KLEN_OFFSET; by rewrite Hi).
  assert (header_prefix integrity b' = header_prefix integrity b) as Ep.
  { unfold header_prefix. rewrite Ef, HC, HF.
    rewrite !(Hagree _ _) by (rewrite ?HC; lia). done. }
  unfold compute_crc, compute_crc_numeric, compute_crc_span, is_numeric, value_word.
  rewrite Ep, Ef, Ev, Eo, HC. rewrite agree_get by (rewrite ?HC; lia).
  destruct (Z.ltb_spec (8 + 4) (value_offset integrity b)),
    (Z.ltb_spec (8 + 4) (value_offset integrity b + vlen integrity b));
    rewrite ?(Hagree (8 + 4)) by (rewrite ?HC; lia); done.
Qed.
End Agree.

Lemma agree_set_crc c buf :
  ITEM_HDR_SIZE integrity <= blen buf -> agree_but_crc buf (set_crc32 integrity c buf).
Proof.
  intros Hr off len Ho Hl Hd. unfold set_crc32, set_uint.
  destruct layout as (b & ? & ? & ? & ? & ? & EH & EC). rewrite EH, EC in *.
  destruct Hd as [?|?]; by slices.
Qed.

(** Storing the CRC completes an item. *)
Lemma holds_set_crc k v o ver del buf :
  integrity = true -> item_args k v o -> holds k v o ver del buf ->
  let b := set_crc32 integrity (compute_crc integrity crc32 buf) buf in
  holds k v o ver del b /\ crc_ok b.
Proof.
  intros Hi Ha H b. pose proof (holds_header _ _ _ _ _ _ H) as Hh.
  pose proof (value_start_bound k v o) as [? ?].
  pose proof (blen_nonneg k). pose proof (blen_nonneg o).
  assert (ITEM_HDR_SIZE integrity = 12 /\ CRC_OFFSET integrity = 8) as [EH EC]
    by (unfold CRC_OFFSET, ITEM_HDR_SIZE; by rewrite Hi).
  pose proof (h_room _ _ _ _ Hh).
  assert (agree_but_crc buf b) as Hag by by apply agree_set_crc.
  assert (0 <= size_of v) as Hsz by (destruct v; simpl; [apply blen_nonneg|lia]).
  split.
  - apply holds_intro; [by apply header_set_crc| | | | |].
    + rewrite Hag by lia. apply H.
    + rewrite Hag by lia. apply H.
    + rewrite Hag by lia. apply H.
    + intros Hu. rewrite Hag by lia. by apply (holds_version _ _ _ _ _ _ H).
    + unfold b, set_crc32. rewrite blen_set. apply H.
  - assert (fits 32 (compute_crc integrity crc32 buf))
      by (unfold compute_crc; destruct (is_numeric _ _); apply crc32_u32).
    intros _. rewrite (agree_crc buf b Hi Hag).
    + unfold b, stored_crc32, set_crc32. rewrite get_set; [done|lia..|done].
    + rewrite (holds_value_offset _ _ _ _ _ _ Ha H). lia.
    + rewrite (holds_vlen _ _ _ _ _ _ H). done.
Qed.

Lemma define_holds k v o buf :
  item_args k v o -> stored_end k v o <= blen buf ->
  let b := define integrity crc32 k v o buf in
  holds k v o 0 false b /\ crc_ok b /\ blen b = blen buf /\
  (forall off len, stored_end k v o <= off -> 0 <= len ->
     slice off len b = slice off len buf).
Proof.
  intros Ha Hr. rewrite define_split. pose proof (value_start_bound k v o) as [? ?].
  pose proof (blen_nonneg k). pose proof (blen_nonneg o).
  destruct (define_prefix_spec k v o buf Ha ltac:(lia)) as (Hh & Lp & Ho & Hk & Hrest).
  set (p := define_prefix k o buf) in *.
  assert (value_stored k v o p (define_value k v o p)) as (Hh' & Lv & Hv & Hver & Hsame).
  { destruct v; [apply define_value_bytes|apply define_value_u64]; auto; lia. }
  set (w := define_value k v o p) in *. cbv zeta.
  assert (holds k v o 0 false w) as Hw.
  { apply holds_intro; auto; try lia.
    - rewrite Hsame by lia. done.
    - rewrite Hsame by lia. done.
    - intros Hu. split; [auto|]. by apply fits_0. }
  assert (forall off len, stored_end k v o <= off -> 0 <= len ->
            slice off len w = slice off len buf) as Hfar.
  { intros off len ? ?. rewrite Hsame by lia. apply Hrest; lia. }
  destruct integrity eqn:Ei; rewrite <- Ei in *.
  - destruct (holds_set_crc k v o 0 false w Ei Ha Hw) as [Hb Hc].
    split; [done|]. split; [done|]. unfold set_crc32 at 1. rewrite blen_set.
    split; [congruence|]. intros off len ? ?. rewrite <- (Hfar off len) by done.
    apply agree_set_crc; [lia..|]. right.
    assert (CRC_OFFSET integrity + 4 = ITEM_HDR_SIZE integrity) by (unfold CRC_OFFSET; lia). lia.
  - split; [done|]. split; [intros E; congruence|]. split; [congruence|done].
Qed.

Lemma holds_check_integrity k v o ver del buf :
  integrity = true -> item_args k v o -> holds k v o ver del buf -> crc_ok buf ->
  Z.even ver = true -> check_integrity integrity crc32 buf = Some true.
Proof.
  intros Hi Ha H Hc Hev. unfold check_integrity. specialize (Hc Hi).
  rewrite Hc. unfold compute_crc at 2. rewrite Z.eqb_refl. unfold compute_crc.
  rewrite (holds_numeric _ _ _ _ _ _ Ha H). destruct (is_u64 v) eqn:Hu; [|done].
  rewrite (holds_version_word _ _ _ _ _ _ Ha H Hu), Z.eqb_refl.
  by rewrite <- Z.negb_even, Hev.
Qed.

(** C17. Storing and reading back: [define] into any buffer with room gives an item
    whose key, value, optional data, marks and size are the ones given, whose
    magic and CRC check, and nothing past the item is touched. *)
Theorem define_roundtrip k v o buf :
  item_args k v o -> item_size integrity (blen k) v (blen o) <= blen buf ->
  let b := define integrity crc32 k v o buf in
  key integrity b = k /\ read_value integrity b = Some v /\
  optional integrity b = (if 0 <? blen o then Some o else None) /\
  is_deleted integrity b = false /\
  size integrity b = item_size integrity (blen k) v (blen o) /\
  check_magic integrity b = true /\
  (integrity = true -> check_integrity integrity crc32 b = Some true) /\
  blen b = blen buf /\
  (forall off len, item_size integrity (blen k) v (blen o) <= off -> 0 <= len ->
     slice off len b = slice off len buf).
Proof.
  intros Ha Hr b. destruct (item_size_covers_aux k v o) as (_ & Hs & _).
  destruct (define_holds k v o buf Ha ltac:(lia)) as (H & Hc & Hl & Hfar). fold b in H, Hc, Hl, Hfar.
  split; [by eapply holds_read_key|].
  split; [rewrite (holds_read_value _ _ _ _ _ _ Ha H); by destruct v|].
  split; [by eapply holds_read_optional|]. split; [by eapply holds_deleted|].
  split; [by eapply holds_size|]. split; [by eapply holds_check_magic|].
  split; [intros Hi; by eapply holds_check_integrity|]. split; [done|].
  intros off len ? ?. apply Hfar; lia.
Qed.

(** ** The delete mark *)

Lemma holds_set_deleted k v o ver del d buf :
  item_args k v o -> holds k v o ver del buf -> holds k v o ver d (set_deleted integrity d buf).
Proof.
  intros Ha H. pose proof (holds_header _ _ _ _ _ _ H) as Hh.
  pose proof (value_start_bound k v o) as [? ?].
  pose proof (blen_nonneg k). pose proof (blen_nonneg o).
  destruct (flags_fields (blen o) (is_u64 v) del) as (_ & _ & _ & _ & _ & E1 & E2 & _);
    [destruct Ha; lia|].
  assert (flags_byte v o d = if d then Z.lor (flags_byte v o del) DELETE_MASK
                             else Z.land (flags_byte v o del) (wnot 8 DELETE_MASK)) as Ed.
  { unfold flags_byte in *. destruct v, d; simpl in *; rewrite ?E1, ?E2; lia. }
  assert (set_deleted integrity d buf = set_flags integrity (flags_byte v o d) buf) as ->.
  { unfold set_deleted. rewrite (h_flags _ _ _ _ Hh), Ed. by destruct d. }
  destruct (define_flags k v o d Ha) as (_ & _ & _ & _ & _ & _ & _ & Hfit).
  assert (forall off len, ITEM_HDR_SIZE integrity <= off -> 0 <= len ->
            slice off len (set_flags integrity (flags_byte v o d) buf) = slice off len buf) as Hs.
  { intros off len Ho Hl. unfold set_flags, set_uint. pose proof (h_room _ _ _ _ Hh).
    destruct layout as (b & ? & ? & ? & EF & ? & EH & ?). rewrite EF, EH in *. by slices. }
  assert (0 <= size_of v) by (destruct v; simpl; [apply blen_nonneg|lia]).
  apply holds_intro; [by eapply header_set_flags|rewrite Hs by lia; apply H..| |].
  - intros Hu. rewrite Hs by lia. by apply (holds_version _ _ _ _ _ _ H).
  - unfold set_flags. rewrite blen_set. apply H.
Qed.

(** Tombstoning a defined item sets its mark and leaves key, value, optional
    data and size readable; unmarking reverts it. *)
Theorem tombstone_spec k v o buf :
  item_args k v o -> item_size integrity (blen k) v (blen o) <= blen buf ->
  let b := set_deleted integrity true (define integrity crc32 k v o buf) in
  is_deleted integrity b = true /\ key integrity b = k /\ read_value integrity b = Some v /\
  optional integrity b = (if 0 <? blen o then Some o else None) /\
  size integrity b = item_size integrity (blen k) v (blen o) /\
  is_deleted integrity (set_deleted integrity false b) = false.
Proof.
  intros Ha Hr b. destruct (item_size_covers_aux k v o) as (_ & Hs & _).
  destruct (define_holds k v o buf Ha ltac:(lia)) as (H & _).
  apply (holds_set_deleted _ _ _ _ _ true) in H; [|done]. fold b in H.
  split; [by eapply holds_deleted|]. split; [by eapply holds_read_key|].
  split; [rewrite (holds_read_value _ _ _ _ _ _ Ha H); by destruct v|].
  split; [by eapply holds_read_optional|]. split; [by eapply holds_size|].
  eapply holds_deleted; [done|]. by apply (holds_set_deleted _ _ _ _ true false).
Qed.

(** ** Numeric updates *)

Section Numeric.
Context (k o : bytes) (Hk : blen k <= 255) (Ho : blen o <= 63).

Lemma numeric_args n : fits 64 n -> item_args k (U64 n) o.
Proof. by split. Qed.

(** A write inside the value and version words. *)
Lemma holds_word n n' ver ver' del off w buf :
  fits 64 n -> holds k (U64 n) o ver del buf -> fits 64 w ->
  let s := value_start k (U64 n) o in
  (off = s /\ n' = w /\ ver' = ver) \/ (off = s + 8 /\ n' = n /\ ver' = w) ->
  holds k (U64 n') o ver' del (set_uint 8 off w buf).
Proof.
  intros Hn H Hw s Hoff. pose proof (holds_header _ _ _ _ _ _ H) as Hh.
  pose proof (value_start_bound k (U64 n) o) as [? ?].
  pose proof (blen_nonneg k). pose proof (blen_nonneg o).
  destruct H. cbn [size_of value_bytes is_u64] in *.
  destruct (holds_version0 eq_refl) as [Hver Hfit].
  assert (stored_end k (U64 n) o = value_start k (U64 n) o + 16) as He by done.
  assert (value_start k (U64 n') o = value_start k (U64 n) o) as Es by done.
  assert (stored_end k (U64 n') o = value_start k (U64 n) o + 16) as Ee by done.
  rewrite He in *. subst s. remember (value_start k (U64 n) o) as s eqn:Et. clear Et.
  assert (s <= off /\ off + 8 <= s + 16) by (destruct Hoff as [(?&_)|(?&_)]; lia).
  apply holds_intro; unfold set_uint; rewrite ?Es, ?Ee; cbn [size_of value_bytes is_u64].
  - apply header_blit; [done|lia|autorewrite with bytes_rw; lia].
  - by slices.
  - by slices.
  - destruct Hoff as [(-> & -> & ->)|(-> & -> & ->)]; by slices.
  - intros _. destruct Hoff as [(-> & -> & ->)|(-> & -> & ->)]; (split; [by slices|done]).
  - autorewrite with bytes_rw. done.
Qed.

Lemma holds_set_version n ver ver' del buf :
  fits 64 n -> holds k (U64 n) o ver del buf -> fits 64 ver' ->
  holds k (U64 n) o ver' del (set_version_word integrity ver' buf).
Proof.
  intros Hn H Hv. unfold set_version_word.
  rewrite (holds_value_offset _ _ _ _ _ _ (numeric_args n Hn) H).
  apply (holds_word n n ver ver'); auto.
Qed.

Lemma holds_set_value n n' ver del buf :
  fits 64 n -> holds k (U64 n) o ver del buf -> fits 64 n' ->
  holds k (U64 n') o ver del (set_value_word integrity n' buf).
Proof.
  intros Hn H Hv. unfold set_value_word.
  rewrite (holds_value_offset _ _ _ _ _ _ (numeric_args n Hn) H).
  apply (holds_word n n' ver ver); auto.
Qed.

(** The numeric CRC does not cover the value and version words. *)
Lemma compute_crc_numeric_word n ver del buf off w x :
  integrity = true -> fits 64 n -> holds k (U64 n) o ver del buf ->
  value_start k (U64 n) o <= off -> off + 8 <= blen buf ->
  compute_crc_numeric integrity crc32 x (set_uint 8 off w buf) =
    compute_crc_numeric integrity crc32 x buf.
Proof.
  intros Hi Hn H Hoff Hr. pose proof (holds_header _ _ _ _ _ _ H) as Hh.
  pose proof (value_start_bound k (U64 n) o) as [? ?].
  pose proof (blen_nonneg k). pose proof (blen_nonneg o).
  assert (CRC_OFFSET integrity = 8 /\ FLAGS_OFFSET integrity = 3 /\ ITEM_HDR_SIZE integrity = 12)
    as (HC & HF & HH)
    by (unfold FLAGS_OFFSET, KLEN_OFFSET, CRC_OFFSET, ITEM_HDR_SIZE; by rewrite Hi).
  assert (header (blen k) (flags_byte (U64 n) o del) (size_of (U64 n)) (set_uint 8 off w buf))
    as Hh' by (apply header_blit; [done|lia|autorewrite with bytes_rw; lia]).
  unfold compute_crc_numeric, header_prefix.
  rewrite (proj2 (header_value_offset _ _ _ _ Hh)), (proj2 (header_value_offset _ _ _ _ Hh')).
  rewrite <- (proj2 (header_value_offset _ _ _ _ Hh)).
  rewrite (holds_value_offset _ _ _ _ _ _ (numeric_args n Hn) H).
  rewrite (h_flags _ _ _ _ Hh), (h_flags _ _ _ _ Hh'), HC, HF. unfold set_uint.
  destruct (Z.ltb_spec (8 + 4) (value_start k (U64 n) o)); by slices.
Qed.

Lemma crc_ok_set_version n ver del ver' buf :
  fits 64 n -> fits 64 ver' -> holds k (U64 n) o ver del buf -> crc_ok buf ->
  crc_ok (set_version_word integrity ver' buf).
Proof.
  intros Hn Hv H Hc Hi. specialize (Hc Hi).
  pose proof (holds_set_version n ver ver' del buf Hn H Hv) as H'.
  unfold compute_crc in *. rewrite (holds_numeric _ _ _ _ _ _ (numeric_args n Hn) H) in Hc.
  rewrite (holds_numeric _ _ _ _ _ _ (numeric_args n Hn) H'). simpl in *.
  rewrite (holds_value_word _ _ _ _ _ _ (numeric_args n Hn) H) in Hc.
  rewrite (holds_value_word _ _ _ _ _ _ (numeric_args n Hn) H').
  unfold set_version_word.
  rewrite (holds_value_offset _ _ _ _ _ _ (numeric_args n Hn) H).
  pose proof (holds_room _ _ _ _ _ _ H) as Hr. unfold stored_end in Hr.
  pose proof (value_start_bound k (U64 n) o) as [? ?].
  pose proof (blen_nonneg k). pose proof (blen_nonneg o).
  assert (CRC_OFFSET integrity = 8 /\ ITEM_HDR_SIZE integrity = 12) as (HC & HH)
    by (unfold CRC_OFFSET, ITEM_HDR_SIZE; by rewrite Hi).
  rewrite (compute_crc_numeric_word n ver del) by (done || lia).
  rewrite <- Hc. unfold stored_crc32. rewrite HC. apply get_set_other; lia.
Qed.

Lemma blen_guard_update ver op buf : blen (guard_update integrity crc32 ver op buf).2 = blen buf.
Proof.
  unfold guard_update, set_version_word, set_value_word, set_crc32. simpl.
  rewrite blen_set. destruct integrity; by rewrite ?blen_set.
Qed.

(** One in-place update of an unlocked item. *)
Lemma numeric_step n ver del op buf :
  fits 64 n -> fits 64 (op n) -> Z.even ver = true -> holds k (U64 n) o ver del buf ->
  exists b, locked_numeric_update integrity crc32 op buf = NumericOk (op n, b) /\
    holds k (U64 (op n)) o (u64 (ver + 2)) del b /\ crc_ok b /\ blen b = blen buf.
Proof.
  intros Hn Hop Hev H. unfold locked_numeric_update, lock_numeric_version.
  rewrite (holds_numeric _ _ _ _ _ _ (numeric_args n Hn) H). simpl.
  rewrite (holds_version_word _ _ _ _ _ _ (numeric_args n Hn) H eq_refl).
  rewrite <- Z.negb_even, Hev. simpl.
  assert (fits 64 (u64 (ver + 1)) /\ fits 64 (u64 (ver + 2))) as [F1 F2]
    by (split; by apply wrap_fits).
  apply (holds_set_version n ver (u64 (ver + 1))) in H; [|done..].
  eexists. split.
  { unfold guard_update at 1. rewrite (holds_value_word _ _ _ _ _ _ (numeric_args n Hn) H).
    reflexivity. }
  apply (holds_set_value n (op n)) in H; [|done..].
  set (b1 := set_value_word integrity (op n) _) in *.
  assert (blen b1 = blen buf) as L1.
  { unfold b1, set_value_word, set_version_word. by rewrite !blen_set. }
  destruct (sumbool_of_bool integrity) as [Ei|Ei];
    [rewrite (if_true _ _ _ Ei)|rewrite (if_false _ _ _ Ei)].
  - assert (compute_crc_numeric integrity crc32 (op n) b1 = compute_crc integrity crc32 b1) as ->.
    { unfold compute_crc. rewrite (holds_numeric _ _ _ _ _ _ (numeric_args _ Hop) H).
      by rewrite (holds_value_word _ _ _ _ _ _ (numeric_args _ Hop) H). }
    destruct (holds_set_crc k (U64 (op n)) o _ del b1 Ei (numeric_args _ Hop) H) as [H2 Hc].
    split; [by apply (holds_set_version (op n) (u64 (ver + 1)))|].
    split; [by apply (crc_ok_set_version (op n) (u64 (ver + 1)) del)|].
    unfold set_version_word, set_crc32. by rewrite !blen_set.
  - split; [by apply (holds_set_version (op n) (u64 (ver + 1)))|].
    split; [intros E; congruence|]. unfold set_version_word. by rewrite blen_set.
Qed.

(** A history of in-place updates, as the two fetch operations make them. *)
Inductive NumericOp := Incr (rhs : Z) | Decr (rhs : Z).

Definition apply_op (op : NumericOp) buf : Numeric (Z * bytes) :=
  match op with
  | Incr rhs => fetch_wrapping_add integrity crc32 rhs buf
  | Decr rhs => fetch_saturating_sub integrity crc32 rhs buf
  end.

Definition op_value (n : Z) (op : NumericOp) : Z :=
  match op with
  | Incr rhs => u64 (n + rhs)
  | Decr rhs => sat_sub n rhs
  end.

Fixpoint apply_ops (ops : list NumericOp) buf : option bytes :=
  match ops with
  | [] => Some buf
  | op :: ops =>
      match apply_op op buf with
      | NumericOk (_, buf) => apply_ops ops buf
      | _ => None
      end
  end.

Definition op_rhs (op : NumericOp) : Z := match op with Incr r | Decr r => r end.

Lemma op_value_fits n op : fits 64 n -> 0 <= op_rhs op -> fits 64 (op_value n op).
Proof.
  intros Hn Hr. destruct op as [r|r]; [by apply wrap_fits|].
  unfold op_value, sat_sub, fits in *. simpl in *. lia.
Qed.

Lemma even_version ver : Z.even ver = true -> Z.even (u64 (ver + 2)) = true.
Proof.
  rewrite !Zeven_mod, !Z.eqb_eq. unfold wrap. pow2. intros. dm.
Qed.

Lemma apply_ops_holds ops n ver del buf :
  fits 64 n -> Forall (fun op => 0 <= op_rhs op) ops -> Z.even ver = true ->
  holds k (U64 n) o ver del buf -> crc_ok buf ->
  exists b, apply_ops ops buf = Some b /\
    holds k (U64 (fold_left op_value ops n)) o (u64 (ver + 2 * Z.of_nat (length ops))) del b /\
    crc_ok b /\ fits 64 (fold_left op_value ops n) /\
    Z.even (u64 (ver + 2 * Z.of_nat (length ops))) = true.
Proof.
  intros Hn Hops. revert n ver buf Hn. induction Hops as [|op ops Hop Hops IH];
    intros n ver buf Hn Hev H Hc.
  - exists buf. destruct (holds_version _ _ _ _ _ _ H eq_refl) as [_ Hf].
    simpl. rewrite Z.add_0_r, wrap_id by done. auto.
  - destruct (numeric_step n ver del (fun n => op_value n op) buf) as (b & E & H' & Hc' & _);
      [done|by apply op_value_fits|done|done|].
    destruct (IH (op_value n op) (u64 (ver + 2)) b) as (b' & E' & H'' & Hc'' & Hf & Hev');
      [by apply op_value_fits|by apply even_version|done|done|].
    exists b'. split.
    { simpl. assert (apply_op op buf = NumericOk (op_value n op, b)) as ->; [|done].
      rewrite <- E. by destruct op. }
    rewrite wrap_add_l in H'', Hev'. cbn [length fold_left].
    replace (ver + 2 * Z.of_nat (S (length ops)))
      with (ver + 2 + 2 * Z.of_nat (length ops)) by lia. auto.
Qed.
End Numeric.

(** C18. Any history of in-place updates of a freshly defined numeric item: the
    value is that of the wrapping additions and saturating subtractions, the
    version has advanced by two per update, nothing else has changed, and the
    item passes its integrity check. *)
Theorem numeric_history k n o buf ops :
  item_args k (U64 n) o -> item_size integrity (blen k) (U64 n) (blen o) <= blen buf ->
  Forall (fun op => 0 <= op_rhs op) ops ->
  exists b, apply_ops ops (define integrity crc32 k (U64 n) o buf) = Some b /\
    read_value integrity b = Some (U64 (fold_left op_value ops n)) /\
    numeric_version integrity b = Some (u64 (2 * Z.of_nat (length ops))) /\
    key integrity b = k /\ optional integrity b = (if 0 <? blen o then Some o else None) /\
    (integrity = true -> check_integrity integrity crc32 b = Some true).
Proof.
  intros Ha Hr Hops. destruct (item_size_covers_aux k (U64 n) o) as (_ & Hs & _).
  destruct (define_holds k (U64 n) o buf Ha ltac:(lia)) as (H & Hc & _).
  pose proof Ha as [Hk Ho Hn]. simpl in Hn.
  destruct (apply_ops_holds k o Hk Ho ops n 0 false _ Hn Hops eq_refl H Hc)
    as (b & E & H' & Hc' & Hf & Hev).
  assert (item_args k (U64 (fold_left op_value ops n)) o) as Ha' by by split.
  exists b. split; [done|]. split.
  { rewrite (holds_read_value _ _ _ _ _ _ Ha' H'), <- Z.negb_even, Hev. done. }
  split.
  { unfold numeric_version. rewrite (holds_numeric _ _ _ _ _ _ Ha' H').
    by rewrite (holds_version_word _ _ _ _ _ _ Ha' H' eq_refl). }
  split; [by eapply holds_read_key|]. split; [by eapply holds_read_optional|].
  intros Hi. by eapply holds_check_integrity.
Qed.
End Spec.

(** ** Simple numerics are the canonical decimals *)

(** The canonical decimal rendering; twenty digits are enough for a [u64]. *)
Fixpoint decimal_digits (fuel : nat) (n : Z) : bytes :=
  match fuel with
  | O => []
  | S f => if n <? 10 then [48 + n] else decimal_digits f (n / 10) ++ [48 + n mod 10]
  end.

Definition decimal (n : Z) : bytes := decimal_digits 20 n.

Definition digits_value (v : Z) (bs : bytes) : Z :=
  fold_left (fun v b => v * 10 + (b - 48)) bs v.

Lemma is_ascii_digit_spec b : is_ascii_digit b = true <-> 48 <= b <= 57.
Proof. unfold is_ascii_digit. rewrite andb_true_iff, !Z.leb_le. done. Qed.

Lemma digits_value_mono v bs :
  0 <= v -> Forall (fun b => is_ascii_digit b = true) bs -> v <= digits_value v bs.
Proof.
  intros Hv H. revert v Hv. induction H as [|b bs Hb _ IH]; intros v Hv; simpl; [lia|].
  apply is_ascii_digit_spec in Hb. specialize (IH (v * 10 + (b - 48)) ltac:(lia)).
  unfold digits_value in *. simpl. lia.
Qed.

Lemma digits_value_snoc v bs b :
  digits_value v (bs ++ [b]) = digits_value v bs * 10 + (b - 48).
Proof. unfold digits_value. by rewrite fold_left_app. Qed.

Lemma digits_value_cons v b bs : digits_value v (b :: bs) = digits_value (v * 10 + (b - 48)) bs.
Proof. done. Qed.

Lemma checked_some w x y : checked w x = Some y <-> fits w x /\ y = x.
Proof.
  unfold checked, fits. destruct (Z.leb_spec 0 x), (Z.ltb_spec x (2 ^ w)); simpl;
    naive_solver lia.
Qed.

Lemma parse_digits_spec bs v n :
  0 <= v ->
  parse_digits bs v = Some n <->
  Forall (fun b => is_ascii_digit b = true) bs /\ n = digits_value v bs /\
  (bs <> [] -> fits 64 n).
Proof.
  revert v. induction bs as [|b bs IH]; intros v Hv; simpl.
  - split; [intros [= <-]; naive_solver|]. intros (_ & -> & _). done.
  - destruct (is_ascii_digit b) eqn:Hb; simpl.
    2:{ split; [done|]. intros [H _]. apply Forall_cons_1 in H as [H _]. congruence. }
    assert (Hd := Hb). apply is_ascii_digit_spec in Hd. rewrite !bind_Some.
    setoid_rewrite bind_Some. setoid_rewrite checked_some. split.
    + intros (x & [Hx ->] & y & [Hy ->] & H). apply IH in H as (Hf & -> & Hfit); [|lia].
      split; [by constructor|]. split; [done|]. intros _.
      destruct bs; [done|]. by apply Hfit.
    + intros (Hf & -> & Hfit). apply Forall_cons_1 in Hf as [_ Hf].
      pose proof (digits_value_mono (v * 10 + (b - 48)) bs ltac:(lia) Hf).
      specialize (Hfit ltac:(done)). unfold digits_value in Hfit, H. simpl in Hfit.
      assert (fits 64 (v * 10) /\ fits 64 (v * 10 + (b - 48))) as [? ?]
        by (unfold fits in *; lia).
      eexists. split; [done|]. eexists. split; [done|]. apply IH; [lia|].
      split; [done|]. split; [done|]. done.
Qed.

Lemma decimal_digits_spec f n :
  0 <= n < 10 ^ Z.of_nat f -> (0 < f)%nat ->
  Forall (fun b => is_ascii_digit b = true) (decimal_digits f n) /\
  digits_value 0 (decimal_digits f n) = n /\
  exists b bs, decimal_digits f n = b :: bs /\ (bs <> [] -> b <> 48) /\ (n <> 0 -> b <> 48).
Proof.
  revert n. induction f as [|f IH]; intros n Hn Hf; [lia|]. cbn [decimal_digits].
  destruct (Z.ltb_spec n 10).
  - split; [constructor; [apply is_ascii_digit_spec; lia|constructor]|].
    split; [unfold digits_value; simpl; lia|]. do 2 eexists. split; [done|].
    split; [done|]. lia.
  - destruct f as [|f]; [simpl in Hn; lia|].
    assert (0 <= n / 10 < 10 ^ Z.of_nat (S f)) as Hq.
    { replace (Z.of_nat (S (S f))) with (Z.of_nat (S f) + 1) in Hn by lia.
      rewrite Z.pow_add_r in Hn by lia. change (10 ^ 1) with 10 in Hn. dm. }
    destruct (IH (n / 10) Hq ltac:(lia)) as (Hd & Hv & b & bs & E & _ & Hb).
    split.
    { apply Forall_app. split; [done|]. constructor; [|constructor].
      apply is_ascii_digit_spec. dm. }
    split; [rewrite digits_value_snoc, Hv; dm|].
    rewrite E. exists b, (bs ++ [48 + n mod 10]). split; [done|].
    assert (n / 10 <> 0) by dm. auto.
Qed.

Lemma decimal_of_value f bs :
  Forall (fun b => is_ascii_digit b = true) bs -> bs <> [] ->
  ((1 < length bs)%nat -> hd 0 bs <> 48) -> (length bs <= f)%nat ->
  decimal_digits f (digits_value 0 bs) = bs.
Proof.
  revert bs. induction f as [|f IH]; intros bs Hd Hne Hz Hl; [by destruct bs; simpl in Hl; try lia|].
  destruct bs as [|b bs] using rev_ind; [done|]. clear IHbs.
  apply Forall_app in Hd as [Hd Hb]. apply Forall_cons_1 in Hb as [Hb _].
  apply is_ascii_digit_spec in Hb. rewrite digits_value_snoc. cbn [decimal_digits].
  destruct bs as [|c bs].
  - unfold digits_value. simpl. destruct (Z.ltb_spec (0 * 10 + (b - 48)) 10); [|lia].
    simpl. f_equal. lia.
  - assert (c <> 48) as Hc by (apply Hz; rewrite length_app; simpl; lia).
    assert (Hd' := Hd). apply Forall_cons_1 in Hd' as [Hc' Hd'].
    apply is_ascii_digit_spec in Hc'.
    assert (1 <= digits_value 0 (c :: bs)) as Hv.
    { rewrite digits_value_cons.
      pose proof (digits_value_mono (0 * 10 + (c - 48)) bs ltac:(lia) Hd'). lia. }
    destruct (Z.ltb_spec (digits_value 0 (c :: bs) * 10 + (b - 48)) 10); [lia|].
    assert ((digits_value 0 (c :: bs) * 10 + (b - 48)) / 10 = digits_value 0 (c :: bs)) as -> by dm.
    rewrite IH; [|done|done|done|rewrite length_app in Hl; simpl in *; lia].
    f_equal. f_equal. dm.
Qed.

Lemma decimal_length bs n :
  Forall (fun b => is_ascii_digit b = true) bs -> ((1 < length bs)%nat -> hd 0 bs <> 48) ->
  digits_value 0 bs = n -> fits 64 n -> (length bs <= 20)%nat.
Proof.
  intros Hd Hz Hv Hn. destruct bs as [|c bs]; simpl; [lia|].
  destruct bs as [|d bs]; [simpl; lia|].
  assert (c <> 48) as Hc by (apply Hz; simpl; lia). clear Hz.
  apply Forall_cons_1 in Hd as [Hc' Hd]. apply is_ascii_digit_spec in Hc'.
  assert (forall bs v, 1 <= v -> Forall (fun b => is_ascii_digit b = true) bs ->
            v * 10 ^ Z.of_nat (length bs) <= digits_value v bs) as Hlow.
  { clear. induction bs as [|b bs IH]; intros v Hv H; simpl length.
    - unfold digits_value. simpl. lia.
    - apply Forall_cons_1 in H as [Hb H]. apply is_ascii_digit_spec in Hb.
      specialize (IH (v * 10 + (b - 48)) ltac:(lia) H).
      rewrite Nat2Z.inj_succ, Z.pow_succ_r by lia. unfold digits_value in *. simpl.
      pose proof (Z.pow_pos_nonneg 10 (Z.of_nat (length bs)) ltac:(lia) ltac:(lia)). nia. }
  specialize (Hlow (d :: bs) (0 * 10 + (c - 48)) ltac:(lia) Hd).
  rewrite digits_value_cons in Hv.
  destruct (Nat.le_gt_cases (length (d :: bs)) 19) as [|Hlong]; [simpl in *; lia|].
  assert (10 ^ 20 <= 10 ^ Z.of_nat (length (d :: bs))) by (apply Z.pow_le_mono_r; lia).
  unfold fits in Hn. pow2. change (10 ^ 20) with 100000000000000000000 in *.
  rewrite Hv in Hlow. nia.
Qed.

(** [parse_simple_numeric] accepts exactly the canonical decimals of the
    64-bit integers, with their value. *)
Theorem parse_simple_numeric_spec bs n :
  parse_simple_numeric bs = Some n <-> fits 64 n /\ bs = decimal n.
Proof.
  unfold decimal. split.
  - destruct bs as [|b bs]; [done|]. unfold parse_simple_numeric.
    destruct ((1 <? blen (b :: bs)) && (b =? 48)) eqn:Hz; [done|].
    intros (Hd & Hv & Hfit)%parse_digits_spec; [|lia]. specialize (Hfit ltac:(done)).
    assert ((1 < length (b :: bs))%nat -> hd 0 (b :: bs) <> 48) as Hz'.
    { intros Hl E. simpl in E. subst b. revert Hz. unfold blen.
      destruct (Z.ltb_spec 1 (Z.of_nat (length (48 :: bs)))); [|lia]. done. }
    split; [done|]. symmetry. rewrite Hv. apply decimal_of_value; try done.
    by eapply decimal_length.
  - intros [Hn ->]. destruct (decimal_digits_spec 20 n) as (Hd & Hv & b & bs & E & Hb & _).
    + unfold fits in Hn. pow2. change (10 ^ Z.of_nat 20) with 100000000000000000000. lia.
    + lia.
    + rewrite E in *. unfold parse_simple_numeric.
      assert ((1 <? blen (b :: bs)) && (b =? 48) = false) as ->.
      { destruct bs as [|c bs]; [done|]. rewrite (proj2 (Z.eqb_neq b 48));
          [apply andb_false_r|by apply Hb]. }
      apply parse_digits_spec; [lia|]. done.
Qed.

(** ** Concrete items

    A stand-in 32-bit hash for the [crc32] parameter. *)
Module ItemDemo.
Definition hash32 (bs : bytes) : Z := u32 (fold_left (fun h b => h * 33 + b) bs 5381).

Lemma hash32_u32 bs : fits 32 (hash32 bs).
Proof. by apply wrap_fits. Qed.

Definition buf : bytes := replicate 64 0xEE.
Definition k : bytes := [107; 101; 121].
Definition o : bytes := [1; 2].

Lemma args v : value_ok v -> item_args k v o.
Proof. by split. Qed.

Lemma define_roundtrip_witness :
  let b := define true hash32 k (U64 77) o buf in
  key true b = k /\ read_value true b = Some (U64 77) /\
  optional true b = (if 0 <? blen o then Some o else None) /\
  is_deleted true b = false /\
  size true b = item_size true (blen k) (U64 77) (blen o) /\
  check_magic true b = true /\
  (true = true -> check_integrity true hash32 b = Some true) /\
  blen b = blen buf /\
  (forall off len, item_size true (blen k) (U64 77) (blen o) <= off -> 0 <= len ->
     slice off len b = slice off len buf).
Proof.
  apply (define_roundtrip true hash32).
  - apply hash32_u32.
  - apply args. vm_compute. intuition congruence.
  - vm_compute. congruence.
Defined.

Lemma tombstone_spec_witness :
  let b := set_deleted true true (define true hash32 k (Bytes [9; 8; 7]) o buf) in
  is_deleted true b = true /\ key true b = k /\ read_value true b = Some (Bytes [9; 8; 7]) /\
  optional true b = (if 0 <? blen o then Some o else None) /\
  size true b = item_size true (blen k) (Bytes [9; 8; 7]) (blen o) /\
  is_deleted true (set_deleted true false b) = false.
Proof.
  apply (tombstone_spec true hash32).
  - apply hash32_u32.
  - apply args. split; [repeat constructor|]; vm_compute; intuition congruence.
  - vm_compute. congruence.
Defined.

Lemma numeric_history_witness :
  exists b, apply_ops true hash32 [Incr 5; Decr 100; Incr (2 ^ 64 - 1)]
              (define true hash32 k (U64 77) o buf) = Some b /\
    read_value true b = Some (U64 (fold_left op_value [Incr 5; Decr 100; Incr (2 ^ 64 - 1)] 77)) /\
    numeric_version true b =
      Some (u64 (2 * Z.of_nat (length [Incr 5; Decr 100; Incr (2 ^ 64 - 1)]))) /\
    key true b = k /\ optional true b = (if 0 <? blen o then Some o else None) /\
    (true = true -> check_integrity true hash32 b = Some true).
Proof.
  apply (numeric_history true hash32).
  - apply hash32_u32.
  - apply args. vm_compute. intuition congruence.
  - vm_compute. congruence.
  - repeat constructor; vm_compute; congruence.
Defined.

(** The stored CRC covers the flags byte, and marking does not recompute it:
    a tombstoned, otherwise intact item fails the check. *)
Example tombstone_fails_integrity :
  let b := define true hash32 k (Bytes [9; 8; 7]) o buf in
  check_integrity true hash32 b = Some true /\
  check_integrity true hash32 (set_deleted true true b) = Some false.
Proof. by vm_compute. Qed.
End ItemDemo.
