(* ===== verification/Cuckoo.v ===== *)
(** * The cuckoo cache

    The [cuckoo] crate ([cuckoo.rs], [builder.rs], [item.rs]) and the
    [TinyItem] slots it stores ([keyvalue/src/tiny.rs]), on the flat byte array
    the cache allocates. The four hash functions (the [ahash] crate), the
    random draw of the [Random] policy (the [rand] crate) and the coarse clock
    are parameters: [now] is the number of whole seconds since the cache was
    created, read once per operation. *)
From S2P Require Import Prelude KvItem.

(** ** Slots *)

Module TinyItem.
Definition TINY_ITEM_HDR_SIZE : Z := 6.

(** The header fields of the item at byte [off]: expire (u32), klen, vlen. *)
Definition expire (off : Z) (data : bytes) : Z := get_uint 4 off data.
Definition klen (off : Z) (data : bytes) : Z := get_uint 1 (off + 4) data.
Definition raw_vlen (off : Z) (data : bytes) : Z := get_uint 1 (off + 5) data.

Definition value_len (off : Z) (data : bytes) : Z :=
  if raw_vlen off data =? 0 then 8 else raw_vlen off data.

Definition key (off : Z) (data : bytes) : bytes :=
  slice (off + TINY_ITEM_HDR_SIZE) (klen off data) data.

Definition value (off : Z) (data : bytes) : Value :=
  let vlen := raw_vlen off data in
  let o := off + TINY_ITEM_HDR_SIZE + klen off data in
  if vlen =? 0 then U64 (be_value (slice o 8 data)) else Bytes (slice o vlen data).

Definition define (off : Z) (k : bytes) (v : Value) (e : Z) (data : bytes) : bytes :=
  let data := set_uint 4 off e data in
  let data := set_uint 1 (off + 4) (u8 (blen k)) data in
  let data := blit (off + TINY_ITEM_HDR_SIZE) k data in
  let val_off := off + TINY_ITEM_HDR_SIZE + blen k in
  match v with
  | Bytes v =>
      let data := set_uint 1 (off + 5) (u8 (blen v)) data in
      blit val_off v data
  | U64 v =>
      let data := set_uint 1 (off + 5) 0 data in
      blit val_off (be_bytes 8 v) data
  end.

(** The common shape of the two updates: [None] is [NotNumericError]. *)
Definition update (op : Z -> Z) (off : Z) (data : bytes) : option bytes :=
  match value off data with
  | U64 v => Some (blit (off + TINY_ITEM_HDR_SIZE + klen off data) (be_bytes 8 (op v)) data)
  | Bytes _ => None
  end.

Definition wrapping_add (rhs off : Z) (data : bytes) : option bytes :=
  update (fun v => u64 (v + rhs)) off data.

Definition saturating_sub (rhs off : Z) (data : bytes) : option bytes :=
  update (fun v => sat_sub v rhs) off data.
End TinyItem.

(** ** The cache *)

Inductive Policy := Random | Expire.

Inductive CuckooCacheError :=
| ItemOversized (size max : Z)
| NotFound
| NotNumeric.

Inductive Outcome (A : Type) := Ok (a : A) | Err (e : CuckooCacheError).
Arguments Ok {A}.
Arguments Err {A}.

Record Builder := {
  b_item_size : Z; b_nitem : Z; b_max_displace : nat; b_policy : Policy; b_max_ttl : Z
}.

Definition default_builder : Builder :=
  {| b_item_size := 64; b_nitem := 1024; b_max_displace := 2; b_policy := Random;
     b_max_ttl := 2592000 |}.

(** The configuration of a [CuckooCache]; its storage is passed separately. *)
Record Config := {
  item_size : Z; nitem : Z; max_displace : nat; max_ttl : Z; policy : Policy
}.

Definition U32_MAX : Z := 2 ^ 32 - 1.
Definition D : nat := 4.

(** [from_builder]: [None] where an [assert!] or the [expect] fails. *)
Definition from_builder (b : Builder) : option (Config * bytes) :=
  if negb (TinyItem.TINY_ITEM_HDR_SIZE <? b_item_size b) then None
  else if negb (0 <? b_nitem b) then None
  else
    total ← checked 64 (b_item_size b * b_nitem b);
    Some ({| item_size := b_item_size b; nitem := b_nitem b;
             max_displace := b_max_displace b; max_ttl := b_max_ttl b;
             policy := b_policy b |},
          replicate (Z.to_nat total) 0).

(** A time to live as [Duration] gives it: whole seconds and the rest. *)
Record Duration := { secs : Z; nanos : Z }.

Section Cuckoo.
Context (hash : nat -> bytes -> Z) (draw : Z).
Implicit Types (c : Config) (now : Z) (i : Z) (data : bytes).

Definition slot_offset c i : Z := i * item_size c.

Definition slot_expire c i data : Z := TinyItem.expire (slot_offset c i) data.
Definition slot_key c i data : bytes := TinyItem.key (slot_offset c i) data.

Definition slot_is_empty c i data : bool := slot_expire c i data =? 0.

Definition slot_is_expired c now i data : bool :=
  let expire := slot_expire c i data in
  if (expire =? 0) || (expire =? U32_MAX) then false else expire <? now.

Definition clear_slot c i data : bytes :=
  blit (slot_offset c i) (replicate (Z.to_nat (item_size c)) 0) data.

Definition move_slot c (from to : Z) data : bytes :=
  let data := blit (slot_offset c to) (slice (slot_offset c from) (item_size c) data) data in
  blit (slot_offset c from) (replicate (Z.to_nat (item_size c)) 0) data.

Definition write_slot c i (key : bytes) (value : Value) (expire : Z) data : bytes :=
  TinyItem.define (slot_offset c i) key value expire (clear_slot c i data).

Definition positions c (key : bytes) : list Z :=
  map (fun h => hash h key mod nitem c) (seq 0 D).

Definition compute_expire c now (ttl : Duration) : Z :=
  if (secs ttl =? 0) && (nanos ttl =? 0) then U32_MAX
  else sat_add 32 now (Z.min (secs ttl) (max_ttl c)).

(** [handle_expired] and [evict_at] differ only in the metrics they bump. *)
Definition handle_expired c i data : bytes := clear_slot c i data.
Definition evict_at c i data : bytes := clear_slot c i data.

(** ** Displacement *)

(** The first loop of [displace_from]: move the occupant of [pos] to a free
    alternative. *)
Fixpoint move_to_free c now (pos : Z) (alts : list Z) data : option bytes :=
  match alts with
  | [] => None
  | alt :: alts =>
      if alt =? pos then move_to_free c now pos alts data
      else if slot_is_empty c alt data then Some (move_slot c pos alt data)
      else if slot_is_expired c now alt data then
        Some (move_slot c pos alt (handle_expired c alt data))
      else move_to_free c now pos alts data
  end.

(** Its second loop: displace the occupant of an alternative, then move. *)
Fixpoint displace_next (displace : Z -> bytes -> bool * bytes) c (pos : Z) (alts : list Z) data
    : bool * bytes :=
  match alts with
  | [] => (false, data)
  | alt :: alts =>
      if alt =? pos then displace_next displace c pos alts data
      else
        let (freed, data) := displace alt data in
        if freed then (true, move_slot c pos alt data)
        else displace_next displace c pos alts data
  end.

(** [levels] is [max_displace - depth]. *)
Fixpoint displace_from (levels : nat) c now (pos : Z) data : bool * bytes :=
  if slot_is_empty c pos data then (true, data)
  else if slot_is_expired c now pos data then (true, handle_expired c pos data)
  else
    match levels with
    | O => (false, data)
    | S levels =>
        let key_buf := slot_key c pos data in
        let alts := positions c key_buf in
        match move_to_free c now pos alts data with
        | Some data => (true, data)
        | None => displace_next (displace_from levels c now) c pos alts data
        end
    end.

Fixpoint try_displace c now (candidates : list Z) data : option Z * bytes :=
  match candidates with
  | [] => (None, data)
  | pos :: candidates =>
      let (freed, data) := displace_from (max_displace c) c now pos data in
      if freed then (Some pos, data) else try_displace c now candidates data
  end.

(** [select_victim], the position rather than its index. *)
Fixpoint nearest_expire c (candidates : list Z) (best best_expire : Z) data : Z :=
  match candidates with
  | [] => best
  | pos :: candidates =>
      let expire := slot_expire c pos data in
      if expire <? best_expire then nearest_expire c candidates pos expire data
      else nearest_expire c candidates best best_expire data
  end.

Definition select_victim c (candidates : list Z) data : Z :=
  match policy c with
  | Random => nth (Z.to_nat (draw mod Z.of_nat D)) candidates 0
  | Expire => nearest_expire c candidates (nth 0 candidates 0) U32_MAX data
  end.

(** ** Operations *)

Definition is_live c now i data : bool :=
  negb (slot_is_empty c i data || slot_is_expired c now i data).

(** [find_slot_for_insert]: the slot, whether it is an update, the storage. *)
Definition find_slot_for_insert c now (key : bytes) (positions : list Z) data
    : Z * bool * bytes :=
  match find (fun pos => is_live c now pos data && bool_decide (slot_key c pos data = key))
          positions with
  | Some pos => (pos, true, data)
  | None =>
      match find (fun pos => slot_is_empty c pos data) positions with
      | Some pos => (pos, false, data)
      | None =>
          match find (fun pos => slot_is_expired c now pos data) positions with
          | Some pos => (pos, false, handle_expired c pos data)
          | None =>
              match try_displace c now positions data with
              | (Some pos, data) => (pos, false, data)
              | (None, data) =>
                  let pos := select_victim c positions data in
                  (pos, false, evict_at c pos data)
              end
          end
      end
  end.

(** An [Item] view: the byte offset of the slot it reads. *)
Fixpoint get_from c now (key : bytes) (positions : list Z) data : option Z * bytes :=
  match positions with
  | [] => (None, data)
  | pos :: positions =>
      if slot_is_empty c pos data then get_from c now key positions data
      else if bool_decide (slot_key c pos data = key) then
        if slot_is_expired c now pos data then (None, handle_expired c pos data)
        else (Some (slot_offset c pos), data)
      else get_from c now key positions data
  end.

Definition get c now (key : bytes) data : option Z * bytes :=
  get_from c now key (positions c key) data.

Definition insert c now (key : bytes) (value : Value) (ttl : Duration) data
    : Outcome unit * bytes :=
  let required := TinyItem.TINY_ITEM_HDR_SIZE + blen key + size_of value in
  if item_size c <? required then (Err (ItemOversized required (item_size c)), data)
  else
    let expire := compute_expire c now ttl in
    let '(pos, is_update, data) := find_slot_for_insert c now key (positions c key) data in
    (Ok tt, write_slot c pos key value expire data).

Fixpoint delete_from c now (key : bytes) (positions : list Z) data : bool * bytes :=
  match positions with
  | [] => (false, data)
  | pos :: positions =>
      if slot_is_empty c pos data then delete_from c now key positions data
      else if bool_decide (slot_key c pos data = key) then
        if slot_is_expired c now pos data then (false, handle_expired c pos data)
        else (true, clear_slot c pos data)
      else delete_from c now key positions data
  end.

Definition delete c now (key : bytes) data : bool * bytes :=
  delete_from c now key (positions c key) data.

Definition clear data : bytes := replicate (length data) 0.

(** The two numeric operations. *)
Definition numeric_op c now (op : Z -> bytes -> option bytes) (key : bytes) data
    : Outcome Z * bytes :=
  match find (fun pos => is_live c now pos data && bool_decide (slot_key c pos data = key))
          (positions c key) with
  | Some pos =>
      let off := slot_offset c pos in
      match op off data with
      | Some data => (Ok off, data)
      | None => (Err NotNumeric, data)
      end
  | None => (Err NotFound, data)
  end.

Definition wrapping_add c now (key : bytes) (rhs : Z) data : Outcome Z * bytes :=
  numeric_op c now (TinyItem.wrapping_add rhs) key data.

Definition saturating_sub c now (key : bytes) (rhs : Z) data : Outcome Z * bytes :=
  numeric_op c now (TinyItem.saturating_sub rhs) key data.

Definition items c now data : nat :=
  length (filter (fun i => is_live c now i data = true) (map Z.of_nat (seq 0 (Z.to_nat (nitem c))))).
End Cuckoo.
