(* ===== verification/CuckooSpec.v ===== *)
(** * Correctness of the cuckoo cache

    The storage is read as a list of slots ([slots]); the operations of
    [Cuckoo] then rewrite single slots, and the theorems follow: what an
    insert does to the set of live items, that displacement loses none and
    keeps every item at one of its candidate positions, that a lookup after an
    insert finds the value, and what a delete and a numeric update do. *)
From S2P Require Import Prelude KvItem Cuckoo.

(** ** One slot *)

Section Tiny.
Implicit Types (k bs s : bytes) (v : Value).

(** A key and a value a slot of [size] bytes represents faithfully: lengths
    that fit their bytes, and no empty [Bytes] (a zero length marks a
    number). *)
Definition tiny_args (size : Z) k v : Prop :=
  blen k <= 255 /\ TinyItem.TINY_ITEM_HDR_SIZE + blen k + size_of v <= size /\
  match v with
  | Bytes b => 1 <= blen b <= 255
  | U64 n => fits 64 n
  end.

(** Writing into the middle part of a buffer. *)
Lemma blit_mid (a s b bs : bytes) o :
  0 <= o -> o + blen bs <= blen s ->
  blit (blen a + o) bs (a ++ s ++ b) = a ++ blit o bs s ++ b.
Proof.
  intros. rewrite !blit_in by (rewrite ?blen_app; pose proof (blen_nonneg b); pose proof (blen_nonneg a); lia).
  unfold blen in *. rewrite <- !app_assoc. rewrite take_app_ge by lia.
  rewrite <- app_assoc. f_equal.
  rewrite take_app_le by lia. replace (Z.to_nat (Z.of_nat (length a) + o) - length a)%nat with (Z.to_nat o) by lia.
  f_equal. f_equal.
  rewrite drop_app_ge by lia. rewrite drop_app_le by lia. f_equal. f_equal. lia.
Qed.

Lemma split_at (off size : Z) (data : bytes) :
  0 <= off -> 0 <= size -> off + size <= blen data ->
  data = slice 0 off data ++ slice off size data ++ slice (off + size) (blen data - off - size) data.
Proof.
  intros. rewrite <- (slice_app_slice off), <- (slice_app_slice 0 off) by lia.
  symmetry. apply slice_full. lia.
Qed.

Lemma slice_blit_inside off size o bs data :
  0 <= off -> 0 <= o -> o + blen bs <= size -> off + size <= blen data ->
  slice off size (blit (off + o) bs data) = blit o bs (slice off size data).
Proof.
  intros. pose proof (blen_nonneg bs). rewrite (split_at off size data) at 1 by lia.
  replace (off + o) with (blen (slice 0 off data) + o) by (rewrite blen_slice; lia).
  rewrite blit_mid by (rewrite ?blen_slice; lia).
  rewrite slice_app_r by (rewrite blen_slice; lia).
  rewrite blen_slice, Z.sub_diag by lia. rewrite slice_app_l by (rewrite ?blen_blit, ?blen_slice; lia).
  apply slice_full. rewrite blen_blit, blen_slice; lia.
Qed.

Lemma get_uint_slot n off o size data :
  0 <= off -> 0 <= o -> o + Z.of_nat n <= size ->
  get_uint n (off + o) data = get_uint n o (slice off size data).
Proof. intros. unfold get_uint. by rewrite slice_slice by lia. Qed.
End Tiny.

Section TinyRead.
Implicit Types (k bs s : bytes) (v : Value).

(** An item is read within its slot. *)
Lemma expire_slot off size data :
  0 <= off -> 6 <= size ->
  TinyItem.expire off data = TinyItem.expire 0 (slice off size data).
Proof.
  intros. unfold TinyItem.expire. rewrite <- (Z.add_0_r off) at 1. apply get_uint_slot; lia.
Qed.

Lemma klen_slot off size data :
  0 <= off -> 6 <= size ->
  TinyItem.klen off data = TinyItem.klen 0 (slice off size data).
Proof. intros. unfold TinyItem.klen. apply get_uint_slot; lia. Qed.

Lemma raw_vlen_slot off size data :
  0 <= off -> 6 <= size ->
  TinyItem.raw_vlen off data = TinyItem.raw_vlen 0 (slice off size data).
Proof. intros. unfold TinyItem.raw_vlen. apply get_uint_slot; lia. Qed.

(** The key and the value lie within the slot. *)
Definition in_slot size s : Prop :=
  0 <= TinyItem.klen 0 s /\ 0 <= TinyItem.raw_vlen 0 s /\
  6 + TinyItem.klen 0 s + TinyItem.value_len 0 s <= size.

Lemma value_len_pos s : 0 <= TinyItem.raw_vlen 0 s -> 0 < TinyItem.value_len 0 s.
Proof. unfold TinyItem.value_len. case_bool; lia. Qed.

Lemma key_slot off size data :
  0 <= off -> 6 <= size -> in_slot size (slice off size data) ->
  TinyItem.key off data = TinyItem.key 0 (slice off size data).
Proof.
  intros ? ? (? & Hv & ?). apply value_len_pos in Hv.
  unfold TinyItem.key, TinyItem.TINY_ITEM_HDR_SIZE.
  rewrite (klen_slot off size) by lia. by rewrite slice_slice by lia.
Qed.

Lemma value_slot off size data :
  0 <= off -> in_slot size (slice off size data) ->
  TinyItem.value off data = TinyItem.value 0 (slice off size data).
Proof.
  intros Hoff (Hk & Hv & Hs). pose proof (value_len_pos _ Hv). revert Hs.
  unfold TinyItem.value_len, TinyItem.value, TinyItem.TINY_ITEM_HDR_SIZE in *. intros.
  assert (6 <= size) by lia. rewrite (klen_slot off size), (raw_vlen_slot off size) by lia.
  destruct (Z.eqb_spec (TinyItem.raw_vlen 0 (slice off size data)) 0).
  all: by rewrite slice_slice, Z.add_0_l, Z.add_assoc by lia.
Qed.

(** What [define] leaves in a slot. *)
Lemma define_fields size k v (e : Z) s :
  blen s = size -> tiny_args size k v -> fits 32 e ->
  let s' := TinyItem.define 0 k v e s in
  blen s' = size /\ TinyItem.expire 0 s' = e /\ TinyItem.klen 0 s' = blen k /\
  TinyItem.key 0 s' = k /\ TinyItem.value 0 s' = v /\
  in_slot size s'.
Proof.
  intros Hs (Hk & Hsz & Hv) He. pose proof (blen_nonneg k).
  unfold TinyItem.TINY_ITEM_HDR_SIZE in *.
  assert (fits 8 (blen k)) as Hk8 by (split; [lia|pow2; lia]).
  assert (0 <= size_of v) by (destruct v; simpl; lia).
  unfold in_slot, TinyItem.expire, TinyItem.key, TinyItem.value, TinyItem.value_len,
    TinyItem.raw_vlen, TinyItem.klen, TinyItem.define, TinyItem.TINY_ITEM_HDR_SIZE.
  rewrite !(wrap_id 8 (blen k)) by done.
  assert (He' := le_value_le_bytes 4 e He).
  assert (Hk' := le_value_le_bytes 1 (blen k) Hk8).
  unfold get_uint, set_uint. change (Z.of_nat 4) with 4. change (Z.of_nat 1) with 1.
  destruct v as [b|n]; simpl in Hv, Hsz.
  - assert (fits 8 (blen b)) as Hb8 by (split; [lia|pow2; lia]).
    rewrite (wrap_id 8 (blen b)) by done.
    assert (Hb' := le_value_le_bytes 1 (blen b) Hb8).
    slices. rewrite ?He', ?Hk'. slices. rewrite ?Hb'. slices.
    rewrite (proj2 (Z.eqb_neq (blen b) 0)) by lia. slices. rewrite !blen_blit. split_and!; done || lia.
  - assert (Hb' := le_value_le_bytes 1 0 (fits_0 8 ltac:(lia))).
    slices. rewrite ?He', ?Hk'. slices. rewrite ?Hb'. cbn [Z.eqb].
    rewrite be_value_be_bytes by done.
    rewrite !blen_blit. split_and!; done || lia.
Qed.
End TinyRead.

(** ** The slots of the storage *)

Section Slots.
Context (c : Config).
Implicit Types (i : Z) (data s : bytes) (l : list bytes).

(** The storage [from_builder] allocates. *)
Record sized data : Prop := {
  sized_item : 6 < item_size c;
  sized_nitem : 0 < nitem c;
  sized_data : blen data = item_size c * nitem c
}.

Definition slot_at i data : bytes := slice (slot_offset c i) (item_size c) data.

Definition slots data : list bytes :=
  map (fun n => slot_at (Z.of_nat n) data) (seq 0 (Z.to_nat (nitem c))).

Definition valid i : Prop := 0 <= i < nitem c.

Definition zero_slot : bytes := replicate (Z.to_nat (item_size c)) 0.

Lemma length_slots data : length (slots data) = Z.to_nat (nitem c).
Proof. unfold slots. by rewrite length_map, length_seq. Qed.

Lemma slots_lookup i data : valid i -> slots data !! Z.to_nat i = Some (slot_at i data).
Proof.
  intros [? ?]. unfold slots. rewrite list_lookup_fmap, lookup_seq_lt by lia. simpl.
  by rewrite Z2Nat.id by lia.
Qed.

Lemma slots_in n data s :
  slots data !! n = Some s <-> valid (Z.of_nat n) /\ s = slot_at (Z.of_nat n) data.
Proof.
  unfold slots, valid. rewrite list_lookup_fmap, fmap_Some. setoid_rewrite lookup_seq.
  split.
  - intros (m & [-> ?] & ->). split; [lia|done].
  - intros [? ->]. exists n. split; [lia|done].
Qed.

Lemma offset_bounds i data :
  sized data -> valid i ->
  0 <= slot_offset c i /\ slot_offset c i + item_size c <= blen data.
Proof. intros [? ? ->] [? ?]. unfold slot_offset. nia. Qed.

Lemma blen_slot_at i data : sized data -> valid i -> blen (slot_at i data) = item_size c.
Proof.
  intros H Hi. pose proof (offset_bounds i data H Hi). destruct H.
  unfold slot_at. rewrite blen_slice; lia.
Qed.

Lemma offset_apart i j : valid i -> valid j -> 0 < item_size c -> i <> j ->
  slot_offset c i + item_size c <= slot_offset c j \/ slot_offset c j + item_size c <= slot_offset c i.
Proof.
  intros. unfold slot_offset. destruct (Z.lt_ge_cases i j); [left|right]; nia.
Qed.

(** Writing within slot [i] changes that slot only. *)
Lemma slot_at_blit i j o bs data :
  sized data -> valid i -> valid j -> 0 <= o -> o + blen bs <= item_size c ->
  slot_at j (blit (slot_offset c i + o) bs data) =
    if decide (i = j) then blit o bs (slot_at i data) else slot_at j data.
Proof.
  intros H Hi Hj ? ?. pose proof (offset_bounds i data H Hi).
  pose proof (offset_bounds j data H Hj). destruct H. pose proof (blen_nonneg bs).
  unfold slot_at. case_decide as E.
  - subst j. rewrite slice_blit_inside; [done|lia..].
  - destruct (offset_apart i j) as [?|?]; try done; try lia.
    + by rewrite slice_blit_after by lia.
    + by rewrite slice_blit_before by lia.
Qed.

Lemma sized_blit o bs data : sized data -> sized (blit o bs data).
Proof. intros []. split; [done..|by rewrite blen_blit]. Qed.

Lemma slots_eq l data :
  length l = Z.to_nat (nitem c) ->
  (forall i, valid i -> l !! Z.to_nat i = Some (slot_at i data)) -> slots data = l.
Proof.
  intros Hl H. apply list_eq_same_length with (Z.to_nat (nitem c)); [done|apply length_slots|].
  intros n x y Hn Hx Hy. apply slots_in in Hx as [Hv ->].
  specialize (H (Z.of_nat n) Hv). rewrite Nat2Z.id in H. congruence.
Qed.

Lemma slots_blit i o bs data :
  sized data -> valid i -> 0 <= o -> o + blen bs <= item_size c ->
  slots (blit (slot_offset c i + o) bs data) = <[Z.to_nat i := blit o bs (slot_at i data)]> (slots data).
Proof.
  intros H Hi ? ?. apply slots_eq; [by rewrite length_insert, length_slots|].
  intros j Hj. rewrite slot_at_blit by done. case_decide as E.
  - subst j. apply list_lookup_insert_eq. rewrite length_slots. unfold valid in *. lia.
  - rewrite list_lookup_insert_ne by (unfold valid in *; lia). by apply slots_lookup.
Qed.

Lemma slots_insert i s data :
  sized data -> valid i -> blen s = item_size c ->
  slots (blit (slot_offset c i) s data) = <[Z.to_nat i := s]> (slots data).
Proof.
  intros H Hi Hs. rewrite <- (Z.add_0_r (slot_offset c i)), slots_blit by (destruct H; try done; lia).
  do 2 f_equal. pose proof (blen_slot_at i data H Hi).
  rewrite blit_in by lia. simpl. unfold blen in *.
  rewrite drop_ge by lia. apply app_nil_r.
Qed.

Lemma blen_zero_slot data : sized data -> blen zero_slot = item_size c.
Proof. intros []. unfold zero_slot. rewrite blen_replicate. lia. Qed.

Lemma slots_clear i data :
  sized data -> valid i -> slots (clear_slot c i data) = <[Z.to_nat i := zero_slot]> (slots data).
Proof. intros H Hi. eapply slots_insert; try done. by eapply blen_zero_slot. Qed.

Lemma sized_clear i data : sized data -> sized (clear_slot c i data).
Proof. apply sized_blit. Qed.

Lemma sized_move i j data : sized data -> sized (move_slot c i j data).
Proof. intros. by do 2 apply sized_blit. Qed.

Lemma slots_move i j data :
  sized data -> valid i -> valid j -> 
  slots (move_slot c i j data) =
    <[Z.to_nat i := zero_slot]> (<[Z.to_nat j := slot_at i data]> (slots data)).
Proof.
  intros H Hi Hj. unfold move_slot. rewrite slots_insert; try done.
  - f_equal. apply slots_insert; try done. by apply blen_slot_at.
  - by apply sized_blit.
  - by eapply blen_zero_slot.
Qed.

(** The item [write_slot] leaves in slot [i]. *)
Definition tiny k v (e : Z) : bytes := TinyItem.define 0 k v e zero_slot.

(** Writes within slot [i], one after the other. *)
Definition rewritten i data data' s : Prop :=
  sized data' /\ blen s = item_size c /\ slots data' = <[Z.to_nat i := s]> (slots data).

Lemma rewritten_blit i data data' s p o bs :
  valid i -> rewritten i data data' s -> p = slot_offset c i + o -> 0 <= o ->
  o + blen bs <= item_size c -> rewritten i data (blit p bs data') (blit o bs s).
Proof.
  intros Hi (H & Hs & E) -> ? ?. split; [by apply sized_blit|]. rewrite blen_blit. split; [done|].
  rewrite slots_blit by done. rewrite E, list_insert_insert_eq. do 2 f_equal.
  assert (slots data' !! Z.to_nat i = Some (slot_at i data')) as E' by by apply slots_lookup.
  rewrite E, list_lookup_insert_eq in E'; [congruence|].
  rewrite length_slots. unfold valid in Hi. lia.
Qed.

Lemma slots_write i k v (e : Z) data :
  sized data -> valid i -> tiny_args (item_size c) k v ->
  sized (write_slot c i k v e data) /\
  slots (write_slot c i k v e data) = <[Z.to_nat i := tiny k v e]> (slots data).
Proof.
  intros H Hi (Hk & Hsz & Hv). pose proof (blen_nonneg k).
  assert (0 <= size_of v) by (destruct v; simpl; lia).
  assert (rewritten i data (write_slot c i k v e data) (tiny k v e)) as (? & ? & ?); [|done].
  unfold write_slot, tiny, TinyItem.define, TinyItem.TINY_ITEM_HDR_SIZE, set_uint in *.
  assert (rewritten i data (clear_slot c i data) zero_slot) as Hr.
  { split; [by apply sized_clear|]. split; [by eapply blen_zero_slot|]. by apply slots_clear. }
  destruct v as [b|n]; simpl in Hsz; repeat apply rewritten_blit; try done; blen_lia.
Qed.
End Slots.

(** ** Live items *)

Section Live.
Context (hash : nat -> bytes -> Z) (draw : Z) (c : Config) (now : Z).
Implicit Types (i pos alt : Z) (data s : bytes) (l : list bytes).

Definition s_expire s : Z := TinyItem.expire 0 s.
Definition s_key s : bytes := TinyItem.key 0 s.

Definition s_live s : Prop :=
  s_expire s <> 0 /\ (s_expire s = U32_MAX \/ now <= s_expire s).

#[export] Instance s_live_dec s : Decision (s_live s).
Proof. unfold s_live. apply _. Defined.

Definition live_items data : list bytes := filter s_live (slots c data).

(** Every occupied slot holds its key within its bounds. *)
Definition wf data : Prop :=
  sized c data /\ forall s, s ∈ slots c data -> s_expire s <> 0 ->
    in_slot (item_size c) s /\ s_expire s <= U32_MAX.

Lemma wf_sized data : wf data -> sized c data.
Proof. by intros []. Qed.

Lemma wf_slot i data :
  wf data -> valid c i -> s_expire (slot_at c i data) <> 0 ->
  in_slot (item_size c) (slot_at c i data) /\ s_expire (slot_at c i data) <= U32_MAX.
Proof. intros [_ H] Hi. apply H. apply list_elem_of_lookup. eexists. by apply slots_lookup. Qed.

Lemma slot_expire_eq i data :
  sized c data -> valid c i -> slot_expire c i data = s_expire (slot_at c i data).
Proof.
  intros H Hi. pose proof (offset_bounds c i data H Hi). destruct H.
  apply expire_slot; lia.
Qed.

Lemma slot_key_eq i data :
  wf data -> valid c i -> s_expire (slot_at c i data) <> 0 ->
  slot_key c i data = s_key (slot_at c i data).
Proof.
  intros H Hi He. pose proof (wf_slot i data H Hi He) as [? _]. apply wf_sized in H.
  pose proof (offset_bounds c i data H Hi). destruct H. apply key_slot; [lia..|done].
Qed.

Lemma slot_is_empty_spec i data :
  sized c data -> valid c i ->
  slot_is_empty c i data = bool_decide (s_expire (slot_at c i data) = 0).
Proof.
  intros. unfold slot_is_empty. rewrite slot_expire_eq by done.
  case_bool_decide as E; [by apply Z.eqb_eq|by apply Z.eqb_neq].
Qed.

Lemma slot_is_expired_spec i data :
  sized c data -> valid c i ->
  slot_is_expired c now i data =
    bool_decide (s_expire (slot_at c i data) <> 0 /\ ~ s_live (slot_at c i data)).
Proof.
  intros. unfold slot_is_expired, s_live. rewrite slot_expire_eq by done.
  set (e := s_expire _). case_bool; case_bool_decide; try done; lia.
Qed.

Lemma is_live_spec i data :
  sized c data -> valid c i ->
  is_live c now i data = bool_decide (s_live (slot_at c i data)).
Proof.
  intros. unfold is_live. rewrite slot_is_empty_spec, slot_is_expired_spec by done.
  unfold s_live. repeat case_bool_decide; try done; naive_solver lia.
Qed.

Lemma positions_valid key : 0 < nitem c -> Forall (valid c) (positions hash c key).
Proof.
  intros. unfold positions. apply Forall_map, Forall_forall. intros. apply Z.mod_pos_bound. lia.
Qed.

Lemma length_positions key : length (positions hash c key) = 4%nat.
Proof. done. Qed.

Lemma zero_slot_expire data : sized c data -> s_expire (zero_slot c) = 0.
Proof.
  intros []. unfold s_expire, TinyItem.expire, get_uint, zero_slot, slice.
  rewrite drop_replicate, take_replicate.
  assert (forall n, le_value (replicate n 0) = 0) as E; [|apply E].
  induction n; simpl; lia.
Qed.

Lemma zero_slot_dead data : sized c data -> ~ s_live (zero_slot c).
Proof. intros H. unfold s_live. rewrite (zero_slot_expire data H). naive_solver. Qed.

Definition if_live s : list bytes := if decide (s_live s) then [s] else [].

(** Replacing the slot [s] by [s']. *)
Lemma live_insert l n s s' :
  l !! n = Some s ->
  if_live s ++ filter s_live (<[n := s']> l) ≡ₚ if_live s' ++ filter s_live l.
Proof.
  intros H. assert (n < length l)%nat by by eapply lookup_lt_Some.
  rewrite insert_take_drop by done. rewrite <- (take_drop_middle l n s H) at 3.
  rewrite !filter_app, !filter_cons. unfold if_live. repeat case_decide; simpl; solve_Permutation.
Qed.

Lemma live_clear i data :
  sized c data -> valid c i ->
  if_live (slot_at c i data) ++ live_items (clear_slot c i data) ≡ₚ live_items data.
Proof.
  intros H Hi. unfold live_items. rewrite slots_clear by done.
  rewrite live_insert by by apply slots_lookup.
  unfold if_live. rewrite decide_False by by eapply zero_slot_dead. done.
Qed.

Lemma live_move i j data :
  sized c data -> valid c i -> valid c j -> i <> j -> ~ s_live (slot_at c j data) ->
  live_items (move_slot c i j data) ≡ₚ live_items data.
Proof.
  intros H Hi Hj Hne Hd. unfold live_items. rewrite slots_move by done.
  set (x := slot_at c i data).
  assert (slots c data !! Z.to_nat i = Some x) as Hx by by apply slots_lookup.
  assert (Z.to_nat i <> Z.to_nat j) by (unfold valid in *; lia).
  assert (if_live (slot_at c j data) = []) as E by (unfold if_live; by rewrite decide_False).
  assert (if_live (zero_slot c) = []) as E0
    by (unfold if_live; rewrite decide_False; [done|by eapply zero_slot_dead]).
  pose proof (live_insert (slots c data) (Z.to_nat j) _ x (slots_lookup c j data Hj)) as P1.
  pose proof (live_insert (<[Z.to_nat j:=x]> (slots c data)) (Z.to_nat i) x (zero_slot c)) as P2.
  rewrite list_lookup_insert_ne in P2 by done. specialize (P2 Hx).
  rewrite E in P1. rewrite E0 in P2. simpl in P1, P2. rewrite P1 in P2.
  by apply Permutation_app_inv_l in P2.
Qed.
End Live.

(** ** Displacement *)

Section Displace.
Context (hash : nat -> bytes -> Z) (draw : Z) (c : Config) (now : Z).
Implicit Types (i pos alt : Z) (data s : bytes) (levels : nat).

Abbreviation s_live := (s_live now).
Abbreviation live_items := (live_items c now).
Abbreviation wf := (wf c).

(** The live items are those of [data], and no occupied slot is new. *)
Record kept data data' : Prop := {
  kept_wf : wf data';
  kept_live : live_items data' ≡ₚ live_items data;
  kept_old : forall s, s ∈ slots c data' -> s_expire s <> 0 -> s ∈ slots c data
}.

Lemma kept_refl data : wf data -> kept data data.
Proof. by split. Qed.

Lemma kept_trans d1 d2 d3 : kept d1 d2 -> kept d2 d3 -> kept d1 d3.
Proof.
  intros [? P1 O1] [? P2 O2]. split; [done|by rewrite P2|]. auto.
Qed.

Lemma elem_of_insert_inv {A} (x y : A) n (l : list A) : x ∈ <[n := y]> l -> x = y \/ x ∈ l.
Proof.
  intros (m & H)%list_elem_of_lookup. destruct (decide (m = n)) as [->|].
  - left. assert (n < length l)%nat.
    { apply lookup_lt_Some in H. by rewrite length_insert in H. }
    rewrite list_lookup_insert_eq in H by done. congruence.
  - right. rewrite list_lookup_insert_ne in H by done. apply list_elem_of_lookup. eauto.
Qed.

Lemma slots_old_insert data data' i s :
  (s_expire s = 0 \/ s ∈ slots c data) -> slots c data' = <[Z.to_nat i := s]> (slots c data) ->
  forall s', s' ∈ slots c data' -> s_expire s' <> 0 -> s' ∈ slots c data.
Proof.
  intros Hs E s' Hin He. rewrite E in Hin. apply elem_of_insert_inv in Hin as [->|]; naive_solver.
Qed.

Lemma wf_old data data' :
  wf data -> sized c data' ->
  (forall s, s ∈ slots c data' -> s_expire s <> 0 -> s ∈ slots c data) -> wf data'.
Proof. intros [_ H] ? Ho. split; [done|]. auto. Qed.

Lemma clear_old i data : sized c data -> valid c i ->
  forall s, s ∈ slots c (clear_slot c i data) -> s_expire s <> 0 -> s ∈ slots c data.
Proof.
  intros H Hi. eapply slots_old_insert; [|by apply slots_clear]. left. by eapply zero_slot_expire.
Qed.

Lemma wf_clear i data : wf data -> valid c i -> wf (clear_slot c i data).
Proof.
  intros H Hi. assert (Hs := wf_sized c _ H).
  eapply wf_old; [done|by apply sized_clear|by apply clear_old].
Qed.

Lemma kept_clear i data :
  wf data -> valid c i -> ~ s_live (slot_at c i data) -> kept data (clear_slot c i data).
Proof.
  intros H Hi Hd. assert (Hs := wf_sized c _ H). split; [by apply wf_clear| |by apply clear_old].
  rewrite <- (live_clear c now i data) by done.
  unfold if_live. by rewrite decide_False.
Qed.

Lemma kept_move i j data :
  wf data -> valid c i -> valid c j -> i <> j -> ~ s_live (slot_at c j data) ->
  kept data (move_slot c i j data).
Proof.
  intros H Hi Hj Hne Hd. assert (Hs := wf_sized c _ H).
  assert (forall s, s ∈ slots c (move_slot c i j data) -> s_expire s <> 0 -> s ∈ slots c data) as Ho.
  { intros s. rewrite slots_move by done. intros [->|Hin]%elem_of_insert_inv He.
    - by rewrite (zero_slot_expire c data) in He.
    - apply elem_of_insert_inv in Hin as [->|]; [|done].
      apply list_elem_of_lookup. eexists. by apply slots_lookup. }
  split; [|by apply live_move|done]. eapply wf_old; [done|by apply sized_move|done].
Qed.

(** The content of a slot after a write, a move and a clear. *)
Lemma slot_at_insert i k s data data' :
  valid c i -> valid c k -> slots c data' = <[Z.to_nat i := s]> (slots c data) ->
  slot_at c k data' = if decide (k = i) then s else slot_at c k data.
Proof.
  intros Hi Hk Es. pose proof (slots_lookup c k data' Hk) as E. rewrite Es in E.
  destruct (decide (k = i)) as [->|].
  - rewrite list_lookup_insert_eq in E; [congruence|].
    rewrite length_slots. unfold valid in *. lia.
  - rewrite list_lookup_insert_ne in E by (unfold valid in *; lia).
    rewrite slots_lookup in E by done. congruence.
Qed.

Lemma slot_at_clear i k data :
  sized c data -> valid c i -> valid c k ->
  slot_at c k (clear_slot c i data) = if decide (k = i) then zero_slot c else slot_at c k data.
Proof. intros. by apply slot_at_insert, slots_clear. Qed.

Lemma slot_at_move i j k data :
  sized c data -> valid c i -> valid c j -> valid c k -> i <> j ->
  slot_at c k (move_slot c i j data) =
    if decide (k = i) then zero_slot c
    else if decide (k = j) then slot_at c i data else slot_at c k data.
Proof.
  intros H Hi Hj Hk Hne.
  rewrite (slot_at_insert i k (zero_slot c)
    (blit (slot_offset c j) (slot_at c i data) data)); try done.
  - case_decide; [done|]. apply slot_at_insert; try done.
    apply slots_insert; try done. by apply blen_slot_at.
  - apply slots_insert; [by apply sized_blit|done|]. by eapply blen_zero_slot.
Qed.

Definition empty_at i data : Prop := s_expire (slot_at c i data) = 0.

Lemma empty_clear i data : sized c data -> valid c i -> empty_at i (clear_slot c i data).
Proof.
  intros. unfold empty_at. rewrite slot_at_clear by done. rewrite decide_True by done.
  by eapply zero_slot_expire.
Qed.

Lemma empty_move i j data :
  sized c data -> valid c i -> valid c j -> i <> j -> empty_at i (move_slot c i j data).
Proof.
  intros. unfold empty_at. rewrite slot_at_move by done. rewrite decide_True by done.
  by eapply zero_slot_expire.
Qed.

Lemma empty_dead i data : empty_at i data -> ~ s_live (slot_at c i data).
Proof. unfold empty_at, CuckooSpec.s_live. naive_solver. Qed.

(** A slot the displacement may use. *)
Definition free_at i data : Prop := ~ s_live (slot_at c i data).

Lemma free_bool i data :
  sized c data -> valid c i ->
  slot_is_empty c i data || slot_is_expired c now i data = bool_decide (free_at i data).
Proof.
  intros. unfold free_at. rewrite slot_is_empty_spec, slot_is_expired_spec by done.
  unfold CuckooSpec.s_live. repeat case_bool_decide; try done; naive_solver lia.
Qed.

(** The target of [move_to_free]: the first free alternative. *)
Lemma move_to_free_spec pos alts data :
  wf data -> valid c pos -> Forall (valid c) alts ->
  match move_to_free c now pos alts data with
  | Some data' => exists alt data1, In alt alts /\ alt <> pos /\ free_at alt data /\
      kept data data1 /\ free_at alt data1 /\ data' = move_slot c pos alt data1 /\
      (data1 = data \/ data1 = clear_slot c alt data)
  | None => forall alt, In alt alts -> alt <> pos -> s_live (slot_at c alt data)
  end.
Proof.
  intros H Hpos Hv. assert (Hs := wf_sized c _ H).
  induction Hv as [|alt alts Ha Hv IH]; simpl; [done|].
  case_bool.
  { destruct (move_to_free c now pos alts data); naive_solver. }
  pose proof (free_bool alt data Hs Ha) as Hf.
  destruct (slot_is_empty c alt data) eqn:He; [|destruct (slot_is_expired c now alt data)].
  - simpl in Hf. symmetry in Hf. apply bool_decide_eq_true in Hf.
    exists alt, data. split_and!; auto. by apply kept_refl.
  - simpl in Hf. symmetry in Hf. apply bool_decide_eq_true in Hf.
    exists alt, (handle_expired c alt data). unfold handle_expired.
    split_and!; auto; [by apply kept_clear|by apply empty_dead, empty_clear].
  - simpl in Hf. symmetry in Hf. apply bool_decide_eq_false in Hf.
    unfold free_at in Hf. apply dec_stable in Hf.
    destruct (move_to_free c now pos alts data); [naive_solver|].
    intros ? [<-|]; naive_solver.
Qed.
End Displace.

(** ** Displacement keeps every live item *)

Section DisplaceSpec.
Context (hash : nat -> bytes -> Z) (draw : Z) (c : Config) (now : Z).
Implicit Types (i pos alt : Z) (data s : bytes) (levels : nat).

Abbreviation s_live := (s_live now).
Abbreviation wf := (wf c).
Abbreviation kept := (kept c now).

(** What a displacement step promises: [true] frees the slot, [false] has
    changed nothing; either way no item is lost. *)
Definition frees (displace : Z -> bytes -> bool * bytes) : Prop :=
  forall pos data, wf data -> valid c pos ->
    let (freed, data') := displace pos data in
    if freed then kept data data' /\ empty_at c pos data' else data' = data.

Lemma displace_next_kept displace pos alts data :
  frees displace -> wf data -> valid c pos -> Forall (valid c) alts ->
  let (freed, data') := displace_next displace c pos alts data in
  if freed then kept data data' /\ empty_at c pos data' else data' = data.
Proof.
  intros Hd H Hpos Hv. induction Hv as [|alt alts Ha Hv IH]; simpl; [done|].
  case_bool; [done|]. specialize (Hd alt data H Ha).
  destruct (displace alt data) as [[] data']; [|by subst].
  destruct Hd as [K He]. assert (Hs := wf_sized c _ (kept_wf _ _ _ _ K)). split.
  - eapply kept_trans; [done|]. apply kept_move; try done;
      first [apply K | congruence | by apply empty_dead].
  - apply empty_move; congruence || done.
Qed.

Lemma displace_from_kept levels : frees (displace_from hash levels c now).
Proof.
  induction levels as [|levels IH]; intros pos data H Hpos; assert (Hs := wf_sized c _ H).
  all: pose proof (free_bool c now pos data Hs Hpos) as Hf.
  all: cbn [displace_from]; rewrite slot_is_empty_spec in * by done.
  all: case_bool_decide; [by split; [apply kept_refl|]|].
  all: destruct (slot_is_expired c now pos data); [|try done].
  1,2: simpl in Hf; symmetry in Hf; apply bool_decide_eq_true in Hf;
    split; [by apply kept_clear|by apply empty_clear].
  pose proof (positions_valid hash c (slot_key c pos data) (sized_nitem _ _ Hs)) as Hv.
  pose proof (move_to_free_spec c now pos _ data H Hpos Hv) as Hm.
  destruct (move_to_free _ _ _ _ _) as [data'|].
  - destruct Hm as (alt & data1 & Hin & Hne & _ & K & Hfr & -> & _).
    pose proof (proj1 (List.Forall_forall _ _) Hv alt Hin) as Ha.
    assert (Hs1 := wf_sized c _ (kept_wf _ _ _ _ K)). split.
    + eapply kept_trans; [done|]. apply kept_move; try done;
        first [apply K | congruence].
    + apply empty_move; congruence || done.
  - by apply displace_next_kept.
Qed.

Lemma try_displace_kept cands data :
  wf data -> Forall (valid c) cands ->
  let (pos, data') := try_displace hash c now cands data in
  match pos with
  | Some pos => In pos cands /\ kept data data' /\ empty_at c pos data'
  | None => data' = data
  end.
Proof.
  intros H Hv. induction Hv as [|pos cands Hp Hv IH]; simpl; [done|].
  pose proof (displace_from_kept (max_displace c) pos data H Hp) as Hd.
  destruct (displace_from _ _ _ _ _ _) as [[] data']; [naive_solver|].
  subst. destruct (try_displace _ _ _ _ _) as [[]]; naive_solver.
Qed.
End DisplaceSpec.

(** ** Displacement keeps items at their candidate positions

    With at most three levels ([max_displace] defaults to two) a chain cannot
    come back to a slot it is about to move: a slot whose alternatives are all
    live is left alone by the two levels below it. *)

Section Placed.
Context (hash : nat -> bytes -> Z) (draw : Z) (c : Config) (now : Z).
Implicit Types (i j pos alt : Z) (data s : bytes) (levels : nat).

Abbreviation s_live := (s_live now).
Abbreviation wf := (wf c).
Abbreviation kept := (kept c now).
Abbreviation displace_from := (displace_from hash).

Definition placed data : Prop :=
  forall i, valid c i -> s_expire (slot_at c i data) <> 0 ->
    In i (positions hash c (s_key (slot_at c i data))).

Definition stuck i data : Prop :=
  forall alt, In alt (positions hash c (s_key (slot_at c i data))) -> alt <> i ->
    s_live (slot_at c alt data).

Lemma placed_move i j data :
  sized c data -> valid c i -> valid c j -> i <> j -> placed data ->
  In j (positions hash c (s_key (slot_at c i data))) -> placed (move_slot c i j data).
Proof.
  intros H Hi Hj Hne Hp Hin k Hk. rewrite slot_at_move by done.
  case_decide; [by rewrite (zero_slot_expire c data)|].
  case_decide; [by subst|]. by apply Hp.
Qed.

Lemma placed_clear i data :
  sized c data -> valid c i -> placed data -> placed (clear_slot c i data).
Proof.
  intros H Hi Hp k Hk. rewrite slot_at_clear by done.
  case_decide; [by rewrite (zero_slot_expire c data)|]. by apply Hp.
Qed.

Lemma candidate_valid i key data :
  sized c data -> In i (positions hash c key) -> valid c i.
Proof.
  intros []. pose proof (positions_valid hash c key ltac:(done)) as H.
  rewrite List.Forall_forall in H. auto.
Qed.

(** The first loop, from a live slot. *)
Lemma move_to_free_placed pos data data' :
  wf data -> placed data -> valid c pos ->
  move_to_free c now pos (positions hash c (s_key (slot_at c pos data))) data = Some data' ->
  ~ stuck pos data /\ placed data' /\
  (forall j, valid c j -> j <> pos -> s_live (slot_at c j data) ->
     slot_at c j data' = slot_at c j data).
Proof.
  intros H Hp Hpos E. assert (Hs := wf_sized c _ H).
  pose proof (move_to_free_spec c now pos _ data H Hpos
    (positions_valid hash c (s_key (slot_at c pos data)) (sized_nitem _ _ Hs))) as Hm.
  rewrite E in Hm. destruct Hm as (alt & data1 & Hin & Hne & Hfr & K & _ & -> & Hd).
  assert (Ha := candidate_valid _ _ _ Hs Hin).
  assert (Hs1 := wf_sized c _ (kept_wf _ _ _ _ K)).
  assert (placed data1) as Hp1 by (destruct Hd; subst; [done|by apply placed_clear]).
  assert (forall k, valid c k -> k <> alt -> slot_at c k data1 = slot_at c k data) as Ho.
  { intros. destruct Hd; subst; [done|]. by rewrite slot_at_clear, decide_False by done. }
  split; [intros Hst; by destruct Hfr; apply Hst|]. split.
  - apply placed_move; try done. by rewrite Ho by congruence.
  - intros j Hj Hjp Hl. rewrite slot_at_move by congruence || done.
    rewrite !decide_False by (try done; intros ->; done). apply Ho; [done|]. by intros ->.
Qed.

Lemma displace_next_inv displace pos alts data data' :
  wf data -> Forall (valid c) alts -> frees c now displace ->
  displace_next displace c pos alts data = (true, data') ->
  exists alt data1, In alt alts /\ alt <> pos /\ displace alt data = (true, data1) /\
    data' = move_slot c pos alt data1.
Proof.
  intros H Hv Hd. induction Hv as [|alt alts Ha Hv IH]; simpl; [done|].
  case_bool; [naive_solver|]. specialize (Hd alt data H Ha).
  destruct (displace alt data) as [[] data1] eqn:E.
  - intros [= <-]. naive_solver.
  - subst data1. naive_solver.
Qed.

Lemma displace_live levels pos data data' :
  wf data -> placed data -> valid c pos -> s_live (slot_at c pos data) ->
  displace_from (S levels) c now pos data = (true, data') ->
  let alts := positions hash c (s_key (slot_at c pos data)) in
  move_to_free c now pos alts data = Some data' \/
  stuck pos data /\ exists alt data1, In alt alts /\ alt <> pos /\
    s_live (slot_at c alt data) /\
    displace_from levels c now alt data = (true, data1) /\ data' = move_slot c pos alt data1.
Proof.
  intros H Hp Hpos Hl E alts. assert (Hs := wf_sized c _ H).
  pose proof (free_bool c now pos data Hs Hpos) as Hf.
  rewrite bool_decide_eq_false_2 in Hf by (unfold free_at; tauto).
  apply orb_false_iff in Hf as [He Hx]. cbn [Cuckoo.displace_from] in E.
  rewrite He, Hx, slot_key_eq in E by (try done; apply Hl). fold alts in E.
  pose proof (positions_valid hash c (s_key (slot_at c pos data)) (sized_nitem _ _ Hs)) as Hv.
  pose proof (move_to_free_spec c now pos _ data H Hpos Hv) as Hm. fold alts in Hm, Hv.
  destruct (move_to_free _ _ _ _ _) as [data1|]; [left; congruence|right].
  split; [done|].
  apply displace_next_inv in E as (alt & data1 & ? & ? & ? & ?); try done.
  - exists alt, data1. auto.
  - apply displace_from_kept.
Qed.

Lemma displace_zero pos data data' :
  wf data -> valid c pos -> s_live (slot_at c pos data) ->
  displace_from 0 c now pos data <> (true, data').
Proof.
  intros H Hpos Hl. assert (Hs := wf_sized c _ H).
  pose proof (free_bool c now pos data Hs Hpos) as Hf.
  rewrite bool_decide_eq_false_2 in Hf by (unfold free_at; tauto).
  apply orb_false_iff in Hf as [He Hx]. cbn. by rewrite He, Hx.
Qed.

(** One level: only the first loop moves anything. *)
Lemma displace_one pos data data' :
  wf data -> placed data -> valid c pos -> s_live (slot_at c pos data) ->
  displace_from 1 c now pos data = (true, data') ->
  ~ stuck pos data /\ placed data' /\
  (forall j, valid c j -> j <> pos -> s_live (slot_at c j data) ->
     slot_at c j data' = slot_at c j data).
Proof.
  intros H Hp Hpos Hl E. assert (Hs := wf_sized c _ H).
  apply displace_live in E as [E|(_ & alt & data1 & Hin & _ & Ha & E & _)]; try done.
  - by apply move_to_free_placed.
  - exfalso. eapply displace_zero; [done| |done|done]. by eapply candidate_valid.
Qed.

Lemma displace_two pos data data' :
  wf data -> placed data -> valid c pos -> s_live (slot_at c pos data) ->
  displace_from 2 c now pos data = (true, data') ->
  placed data' /\
  (forall j, valid c j -> j <> pos -> s_live (slot_at c j data) -> stuck j data ->
     slot_at c j data' = slot_at c j data).
Proof.
  intros H Hp Hpos Hl E. assert (Hs := wf_sized c _ H).
  apply displace_live in E as [E|(_ & alt & data1 & Hin & Hne & Hla & E & ->)]; try done.
  - apply move_to_free_placed in E as (_ & ? & ?); naive_solver.
  - assert (Ha := candidate_valid _ _ _ Hs Hin).
    pose proof (displace_from_kept hash c now 1 alt data H Ha) as Hk. rewrite E in Hk.
    destruct Hk as [K _]. assert (Hs1 := wf_sized c _ (kept_wf _ _ _ _ K)).
    apply displace_one in E as (Hns & Hp1 & Ho); try done. split.
    + apply placed_move; try done. by rewrite Ho by congruence || done.
    + intros j Hj Hjp Hlj Hst. rewrite slot_at_move by congruence || done.
      rewrite decide_False by done. rewrite decide_False by (by intros ->).
      apply Ho; try done. by intros ->.
Qed.

Lemma displace_three pos data data' :
  wf data -> placed data -> valid c pos -> s_live (slot_at c pos data) ->
  displace_from 3 c now pos data = (true, data') -> placed data'.
Proof.
  intros H Hp Hpos Hl E. assert (Hs := wf_sized c _ H).
  apply displace_live in E as [E|(Hst & alt & data1 & Hin & Hne & Hla & E & ->)]; try done.
  - by apply move_to_free_placed in E as (_ & ? & _).
  - assert (Ha := candidate_valid _ _ _ Hs Hin).
    pose proof (displace_from_kept hash c now 2 alt data H Ha) as Hk. rewrite E in Hk.
    destruct Hk as [K _]. assert (Hs1 := wf_sized c _ (kept_wf _ _ _ _ K)).
    apply displace_two in E as (Hp1 & Ho); try done.
    apply placed_move; try done. by rewrite Ho by congruence || done.
Qed.

Lemma displace_placed levels pos data data' :
  (levels <= 3)%nat -> wf data -> placed data -> valid c pos -> s_live (slot_at c pos data) ->
  displace_from levels c now pos data = (true, data') -> placed data'.
Proof.
  intros Hle H Hp Hpos Hl E.
  destruct levels as [|[|[|[|]]]]; [|apply displace_one in E|apply displace_two in E|
    by eapply displace_three|lia]; try done; [|naive_solver..].
  by apply displace_zero in E.
Qed.

Lemma try_displace_placed cands data :
  (max_displace c <= 3)%nat -> wf data -> placed data ->
  Forall (fun i => valid c i /\ s_live (slot_at c i data)) cands ->
  placed (try_displace hash c now cands data).2.
Proof.
  intros Hle H Hp Hv. induction Hv as [|pos cands [Hpos Hl] Hv IH]; simpl; [done|].
  pose proof (displace_from_kept hash c now (max_displace c) pos data H Hpos) as Hk.
  destruct (displace_from _ _ _ _ _) as [[] data'] eqn:E.
  - by eapply displace_placed.
  - by subst.
Qed.
End Placed.


(** ** Lookup *)

Section Lookup.
Context (hash : nat -> bytes -> Z) (draw : Z) (c : Config) (now : Z).
Implicit Types (i pos : Z) (data s key : bytes).

Abbreviation s_live := (s_live now).
Abbreviation wf := (wf c).
Abbreviation kept := (kept c now).
Abbreviation positions := (positions hash c).

(** Slot [i] is occupied by [key]. *)
Definition holds_key key i data : Prop :=
  s_expire (slot_at c i data) <> 0 /\ s_key (slot_at c i data) = key.

(** No expired copy of [key] lingers, and every copy is where it is looked for. *)
Definition fresh key data : Prop :=
  forall i, valid c i -> holds_key key i data ->
    s_live (slot_at c i data) /\ In i (positions key).

Lemma key_test key i data :
  wf data -> valid c i -> s_expire (slot_at c i data) <> 0 ->
  bool_decide (slot_key c i data = key) = bool_decide (s_key (slot_at c i data) = key).
Proof. intros. by rewrite slot_key_eq. Qed.

(** The scan stops at the first candidate that holds the key. *)
Lemma get_from_spec key cands data :
  wf data -> Forall (valid c) cands ->
  (get_from c now key cands data = (None, data) /\
     (forall i, In i cands -> ~ holds_key key i data)) \/
  exists i, In i cands /\ holds_key key i data /\
    get_from c now key cands data =
      if decide (s_live (slot_at c i data)) then (Some (slot_offset c i), data)
      else (None, clear_slot c i data).
Proof.
  intros H Hv. assert (Hs := wf_sized c _ H).
  induction Hv as [|i cands Hi Hv IH]; simpl; [left; naive_solver|].
  rewrite slot_is_empty_spec by done. case_bool_decide as He.
  { destruct IH as [[? IH]|(j & ? & ? & ?)]; [left|right; exists j; auto].
    split; [done|]. intros j [<-|]; [unfold holds_key; tauto|auto]. }
  rewrite key_test by done. case_bool_decide as Hk.
  - right. exists i. split_and!; [auto|done|].
    rewrite slot_is_expired_spec by done. case_bool_decide; case_decide; done || tauto.
  - destruct IH as [[? IH]|(j & ? & ? & ?)]; [left|right; exists j; auto].
    split; [done|]. intros j [<-|]; [unfold holds_key; tauto|auto].
Qed.

Lemma delete_from_spec key cands data :
  wf data -> Forall (valid c) cands ->
  (delete_from c now key cands data = (false, data) /\
     (forall i, In i cands -> ~ holds_key key i data)) \/
  exists i, In i cands /\ holds_key key i data /\
    delete_from c now key cands data =
      (bool_decide (s_live (slot_at c i data)), clear_slot c i data).
Proof.
  intros H Hv. assert (Hs := wf_sized c _ H).
  induction Hv as [|i cands Hi Hv IH]; simpl; [left; naive_solver|].
  rewrite slot_is_empty_spec by done. case_bool_decide as He.
  { destruct IH as [[? IH]|(j & ? & ? & ?)]; [left|right; exists j; auto].
    split; [done|]. intros j [<-|]; [unfold holds_key; tauto|auto]. }
  rewrite key_test by done. case_bool_decide as Hk.
  - right. exists i. split_and!; [auto|done|].
    rewrite slot_is_expired_spec by done. repeat case_bool_decide; done || tauto.
  - destruct IH as [[? IH]|(j & ? & ? & ?)]; [left|right; exists j; auto].
    split; [done|]. intros j [<-|]; [unfold holds_key; tauto|auto].
Qed.

(** The test of pass 1 and of the numeric operations. *)
Lemma live_copy_test key i data :
  wf data -> valid c i ->
  is_live c now i data && bool_decide (slot_key c i data = key) = true <->
  s_live (slot_at c i data) /\ s_key (slot_at c i data) = key.
Proof.
  intros H Hi. rewrite is_live_spec by first [done|apply H].
  rewrite andb_true_iff, bool_decide_eq_true. split.
  - intros [Hl E]. rewrite key_test in E by (try done; apply Hl).
    by apply bool_decide_eq_true in E.
  - intros [Hl E]. rewrite key_test by (try done; apply Hl). by rewrite bool_decide_eq_true.
Qed.

Lemma find_live_spec key cands data :
  wf data -> Forall (valid c) cands ->
  match find (fun i => is_live c now i data && bool_decide (slot_key c i data = key)) cands with
  | Some i => In i cands /\ s_live (slot_at c i data) /\ s_key (slot_at c i data) = key
  | None => forall i, In i cands -> s_live (slot_at c i data) -> s_key (slot_at c i data) <> key
  end.
Proof.
  intros H Hv. rewrite List.Forall_forall in Hv. destruct (find _ _) as [i|] eqn:E.
  - apply find_some in E as [Hin E]. apply live_copy_test in E; auto.
  - intros i Hin Hl Hk. apply find_none with (x := i) in E; [|done].
    apply not_true_iff_false in E. apply E, live_copy_test; auto.
Qed.

Lemma nearest_expire_spec cands best data :
  sized c data -> valid c best -> Forall (valid c) cands ->
  let i := nearest_expire c cands best (s_expire (slot_at c best data)) data in
  (i = best \/ In i cands) /\
  s_expire (slot_at c i data) <= s_expire (slot_at c best data) /\
  forall j, In j cands -> s_expire (slot_at c i data) <= s_expire (slot_at c j data).
Proof.
  intros H Hb Hv. revert best Hb. induction Hv as [|j cands Hj Hv IH]; intros best Hb; simpl.
  - split_and!; auto; [lia|done].
  - rewrite slot_expire_eq by done. case_bool.
    + destruct (IH j Hj) as (? & ? & ?). split_and!; [naive_solver|lia|].
      intros k [<-|]; [lia|auto].
    + destruct (IH best Hb) as (? & ? & Hm). split_and!; [naive_solver|lia|].
      intros k [<-|]; [lia|auto].
Qed.
End Lookup.

(** ** Insertion *)

Section Insert.
Context (hash : nat -> bytes -> Z) (draw : Z) (c : Config) (now : Z).
Implicit Types (i pos : Z) (data s key : bytes).

Abbreviation s_live := (s_live now).
Abbreviation wf := (wf c).
Abbreviation kept := (kept c now).
Abbreviation positions := (positions hash c).
Abbreviation slot_at := (slot_at c).
Abbreviation live_items := (live_items c now).

(** All candidates of [key] hold live items of other keys. *)
Definition full key data : Prop :=
  forall i, In i (positions key) -> s_live (slot_at i data) /\ s_key (slot_at i data) <> key.

Definition no_live_copy key data : Prop :=
  forall i, In i (positions key) -> s_live (slot_at i data) -> s_key (slot_at i data) <> key.

(** What the [Expire] policy evicts first. *)
Definition soonest pos key data : Prop :=
  policy c = Expire -> forall i, In i (positions key) ->
    s_expire (slot_at pos data) <= s_expire (slot_at i data).

Lemma select_victim_spec key data :
  wf data -> full key data -> let pos := select_victim draw c (positions key) data in
  In pos (positions key) /\ soonest pos key data.
Proof.
  intros H Hf. assert (Hs := wf_sized c _ H).
  pose proof (positions_valid hash c key (sized_nitem _ _ Hs)) as Hv.
  unfold select_victim, soonest. destruct (policy c).
  - split; [|done]. apply nth_In. rewrite length_positions.
    pose proof (Z.mod_pos_bound draw (Z.of_nat D)) as Hd. unfold D in *. lia.
  - destruct (positions key) as [|p0 ps] eqn:E; [done|].
    apply Forall_cons_1 in Hv as [Hp0 Hv]. cbn [nth nearest_expire].
    assert (s_expire (slot_at p0 data) <= U32_MAX) as Hm.
    { apply wf_slot; try done. apply (Hf p0). rewrite E. by left. }
    rewrite slot_expire_eq by done.
    assert ((if s_expire (slot_at p0 data) <? U32_MAX
             then nearest_expire c ps p0 (s_expire (slot_at p0 data)) data
             else nearest_expire c ps p0 U32_MAX data)
            = nearest_expire c ps p0 (s_expire (slot_at p0 data)) data) as ->.
    { case_bool; [done|]. do 2 f_equal; lia. }
    destruct (nearest_expire_spec c ps p0 data Hs Hp0 Hv) as (Hi & Hle & Hmin).
    split; [naive_solver|]. intros _ i [<-|]; auto.
Qed.

(** The slot [find_slot_for_insert] picks: a live copy of the key, a slot that
    is or becomes free, or a victim among live candidates. *)
Lemma find_slot_spec key data :
  wf data ->
  let '(pos, is_update, data') := find_slot_for_insert hash draw c now key (positions key) data in
  In pos (positions key) /\
  ((is_update = true /\ data' = data /\ s_live (slot_at pos data) /\ s_key (slot_at pos data) = key) \/
   (is_update = false /\
    no_live_copy key data /\
    ((free_at c now pos data' /\ kept data data') \/
     (full key data /\ data' = clear_slot c pos data /\ soonest pos key data)))).
Proof.
  intros H. assert (Hs := wf_sized c _ H).
  pose proof (positions_valid hash c key (sized_nitem _ _ Hs)) as Hv.
  assert (Hv' := proj1 (List.Forall_forall _ _) Hv).
  unfold find_slot_for_insert.
  pose proof (find_live_spec c now key (positions key) data H Hv) as Hl.
  destruct (find _ _) as [pos|]; [naive_solver|].
  destruct (find (fun pos => slot_is_empty c pos data) _) as [pos|] eqn:E1.
  { apply find_some in E1 as [Hin E]. rewrite slot_is_empty_spec, bool_decide_eq_true in E by auto.
    split; [done|]. right. split_and!; [done..|]. left. split; [by apply empty_dead|by apply kept_refl]. }
  destruct (find (fun pos => slot_is_expired c now pos data) _) as [pos|] eqn:E2.
  { apply find_some in E2 as [Hin E]. rewrite slot_is_expired_spec, bool_decide_eq_true in E by auto.
    split; [done|]. right. split_and!; [done..|]. left.
    split; [by apply empty_dead, empty_clear; auto|apply kept_clear; naive_solver]. }
  assert (full key data) as Hf.
  { intros i Hin. specialize (Hv' i Hin).
    apply find_none with (x := i) in E1, E2; try done.
    rewrite slot_is_empty_spec, bool_decide_eq_false in E1 by done.
    rewrite slot_is_expired_spec, bool_decide_eq_false in E2 by done.
    destruct (decide (s_live (slot_at i data))); [auto|tauto]. }
  pose proof (try_displace_kept hash c now (positions key) data H Hv) as Hd.
  destruct (try_displace _ _ _ _ _) as [[pos|] data'].
  - destruct Hd as (Hin & K & He). split; [done|]. right. split_and!; [done..|]. left.
    split; [by apply empty_dead|done].
  - subst data'. destruct (select_victim_spec key data H Hf) as [? ?].
    split; [done|]. right. split_and!; [done..|]. right. done.
Qed.

(** The value stays in the cache's 32-bit clock. *)
Definition clock_ok : Prop := fits 32 now /\ 0 <= max_ttl c.

Lemma compute_expire_fits ttl :
  clock_ok -> 0 <= secs ttl -> fits 32 (compute_expire c now ttl).
Proof.
  unfold clock_ok, compute_expire, U32_MAX, sat_add, fits. pow2. intros [? ?] ?.
  destruct (_ && _); lia.
Qed.

Lemma tiny_fields key v (e : Z) data :
  sized c data -> tiny_args (item_size c) key v -> fits 32 e ->
  s_expire (tiny c key v e) = e /\ s_key (tiny c key v e) = key /\
  TinyItem.value 0 (tiny c key v e) = v /\ in_slot (item_size c) (tiny c key v e).
Proof.
  intros H Ha He. destruct (define_fields (item_size c) key v e (zero_slot c)) as (? & ? & ? & ? & ? & ?);
    [by eapply blen_zero_slot|done..|]. done.
Qed.

Lemma wf_write i key v (e : Z) data :
  wf data -> valid c i -> tiny_args (item_size c) key v -> fits 32 e ->
  wf (write_slot c i key v e data) /\
  if_live now (slot_at i data) ++ live_items (write_slot c i key v e data) ≡ₚ
    if_live now (tiny c key v e) ++ live_items data.
Proof.
  intros H Hi Ha He. assert (Hs := wf_sized c _ H).
  destruct (slots_write c i key v e data Hs Hi Ha) as [Hs' E].
  destruct (tiny_fields key v e data Hs Ha He) as (He' & _ & _ & Hin).
  split.
  - split; [done|]. intros s. rewrite E. intros [->|]%elem_of_insert_inv ?; [|by apply H].
    split; [done|]. rewrite He'. unfold fits, U32_MAX in *. lia.
  - unfold CuckooSpec.live_items. rewrite E. apply live_insert. by apply slots_lookup.
Qed.

Lemma insert_unfold key v ttl data :
  tiny_args (item_size c) key v ->
  insert hash draw c now key v ttl data =
    let '(pos, _, data) := find_slot_for_insert hash draw c now key (positions key) data in
    (Ok tt, write_slot c pos key v (compute_expire c now ttl) data).
Proof.
  intros (_ & Hsz & _). unfold insert. rewrite (proj2 (Z.ltb_ge _ _)) by lia. done.
Qed.

(** The effect of an insert on the live items: the new one comes in; a live
    copy of the key in a candidate slot goes out; another item goes out only
    when all candidates hold live items of other keys, and it is then the one
    that expires first under the [Expire] policy. *)
Lemma insert_effect_aux key v ttl data :
  wf data -> tiny_args (item_size c) key v -> clock_ok -> 0 <= secs ttl ->
  let new := tiny c key v (compute_expire c now ttl) in
  exists data' rest, insert hash draw c now key v ttl data = (Ok tt, data') /\ wf data' /\
    live_items data' ≡ₚ if_live now new ++ rest /\
    (live_items data ≡ₚ rest /\ no_live_copy key data \/
     exists pos, In pos (positions key) /\ live_items data ≡ₚ slot_at pos data :: rest /\
       (s_key (slot_at pos data) = key \/ full key data /\ soonest pos key data)).
Proof.
  intros H Ha Hc Ht new. assert (Hs := wf_sized c _ H).
  pose proof (compute_expire_fits ttl Hc Ht) as He.
  rewrite insert_unfold by done. pose proof (find_slot_spec key data H) as Hf.
  destruct (find_slot_for_insert _ _ _ _ _ _ _) as [[pos upd] data'].
  destruct Hf as [Hin Hf]. assert (Hpos := candidate_valid hash c pos key data Hs Hin).
  destruct Hf as [(_ & -> & Hl & Hk)|(_ & Hno & [(Hfr & K)|(Hfull & -> & Hso)])].
  - destruct (wf_write pos key v _ data H Hpos Ha He) as [H' P].
    eexists _, (live_items (clear_slot c pos data)). split; [done|]. split; [done|].
    pose proof (live_clear c now pos data Hs Hpos) as P'.
    unfold if_live in P at 1, P' at 1. rewrite decide_True in P, P' by done. simpl in P, P'.
    split; [|right; exists pos; rewrite P'; auto].
    rewrite <- P' in P. fold new in P. apply (Permutation_cons_inv (a := slot_at pos data)).
    rewrite P. solve_Permutation.
  - destruct (wf_write pos key v _ data' (kept_wf _ _ _ _ K) Hpos Ha He) as [H' P].
    eexists _, (live_items data'). split; [done|]. split; [done|].
    unfold if_live in P at 1. rewrite decide_False in P by done. split; [done|].
    left. split; [|done]. symmetry. apply K.
  - pose proof (wf_clear c pos data H Hpos) as H1.
    destruct (wf_write pos key v _ _ H1 Hpos Ha He) as [H' P].
    eexists _, (live_items (clear_slot c pos data)). split; [done|]. split; [done|].
    unfold if_live in P at 1. rewrite decide_False in P by by apply empty_dead, empty_clear.
    split; [done|]. right. exists pos. split; [done|]. split; [|auto].
    rewrite <- (live_clear c now pos data) by done. unfold if_live.
    rewrite decide_True by by apply Hfull. done.
Qed.
End Insert.

(** ** The invariant of the storage *)

Section Inv.
Context (hash : nat -> bytes -> Z) (draw : Z) (c : Config).
Implicit Types (now i pos : Z) (data s key : bytes).

Abbreviation slot_at := (slot_at c).
Abbreviation positions := (positions hash c).

(** Well formed, every occupied slot is a candidate position of its key, and
    no two live items share a key. *)
Record inv now data : Prop := {
  inv_wf : wf c data;
  inv_placed : placed hash c data;
  inv_nodup : NoDup (s_key <$> live_items c now data)
}.

(** An occupied slot that has outlived its item. *)
Definition no_expired_copy now key data : Prop :=
  forall i, valid c i -> holds_key c key i data -> s_live now (slot_at i data).

Lemma slot_live_elem now i data :
  valid c i -> s_live now (slot_at i data) -> slot_at i data ∈ live_items c now data.
Proof.
  intros Hi Hl. apply list_elem_of_filter. split; [done|].
  apply list_elem_of_lookup. eexists. by apply slots_lookup.
Qed.

Lemma live_elem_slot now s data :
  s ∈ live_items c now data ->
  exists i, valid c i /\ s = slot_at i data /\ s_live now s.
Proof.
  intros [Hl [n Hn]%list_elem_of_lookup]%list_elem_of_filter.
  apply slots_in in Hn as [? ->]. eauto.
Qed.

(** Two live slots with one key are one slot. *)
Lemma live_key_inj now i j data :
  inv now data -> valid c i -> valid c j ->
  s_live now (slot_at i data) -> s_live now (slot_at j data) ->
  s_key (slot_at i data) = s_key (slot_at j data) -> i = j.
Proof.
  intros H Hi Hj Hli Hlj Hk. destruct (decide (i = j)) as [|Hne]; [done|exfalso].
  assert (Hs := wf_sized c _ (inv_wf _ _ H)).
  pose proof (inv_nodup _ _ H) as Hn. rewrite <- (live_clear c now i data) in Hn by done.
  unfold if_live in Hn. rewrite decide_True in Hn by done. simpl in Hn.
  apply NoDup_cons in Hn as [Hn _]. apply Hn. rewrite Hk. apply list_elem_of_fmap_2.
  pose proof (slot_live_elem now j (clear_slot c i data) Hj) as Hin.
  rewrite slot_at_clear, decide_False in Hin by (try done; congruence). auto.
Qed.

Lemma s_live_mono now now' s : now <= now' -> s_live now' s -> s_live now s.
Proof. unfold s_live. intros ? [? [|]]; split; auto; lia. Qed.

Lemma filter_mono {A} (P Q : A -> Prop) `{!forall x, Decision (P x)} `{!forall x, Decision (Q x)} l :
  (forall x, P x -> Q x) -> sublist (filter P l) (filter Q l).
Proof.
  intros HPQ. induction l as [|x l IH]; [done|]. rewrite !filter_cons.
  repeat case_decide; first [done | by constructor | exfalso; auto].
Qed.

Lemma inv_later now now' data : now <= now' -> inv now data -> inv now' data.
Proof.
  intros Hle [? ? Hn]. split; [done..|]. eapply sublist_NoDup; [exact Hn|].
  apply fmap_sublist, filter_mono. intros. by eapply s_live_mono.
Qed.

Lemma inv_clear now i data : valid c i -> inv now data -> inv now (clear_slot c i data).
Proof.
  intros Hi [H Hp Hn]. assert (Hs := wf_sized c _ H).
  split; [by apply wf_clear|by apply placed_clear|].
  rewrite <- (live_clear c now i data), fmap_app in Hn by done.
  by apply NoDup_app in Hn as (_ & _ & ?).
Qed.

Lemma no_live_copy_spec now key data s :
  placed hash c data -> no_live_copy hash c now key data ->
  s ∈ live_items c now data -> s_key s <> key.
Proof.
  intros Hp Hno (i & Hi & -> & Hl)%live_elem_slot Hk.
  apply (Hno i); try done. rewrite <- Hk. apply Hp; [done|]. apply Hl.
Qed.

(** Removing a live item of the key leaves no other. *)
Lemma nodup_rest (l rest : list bytes) old key s :
  NoDup (s_key <$> l) -> l ≡ₚ old :: rest -> s_key old = key -> s ∈ rest -> s_key s <> key.
Proof.
  intros Hn P <- Hin E. rewrite P in Hn. simpl in Hn. apply NoDup_cons in Hn as [Hn _].
  apply Hn. rewrite <- E. by apply list_elem_of_fmap_2.
Qed.

(** Which slots hold [key] once a slot has been found for it. *)
Lemma find_slot_others now key data :
  inv now data -> no_expired_copy now key data ->
  let '(pos, _, data') := find_slot_for_insert hash draw c now key (positions key) data in
  forall j, valid c j -> j <> pos -> ~ holds_key c key j data'.
Proof.
  intros H Hfr. assert (Hw := inv_wf _ _ H). assert (Hs := wf_sized c _ Hw).
  pose proof (find_slot_spec hash draw c now key data Hw) as Hf.
  destruct (find_slot_for_insert _ _ _ _ _ _ _) as [[pos upd] data'].
  destruct Hf as [Hin Hf]. assert (Hpos := candidate_valid hash c pos key data Hs Hin).
  assert (no_live_copy hash c now key data -> forall j, valid c j -> ~ holds_key c key j data) as Hno.
  { intros Hno j Hj Hh. assert (Hl := Hfr j Hj Hh). destruct Hh as [He Hk].
    apply (Hno j); try done. rewrite <- Hk. by apply inv_placed with now. }
  intros j Hj Hne. destruct Hf as [(_ & -> & Hl & Hk)|(_ & Hn & [(_ & K)|(_ & -> & _)])].
  - intros Hh. assert (Hl' := Hfr j Hj Hh). destruct Hh as [_ Hk']. apply Hne.
    apply (live_key_inj now j pos data); congruence || done.
  - intros [He Hk]. pose proof (kept_old _ _ _ _ K (slot_at j data')) as Ho.
    destruct (list_elem_of_lookup_1 _ _ (Ho (proj2 (list_elem_of_lookup _ _)
      (ex_intro _ _ (slots_lookup c j data' Hj))) He)) as [n En].
    apply slots_in in En as [Hv E]. apply (Hno Hn _ Hv). by rewrite E in He, Hk.
  - intros [He Hk]. rewrite slot_at_clear, decide_False in He, Hk by done.
    by apply (Hno Hn j Hj).
Qed.

(** After an insert, and until the time to live has passed, [get] finds the
    value; then it answers [None] and clears the slot. *)
Lemma insert_then_get_aux now key v ttl data :
  inv now data -> no_expired_copy now key data -> tiny_args (item_size c) key v ->
  clock_ok c now -> 0 <= secs ttl ->
  let e := compute_expire c now ttl in e <> 0 ->
  exists data' pos, insert hash draw c now key v ttl data = (Ok tt, data') /\
    TinyItem.key (slot_offset c pos) data' = key /\
    TinyItem.value (slot_offset c pos) data' = v /\
    TinyItem.expire (slot_offset c pos) data' = e /\
    forall now', get hash c now' key data' =
      if decide (e = U32_MAX \/ now' <= e) then (Some (slot_offset c pos), data')
      else (None, clear_slot c pos data').
Proof.
  intros H Hfr Ha Hc Ht e He. assert (Hw := inv_wf _ _ H). assert (Hs := wf_sized c _ Hw).
  pose proof (compute_expire_fits c now ttl Hc Ht) as He32.
  rewrite insert_unfold by done. pose proof (find_slot_others now key data H Hfr) as Ho.
  pose proof (find_slot_spec hash draw c now key data Hw) as Hf.
  destruct (find_slot_for_insert _ _ _ _ _ _ _) as [[pos upd] d].
  destruct Hf as [Hin Hf]. assert (Hpos := candidate_valid hash c pos key data Hs Hin).
  assert (wf c d) as Hd.
  { destruct Hf as [(_ & -> & _)|(_ & _ & [(_ & K)|(_ & -> & _)])];
      [done|apply K|by apply wf_clear]. }
  assert (Hsd := wf_sized c _ Hd).
  destruct (wf_write c now pos key v _ d Hd Hpos Ha He32) as [H' _].
  destruct (slots_write c pos key v e d Hsd Hpos Ha) as [Hs' E].
  destruct (tiny_fields c key v e d Hsd Ha He32) as (Fe & Fk & Fv & _).
  fold e in H'. set (data' := write_slot c pos key v e d) in *.
  assert (slot_at pos data' = tiny c key v e) as Ep.
  { rewrite (slot_at_insert c pos pos (tiny c key v e) d data') by done. by rewrite decide_True. }
  assert (Hoff := offset_bounds c pos data' Hs' Hpos).
  destruct (wf_slot c pos data' H' Hpos) as [Hslot _]; [by rewrite Ep, Fe|].
  assert (holds_key c key pos data') as Hh by (unfold holds_key; by rewrite Ep, Fe).
  exists data', pos. split_and!; [done|..].
  - change (slot_key c pos data' = key). rewrite slot_key_eq by (try done; apply Hh). apply Hh.
  - rewrite (value_slot _ (item_size c)) by (done || lia). fold (slot_at pos data'). by rewrite Ep.
  - change (slot_expire c pos data' = e). rewrite slot_expire_eq by done. by rewrite Ep.
  - intros now'. unfold get.
    destruct (get_from_spec c now' key (positions key) data' H') as [[_ Hn]|(i & Hi & Hhi & Eg)].
    { by apply positions_valid, Hs. } { by destruct (Hn pos). }
    rewrite Eg. assert (Hv := candidate_valid hash c i key data Hs Hi).
    destruct (decide (i = pos)) as [->|Hne].
    + assert (s_live now' (slot_at pos data') <-> e = U32_MAX \/ now' <= e) as Hl
        by (unfold s_live; rewrite Ep, Fe; tauto).
      repeat case_decide; done || tauto.
    + destruct (Ho i Hv Hne). unfold holds_key in *.
      by rewrite (slot_at_insert c pos i (tiny c key v e) d data'), decide_False in Hhi by done.
Qed.
End Inv.

(** ** Every operation keeps the invariant *)

Section History.
Context (hash : nat -> bytes -> Z) (draw : Z) (c : Config).
Implicit Types (now i pos : Z) (data s key : bytes).

Abbreviation slot_at := (slot_at c).
Abbreviation positions := (positions hash c).
Abbreviation inv := (inv hash c).

Lemma find_slot_placed now key data :
  (max_displace c <= 3)%nat -> wf c data -> placed hash c data ->
  placed hash c (find_slot_for_insert hash draw c now key (positions key) data).2.
Proof.
  intros Hm H Hp. assert (Hs := wf_sized c _ H).
  assert (forall i, In i (positions key) -> valid c i) as Hv
    by (intros; by eapply candidate_valid).
  pose proof (find_live_spec c now key (positions key) data H (positions_valid _ _ _ (sized_nitem _ _ Hs))) as Hl.
  unfold find_slot_for_insert. destruct (find _ _) as [pos|]; [done|].
  destruct (find (fun pos => slot_is_empty c pos data) _) as [pos|] eqn:E1; [done|].
  destruct (find (fun pos => slot_is_expired c now pos data) _) as [pos|] eqn:E2.
  { apply find_some in E2 as [Hin _]. apply placed_clear; auto. }
  assert (Forall (fun i => valid c i /\ s_live now (slot_at i data)) (positions key)) as Hf.
  { apply List.Forall_forall. intros i Hin. specialize (Hv i Hin). split; [done|].
    apply find_none with (x := i) in E1, E2; try done.
    rewrite slot_is_empty_spec, bool_decide_eq_false in E1 by done.
    rewrite slot_is_expired_spec, bool_decide_eq_false in E2 by done.
    destruct (decide (s_live now (slot_at i data))); [auto|tauto]. }
  pose proof (try_displace_placed hash c now _ data Hm H Hp Hf) as Hd.
  pose proof (try_displace_kept hash c now (positions key) data H) as Hk.
  rewrite List.Forall_forall in Hk. specialize (Hk Hv).
  destruct (try_displace _ _ _ _ _) as [[pos|] data']; [done|]. subst data'.
  apply placed_clear; [done| |done]. rewrite List.Forall_forall in Hf.
  apply Hv, (select_victim_spec hash draw c now key data H).
  intros i Hi. split; [by apply Hf|]. apply Hl; [done|by apply Hf].
Qed.

Lemma rest_nodup now key v (e : Z) (l rest : list bytes) data :
  sized c data -> tiny_args (item_size c) key v -> fits 32 e ->
  NoDup (s_key <$> rest) -> (forall s, s ∈ rest -> s_key s <> key) ->
  l ≡ₚ if_live now (tiny c key v e) ++ rest -> NoDup (s_key <$> l).
Proof.
  intros Hs Ha He Hn Hr ->. unfold if_live. case_decide; [|done]. simpl.
  destruct (tiny_fields c key v e data Hs Ha He) as (_ & -> & _).
  apply NoDup_cons. split; [|done]. intros (s & ? & ?)%list_elem_of_fmap. naive_solver.
Qed.

Lemma inv_insert now key v ttl data :
  (max_displace c <= 3)%nat -> inv now data -> tiny_args (item_size c) key v ->
  clock_ok c now -> 0 <= secs ttl ->
  inv now (insert hash draw c now key v ttl data).2.
Proof.
  intros Hm [H Hp Hn] Ha Hc Ht. assert (Hs := wf_sized c _ H).
  pose proof (compute_expire_fits c now ttl Hc Ht) as He.
  destruct (insert_effect_aux hash draw c now key v ttl data H Ha Hc Ht)
    as (data' & rest & E & H' & P & Hold).
  rewrite E. simpl. split; [done|..].
  - rewrite insert_unfold in E by done.
    pose proof (find_slot_placed now key data Hm H Hp) as Hd.
    pose proof (find_slot_spec hash draw c now key data H) as Hf.
    destruct (find_slot_for_insert _ _ _ _ _ _ _) as [[pos upd] d].
    destruct Hf as [Hin Hf]. assert (Hpos := candidate_valid hash c pos key data Hs Hin).
    assert (sized c d) as Hsd.
    { destruct Hf as [(_ & -> & _)|(_ & _ & [(_ & K)|(_ & -> & _)])];
        [done|apply K|by apply sized_clear]. }
    injection E as <-.
    destruct (slots_write c pos key v (compute_expire c now ttl) d Hsd Hpos Ha) as [_ Ew].
    destruct (tiny_fields c key v _ d Hsd Ha He) as (_ & Fk & _).
    intros j Hj. rewrite (slot_at_insert c pos j _ d _ Hpos Hj Ew).
    case_decide; [subst; by rewrite Fk|by apply Hd].
  - apply (rest_nodup now key v (compute_expire c now ttl) _ rest data); try done.
    + destruct Hold as [[P' _]|(pos & _ & P' & _)]; rewrite P' in Hn; [done|].
      simpl in Hn. by apply NoDup_cons in Hn as [_ ?].
    + intros s Hin. destruct Hold as [[P' Hno]|(pos & Hpos & P' & [Hk|[Hf _]])].
      * eapply no_live_copy_spec; [done|done|by rewrite P'].
      * by eapply nodup_rest.
      * apply (no_live_copy_spec hash c now key data s Hp); [intros ? ? ?; by apply Hf|].
        rewrite P'. by right.
Qed.

Lemma get_data now key data :
  inv now data ->
  (get hash c now key data).2 = data \/
  exists i, valid c i /\ (get hash c now key data).2 = clear_slot c i data.
Proof.
  intros [H _ _]. assert (Hs := wf_sized c _ H).
  destruct (get_from_spec c now key (positions key) data H) as [[E _]|(i & Hi & _ & E)].
  { by apply positions_valid, Hs. } { left. unfold get. by rewrite E. }
  unfold get. rewrite E. case_decide; [by left|right]. exists i. split; [|done].
  by eapply candidate_valid.
Qed.

Lemma delete_data now key data :
  inv now data ->
  (delete hash c now key data).2 = data \/
  exists i, valid c i /\ (delete hash c now key data).2 = clear_slot c i data.
Proof.
  intros [H _ _]. assert (Hs := wf_sized c _ H).
  destruct (delete_from_spec c now key (positions key) data H) as [[E _]|(i & Hi & _ & E)].
  { by apply positions_valid, Hs. } { left. unfold delete. by rewrite E. }
  unfold delete. rewrite E. right. exists i. split; [|done]. by eapply candidate_valid.
Qed.

(** An all-zero storage. *)
Lemma inv_zero now n :
  6 < item_size c -> 0 < nitem c -> Z.of_nat n = item_size c * nitem c ->
  inv now (replicate n 0).
Proof.
  intros H1 H2 H3. assert (sized c (replicate n 0)) as Hs
    by (split; [done..|by rewrite blen_replicate]).
  assert (forall i, valid c i -> s_expire (slot_at i (replicate n 0)) = 0) as Hz.
  { intros i Hi. pose proof (offset_bounds c i _ Hs Hi) as Ho.
    assert (slot_at i (replicate n 0) = zero_slot c) as ->; [|by eapply zero_slot_expire].
    unfold CuckooSpec.slot_at, slice, zero_slot. rewrite drop_replicate, take_replicate.
    f_equal. rewrite blen_replicate in Ho. lia. }
  split.
  - split; [done|]. intros s [m Hm]%list_elem_of_lookup He.
    apply slots_in in Hm as [Hv ->]. by rewrite Hz in He.
  - intros i Hi He. by rewrite Hz in He.
  - assert (live_items c now (replicate n 0) = []) as ->; [|constructor].
    apply elem_of_nil_inv. intros s (i & Hi & -> & Hl & _)%live_elem_slot.
    by rewrite Hz in Hl.
Qed.
End History.

(** ** Numeric updates *)

Section Numeric.
Context (hash : nat -> bytes -> Z) (c : Config).
Implicit Types (now i pos : Z) (data s key : bytes).

Abbreviation slot_at := (slot_at c).
Abbreviation positions := (positions hash c).
Abbreviation inv := (inv hash c).

(** An in-place update rewrites the eight value bytes of one slot. *)
Lemma update_slot op i data :
  wf c data -> valid c i -> s_expire (slot_at i data) <> 0 ->
  match TinyItem.update op (slot_offset c i) data with
  | None => exists b, TinyItem.value 0 (slot_at i data) = Bytes b
  | Some data' => exists n s', TinyItem.value 0 (slot_at i data) = U64 n /\ sized c data' /\
      slots c data' = <[Z.to_nat i := s']> (slots c data) /\
      s_expire s' = s_expire (slot_at i data) /\ s_key s' = s_key (slot_at i data) /\
      in_slot (item_size c) s' /\
      (fits 64 (op n) -> TinyItem.value 0 s' = U64 (op n))
  end.
Proof.
  intros H Hi He. assert (Hs := wf_sized c _ H).
  destruct (wf_slot c i data H Hi He) as [Hin _].
  pose proof (offset_bounds c i data Hs Hi) as Ho. pose proof (blen_slot_at c i data Hs Hi) as Hb.
  assert (6 <= item_size c) by (destruct Hs; lia).
  unfold TinyItem.update. rewrite (value_slot _ (item_size c)) by (done || lia).
  fold (slot_at i data). rewrite (klen_slot _ (item_size c)) by lia. fold (slot_at i data).
  assert (Hin' := Hin). destruct Hin' as (Hk & Hv & Hsz).
  revert Hsz. unfold TinyItem.value_len. unfold TinyItem.value at 1 2 3.
  destruct (Z.eqb_spec (TinyItem.raw_vlen 0 (slot_at i data)) 0) as [Hr|Hr].
  2:{ intros _. unfold TinyItem.value. rewrite (proj2 (Z.eqb_neq _ _) Hr). eauto. }
  intros Hsz. set (s := slot_at i data) in *. set (k := TinyItem.klen 0 s) in *.
  set (n := be_value _). set (s' := blit (6 + k) (be_bytes 8 (op n)) s).
  assert (TinyItem.expire 0 s' = TinyItem.expire 0 s /\ TinyItem.klen 0 s' = k /\
    TinyItem.raw_vlen 0 s' = TinyItem.raw_vlen 0 s /\ TinyItem.key 0 s' = TinyItem.key 0 s)
    as (E1 & E2 & E3 & E4).
  { assert (TinyItem.klen 0 s' = k) as E by (unfold k, TinyItem.klen, get_uint, s'; by slices).
    unfold TinyItem.key, TinyItem.expire, TinyItem.raw_vlen, TinyItem.TINY_ITEM_HDR_SIZE.
    rewrite E. fold k. unfold get_uint, s'. by slices. }
  rewrite Hr in E3.
  exists n, s'. split_and!; try done.
  - by apply sized_blit.
  - unfold TinyItem.TINY_ITEM_HDR_SIZE. rewrite <- Z.add_assoc. apply slots_blit; try done; blen_lia.
  - unfold in_slot, TinyItem.value_len. rewrite E2, E3. split_and!; done || lia.
  - intros Hf. unfold TinyItem.value, TinyItem.TINY_ITEM_HDR_SIZE. rewrite E2, E3.
    simpl Z.eqb. cbv iota. unfold s'. rewrite slice_blit_eq by blen_lia.
    by rewrite be_value_be_bytes.
Qed.

Lemma numeric_op_aux op now key data :
  inv now data ->
  let '(r, data') := numeric_op hash c now (TinyItem.update op) key data in
  match r with
  | Ok off => exists i n, off = slot_offset c i /\ valid c i /\ s_live now (slot_at i data) /\
      s_key (slot_at i data) = key /\ TinyItem.value 0 (slot_at i data) = U64 n /\ 
      sized c data' /\ slots c data' = <[Z.to_nat i := slot_at i data']> (slots c data) /\
      s_expire (slot_at i data') = s_expire (slot_at i data) /\ s_key (slot_at i data') = key /\
      in_slot (item_size c) (slot_at i data') /\
      (fits 64 (op n) -> TinyItem.value off data' = U64 (op n))
  | Err NotNumeric => data' = data /\ exists i b, valid c i /\ s_live now (slot_at i data) /\
      s_key (slot_at i data) = key /\ TinyItem.value 0 (slot_at i data) = Bytes b
  | Err NotFound => data' = data /\ forall s, s ∈ live_items c now data -> s_key s <> key
  | Err (ItemOversized _ _) => False
  end.
Proof.
  intros [H Hp _]. assert (Hs := wf_sized c _ H). unfold numeric_op.
  pose proof (find_live_spec c now key (positions key) data H
    (positions_valid _ _ _ (sized_nitem _ _ Hs))) as Hf.
  destruct (find _ _) as [i|].
  - destruct Hf as (Hin & Hl & Hk). assert (Hi := candidate_valid hash c i key data Hs Hin).
    pose proof (update_slot op i data H Hi (proj1 Hl)) as Hu.
    destruct (TinyItem.update _ _ _) as [data'|]; [|naive_solver].
    destruct Hu as (n & s' & Hv & Hs' & E & He & Hk' & Hin' & Hval).
    assert (slot_at i data' = s') as <-.
    { rewrite (slot_at_insert c i i s' data data') by done. by rewrite decide_True. }
    exists i, n. split_and!; try done; [congruence|].
    intros Hfit. rewrite (value_slot _ (item_size c)); [by apply Hval| |done].
    apply (offset_bounds c i data' Hs' Hi).
  - split; [done|]. intros s. by apply (no_live_copy_spec hash).
Qed.

Lemma inv_numeric op now key data :
  inv now data -> inv now (numeric_op hash c now (TinyItem.update op) key data).2.
Proof.
  intros Hinv. pose proof (numeric_op_aux op now key data Hinv) as Hn.
  destruct (numeric_op _ _ _ _ _ _) as [[off|[]] data']; [|naive_solver..].
  destruct Hn as (i & n & _ & Hi & Hl & Hk & _ & Hs' & E & He & Hk' & Hin & _).
  destruct Hinv as [H Hp Hn]. assert (Hs := wf_sized c _ H).
  assert (s_live now (slot_at i data')) as Hl' by (unfold s_live; by rewrite He).
  simpl. split.
  - split; [done|]. intros s. rewrite E. intros [->|]%elem_of_insert_inv ?; [|by apply H].
    split; [done|]. rewrite He. apply H; [|by apply Hl].
    apply list_elem_of_lookup. eexists. by apply slots_lookup.
  - intros j Hj. rewrite (slot_at_insert c i j _ data data' Hi Hj E).
    case_decide; [|by apply Hp]. subst j. intros _. rewrite Hk', <- Hk. apply Hp, Hl. done.
  - pose proof (live_insert now (slots c data) (Z.to_nat i) _ (slot_at i data')
      (slots_lookup c i data Hi)) as P.
    rewrite <- E in P. unfold if_live in P. rewrite !decide_True in P by done.
    apply (fmap_Permutation s_key) in P. simpl in P. rewrite Hk, Hk' in P.
    apply Permutation_cons_inv in P. unfold live_items in *. by rewrite P.
Qed.
End Numeric.

(** ** Histories *)

Section Reachable.
Context (hash : nat -> bytes -> Z) (c : Config).

Inductive Op :=
| OpGet (key : bytes)
| OpInsert (key : bytes) (v : Value) (ttl : Duration)
| OpDelete (key : bytes)
| OpClear
| OpWrappingAdd (key : bytes) (rhs : Z)
| OpSaturatingSub (key : bytes) (rhs : Z).

(** The arguments the theorems cover; oversized items are refused. *)
Definition op_ok (op : Op) : Prop :=
  match op with
  | OpInsert key v ttl =>
      (item_size c < TinyItem.TINY_ITEM_HDR_SIZE + blen key + size_of v \/
       tiny_args (item_size c) key v) /\ 0 <= secs ttl
  | _ => True
  end.

Definition exec (draw now : Z) (op : Op) (data : bytes) : bytes :=
  match op with
  | OpGet key => (get hash c now key data).2
  | OpInsert key v ttl => (insert hash draw c now key v ttl data).2
  | OpDelete key => (delete hash c now key data).2
  | OpClear => clear data
  | OpWrappingAdd key rhs => (wrapping_add hash c now key rhs data).2
  | OpSaturatingSub key rhs => (saturating_sub hash c now key rhs data).2
  end.

(** The storage after any history of operations, on a clock that never goes
    back. *)
Inductive reachable : Z -> bytes -> Prop :=
| reach_new b data : from_builder b = Some (c, data) -> 0 <= b_max_ttl b -> reachable 0 data
| reach_op now now' draw op data :
    reachable now data -> now <= now' -> fits 32 now' -> op_ok op ->
    reachable now' (exec draw now' op data).

Lemma exec_inv draw now op data :
  (max_displace c <= 3)%nat -> clock_ok c now -> op_ok op ->
  inv hash c now data -> inv hash c now (exec draw now op data).
Proof.
  intros Hm Hc Hop Hi. destruct op; simpl in *.
  - destruct (get_data hash c now key data Hi) as [->|(i & ? & ->)]; [done|by apply inv_clear].
  - destruct Hop as [[Hbig|Ha] Ht].
    + unfold insert. by rewrite (proj2 (Z.ltb_lt _ _) Hbig).
    + by apply inv_insert.
  - destruct (delete_data hash c now key data Hi) as [->|(i & ? & ->)]; [done|by apply inv_clear].
  - destruct Hi as [[[? ? Hb] _] _ _]. by apply inv_zero.
  - by apply inv_numeric.
  - by apply inv_numeric.
Qed.

Lemma reachable_config now data : reachable now data -> clock_ok c now.
Proof.
  induction 1 as [b data E Hb|now now' draw op data _ [_ IH] Hle Hf _]; [|by split].
  unfold from_builder in E. repeat case_match; simplify_eq/=.
  apply bind_Some in E as (x & _ & [= <- <-]). by split.
Qed.

Lemma reachable_inv_aux now data :
  (max_displace c <= 3)%nat -> reachable now data -> inv hash c now data.
Proof.
  intros Hm H. induction H as [b data E Hb|now now' draw op data H IH Hle Hf Hop].
  - unfold from_builder in E.
    destruct (Z.ltb_spec TinyItem.TINY_ITEM_HDR_SIZE (b_item_size b)) as [H1|]; [|done].
    destruct (Z.ltb_spec 0 (b_nitem b)) as [H2|]; [|done]. simpl in E.
    apply bind_Some in E as (x & Hx & [= <- <-]).
    assert (x = b_item_size b * b_nitem b /\ 0 <= x) as [-> ?].
    { unfold checked in Hx. destruct (Z.leb_spec 0 (b_item_size b * b_nitem b)); [|done].
      simpl in Hx. case_match; [|done]. by injection Hx as <-. }
    apply inv_zero; simpl; [done..|lia].
  - apply reachable_config in H. apply exec_inv; try done; [by split; [|apply H]|].
    by eapply inv_later.
Qed.
End Reachable.
