(* ===== verification/CuckooThms.v ===== *)
(** * Theorems of the cuckoo cache

    The contract of the cache's operations, from the lemmas of [CuckooSpec],
    and, in [CuckooDemo], concrete caches: the theorems applied to them, and
    the computed behaviours their hypotheses exclude. *)
From S2P Require Import Prelude KvItem Cuckoo CuckooSpec.

Section Claims.
Context (hash : nat -> bytes -> Z) (draw : Z) (c : Config) (now : Z).
Implicit Types (i pos : Z) (data s key : bytes) (v : Value).



(** C35. With displacements at most 3 deep (2 is the default), after any history of
    operations within the bounds of the item format ([op_ok]: no key over 255
    bytes, no byte value that is empty or over 255 bytes, unless the item is too
    large and refused): every occupied slot is well formed and a candidate
    position of its key, and no two live items share a key. Deeper chains can
    return to their start ([displacement_cycle]), and empty values overflow
    their slot ([empty_value_overflows]). *)
Theorem cuckoo_reachable_inv data :
  (max_displace c <= 3)%nat -> reachable hash c now data -> inv hash c now data.
Proof. apply reachable_inv_aux. Qed.

(** [get] answers with a live item of the key and changes nothing, or answers
    [None], clearing at most an expired copy; a live item of the key is then
    missed only behind an expired copy of it. *)
Theorem cuckoo_get_spec key data :
  inv hash c now data ->
  let (found, data') := get hash c now key data in
  match found with
  | Some off => data' = data /\ exists i, valid c i /\ off = slot_offset c i /\
      s_live now (slot_at c i data) /\ s_key (slot_at c i data) = key
  | None => live_items c now data' ≡ₚ live_items c now data /\
      ((forall s, s ∈ live_items c now data -> s_key s <> key) \/
       ~ no_expired_copy c now key data)
  end.
Proof.
  intros Hi. assert (H := inv_wf _ _ _ _ Hi). assert (Hs := wf_sized c _ H). unfold get.
  destruct (get_from_spec c now key (positions hash c key) data H) as [[-> Hn]|(i & Hin & Hh & ->)].
  { by apply positions_valid, Hs. }
  - split; [done|]. left. intros s. apply (no_live_copy_spec hash); [apply Hi|].
    intros i Hin Hl Hk. apply (Hn i Hin). split; [apply Hl|done].
  - assert (Hv := candidate_valid hash c i key data Hs Hin). case_decide as Hl.
    + split; [done|]. exists i. split_and!; try done. apply Hh.
    + split.
      * by apply (kept_live _ _ _ _ (kept_clear c now i data H Hv Hl)).
      * right. intros Hf. by apply Hl, Hf.
Qed.

(** [delete], without an expired copy of the key in the way: it answers
    whether the key was live, and removes exactly that item. *)
Theorem cuckoo_delete_spec key data :
  inv hash c now data -> no_expired_copy c now key data ->
  let (deleted, data') := delete hash c now key data in
  (forall s, s ∈ live_items c now data' -> s_key s <> key) /\
  if deleted then exists s, s_key s = key /\ live_items c now data ≡ₚ s :: live_items c now data'
  else data' = data.
Proof.
  intros Hi Hf. assert (H := inv_wf _ _ _ _ Hi). assert (Hs := wf_sized c _ H). unfold delete.
  destruct (delete_from_spec c now key (positions hash c key) data H)
    as [[-> Hn]|(i & Hin & Hh & ->)].
  { by apply positions_valid, Hs. }
  - split; [|done]. intros s. apply (no_live_copy_spec hash); [apply Hi|].
    intros i Hin Hl Hk. apply (Hn i Hin). split; [apply Hl|done].
  - assert (Hv := candidate_valid hash c i key data Hs Hin).
    assert (Hl := Hf i Hv Hh). rewrite bool_decide_eq_true_2 by done.
    pose proof (live_clear c now i data Hs Hv) as P. unfold if_live in P.
    rewrite decide_True in P by done. simpl in P. split.
    + intros s Hin'. eapply nodup_rest; [apply Hi|by symmetry|apply Hh|done].
    + exists (slot_at c i data). split; [apply Hh|by symmetry].
Qed.

(** The numeric operations: the item of the key holds the new value and keeps
    its key and expiry, no other slot changes; on a miss or a byte value,
    nothing does. *)
Theorem cuckoo_numeric_spec op (rhs : Z) key data :
  inv hash c now data ->
  op = (wrapping_add hash c now, fun n => u64 (n + rhs)) \/
  op = (saturating_sub hash c now, fun n => sat_sub n rhs) ->
  let '(r, data') := op.1 key rhs data in
  match r with
  | Ok off => exists i n, off = slot_offset c i /\ valid c i /\ s_live now (slot_at c i data) /\
      s_key (slot_at c i data) = key /\ TinyItem.value 0 (slot_at c i data) = U64 n /\
      (fits 64 (op.2 n) -> TinyItem.value off data' = U64 (op.2 n)) /\
      s_key (slot_at c i data') = key /\
      s_expire (slot_at c i data') = s_expire (slot_at c i data) /\
      forall j, valid c j -> j <> i -> slot_at c j data' = slot_at c j data
  | Err NotNumeric => data' = data /\ exists i b, valid c i /\ s_live now (slot_at c i data) /\
      s_key (slot_at c i data) = key /\ TinyItem.value 0 (slot_at c i data) = Bytes b
  | Err NotFound => data' = data /\ forall s, s ∈ live_items c now data -> s_key s <> key
  | Err (ItemOversized _ _) => False
  end.
Proof.
  intros Hi Hop.
  assert (exists f, op.2 = f /\ op.1 key rhs data =
            numeric_op hash c now (TinyItem.update f) key data) as (f & -> & ->)
    by (destruct Hop as [-> | ->]; eexists; split; reflexivity).
  pose proof (numeric_op_aux hash c f now key data Hi) as Hn.
  destruct (numeric_op _ _ _ _ _ _) as [[off|[]] data']; try done.
  destruct Hn as (i & n & ? & Hv & ? & ? & ? & ? & E & ? & ? & _ & ?).
  exists i, n. split_and!; try done. intros j Hj Hne.
  rewrite (slot_at_insert c i j _ data data' Hv Hj E). by rewrite decide_False.
Qed.
End Claims.

(** ** Concrete caches

    Keys are single bytes. [spread] gives each key its own candidates; with
    [fixed] every key has the candidates 0, 1, 2, 3. *)
Module CuckooDemo.
Definition spread (n : nat) (key : bytes) : Z := (nth 0 key 0 + Z.of_nat n * 3).
Definition fixed (n : nat) (key : bytes) : Z := Z.of_nat n.

Definition builder (levels : nat) : Builder :=
  {| b_item_size := 16; b_nitem := 5; b_max_displace := levels; b_policy := Expire;
     b_max_ttl := 2592000 |}.
Definition config (levels : nat) : Config :=
  {| item_size := 16; nitem := 5; max_displace := levels; max_ttl := 2592000; policy := Expire |}.
Definition empty : bytes := replicate 80 0.

Definition sec (n : Z) : Duration := {| secs := n; nanos := 0 |}.
Definition put k n := OpInsert [k] (U64 n) (sec 100).

Definition run (hash : nat -> bytes -> Z) (levels : nat) (ops : list Op) : bytes :=
  fold_left (fun d op => exec hash (config levels) 0 1 op d) ops empty.

Lemma tiny_args_u64 k n : 0 <= n < 2 ^ 64 -> tiny_args 16 [k] (U64 n).
Proof. intros. split; [vm_compute; congruence|]. split; [vm_compute; congruence|done]. Qed.

Lemma run_reachable hash levels ops :
  Forall (op_ok (config levels)) ops -> reachable hash (config levels) 1 (run hash levels ops).
Proof.
  intros H. unfold run. assert (reachable hash (config levels) 1 empty) as R.
  { change empty with (exec hash (config levels) 0 1 OpClear empty).
    apply (reach_op _ _ 0 1 0 OpClear empty); [|lia|split; [lia|by vm_compute]|done].
    apply (reach_new _ _ (builder levels)); [by vm_compute|vm_compute; congruence]. }
  revert R. generalize empty. induction H as [|op ops Ho H IH]; intros d R; [done|].
  apply IH. apply (reach_op _ _ 1); [done|lia|split; [lia|by vm_compute]|done].
Qed.

Definition filled : bytes := run spread 2 [put 1 10; put 2 20; put 3 30].

Lemma filled_inv : inv spread (config 2) 1 filled.
Proof.
  apply reachable_inv_aux; [simpl; lia|]. apply run_reachable.
  repeat constructor; try (right; by apply tiny_args_u64); vm_compute; congruence.
Qed.

(** Slot by slot, by computation. *)
Definition expired_copies (now : Z) (key : bytes) (c : Config) (data : bytes) : list bytes :=
  filter (fun s => s_expire s <> 0 /\ ~ s_live now s /\ s_key s = key) (slots c data).

Lemma no_expired_copy_compute now key c data :
  expired_copies now key c data = [] -> no_expired_copy c now key data.
Proof.
  intros E i Hi [He Hk]. destruct (decide (s_live now (slot_at c i data))) as [|Hn]; [done|].
  assert (slot_at c i data ∈ expired_copies now key c data) as Hin.
  { apply list_elem_of_filter. split; [done|]. apply list_elem_of_lookup.
    eexists. by apply slots_lookup. }
  rewrite E in Hin. by apply elem_of_nil in Hin.
Qed.




Lemma cuckoo_reachable_inv_witness : inv spread (config 2) 1 filled.
Proof.
  apply cuckoo_reachable_inv; [simpl; lia|]. apply run_reachable.
  repeat constructor; try (right; by apply tiny_args_u64); vm_compute; congruence.
Defined.

Lemma cuckoo_get_spec_witness :
  let (found, data') := get spread (config 2) 1 [2] filled in
  match found with
  | Some off => data' = filled /\ exists i, valid (config 2) i /\ off = slot_offset (config 2) i /\
      s_live 1 (slot_at (config 2) i filled) /\ s_key (slot_at (config 2) i filled) = [2]
  | None => live_items (config 2) 1 data' ≡ₚ live_items (config 2) 1 filled /\
      ((forall s, s ∈ live_items (config 2) 1 filled -> s_key s <> [2]) \/
       ~ no_expired_copy (config 2) 1 [2] filled)
  end.
Proof. apply (cuckoo_get_spec spread (config 2) 1 [2] filled). apply filled_inv. Defined.

Lemma cuckoo_delete_spec_witness :
  let (deleted, data') := delete spread (config 2) 1 [2] filled in
  (forall s, s ∈ live_items (config 2) 1 data' -> s_key s <> [2]) /\
  if deleted then exists s, s_key s = [2] /\
    live_items (config 2) 1 filled ≡ₚ s :: live_items (config 2) 1 data'
  else data' = filled.
Proof.
  apply (cuckoo_delete_spec spread (config 2) 1 [2] filled); [apply filled_inv|].
  by apply no_expired_copy_compute.
Defined.

Lemma cuckoo_numeric_spec_witness :
  let op := (wrapping_add spread (config 2) 1, fun n => u64 (n + 5)) in
  let '(r, data') := op.1 [2] 5 filled in
  match r with
  | Ok off => exists i n, off = slot_offset (config 2) i /\ valid (config 2) i /\
      s_live 1 (slot_at (config 2) i filled) /\
      s_key (slot_at (config 2) i filled) = [2] /\
      TinyItem.value 0 (slot_at (config 2) i filled) = U64 n /\
      (fits 64 (op.2 n) -> TinyItem.value off data' = U64 (op.2 n)) /\
      s_key (slot_at (config 2) i data') = [2] /\
      s_expire (slot_at (config 2) i data') = s_expire (slot_at (config 2) i filled) /\
      forall j, valid (config 2) j -> j <> i ->
        slot_at (config 2) j data' = slot_at (config 2) j filled
  | Err NotNumeric => data' = filled /\ exists i b, valid (config 2) i /\
      s_live 1 (slot_at (config 2) i filled) /\
      s_key (slot_at (config 2) i filled) = [2] /\
      TinyItem.value 0 (slot_at (config 2) i filled) = Bytes b
  | Err NotFound => data' = filled /\
      forall s, s ∈ live_items (config 2) 1 filled -> s_key s <> [2]
  | Err (ItemOversized _ _) => False
  end.
Proof.
  apply (cuckoo_numeric_spec spread (config 2) 1
           (wrapping_add spread (config 2) 1, fun n => u64 (n + 5)) 5 [2] filled).
  - apply filled_inv.
  - by left.
Defined.

(** An expired copy in an earlier candidate slot than the new one, which
    [find_slot_for_insert] puts in an empty slot first: the [get] that follows
    misses the live item, and [delete] answers [false] and leaves it. *)
Example expired_copy_hides_insert :
  let c := config 2 in
  let d := (insert fixed 0 c 0 [7] (U64 1) (sec 1) empty).2 in
  let d := (insert fixed 0 c 5 [7] (U64 2) (sec 9) d).2 in
  (get fixed c 5 [7] d).1 = None /\ (delete fixed c 5 [7] d).1 = false /\
  (get fixed c 5 [7] (delete fixed c 5 [7] d).2).1 = Some 16.
Proof. by vm_compute. Qed.

(** With five levels a displacement chain can come back to the slot it
    started from: key 3 is moved to slot 1, which is not a candidate of it,
    and can no longer be found, though its item is live. *)
Definition cyclic (n : nat) (key : bytes) : Z :=
  nth n (match key with
         | [1] => [1; 3; 3; 0] | [2] => [2; 1; 1; 1] | [3] => [0; 2; 2; 2]
         | [4] => [4; 3; 3; 3] | [9] => [4; 4; 4; 4] | _ => [0; 0; 0; 0]
         end) 0.

Definition chain (levels : nat) : bytes :=
  run cyclic levels
    [put 8 0; put 3 30; put 2 20; put 9 90; put 4 40; OpDelete [8]; OpDelete [9]; put 1 10; put 5 50].

Example displacement_cycle :
  let c := config 5 in
  (get cyclic c 1 [3] (chain 5)).1 = None /\
  map s_key (live_items c 1 (chain 5)) = [[5]; [3]; [2]; [1]; [4]].
Proof. by vm_compute. Qed.

(** A time to live below one second in the cache's first second expires at 0,
    which marks an empty slot: the insert answers [Ok] and stores nothing. *)
Example subsecond_ttl_lost :
  let c := config 2 in
  let (r, d) := insert fixed 0 c 0 [7] (U64 1) {| secs := 0; nanos := 500000000 |} empty in
  r = Ok tt /\ (get fixed c 0 [7] d).1 = None.
Proof. by vm_compute. Qed.

(** An empty byte value is read back as a number, from past the end of the
    item; a numeric update of it then overwrites the next slot. *)
Example empty_value_overflows :
  let c := config 2 in
  let k := [1; 2; 3; 4; 5; 6; 7; 8; 9; 10] in
  let d := (insert fixed 0 c 0 k (Bytes []) (sec 9) empty).2 in
  let d := (insert fixed 0 c 0 [7] (U64 1) (sec 9) d).2 in
  TinyItem.value 0 d = U64 (2 ^ 56 * 9 + 2 ^ 24 + 7 * 2 ^ 8) /\
  TinyItem.expire 16 d = 9 /\
  TinyItem.expire 16 (wrapping_add fixed c 0 k (2 ^ 56) d).2 = 10.
Proof. by vm_compute. Qed.
End CuckooDemo.
