(* ===== verification/SegState.v ===== *)
(** * Segment states and the packed metadata word

    [segments/state.rs]: the lifecycle states of a segment, the predicates the
    pin and eviction protocols test, and the 64-bit word that carries the
    state, the lifetime tag and the two chain links. A link is an
    [Option<NonZeroU32>]; [None] is stored as 0. *)
From S2P Require Import Prelude.

Inductive State :=
| Free
| Reserved
| Linking
| Live
| Sealed
| Relinking
| Draining
| Locked
| AwaitingRelease.

#[export] Instance State_eq_dec : EqDecision State.
Proof. solve_decision. Defined.

Definition as_u8 (s : State) : Z :=
  match s with
  | Free => 0
  | Reserved => 1
  | Linking => 2
  | Live => 3
  | Sealed => 4
  | Relinking => 5
  | Draining => 6
  | Locked => 7
  | AwaitingRelease => 8
  end.

(** [from_u8]: [None] where it panics. *)
Definition from_u8 (value : Z) : option State :=
  match value with
  | 0 => Some Free
  | 1 => Some Reserved
  | 2 => Some Linking
  | 3 => Some Live
  | 4 => Some Sealed
  | 5 => Some Relinking
  | 6 => Some Draining
  | 7 => Some Locked
  | 8 => Some AwaitingRelease
  | _ => None
  end.

Definition is_readable (s : State) : bool :=
  match s with
  | Live | Sealed | Relinking => true
  | _ => false
  end.

Definition is_writable (s : State) : bool :=
  match s with
  | Live => true
  | _ => false
  end.

Definition is_evictable (s : State) : bool :=
  match s with
  | Sealed => true
  | _ => false
  end.

Record Metadata := mkMeta { next : option Z; prev : option Z; state : State; tag : Z }.

Definition LINK_MASK : Z := 0xFFFFFF.
Definition TAG_SHIFT : Z := 56.

Definition new_free : Metadata := mkMeta None None Free 0.

(** [NonZeroU32::new], [map_or(0, NonZeroU32::get)]. *)
Definition nonzero (x : Z) : option Z := if x =? 0 then None else Some x.
Definition or_zero (x : option Z) : Z := default 0 x.

Definition pack (m : Metadata) : Z :=
  let next := or_zero (next m) in
  let prev := or_zero (prev m) in
  Z.lor (Z.lor (Z.lor (u64 (Z.shiftl (tag m) TAG_SHIFT)) (u64 (Z.shiftl (as_u8 (state m)) 48)))
          (u64 (Z.shiftl prev 24))) next.

(** [unpack]: [None] where [from_u8] panics. *)
Definition unpack (packed : Z) : option Metadata :=
  state ← from_u8 (Z.land (Z.shiftr packed 48) 0xFF);
  Some (mkMeta (nonzero (u32 (Z.land packed LINK_MASK)))
               (nonzero (u32 (Z.land (Z.shiftr packed 24) LINK_MASK)))
               state
               (u8 (Z.land (Z.shiftr packed TAG_SHIFT) 0xFF))).

(** ** The word and its fields *)

(** A link is a 1-based segment id of at most 24 bits. *)
Definition link_ok (l : option Z) : Prop := forall x, l = Some x -> 0 < x < 2 ^ 24.

Definition meta_ok (m : Metadata) : Prop := link_ok (next m) /\ link_ok (prev m) /\ fits 8 (tag m).

Lemma as_u8_fits s : 0 <= as_u8 s <= 8.
Proof. destruct s; simpl; lia. Qed.

Lemma from_as_u8 s : from_u8 (as_u8 s) = Some s.
Proof. by destruct s. Qed.

Lemma from_u8_inv v s : from_u8 v = Some s -> as_u8 s = v.
Proof. destruct v as [|p|]; [|repeat (destruct p as [p|p|]; try done)|]; simpl; naive_solver. Qed.

Lemma or_zero_fits l : link_ok l -> 0 <= or_zero l < 2 ^ 24.
Proof. intros H. destruct l; simpl; [specialize (H _ eq_refl); lia|lia]. Qed.

Lemma nonzero_or_zero l : link_ok l -> nonzero (or_zero l) = l.
Proof.
  intros H. unfold nonzero. destruct l; simpl; [|done].
  specialize (H _ eq_refl). by rewrite (proj2 (Z.eqb_neq _ _)) by lia.
Qed.

Lemma or_zero_nonzero x : or_zero (nonzero x) = x.
Proof. unfold nonzero. by case_bool. Qed.

(** The word as a sum of disjoint fields. *)
Lemma meta_pack_sum m :
  meta_ok m ->
  pack m = tag m * 2 ^ 56 + as_u8 (state m) * 2 ^ 48 + or_zero (prev m) * 2 ^ 24 + or_zero (next m).
Proof.
  intros (Hn%or_zero_fits & Hp%or_zero_fits & [Ht1 Ht2]). unfold pack, TAG_SHIFT.
  pose proof (as_u8_fits (state m)). bits_arith.
  rewrite !Z.mod_small by lia.
  rewrite (lor_add 56 (tag m * _)) by (pow2; dm).
  rewrite (lor_add 48 (_ + _)) by (pow2; dm).
  rewrite (lor_add 24) by (pow2; dm). done.
Qed.

Lemma meta_pack_fits m : meta_ok m -> fits 64 (pack m).
Proof.
  intros H. rewrite (meta_pack_sum m H).
  destruct H as (Hn%or_zero_fits & Hp%or_zero_fits & [Ht1 Ht2]).
  pose proof (as_u8_fits (state m)). unfold fits. pow2. lia.
Qed.

Lemma unpack_pack_aux m : meta_ok m -> unpack (pack m) = Some m.
Proof.
  intros H. pose proof (meta_pack_sum m H) as E.
  assert (H' := H). destruct H' as (Hn & Hp & [Ht1 Ht2]).
  pose proof (or_zero_fits _ Hn). pose proof (or_zero_fits _ Hp).
  pose proof (as_u8_fits (state m)).
  unfold unpack, LINK_MASK, TAG_SHIFT.
  change 0xFFFFFF with (2 ^ 24 - 1). change 0xFF with (2 ^ 8 - 1). bits_arith.
  assert ((pack m / 281474976710656) mod 256 = as_u8 (state m)) as -> by (rewrite E; pow2; dm).
  assert ((pack m mod 16777216) mod 4294967296 = or_zero (next m)) as -> by (rewrite E; pow2; dm).
  assert (((pack m / 16777216) mod 16777216) mod 4294967296 = or_zero (prev m)) as ->
    by (rewrite E; pow2; dm).
  assert (((pack m / 72057594037927936) mod 256) mod 256 = tag m) as -> by (rewrite E; pow2; dm).
  rewrite from_as_u8. simpl. rewrite !nonzero_or_zero by done. by destruct m.
Qed.

Lemma unpack_ok w m : unpack w = Some m -> meta_ok m.
Proof.
  unfold unpack, LINK_MASK, TAG_SHIFT. change 0xFFFFFF with (2 ^ 24 - 1). change 0xFF with (2 ^ 8 - 1).
  intros (s & _ & [= <-])%bind_Some. unfold meta_ok, link_ok, nonzero. cbn [next prev tag state].
  bits_arith. split_and!; [intros x|intros x|split; dm].
  all: case_bool; [done|]; intros [= <-]; dm.
Qed.

Lemma pack_unpack w m : fits 64 w -> unpack w = Some m -> pack m = w.
Proof.
  intros Hw E. assert (Ho := unpack_ok w m E). rewrite meta_pack_sum by done. revert E.
  unfold unpack, LINK_MASK, TAG_SHIFT. change 0xFFFFFF with (2 ^ 24 - 1). change 0xFF with (2 ^ 8 - 1).
  intros (s & Hs%from_u8_inv & [= <-])%bind_Some. cbn [tag state next prev]. rewrite !or_zero_nonzero.
  rewrite Hs. unfold fits in Hw. bits_arith. dm.
Qed.

(** The metadata word is a faithful encoding: [unpack] inverts [pack] on
    24-bit links and an 8-bit tag, [pack] inverts [unpack] on every 64-bit
    word that [unpack] accepts, and it rejects exactly the words whose state
    byte is above 8. *)
Theorem metadata_roundtrip :
  (forall m, meta_ok m -> fits 64 (pack m) /\ unpack (pack m) = Some m) /\
  (forall w m, fits 64 w -> unpack w = Some m -> meta_ok m /\ pack m = w) /\
  (forall w, unpack w = None <-> 8 < (w / 2 ^ 48) mod 256).
Proof.
  split; [|split].
  - intros m H. split; [by apply meta_pack_fits|by apply unpack_pack_aux].
  - intros w m Hw H. split; [by eapply unpack_ok|by apply pack_unpack].
  - intros w. assert (Z.land (Z.shiftr w 48) 0xFF = (w / 2 ^ 48) mod 256) as E0.
    { change 0xFF with (2 ^ 8 - 1). rewrite land_mask, Z.shiftr_div_pow2 by lia. done. }
    assert (unpack w = None <-> from_u8 ((w / 2 ^ 48) mod 256) = None) as ->.
    { unfold unpack. rewrite E0. by destruct (from_u8 _). }
    assert (0 <= (w / 2 ^ 48) mod 256 < 256) as Hb by (apply Z.mod_pos_bound; lia).
    revert Hb. generalize ((w / 2 ^ 48) mod 256). intros b Hb. split.
    + intros E. destruct (Z.le_gt_cases b 8); [|done].
      assert (b = 0 \/ b = 1 \/ b = 2 \/ b = 3 \/ b = 4 \/ b = 5 \/ b = 6 \/ b = 7 \/ b = 8)
        as H8 by lia. by destruct_or!; subst b.
    + intros H8. destruct (from_u8 b) as [s|] eqn:E; [|done].
      apply from_u8_inv in E. pose proof (as_u8_fits s). lia.
Qed.
