(* ===== verification/SegHeader.v ===== *)
(** * Segment headers

    [SegmentHeader] of [segments/header.rs]: every field is an atomic, and
    every method a short program over them ([Atomics]). Signed counters are
    32-bit with wrap-around, reference counts and pins 32-bit unsigned, the
    generation 16-bit. [integrity] is the cargo feature (the segment then
    starts with eight magic bytes) and [now] the coarse clock. Orderings are
    not modelled (memory is sequentially consistent, which is what the source
    asks for, with [SeqCst], on both halves of its handoffs); neither are the
    gauges of the [metrics] feature. A panic is a run that gives [None]. *)
From S2P Require Import Prelude Atomics SegState.

(** [SegmentPool]. *)
Inductive SegmentPool := Main | Admission.

#[export] Instance SegmentPool_eq_dec : EqDecision SegmentPool.
Proof. solve_decision. Defined.

Definition pool_as_u8 (p : SegmentPool) : Z :=
  match p with
  | Main => 0
  | Admission => 1
  end.

Definition pool_from_u8 (v : Z) : SegmentPool := if v =? 1 then Admission else Main.

Record SegmentHeader := mkHeader {
  id : Z;
  write_offset : Z;
  live_bytes : Z;
  live_items : Z;
  create_at : Z;
  merge_at : Z;
  ttl : Z;
  ref_count : Z;
  metadata : Z;
  generation : Z;
  pool : Z;
  active_writers : Z;
  active_removers : Z;
  dead_items : Z;
  dead_bytes : Z
}.

(** Stores to one field. *)
Definition with_write_offset (v : Z) (h : SegmentHeader) : SegmentHeader :=
  mkHeader (id h) v (live_bytes h) (live_items h) (create_at h) (merge_at h) (ttl h)
    (ref_count h) (metadata h) (generation h) (pool h) (active_writers h) (active_removers
    h) (dead_items h) (dead_bytes h).

Definition with_live_bytes (v : Z) (h : SegmentHeader) : SegmentHeader :=
  mkHeader (id h) (write_offset h) v (live_items h) (create_at h) (merge_at h) (ttl h)
    (ref_count h) (metadata h) (generation h) (pool h) (active_writers h) (active_removers
    h) (dead_items h) (dead_bytes h).

Definition with_live_items (v : Z) (h : SegmentHeader) : SegmentHeader :=
  mkHeader (id h) (write_offset h) (live_bytes h) v (create_at h) (merge_at h) (ttl h)
    (ref_count h) (metadata h) (generation h) (pool h) (active_writers h) (active_removers
    h) (dead_items h) (dead_bytes h).

Definition with_create_at (v : Z) (h : SegmentHeader) : SegmentHeader :=
  mkHeader (id h) (write_offset h) (live_bytes h) (live_items h) v (merge_at h) (ttl h)
    (ref_count h) (metadata h) (generation h) (pool h) (active_writers h) (active_removers
    h) (dead_items h) (dead_bytes h).

Definition with_merge_at (v : Z) (h : SegmentHeader) : SegmentHeader :=
  mkHeader (id h) (write_offset h) (live_bytes h) (live_items h) (create_at h) v (ttl h)
    (ref_count h) (metadata h) (generation h) (pool h) (active_writers h) (active_removers
    h) (dead_items h) (dead_bytes h).

Definition with_ttl (v : Z) (h : SegmentHeader) : SegmentHeader :=
  mkHeader (id h) (write_offset h) (live_bytes h) (live_items h) (create_at h) (merge_at h)
    v (ref_count h) (metadata h) (generation h) (pool h) (active_writers h) (active_removers
    h) (dead_items h) (dead_bytes h).

Definition with_ref_count (v : Z) (h : SegmentHeader) : SegmentHeader :=
  mkHeader (id h) (write_offset h) (live_bytes h) (live_items h) (create_at h) (merge_at h)
    (ttl h) v (metadata h) (generation h) (pool h) (active_writers h) (active_removers h)
    (dead_items h) (dead_bytes h).

Definition with_metadata (v : Z) (h : SegmentHeader) : SegmentHeader :=
  mkHeader (id h) (write_offset h) (live_bytes h) (live_items h) (create_at h) (merge_at h)
    (ttl h) (ref_count h) v (generation h) (pool h) (active_writers h) (active_removers h)
    (dead_items h) (dead_bytes h).

Definition with_generation (v : Z) (h : SegmentHeader) : SegmentHeader :=
  mkHeader (id h) (write_offset h) (live_bytes h) (live_items h) (create_at h) (merge_at h)
    (ttl h) (ref_count h) (metadata h) v (pool h) (active_writers h) (active_removers h)
    (dead_items h) (dead_bytes h).

Definition with_pool (v : Z) (h : SegmentHeader) : SegmentHeader :=
  mkHeader (id h) (write_offset h) (live_bytes h) (live_items h) (create_at h) (merge_at h)
    (ttl h) (ref_count h) (metadata h) (generation h) v (active_writers h) (active_removers
    h) (dead_items h) (dead_bytes h).

Definition with_active_writers (v : Z) (h : SegmentHeader) : SegmentHeader :=
  mkHeader (id h) (write_offset h) (live_bytes h) (live_items h) (create_at h) (merge_at h)
    (ttl h) (ref_count h) (metadata h) (generation h) (pool h) v (active_removers h)
    (dead_items h) (dead_bytes h).

Definition with_active_removers (v : Z) (h : SegmentHeader) : SegmentHeader :=
  mkHeader (id h) (write_offset h) (live_bytes h) (live_items h) (create_at h) (merge_at h)
    (ttl h) (ref_count h) (metadata h) (generation h) (pool h) (active_writers h) v
    (dead_items h) (dead_bytes h).

Definition with_dead_items (v : Z) (h : SegmentHeader) : SegmentHeader :=
  mkHeader (id h) (write_offset h) (live_bytes h) (live_items h) (create_at h) (merge_at h)
    (ttl h) (ref_count h) (metadata h) (generation h) (pool h) (active_writers h)
    (active_removers h) v (dead_bytes h).

Definition with_dead_bytes (v : Z) (h : SegmentHeader) : SegmentHeader :=
  mkHeader (id h) (write_offset h) (live_bytes h) (live_items h) (create_at h) (merge_at h)
    (ttl h) (ref_count h) (metadata h) (generation h) (pool h) (active_writers h)
    (active_removers h) (dead_items h) v.

(** [fetch_add] on an [AtomicI32]. *)
Definition i32 (x : Z) : Z := wrap 32 (x + 2 ^ 31) - 2 ^ 31.

Section Header.
Context (integrity : bool) (now : Z).
Implicit Types (h : SegmentHeader) (order : unit).

Abbreviation op := (prog SegmentHeader).

(** The atomic accesses. *)
Definition load (field : SegmentHeader -> Z) : op Z := atomic (fun h => (field h, h)).

Definition store (set : Z -> SegmentHeader -> SegmentHeader) (v : Z) : op unit :=
  atomic (fun h => (tt, set v h)).

Definition fetch (field : SegmentHeader -> Z) (set : Z -> SegmentHeader -> SegmentHeader)
    (f : Z -> Z) : op Z :=
  atomic (fun h => (field h, set (f (field h)) h)).

(** [compare_exchange]: [None] when it stored, the value seen otherwise. *)
Definition compare_exchange (field : SegmentHeader -> Z)
    (set : Z -> SegmentHeader -> SegmentHeader) (current new : Z) : op (option Z) :=
  atomic (fun h =>
    if field h =? current then (None, set new h) else (Some (field h), h)).

Definition panic {A} : op A := fun _ => None.

Definition unwrap {A} (x : option A) : op A :=
  match x with
  | Some a => mret a
  | None => panic
  end.

Definition initial_offset : Z := if integrity then 8 else 0.

Definition new (id : Z) : SegmentHeader :=
  mkHeader id initial_offset initial_offset 0 0 0 0 0 (pack new_free) 0 (pool_as_u8 Main) 0 0 0 0.

Definition init : op unit :=
  _ ← store with_write_offset initial_offset;
  _ ← store with_live_bytes initial_offset;
  _ ← store with_live_items 0;
  _ ← store with_dead_items 0;
  _ ← store with_dead_bytes 0;
  store with_metadata (pack new_free).

(** [reset_write_stats], without the gauges. *)
Definition reset_write_stats : op unit :=
  _ ← store with_dead_items 0;
  _ ← store with_dead_bytes 0;
  _ ← store with_write_offset initial_offset;
  _ ← store with_live_bytes initial_offset;
  store with_live_items 0.

(** ** The metadata word *)

Definition load_metadata : op Metadata :=
  w ← load metadata; unwrap (unpack w).

Definition compare_exchange_metadata (current : Z) (new : Metadata) : op (option Z) :=
  compare_exchange metadata with_metadata current (pack new).

Definition is_none {A} (x : option A) : bool :=
  match x with
  | None => true
  | Some _ => false
  end.

Definition cas_metadata (expected_state new_state : State)
    (new_next new_prev : option (option Z)) : op bool :=
  current ← load metadata;
  meta ← unwrap (unpack current);
  if negb (bool_decide (state meta = expected_state)) then mret false
  else
    r ← compare_exchange_metadata current
          (mkMeta (default (next meta) new_next) (default (prev meta) new_prev)
             new_state (tag meta));
    mret (is_none r).

(** One lap of a compare-and-swap loop: [Again] goes round with the value the
    failed exchange saw. *)
Inductive Lap (A : Type) := Return (a : A) | Again (observed : Z).
#[global] Arguments Return {A}.
#[global] Arguments Again {A}.

Fixpoint exchange_loop {A} (fuel : nat) (lap : Z -> op (Lap A)) (current : Z) : op A :=
  match fuel with
  | O => panic
  | S fuel =>
      r ← lap current;
      match r with
      | Return a => mret a
      | Again observed => exchange_loop fuel lap observed
      end
  end.

(** A failed exchange is due to another thread, so one lap more than the
    schedule is long is enough fuel. *)
Definition exchange_from {A} (field : SegmentHeader -> Z) (lap : Z -> op (Lap A)) : op A :=
  current ← load field;
  ((fun s => exchange_loop (S (length (sched s))) lap current s) : op A).

Definition update_links_lap (new_next new_prev : option (option Z)) (current : Z)
    : op (Lap unit) :=
  meta ← unwrap (unpack current);
  r ← compare_exchange_metadata current
        (mkMeta (default (next meta) new_next) (default (prev meta) new_prev)
           (state meta) (tag meta));
  match r with
  | None => mret (Return tt)
  | Some observed => mret (Again observed)
  end.

Definition update_links (new_next new_prev : option (option Z)) : op unit :=
  exchange_from metadata (update_links_lap new_next new_prev).

Definition mark_created : op unit := store with_create_at now.
Definition mark_merged : op unit := store with_merge_at now.

Definition try_reserve : op bool :=
  ok ← cas_metadata Free Reserved (Some None) (Some None);
  if ok : bool then
    _ ← reset_write_stats;
    _ ← mark_created;
    _ ← mark_merged;
    mret true
  else mret false.

Definition try_release : op bool :=
  ok ← cas_metadata Reserved Free (Some None) (Some None);
  if ok : bool then mret true else cas_metadata Linking Free (Some None) (Some None).

Definition bump_generation : op Z :=
  fetch generation with_generation (fun g => u16 (g + 1)).

Definition try_release_drained : op bool :=
  ok ← cas_metadata Draining Free (Some None) (Some None);
  if ok : bool then _ ← bump_generation; mret true else mret false.

Definition try_release_condemned : op bool :=
  current ← load metadata;
  meta ← unwrap (unpack current);
  if negb (bool_decide (state meta = AwaitingRelease)) then mret false
  else
    r ← compare_exchange_metadata current new_free;
    if is_none r then _ ← bump_generation; mret true else mret false.

Definition cas_condemn : op bool :=
  current ← load metadata;
  meta ← unwrap (unpack current);
  if negb (bool_decide (state meta = Draining)) then mret false
  else
    g ← load generation;
    r ← compare_exchange_metadata current
          (mkMeta None None AwaitingRelease (u8 (Z.land g 0xFF)));
    mret (is_none r).

(** ** Pins *)

Inductive AcquireOutcome := Acquired | NotReadable | ReleaseCondemned.

Definition release_reader_for_guard : op Z :=
  fetch ref_count with_ref_count (fun c => u32 (c - 1)).

Definition try_acquire_reader : op AcquireOutcome :=
  meta ← load_metadata;
  if negb (is_readable (state meta)) then mret NotReadable
  else
    _ ← fetch ref_count with_ref_count (fun c => u32 (c + 1));
    meta ← load_metadata;
    if negb (is_readable (state meta)) then
      prev ← release_reader_for_guard;
      if prev =? 1 then
        released ← try_release_condemned;
        if released : bool then mret ReleaseCondemned else mret NotReadable
      else mret NotReadable
    else mret Acquired.

(** [Drop for SegmentGuard]: whether it freed the segment, which it then
    pushes to the free queue. *)
Definition drop_guard : op bool :=
  prev ← release_reader_for_guard;
  if prev =? 1 then
    released ← try_release_condemned;
    if released : bool then _ ← reset_write_stats; mret true else mret false
  else mret false.

Definition read_ref_count : op Z := load ref_count.

Definition try_pin_writer : op bool :=
  meta ← load_metadata;
  if negb (is_writable (state meta)) then mret false
  else
    _ ← fetch active_writers with_active_writers (fun c => u32 (c + 1));
    meta ← load_metadata;
    if negb (is_writable (state meta)) then
      _ ← fetch active_writers with_active_writers (fun c => u32 (c - 1));
      mret false
    else mret true.

Definition release_writer : op Z :=
  fetch active_writers with_active_writers (fun c => u32 (c - 1)).

Definition state_is_removable (s : State) : bool :=
  match s with
  | Sealed | Live => true
  | _ => false
  end.

Definition try_pin_remover : op bool :=
  meta ← load_metadata;
  if negb (state_is_removable (state meta)) then mret false
  else
    _ ← fetch active_removers with_active_removers (fun c => u32 (c + 1));
    meta ← load_metadata;
    if negb (state_is_removable (state meta)) then
      _ ← fetch active_removers with_active_removers (fun c => u32 (c - 1));
      mret false
    else mret true.

Definition release_remover : op Z :=
  fetch active_removers with_active_removers (fun c => u32 (c - 1)).

(** ** Write offset and counters *)

Definition reserve_lap (size capacity current : Z) : op (Lap (option Z)) :=
  let new := current + size in
  if negb ((- 2 ^ 31 <=? new) && (new <? 2 ^ 31)) then mret (Return None)
  else if capacity <? new then mret (Return None)
  else
    r ← compare_exchange write_offset with_write_offset current new;
    match r with
    | None => mret (Return (Some current))
    | Some observed => mret (Again observed)
    end.

Definition try_reserve_space (size capacity : Z) : op (option Z) :=
  exchange_from write_offset (reserve_lap size capacity).

Definition incr_live_bytes (bytes : Z) : op Z :=
  fetch live_bytes with_live_bytes (fun x => i32 (x + bytes)).
Definition decr_live_bytes (bytes : Z) : op Z :=
  fetch live_bytes with_live_bytes (fun x => i32 (x - bytes)).
Definition incr_live_items : op Z := fetch live_items with_live_items (fun x => i32 (x + 1)).
Definition decr_live_items : op Z := fetch live_items with_live_items (fun x => i32 (x - 1)).

Definition decr_item (size : Z) : op Z :=
  _ ← decr_live_items; decr_live_bytes size.

Definition incr_dead_item (size : Z) : op Z :=
  _ ← fetch dead_items with_dead_items (fun x => i32 (x + 1));
  fetch dead_bytes with_dead_bytes (fun x => i32 (x + size)).

Definition decr_dead_item (size : Z) : op Z :=
  _ ← fetch dead_items with_dead_items (fun x => i32 (x - 1));
  fetch dead_bytes with_dead_bytes (fun x => i32 (x - size)).

Definition prev_seg : op (option Z) := meta ← load_metadata; mret (prev meta).
Definition set_prev_seg (id : option Z) : op unit := update_links None (Some id).
Definition next_seg : op (option Z) := meta ← load_metadata; mret (next meta).
Definition set_next_seg (id : option Z) : op unit := update_links (Some id) None.

Definition read_state : op State := meta ← load_metadata; mret (state meta).

Definition can_evict : op bool :=
  s ← read_state;
  if is_evictable s then
    c ← read_ref_count; mret (c =? 0)
  else mret false.

Definition read_pool : op SegmentPool := p ← load pool; mret (pool_from_u8 p).
Definition reset_pool : op unit := store with_pool (pool_as_u8 Main).

Definition cas_pool (from to : SegmentPool) : op bool :=
  r ← compare_exchange pool with_pool (pool_as_u8 from) (pool_as_u8 to);
  mret (is_none r).
End Header.
