(* ===== verification/SegHeaderSpec.v ===== *)
(** * Correctness of the header operations

    The single-word operations of [SegHeader] under interference: a state
    transition happens atomically and only from the state it names, patching
    the links keeps the state, a space reservation takes effect at one point
    and the ranges granted to all threads tile the segment. *)
From S2P Require Import Prelude Atomics SegState SegHeader.

Section Rules.
Implicit Types (h : SegmentHeader) (s : St SegmentHeader).

(** The compare-and-swap loops: each lap starts from the current value of the
    field, and one that goes round has been paid for by the schedule. *)
Lemma triple_exchange_from G P {A} (field : SegmentHeader -> Z)
    (lap : Z -> prog SegmentHeader (Lap A)) (Q : A -> SegmentHeader -> Prop) :
  stable G P ->
  (forall s, within G s -> P (mem s) ->
    exists r s', lap (field (mem s)) s = Some (r, s') /\
      (exists k, sched s' = drop k (sched s)) /\
      match r with
      | Return a => Q a (mem s')
      | Again o => P (mem s') /\ o = field (mem s') /\ (length (sched s') < length (sched s))%nat
      end) ->
  triple G P (exchange_from field lap) Q.
Proof.
  intros Hst Hlap. unfold exchange_from.
  eapply (triple_bind _ _ _ _ (fun c h => P h /\ c = field h)).
  { (* the load reads the field of the memory it leaves *)
    intros s Hs HP. unfold load, atomic. eexists _, _. split; [done|]. simpl.
    unfold interfere, within in *. destruct (sched s) as [|g gs] eqn:E; simpl.
    - split; [rewrite E; by exists 0%nat|done].
    - apply Forall_cons_1 in Hs as [Hg _]. split; [by exists 1%nat|]. split; [by eapply Hst|done]. }
  intros c s Hs [HP ->].
  assert (forall n s, (length (sched s) < n)%nat -> within G s -> P (mem s) ->
    exists a s', exchange_loop n lap (field (mem s)) s = Some (a, s') /\
      (exists k, sched s' = drop k (sched s)) /\ Q a (mem s')) as H; [|apply H; auto].
  clear s Hs HP. induction n as [|n IH]; intros s Hn Hs HP; [lia|].
  destruct (Hlap s Hs HP) as (r & s1 & E & [k D] & Hr). simpl.
  unfold mbind, prog_bind. rewrite E. destruct r as [a|o].
  - exists a, s1. split; [done|]. split; [by exists k|done].
  - destruct Hr as (HP1 & -> & Hlt).
    destruct (IH s1 ltac:(lia) (within_drop _ _ _ _ D Hs) HP1) as (a & s2 & E2 & [k2 D2] & HQ).
    exists a, s2. split; [done|]. split; [|done]. exists (k + k2)%nat. by rewrite D2, D, drop_drop.
Qed.

(** An exchange from the value the field has now. *)
Lemma exchange_now G P (field : SegmentHeader -> Z) set (new : Z) s :
  stable G P -> within G s -> P (mem s) ->
  exists r s', compare_exchange field set (field (mem s)) new s = Some (r, s') /\
    (exists k, sched s' = drop k (sched s)) /\
    match r with
    | None => exists h, P h /\ field h = field (mem s) /\ mem s' = set new h
    | Some o => P (mem s') /\ o = field (mem s') /\ (length (sched s') < length (sched s))%nat
    end.
Proof.
  intros Hst Hs HP. unfold compare_exchange, atomic, interfere, within in *.
  destruct (sched s) as [|g gs] eqn:E; simpl.
  - rewrite Z.eqb_refl. eexists _, _. split; [done|]. simpl.
    rewrite E. split; [by exists 0%nat|]. by exists (mem s).
  - apply Forall_cons_1 in Hs as [Hg _]. assert (P (g (mem s))) as HP' by by eapply Hst.
    destruct (Z.eqb_spec (field (g (mem s))) (field (mem s))).
    + eexists _, _. split; [done|]. simpl. split; [by exists 1%nat|]. by exists (g (mem s)).
    + eexists _, _. split; [done|]. simpl. split; [by exists 1%nat|]. split; [done|]. split; [done|]. lia.
Qed.

Lemma triple_load_field G P (field : SegmentHeader -> Z) :
  stable G P -> triple G P (load field) (fun v h => P h /\ v = field h).
Proof. intros. by apply triple_atomic. Qed.

Lemma triple_exchange G P (field : SegmentHeader -> Z) set (current new : Z) :
  stable G P ->
  triple G P (compare_exchange field set current new)
    (fun r h' => match r with
     | None => exists h, P h /\ field h = current /\ h' = set new h
     | Some o => P h' /\ o = field h' /\ o <> current
     end).
Proof.
  intros Hst. apply triple_atomic; [done|]. intros h HP.
  destruct (Z.eqb_spec (field h) current); simpl; eauto.
Qed.

Lemma triple_unwrap G P {A} (x : option A) a :
  x = Some a -> triple G P (unwrap x) (fun r h => P h /\ r = a).
Proof. intros ->. apply triple_ret. auto. Qed.
End Rules.

(** ** State transitions *)

Section Transitions.
Implicit Types (h : SegmentHeader) (m : Metadata).

(** The word decodes: its state byte is a state. *)
Definition valid_word h : Prop := exists m, unpack (metadata h) = Some m.

Definition relink (new_next new_prev : option (option Z)) (s : State) m : Metadata :=
  mkMeta (default (next m) new_next) (default (prev m) new_prev) s (tag m).

Lemma triple_decode G P :
  stable G P -> (forall h, P h -> valid_word h) ->
  triple G P (current ← load metadata; meta ← unwrap (unpack current); mret (current, meta))
    (fun r h => P h /\ r.1 = metadata h /\ unpack r.1 = Some r.2).
Proof.
  intros Hst Hv. eapply triple_bind; [by apply triple_load_field|].
  intros w s Hs [HP ->]. destruct (Hv _ HP) as [m Em].
  eexists _, _. unfold mbind, prog_bind, unwrap. rewrite Em.
  split; [done|]. split; [by exists 0%nat|]. done.
Qed.

(** Decode, test the state, and swap. *)
Lemma triple_swap G P {A} (k : Z -> Metadata -> prog SegmentHeader A) Q :
  stable G P -> (forall h, P h -> valid_word h) ->
  (forall w m, unpack w = Some m -> triple G P (k w m) Q) ->
  triple G P (current ← load metadata; meta ← unwrap (unpack current); k current meta) Q.
Proof.
  intros Hst Hv Hk. eapply triple_bind; [by apply triple_load_field|].
  intros w s Hs [HP ->]. destruct (Hv _ HP) as [m Em].
  unfold mbind at 1, prog_bind, unwrap. rewrite Em. simpl. by apply (Hk _ m).
Qed.

Lemma triple_is_none G P current new (Q : bool -> SegmentHeader -> Prop) :
  stable G P ->
  (forall h, P h -> metadata h = current -> Q true (with_metadata (pack new) h)) ->
  (forall h, P h -> Q false h) ->
  triple G P (r ← compare_exchange_metadata current new; mret (is_none r)) Q.
Proof.
  intros Hst Ht Hf. eapply triple_bind; [by apply triple_exchange|].
  intros [o|]; apply triple_ret; simpl; [naive_solver|].
  intros h' (h & HP & Hw & ->). by apply Ht.
Qed.

Lemma cas_metadata_aux G P e n nx pv :
  stable G P -> (forall h, P h -> valid_word h) ->
  triple G P (cas_metadata e n nx pv) (fun ok h' =>
    if ok then exists h m, P h /\ unpack (metadata h) = Some m /\ state m = e /\
      h' = with_metadata (pack (relink nx pv n m)) h
    else P h').
Proof.
  intros Hst Hv. unfold cas_metadata. apply triple_swap; [done..|].
  intros w m Em. case_bool_decide as Hs; simpl; [|by apply triple_ret].
  apply triple_is_none; [done| |done]. intros h HP Hw. exists h, m. by rewrite Hw.
Qed.

(** The three swaps of the metadata word, against any interference that keeps
    the word decodable: each returns; when it answers [true] the word was, at
    that very moment, in the source state, and the rest of the header is left
    alone; [cas_condemn] stamps a generation the segment had under its
    [Draining] claim. *)
Theorem metadata_swaps G P :
  stable G P -> (forall h, P h -> valid_word h) ->
  (forall e n nx pv, triple G P (cas_metadata e n nx pv) (fun ok h' =>
     if ok then exists h m, P h /\ unpack (metadata h) = Some m /\ state m = e /\
       h' = with_metadata (pack (relink nx pv n m)) h
     else P h')) /\
  triple G P cas_condemn (fun ok h' =>
    if ok then exists h m g, P h /\ unpack (metadata h) = Some m /\ state m = Draining /\
      (exists h0, P h0 /\ g = generation h0) /\
      h' = with_metadata (pack (mkMeta None None AwaitingRelease (u8 (Z.land g 0xFF)))) h
    else P h') /\
  (forall nx pv, triple G P (update_links nx pv) (fun _ h' =>
     exists h m, P h /\ unpack (metadata h) = Some m /\
       h' = with_metadata (pack (relink nx pv (state m) m)) h)).
Proof.
  intros Hst Hv. split; [|split].
  - intros. by apply cas_metadata_aux.
  - unfold cas_condemn. apply triple_swap; [done..|].
    intros w m Em. case_bool_decide as Hs; simpl; [|by apply triple_ret].
    eapply (triple_bind _ _ _ _ (fun g h => P h /\ exists h0, P h0 /\ g = generation h0)).
    { eapply triple_weaken; [by apply triple_load_field|done|]. naive_solver. }
    intros g. apply triple_pure. intros Hg. apply triple_is_none; [done| |done].
    intros h HP Hw. exists h, m, g. by rewrite Hw.
  - intros nx pv. unfold update_links. apply triple_exchange_from; [done|].
    intros s Hs HP. destruct (Hv _ HP) as [m Em].
    unfold update_links_lap, mbind, prog_bind, unwrap. rewrite Em. simpl.
    destruct (exchange_now G P metadata with_metadata
      (pack (relink nx pv (state m) m)) s Hst Hs HP) as (r & s' & E & D & Hr).
    unfold compare_exchange_metadata. unfold relink in E. rewrite E.
    destruct r as [o|]; do 2 eexists; (split; [done|]); (split; [done|]); [done|].
    destruct Hr as (h & HP' & Hw & ->). exists h, m. by rewrite Hw.
Qed.

(** Runs without other threads. *)
Definition seq_run {A} (p : prog SegmentHeader A) h (r : A * SegmentHeader) : Prop :=
  p (mkSt h []) = Some (r.1, mkSt r.2 []).

Lemma seq_run_run {A} (p : prog SegmentHeader A) h r : seq_run p h r -> run p h = Some r.
Proof. unfold seq_run, run. intros ->. by destruct r. Qed.

Lemma seq_ret {A} (a : A) h : seq_run (mret a) h (a, h).
Proof. done. Qed.

Lemma seq_bind {A B} (p : prog SegmentHeader A) (k : A -> prog SegmentHeader B) h a h1 r :
  seq_run p h (a, h1) -> seq_run (k a) h1 r -> seq_run (x ← p; k x) h r.
Proof. unfold seq_run, mbind, prog_bind. intros E ?. by rewrite E. Qed.

Lemma seq_unwrap {A} (x : option A) a h : x = Some a -> seq_run (unwrap x) h (a, h).
Proof. by intros ->. Qed.

Lemma seq_exchange_metadata h new :
  seq_run (compare_exchange_metadata (metadata h) new) h (None, with_metadata (pack new) h).
Proof.
  unfold seq_run, compare_exchange_metadata, compare_exchange, atomic, interfere. cbn [sched mem].
  by rewrite Z.eqb_refl.
Qed.

Lemma seq_load field h : seq_run (load field) h (field h, h).
Proof. done. Qed.

Lemma seq_store set (v : Z) h : seq_run (store set v) h (tt, set v h).
Proof. done. Qed.

Lemma seq_fetch field set f h : seq_run (fetch field set f) h (field h, set (f (field h)) h).
Proof. done. Qed.

Ltac seq_access := first
  [ apply seq_load | apply seq_store | apply seq_fetch
  | apply seq_exchange_metadata | by apply seq_unwrap ].

Ltac seq_step := first [ eapply seq_bind; [seq_access|] | seq_access | apply seq_ret ].

Definition clear_links (s : State) (t : Z) h : SegmentHeader :=
  with_metadata (pack (mkMeta None None s t)) h.

Definition reset integrity h : SegmentHeader :=
  with_live_items 0 (with_live_bytes (initial_offset integrity)
    (with_write_offset (initial_offset integrity) (with_dead_bytes 0 (with_dead_items 0 h)))).

Definition bumped h : SegmentHeader := with_generation (u16 (generation h + 1)) h.

Lemma seq_cas h m e n :
  unpack (metadata h) = Some m ->
  seq_run (cas_metadata e n (Some None) (Some None)) h
    (if decide (state m = e) then (true, clear_links n (tag m) h) else (false, h)).
Proof.
  intros Em. unfold cas_metadata. do 2 seq_step.
  case_bool_decide; case_decide; try done; cbn [negb]; repeat seq_step.
Qed.

(** A run without other threads, from a decodable word: every lifecycle
    operation succeeds in its source states only, clears the links, keeps or
    stamps the tag, and the generation advances exactly where a used
    incarnation ends. *)
Theorem lifecycle_sequential integrity now h m :
  unpack (metadata h) = Some m ->
  run (try_reserve integrity now) h = Some
    (if decide (state m = Free)
     then (true, with_merge_at now (with_create_at now (reset integrity (clear_links Reserved (tag m) h))))
     else (false, h)) /\
  run try_release h = Some
    (if decide (state m = Reserved \/ state m = Linking)
     then (true, clear_links Free (tag m) h) else (false, h)) /\
  run try_release_drained h = Some
    (if decide (state m = Draining)
     then (true, bumped (clear_links Free (tag m) h)) else (false, h)) /\
  run cas_condemn h = Some
    (if decide (state m = Draining)
     then (true, clear_links AwaitingRelease (u8 (Z.land (generation h) 0xFF)) h)
     else (false, h)) /\
  run try_release_condemned h = Some
    (if decide (state m = AwaitingRelease)
     then (true, bumped (clear_links Free 0 h)) else (false, h)).
Proof.
  intros Em. split_and!; apply seq_run_run.
  - unfold try_reserve. pose proof (seq_cas h m Free Reserved Em) as H.
    case_decide; (eapply seq_bind; [exact H|]); [|apply seq_ret].
    unfold reset_write_stats. repeat seq_step.
  - unfold try_release. pose proof (seq_cas h m Reserved Free Em) as H.
    pose proof (seq_cas h m Linking Free Em) as H'.
    destruct (decide (state m = Reserved)).
    { rewrite decide_True by auto. eapply seq_bind; [exact H|]. apply seq_ret. }
    eapply seq_bind; [exact H|]. repeat case_decide; done || tauto.
  - unfold try_release_drained. pose proof (seq_cas h m Draining Free Em) as H.
    case_decide; (eapply seq_bind; [exact H|]); repeat seq_step.
  - unfold cas_condemn. do 2 seq_step.
    case_bool_decide; case_decide; try done; cbn [negb]; repeat seq_step.
  - unfold try_release_condemned. do 2 seq_step.
    case_bool_decide; case_decide; try done; cbn [negb];
      repeat (seq_step; cbn [is_none]); done.
Qed.
End Transitions.

(** ** Space reservation *)

Section Reserve.
Context (capacity : Z).
Implicit Types (h : SegmentHeader) (size : Z) (sizes : list Z).

(** What another thread's call of [try_reserve_space] does to the header, at
    the moment it takes effect. *)
Definition reservation size h : SegmentHeader :=
  if write_offset h + size <=? capacity then with_write_offset (write_offset h + size) h else h.

Definition others sizes : list (SegmentHeader -> SegmentHeader) := map reservation sizes.
Definition after h sizes : SegmentHeader := foldl (fun h size => reservation size h) h sizes.

(** The ranges a run of such calls is granted, from the offset [o]. *)
Fixpoint grants (o : Z) sizes : list (Z * Z) :=
  match sizes with
  | [] => []
  | size :: sizes =>
      if o + size <=? capacity then (o, size) :: grants (o + size) sizes else grants o sizes
  end.

(** The ranges follow one another without gap or overlap from [lo] to [hi]. *)
Fixpoint tiles (lo : Z) (ranges : list (Z * Z)) (hi : Z) : Prop :=
  match ranges with
  | [] => lo = hi
  | (o, size) :: ranges => o = lo /\ 0 < size /\ tiles (o + size) ranges hi
  end.

Lemma tiles_app lo l1 mid l2 hi : tiles lo l1 mid -> tiles mid l2 hi -> tiles lo (l1 ++ l2) hi.
Proof. revert lo. induction l1 as [|[o s] l1 IH]; simpl; [by intros lo ->|naive_solver]. Qed.

Lemma grants_tiles h sizes :
  Forall (fun size => 0 < size) sizes ->
  tiles (write_offset h) (grants (write_offset h) sizes)
    (write_offset (after h sizes)).
Proof.
  intros Hs. revert h. induction Hs as [|size sizes Hp Hs IH]; intros h; simpl; [done|].
  unfold reservation. case_bool; [|apply IH].
  split; [done|]. split; [done|]. apply (IH (with_write_offset _ h)).
Qed.

Lemma after_app h l1 l2 : after h (l1 ++ l2) = after (after h l1) l2.
Proof. apply foldl_app. Qed.

Lemma reservations_bound h sizes :
  write_offset h <= capacity ->
  write_offset (after h sizes) <= capacity.
Proof.
  revert h. induction sizes as [|size sizes IH]; intros h Hh; simpl; [done|].
  apply IH. unfold reservation. case_bool; [|done]. done.
Qed.

Lemma reserve_lap_eq size h fs :
  - 2 ^ 31 <= write_offset h -> 0 < size -> capacity < 2 ^ 31 ->
  reserve_lap size capacity (write_offset h) (mkSt h fs) =
    if capacity <? write_offset h + size then Some (Return None, mkSt h fs)
    else
      let s := interfere (mkSt h fs) in
      if write_offset (mem s) =? write_offset h
      then Some (Return (Some (write_offset h)),
             mkSt (with_write_offset (write_offset h + size) (mem s)) (sched s))
      else Some (Again (write_offset (mem s)), s).
Proof.
  intros Hl Hp Hc. unfold reserve_lap, mbind, prog_bind.
  rewrite (proj2 (Z.leb_le (- 2 ^ 31) (write_offset h + size))) by lia. rewrite andb_true_l.
  destruct (Z.ltb_spec (write_offset h + size) (2 ^ 31)), (Z.ltb_spec capacity (write_offset h + size));
    try done; [|lia].
  cbn [negb]. unfold compare_exchange, atomic. cbv zeta.
  destruct (interfere (mkSt h fs)) as [h' fs']. cbn [mem sched].
  by destruct (write_offset h' =? write_offset h).
Qed.

(** The loop returns, having let some of the calls of the other threads in
    first: its own call takes effect after those. *)
Lemma reserve_loop_spec size h sizes n :
  0 < size -> write_offset h <= capacity -> - 2 ^ 31 <= write_offset h -> capacity < 2 ^ 31 ->
  Forall (fun size => 0 < size) sizes -> (length sizes < n)%nat ->
  exists r before rest, sizes = before ++ rest /\
    exchange_loop n (reserve_lap size capacity) (write_offset h) (mkSt h (others sizes)) =
      Some (r, mkSt (reservation size (after h before)) (others rest)) /\
    r = (if write_offset (after h before) + size <=? capacity
         then Some (write_offset (after h before)) else None).
Proof.
  intros Hp. revert h sizes. induction n as [|n IH]; intros h sizes Hh Hl Hc Hs Hn; [lia|].
  cbn [exchange_loop]. unfold mbind, prog_bind. rewrite reserve_lap_eq by done.
  destruct (Z.ltb_spec capacity (write_offset h + size)).
  { exists None, [], sizes. split; [done|]. unfold reservation. cbn [after foldl].
    by rewrite (proj2 (Z.leb_gt _ _)) by lia. }
  destruct sizes as [|sz sizes]; cbn [others map interfere sched mem].
  { rewrite Z.eqb_refl. exists (Some (write_offset h)), [], []. split; [done|].
    unfold reservation. cbn [after foldl]. by rewrite (proj2 (Z.leb_le _ _)) by lia. }
  apply Forall_cons_1 in Hs as [Hsz Hs].
  destruct (Z.eqb_spec (write_offset (reservation sz h)) (write_offset h)) as [E|E].
  - exists (Some (write_offset h)), [sz], sizes. split; [done|]. cbn [after foldl].
    assert (reservation size (reservation sz h) =
      with_write_offset (write_offset h + size) (reservation sz h)) as ->.
    { unfold reservation at 1. rewrite E. by rewrite (proj2 (Z.leb_le _ _)) by lia. }
    rewrite E. by rewrite (proj2 (Z.leb_le (write_offset h + size) capacity)) by lia.
  - assert (write_offset (reservation sz h) <= capacity) by apply (reservations_bound h [sz] Hh).
    assert (- 2 ^ 31 <= write_offset (reservation sz h))
      by (unfold reservation; case_bool; simpl; lia).
    destruct (IH (reservation sz h) sizes) as (r & before & rest & -> & E' & ->);
      try done; [simpl in Hn; lia|].
    eexists _, (sz :: before), rest. split; [done|]. split; [exact E'|]. done.
Qed.

(** C26. [try_reserve_space] against any number of concurrent calls of itself: it
    returns, and takes effect at one point among them; it grants a range
    exactly when the space left at that point suffices, and the ranges granted
    to all the calls tile the segment, within its capacity. *)
Theorem try_reserve_space_tiles size h sizes :
  0 < size -> - 2 ^ 31 <= write_offset h <= capacity -> capacity < 2 ^ 31 ->
  Forall (fun size => 0 < size) sizes ->
  exists before rest r h', sizes = before ++ rest /\
    try_reserve_space size capacity (mkSt h (others sizes)) = Some (r, mkSt h' (others rest)) /\
    let o := write_offset (after h before) in
    let own := if o + size <=? capacity then [(o, size)] else [] in
    let hi := write_offset (after h' rest) in
    r = head (fst <$> own) /\ hi <= capacity /\
    tiles (write_offset h) (grants (write_offset h) before ++ own ++
      grants (write_offset h') rest) hi.
Proof.
  intros Hp [Hl Hh] Hc Hs. unfold try_reserve_space, exchange_from, mbind, prog_bind, load, atomic.
  assert (exists b0 rest0 h0, sizes = b0 ++ rest0 /\ h0 = after h b0 /\
    interfere (mkSt h (others sizes)) = mkSt h0 (others rest0)) as (b0 & rest0 & h0 & -> & Eh0 & ->).
  { destruct sizes as [|sz sizes]; [by exists [], [], h|by exists [sz], sizes, (reservation sz h)]. }
  apply Forall_app in Hs as [Hb0 Hr0].
  assert (write_offset h0 <= capacity) by (rewrite Eh0; by apply reservations_bound).
  assert (- 2 ^ 31 <= write_offset h0) as Hl0.
  { rewrite Eh0. clear - Hl Hb0. revert h Hl.
    induction Hb0 as [|s l Hs Hl' IH]; intros h Hl; simpl; [done|].
    apply IH. unfold reservation. case_bool; simpl; lia. }
  cbn [mem sched]. unfold others at 1. rewrite length_map.
  destruct (reserve_loop_spec size h0 rest0 (S (length rest0))) as (r & before & rest & -> & E & Er);
    try done; [lia|].
  apply Forall_app in Hr0 as [Hbf Hrest].
  exists (b0 ++ before), rest, r, (reservation size (after h0 before)).
  rewrite E. split; [by rewrite app_assoc|]. split; [done|]. rewrite after_app, <- Eh0.
  assert (write_offset (after h0 before) <= capacity) by by apply reservations_bound.
  cbv zeta. split; [rewrite Er; by case_bool|]. split.
  - apply reservations_bound. unfold reservation. case_bool; done.
  - assert (tiles (write_offset h) (grants (write_offset h) (b0 ++ before))
      (write_offset (after h0 before))) as Ht.
    { rewrite Eh0, <- after_app. apply grants_tiles. by apply Forall_app. }
    eapply tiles_app; [exact Ht|]. eapply tiles_app; [|by apply grants_tiles].
    unfold reservation. by case_bool.
Qed.
End Reserve.

Module HeaderDemo.
Lemma metadata_swaps_witness :
  let P := fun h => metadata h = pack (mkMeta None None Live 0) in
  (forall e n nx pv, triple eq P (cas_metadata e n nx pv) (fun ok h' =>
     if ok then exists h m, P h /\ unpack (metadata h) = Some m /\ state m = e /\
       h' = with_metadata (pack (relink nx pv n m)) h
     else P h')) /\
  triple eq P cas_condemn (fun ok h' =>
    if ok then exists h m g, P h /\ unpack (metadata h) = Some m /\ state m = Draining /\
      (exists h0, P h0 /\ g = generation h0) /\
      h' = with_metadata (pack (mkMeta None None AwaitingRelease (u8 (Z.land g 0xFF)))) h
    else P h') /\
  (forall nx pv, triple eq P (update_links nx pv) (fun _ h' =>
     exists h m, P h /\ unpack (metadata h) = Some m /\
       h' = with_metadata (pack (relink nx pv (state m) m)) h)).
Proof.
  apply metadata_swaps; [apply stable_eq|]. intros h E. exists (mkMeta None None Live 0).
  rewrite E. by vm_compute.
Defined.

Lemma lifecycle_sequential_witness :
  let h := with_metadata (pack (mkMeta (Some 4) (Some 2) Draining 0)) (new true 3) in
  run try_release_drained h = Some (true, bumped (clear_links Free 0 h)) /\
  run try_release_condemned h = Some (false, h).
Proof.
  intros h. pose proof (lifecycle_sequential true 7 h (mkMeta (Some 4) (Some 2) Draining 0)) as H.
  destruct H as (_ & _ & H3 & _ & H5); [by vm_compute|]. split; [exact H3|exact H5].
Defined.

Lemma try_reserve_space_tiles_witness :
  exists before rest r h', [24; 4096; 16] = before ++ rest /\
    try_reserve_space 64 4096 (mkSt (new true 3) (others 4096 [24; 4096; 16])) =
      Some (r, mkSt h' (others 4096 rest)) /\
    let o := write_offset (after 4096 (new true 3) before) in
    let own := if o + 64 <=? 4096 then [(o, 64)] else [] in
    let hi := write_offset (after 4096 h' rest) in
    r = head (fst <$> own) /\ hi <= 4096 /\
    tiles (write_offset (new true 3)) (grants 4096 (write_offset (new true 3)) before ++ own ++
      grants 4096 (write_offset h') rest) hi.
Proof.
  apply (try_reserve_space_tiles 4096 64 (new true 3) [24; 4096; 16]).
  - done.
  - vm_compute. intuition congruence.
  - done.
  - by repeat constructor.
Defined.
End HeaderDemo.
