(* ===== verification/F64.v ===== *)
(** * [f64]

    The double-precision arithmetic of the source, on the Standard Library's
    executable specification of IEEE 754 (53 bits of precision, round to
    nearest even): what [+], [*], [/] and the comparisons of an [f64] compute,
    NaN and infinities included, and Rust's casts. *)
From S2P Require Import Prelude.
From Stdlib Require Import Floats.SpecFloat.

Module F64.
Definition f64 : Type := spec_float.

Definition prec : Z := 53.
Definition emax : Z := 1024.

(** [n as f64]. *)
Definition of_Z (n : Z) : f64 := binary_normalize prec emax n 0 false.

Definition add : f64 -> f64 -> f64 := SFadd prec emax.
Definition sub : f64 -> f64 -> f64 := SFsub prec emax.
Definition mul : f64 -> f64 -> f64 := SFmul prec emax.
Definition div : f64 -> f64 -> f64 := SFdiv prec emax.
Definition le : f64 -> f64 -> bool := SFleb.
Definition lt : f64 -> f64 -> bool := SFltb.

Definition is_nan (x : f64) : bool :=
  match x with
  | S754_nan => true
  | _ => false
  end.

(** [f64::max]: a NaN operand is ignored. *)
Definition max (x y : f64) : f64 :=
  if is_nan x then y
  else if is_nan y then x
  else if SFltb x y then y else x.

(** [x.floor() as i32]: the cast saturates, and sends NaN to 0. *)
Definition I32_MIN : Z := - 2 ^ 31.
Definition I32_MAX : Z := 2 ^ 31 - 1.

(** A cast to the integers from [lo] to [hi]; [to_int m e] is the integer that
    the rounding makes of [m * 2 ^ e]. *)
Definition cast (lo hi : Z) (to_int : Z -> Z -> Z) (x : f64) : Z :=
  match x with
  | S754_zero _ | S754_nan => 0
  | S754_infinity true => lo
  | S754_infinity false => hi
  | S754_finite s m e =>
      Z.max lo (Z.min (to_int (if s then Z.neg m else Z.pos m) e) hi)
  end.

Definition floor_as_i32 : f64 -> Z :=
  cast I32_MIN I32_MAX (fun m e => if 0 <=? e then m * 2 ^ e else m / 2 ^ (- e)).

(** [x as i32] truncates. *)
Definition as_i32 : f64 -> Z :=
  cast I32_MIN I32_MAX (fun m e => if 0 <=? e then m * 2 ^ e else Z.quot m (2 ^ (- e))).

(** [x.round() as u32]: halves go away from zero. *)
Definition round_as_u32 : f64 -> Z :=
  cast 0 (2 ^ 32 - 1) (fun m e =>
    if 0 <=? e then m * 2 ^ e
    else Z.quot (2 * m + Z.sgn m * 2 ^ (- e)) (2 ^ (- e + 1))).

(** [x.ceil() as usize] *)
Definition ceil_as_u64 : f64 -> Z :=
  cast 0 (2 ^ 64 - 1) (fun m e => if 0 <=? e then m * 2 ^ e else - ((- m) / 2 ^ (- e))).

(** Decimal literals: the quotient of two exact integers, rounded once. *)
Definition literal (num den : Z) : f64 := div (of_Z num) (of_Z den).

Lemma floor_as_i32_range x : I32_MIN <= floor_as_i32 x <= I32_MAX.
Proof. unfold floor_as_i32, cast, I32_MIN, I32_MAX. destruct x as [|[]| |]; lia. Qed.

(** ** Integers and powers of two are exact *)

Lemma digits_bounds m : 2 ^ (Z.pos (digits2_pos m) - 1) <= Z.pos m < 2 ^ Z.pos (digits2_pos m).
Proof.
  induction m as [m IH|m IH|]; cbn [digits2_pos]; [..|done].
  all: rewrite Pos2Z.inj_succ, Z.pow_succ_r by lia.
  all: replace (Z.succ (Z.pos (digits2_pos m)) - 1) with (Z.succ (Z.pos (digits2_pos m) - 1)) by lia.
  all: rewrite Z.pow_succ_r by lia; lia.
Qed.

Lemma digits_eq m k : 2 ^ (k - 1) <= Z.pos m < 2 ^ k -> Z.pos (digits2_pos m) = k.
Proof.
  intros Hm. pose proof (digits_bounds m) as Hd.
  assert (0 <= k). { destruct (Z.le_gt_cases 0 k) as [|Hk]; [done|]. pose proof (Z.pow_neg_r 2 k Hk). lia. }
  set (d := Z.pos (digits2_pos m)) in *.
  assert (k - 1 < d) by (apply (Z.pow_lt_mono_r_iff 2); lia).
  assert (d - 1 < k) by (apply (Z.pow_lt_mono_r_iff 2); lia). lia.
Qed.

Lemma iter_xO m d : Z.pos (Pos.iter xO m d) = Z.pos m * 2 ^ Z.pos d.
Proof.
  induction d as [|d IH] using Pos.peano_ind; [cbn; lia|].
  rewrite Pos.iter_succ, Pos2Z.inj_succ, Z.pow_succ_r by lia. lia.
Qed.

(** A significand of full length rounds to itself, and its double to it. *)
Definition full (m : positive) : Prop := Z.pos (digits2_pos m) = prec.

Lemma round_full s m e :
  full m -> -1074 <= e <= 971 -> binary_round_aux prec emax s (Z.pos m) e loc_Exact = S754_finite s m e.
Proof.
  intros Hm He. assert (forall l, shr_fexp prec emax (Z.pos m) e l = (shr_record_of_loc (Z.pos m) l, e)) as Hs.
  { intros l. unfold shr_fexp, fexp, emin, Zdigits2. unfold full, prec in *. unfold emax. rewrite Hm.
    by replace (Z.max _ _ - e) with 0 by lia. }
  unfold binary_round_aux. rewrite Hs. cbn [shr_record_of_loc shr_m loc_of_shr_record round_nearest_even].
  rewrite Hs. cbn [shr_record_of_loc shr_m]. unfold emax, prec. by rewrite (proj2 (Z.leb_le _ _)) by lia.
Qed.

Lemma round_double s m e :
  full m -> -1075 <= e <= 970 -> binary_round_aux prec emax s (Z.pos m~0) e loc_Exact = S754_finite s m (e + 1).
Proof.
  intros Hm He. rewrite <- (round_full s m (e + 1) Hm) by lia. unfold binary_round_aux at 1.
  assert (shr_fexp prec emax (Z.pos m~0) e loc_Exact = (shr_record_of_loc (Z.pos m) loc_Exact, e + 1)) as ->.
  { unfold shr_fexp, fexp, emin, Zdigits2. cbn [digits2_pos]. rewrite Pos2Z.inj_succ. unfold full, prec in *. rewrite Hm.
    unfold emax. by replace (Z.max _ _ - e) with 1 by lia. }
  cbn [shr_record_of_loc shr_m loc_of_shr_record round_nearest_even]. unfold binary_round_aux.
  assert (shr_fexp prec emax (Z.pos m) (e + 1) loc_Exact = (shr_record_of_loc (Z.pos m) loc_Exact, e + 1)) as ->.
  { unfold shr_fexp, fexp, emin, Zdigits2. unfold full, prec in *. rewrite Hm.
    unfold emax. by replace (Z.max _ _ - (e + 1)) with 0 by lia. }
  cbn [shr_record_of_loc shr_m loc_of_shr_record round_nearest_even].
  assert (shr_fexp prec emax (Z.pos m) (e + 1) loc_Exact = (shr_record_of_loc (Z.pos m) loc_Exact, e + 1)) as ->.
  { unfold shr_fexp, fexp, emin, Zdigits2. unfold full, prec in *. rewrite Hm.
    unfold emax. by replace (Z.max _ _ - (e + 1)) with 0 by lia. }
  done.
Qed.

(** An integer below [2 ^ 53] is represented exactly. *)
Lemma of_Z_exact n :
  0 < n < 2 ^ 53 ->
  exists m e, of_Z n = S754_finite false m e /\ full m /\ -52 <= e <= 0 /\ Z.pos m = n * 2 ^ (- e).
Proof.
  intros Hn. destruct n as [|n|]; [lia| |lia]. unfold of_Z, binary_normalize, binary_round.
  pose proof (digits_bounds n) as Hd. set (d := Z.pos (digits2_pos n)) in *.
  assert (0 <= d - 1 < 53) by (split; [lia|apply (Z.pow_lt_mono_r_iff 2); lia]).
  replace (fexp prec emax (d + 0)) with (d - 53) by (unfold fexp, emin, prec, emax; lia).
  unfold shl_align. rewrite Z.sub_0_r.
  assert (exists m, (match d - 53 with Z.neg d0 => (Pos.iter xO n d0, d - 53) | _ => (n, 0) end) = (m, d - 53) /\
    Z.pos m = Z.pos n * 2 ^ (- (d - 53))) as (m & -> & Em).
  { destruct (d - 53) as [|k|k] eqn:Ek; [|lia|].
    - exists n. split; [done|]. cbn. lia.
    - eexists. split; [done|]. apply iter_xO. }
  assert (full m) as Hm.
  { apply digits_eq. rewrite Em. unfold prec.
    replace (2 ^ (53 - 1)) with (2 ^ (d - 1) * 2 ^ (- (d - 53))) by (rewrite <- Z.pow_add_r by lia; f_equal; lia).
    replace (2 ^ 53) with (2 ^ d * 2 ^ (- (d - 53))) by (rewrite <- Z.pow_add_r by lia; f_equal; lia).
    pose proof (Z.pow_pos_nonneg 2 (- (d - 53))). nia. }
  exists m, (d - 53). rewrite round_full by (done || lia). split; [done|]. split; [done|]. split; [lia|done].
Qed.

(** [(n as f64 / 2^k as f64).ceil() as usize], for the page size. *)
Lemma ceil_quotient n :
  0 < n < 2 ^ 53 -> ceil_as_u64 (div (of_Z n) (of_Z 4096)) = (n + 4095) / 4096.
Proof.
  intros Hn. destruct (of_Z_exact n Hn) as (m & e & -> & Hm & He & Em).
  assert (of_Z 4096 = S754_finite false (2 ^ 52) (-40)) as -> by by vm_compute.
  assert (SFdiv_core_binary prec emax (Z.pos m) e (Z.pos (2 ^ 52)) (-40) = (Z.pos m~0, e - 13, loc_Exact)) as Ed.
  { unfold SFdiv_core_binary, Zdigits2. unfold full, prec in *. rewrite Hm.
    change (Z.pos (digits2_pos (2 ^ 52))) with 53. unfold fexp, emin, emax.
    replace (Z.min _ _) with (e - 13) by lia. replace (e - -40 - (e - 13)) with 53 by lia. cbn match.
    rewrite Z.shiftl_mul_pow2 by lia.
    replace (Z.pos m * 2 ^ 53) with (Z.pos m~0 * Z.pos (2 ^ 52)) by (rewrite Pos2Z.inj_xO; lia).
    pose proof (Z.div_mul (Z.pos m~0) (Z.pos (2 ^ 52)) ltac:(done)) as Eq.
    pose proof (Z.mod_mul (Z.pos m~0) (Z.pos (2 ^ 52)) ltac:(done)) as Er.
    unfold Z.div, Z.modulo in Eq, Er. destruct (Z.div_eucl _ _) as [q r]. by subst. }
  unfold div, SFdiv. rewrite Ed. rewrite round_double by (done || lia).
  unfold ceil_as_u64, cast. cbn [xorb]. replace (e - 13 + 1) with (e - 12) by lia.
  rewrite (proj2 (Z.leb_gt _ _)) by lia. rewrite Em.
  assert (- (- (n * 2 ^ (- e)) / 2 ^ (- (e - 12))) = (n + 4095) / 4096) as ->.
  { replace (2 ^ (- (e - 12))) with (4096 * 2 ^ (- e)) by (change 4096 with (2 ^ 12); rewrite <- Z.pow_add_r by lia; f_equal; lia).
    rewrite <- Z.mul_opp_l, Z.div_mul_cancel_r by (lia || (apply Z.pow_nonzero; lia)). dm. }
  assert (0 <= (n + 4095) / 4096 <= n) by dm. lia.
Qed.

Example arithmetic :
  floor_as_i32 (mul (of_Z 1000) (literal 1 3)) = 333 /\
  floor_as_i32 (sub (of_Z 0) (literal 1 2)) = -1 /\
  le (add (literal 1 10) (literal 2 10)) (literal 3 10) = false /\
  max (div (of_Z 0) (of_Z 0)) (literal 1 4) = literal 1 4 /\
  floor_as_i32 (div (of_Z 1) (of_Z 0)) = 2 ^ 31 - 1 /\
  as_i32 (literal (-7) 2) = -3 /\ round_as_u32 (literal 5 2) = 3 /\ round_as_u32 (literal 1 10) = 0.
Proof. by vm_compute. Qed.
End F64.
