(* ===== verification/Segment.v ===== *)
(** * Segments

    [Segment] of [segments/segment.rs]: a header and the bytes of the items
    appended behind it, and the scans that walk those items under a drain
    claim: [clear], [prune], [copy_into] and [check_integrity], with the
    S3-FIFO promotion and ghost scans of [segments/segments.rs], which walk a
    segment the same way. The scans own the segment (the claim excludes writers
    and removers, [PinThms.drain_exclusive]), so header operations are run
    alone, and the hashtable is any [HashIface.Hashtable]. [integrity] is the
    cargo feature; with [debug_assertions] the [debug_assert!]s are checked. A
    panic, or a numeric item left locked for good, is [None]. *)
From S2P Require Import Prelude Packing Atomics Table F64 KvItem SegState SegHeader HashIface.

(** [SegmentsError]; the [io::Error] of [Mmap] is left out. *)
Inductive SegmentsError :=
| BadSegmentId
| RelinkFailure
| NoEvictableSegments
| EvictFailure
| SegmentTooSmall
| SegmentSizeUnaligned
| InvalidHeapSize (heap_size segment_size : Z)
| TooManySegments (segments limit : Z)
| SegmentTooLarge (segment_size limit : Z)
| Mmap.

Record Segment := mkSegment {
  header : SegmentHeader;
  data : bytes
}.

(** A header method, run by the owner of the segment. *)
Definition on_header {A} (p : prog SegmentHeader A) (s : Segment) : option (A * Segment) :=
  '(a, h) ← run p (header s);
  Some (a, mkSegment h (data s)).

Definition write_at (off : Z) (bs : bytes) (s : Segment) : Segment :=
  mkSegment (header s) (blit off bs (data s)).

Definition SEG_MAGIC : Z := 0xBADC0FFEEBADCAFE.

(** How a lap of a [while] over the items ends: at the next item, or by
    leaving the loop with a result. *)
Inductive Flow (St R : Type) :=
| Continue (offset : Z) (st : St)
| Stop (st : St) (r : R).
Arguments Continue {St R}.
Arguments Stop {St R}.

(** [while offset <= max_offset { body }]; [r] is the result of a loop that
    runs to its end. *)
Fixpoint scan {St R} (fuel : nat) (max_offset : Z) (body : Z -> St -> option (Flow St R))
    (r : R) (offset : Z) (st : St) : option (St * R) :=
  match fuel with
  | O => None
  | S fuel =>
      if max_offset <? offset then Some (st, r)
      else
        flow ← body offset st;
        match flow with
        | Continue offset st => scan fuel max_offset body r offset st
        | Stop st r => Some (st, r)
        end
  end.

Section Segment.
Context (integrity debug_assertions : bool).
Context {H : Type} `{Hashtable H}.
Implicit Types (s src dst : Segment) (h : H) (off : Z).

Definition guard (b : bool) : option unit := if b then Some tt else None.

Definition debug_assert (b : bool) : option unit := guard (negb debug_assertions || b).

(** [init]. *)
Definition init s : option Segment :=
  let s := if integrity then write_at 0 (be_bytes 8 SEG_MAGIC) s else s in
  '(_, s) ← on_header (SegHeader.init integrity) s;
  Some s.

Definition magic s : Z := be_value (slice 0 8 (data s)).

(** Whether its [assert_eq!] holds. *)
Definition check_magic s : bool := if integrity then magic s =? SEG_MAGIC else true.

(** The offset the scans start at, behind the magic bytes. *)
Definition first_offset : Z := if integrity then 8 else 0.

Definition max_item_offset s : Z :=
  let wo := write_offset (header s) in
  if ITEM_HDR_SIZE integrity <=? wo then Z.min wo (blen (data s)) - ITEM_HDR_SIZE integrity
  else first_offset.

(** [RawItem::from_ptr]: the bytes from [off] on. *)
Definition item_at s off : bytes := drop (Z.to_nat off) (data s).

Definition get_item_at off s : option bytes :=
  _ ← guard (off <=? max_item_offset s);
  Some (item_at s off).

Definition remove_item_at off s : option Segment :=
  item ← get_item_at off s;
  let item_size := size integrity item in
  _ ← guard (check_magic s);
  '(_, s) ← on_header (decr_item item_size) s;
  '(_, s) ← on_header (incr_dead_item item_size) s;
  _ ← guard (0 <=? live_bytes (header s));
  _ ← guard (0 <=? live_items (header s));
  _ ← guard (check_magic s);
  Some s.

(** The location an item of this incarnation was published under. *)
Definition location s off : Z :=
  Location.pack_location (id (header s)) (generation (header s)) off.

(** Enough laps for any scan: every item is at least a byte long. *)
Definition laps_of s : nat := S (length (data s)).

(** ** [clear] *)

Definition clear_item off (st : Segment * H) : option (Flow (Segment * H) unit) :=
  let '(s, h) := st in
  item ← get_item_at off s;
  if (klen integrity item =? 0) && (live_items (header s) =? 0) then Some (Stop (s, h) tt)
  else
    _ ← guard (KvItem.check_magic integrity item);
    _ ← debug_assert (0 <? klen integrity item);
    let key := key integrity item in
    let loc := location s off in
    let deleted := is_none (get_item_frequency h key loc) in
    '(s, h) ← (
      if deleted then Some (s, h)
      else
        let '(removed, h) := remove h key loc in
        if removed : bool then s ← remove_item_at off s; Some (s, h) else Some (s, h));
    _ ← debug_assert (0 <=? live_items (header s));
    _ ← debug_assert (0 <=? live_bytes (header s));
    Some (Continue (off + size integrity item) (s, h)).

Definition assert_draining s : option unit :=
  if debug_assertions then
    '(st, _) ← on_header read_state s; guard (bool_decide (st = Draining))
  else Some tt.

Definition clear s h : option (Segment * H) :=
  _ ← assert_draining s;
  '(s, h, _) ← scan (laps_of s) (max_item_offset s) clear_item tt first_offset (s, h);
  '(_, s) ← on_header (store with_write_offset (live_bytes (header s))) s;
  Some (s, h).

(** ** Relocation *)

(** The copy of an item and the exchange of its location, under the item's
    version lock if it is numeric: whether it was relinked. *)
Definition copy_and_relink src dst h off write_offset (relink : RelinkFreq)
    : option (bool * Segment * Segment * H) :=
  let item := item_at src off in
  let item_size := size integrity item in
  let old_loc := location src off in
  let new_loc := location dst write_offset in
  match lock_numeric_version integrity item with
  | Spins => None
  | NumericOk (version, locked) =>
      let src := write_at off locked src in
      let dst := write_at write_offset (slice 0 item_size (item_at src off)) dst in
      copy ← stamp_relocated_copy integrity version (item_at dst write_offset);
      let dst := write_at write_offset copy dst in
      let '(relinked, h) := cas_location h (key integrity (item_at src off)) old_loc new_loc relink in
      let src := write_at off (guard_drop integrity version (item_at src off)) src in
      Some (relinked, src, dst, h)
  | NotNumericError =>
      let dst := write_at write_offset (slice 0 item_size item) dst in
      let '(relinked, h) := cas_location h (key integrity item) old_loc new_loc relink in
      Some (relinked, src, dst, h)
  end.

(** The accounting of a relinked item: out of the source, where it is not
    dead, and into the target. *)
Definition account_moved src dst off write_offset item_size : option (Segment * Segment) :=
  src ← remove_item_at off src;
  '(_, src) ← on_header (decr_dead_item item_size) src;
  '(_, dst) ← on_header incr_live_items dst;
  '(_, dst) ← on_header (incr_live_bytes item_size) dst;
  '(_, dst) ← on_header (store with_write_offset (write_offset + item_size)) dst;
  Some (src, dst).

Definition CopyResult : Type := unit + SegmentsError.

Definition copy_item off (st : Segment * Segment * H)
    : option (Flow (Segment * Segment * H) CopyResult) :=
  let '(src, target, h) := st in
  item ← get_item_at off src;
  if (klen integrity item =? 0) && (live_items (header src) =? 0)
  then Some (Stop (src, target, h) (inl tt))
  else
    _ ← guard (KvItem.check_magic integrity item);
    let item_size := size integrity item in
    let write_offset := write_offset (header target) in
    let deleted := is_deleted integrity item
                   || is_none (get_item_frequency h (key integrity item) (location src off)) in
    if deleted || (blen (data target) <=? write_offset + item_size)
    then Some (Continue (off + item_size) (src, target, h))
    else
      '(relinked, src, target, h) ← copy_and_relink src target h off write_offset Preserve;
      if relinked : bool then
        '(src, target) ← account_moved src target off write_offset item_size;
        Some (Continue (off + item_size) (src, target, h))
      else Some (Stop (src, target, h) (inr RelinkFailure)).

Definition copy_into src target h : option (Segment * Segment * H * CopyResult) :=
  scan (laps_of src) (max_item_offset src) copy_item (inl tt) first_offset (src, target, h).

(** [Segments::s3fifo_promote_from], on the pair of segments. *)
Definition promote_item (seg_size : Z) (relink : RelinkFreq) off (st : Segment * Segment * H)
    : option (Flow (Segment * Segment * H) unit) :=
  let '(src, dst, h) := st in
  item ← get_item_at off src;
  if (klen integrity item =? 0) && (live_items (header src) =? 0)
  then Some (Stop (src, dst, h) tt)
  else
    _ ← guard (KvItem.check_magic integrity item);
    let item_size := size integrity item in
    let next := Some (Continue (off + item_size) (src, dst, h)) in
    if is_deleted integrity item then next
    else
      let freq := default 0 (get_item_frequency h (key integrity item) (location src off)) in
      if freq =? 0 then next
      else
        let write_offset := write_offset (header dst) in
        if write_offset + item_size <? seg_size then
          '(relinked, src, dst, h) ← copy_and_relink src dst h off write_offset relink;
          '(src, dst) ← (if relinked : bool then account_moved src dst off write_offset item_size
                         else Some (src, dst));
          Some (Continue (off + item_size) (src, dst, h))
        else next.

Definition s3fifo_promote_from (seg_size : Z) src dst h (relink : RelinkFreq)
    : option (Segment * Segment * H) :=
  '(src, dst, h, _) ← scan (laps_of src) (max_item_offset src) (promote_item seg_size relink)
                        tt first_offset (src, dst, h);
  Some (src, dst, h).

(** ** [s3fifo_ghost_remaining] *)

(** The keys whose hashes go to the ghost queue, in order. *)
Definition ghost_item s h off (keys : list bytes) : option (Flow (list bytes) unit) :=
  item ← get_item_at off s;
  if klen integrity item =? 0 then Some (Stop keys tt)
  else
    let key := key integrity item in
    let live := negb (is_deleted integrity item)
                && negb (is_none (get_item_frequency h key (location s off))) in
    Some (Continue (off + size integrity item) (if live then keys ++ [key] else keys)).

Definition remaining_keys s h : option (list bytes) :=
  '(keys, _) ← scan (laps_of s) (max_item_offset s) (ghost_item s h) tt first_offset [];
  Some keys.

(** ** [prune] *)

Record Pruning := mkPruning {
  n_scanned : Z;
  n_dropped : Z;
  n_retained : Z;
  n_th_update : Z;
  cutoff : F64.f64
}.

(** The checkpoint every tenth of the segment. *)
Definition adjust_cutoff (update_interval : Z) (target_ratio : F64.f64) (p : Pruning) : Pruning :=
  if n_th_update p * update_interval <=? n_scanned p then
    let t := F64.div (F64.sub (F64.div (F64.of_Z (n_retained p)) (F64.of_Z (n_scanned p)))
                        target_ratio) target_ratio in
    let within := F64.le (F64.literal (-5) 10) t && F64.le t (F64.literal 5 10) in
    mkPruning (n_scanned p) (n_dropped p) (n_retained p) (n_th_update p + 1)
      (if negb within
       then F64.mul (cutoff p) (F64.max (F64.add (F64.of_Z 1) t) (F64.literal 25 100))
       else cutoff p)
  else p.

Definition prune_item (to_drop : Z) (mean_size target_ratio : F64.f64) off
    (st : Segment * H * Pruning) : option (Flow (Segment * H * Pruning) unit) :=
  let '(s, h, p) := st in
  item ← get_item_at off s;
  if (klen integrity item =? 0) && (live_items (header s) =? 0) then Some (Stop (s, h, p) tt)
  else
    _ ← guard (KvItem.check_magic integrity item);
    let item_size := size integrity item in
    let next := Some (Continue (off + item_size) (s, h, p)) in
    if is_deleted integrity item then next
    else
      let key := key integrity item in
      let loc := location s off in
      if is_none (get_item_frequency h key loc) then next
      else
        let p := mkPruning (n_scanned p + item_size) (n_dropped p) (n_retained p)
                   (n_th_update p) (cutoff p) in
        let p := adjust_cutoff (blen (data s) / 10) target_ratio p in
        let item_frequency := F64.of_Z (default 0 (get_item_frequency h key loc)) in
        let weighted_frequency :=
          F64.div item_frequency (F64.div (F64.of_Z item_size) mean_size) in
        if F64.le (F64.literal 1 10000) (cutoff p) && (0 <? to_drop) && (n_dropped p <? to_drop)
             && F64.le weighted_frequency (cutoff p)
        then
          let '(removed, h) := remove h key loc in
          s ← (if removed : bool then remove_item_at off s else Some s);
          Some (Continue (off + item_size)
            (s, h, mkPruning (n_scanned p) (n_dropped p + item_size) (n_retained p)
                     (n_th_update p) (cutoff p)))
        else
          Some (Continue (off + item_size)
            (s, h, mkPruning (n_scanned p) (n_dropped p) (n_retained p + item_size)
                     (n_th_update p) (cutoff p))).

(** The subtraction of two [i32] wraps, as in the release profile, whose
    overflow checks are off; with them on, a ratio so far below zero that it
    overflows is a panic. *)
Definition to_drop s (target_ratio : F64.f64) : Z :=
  let to_keep := F64.floor_as_i32 (F64.mul (F64.of_Z (blen (data s))) target_ratio) in
  i32 (live_bytes (header s) - to_keep).

Definition prune s h (cutoff_freq target_ratio : F64.f64) : option (Segment * H * F64.f64) :=
  let mean_size := F64.div (F64.of_Z (live_bytes (header s))) (F64.of_Z (live_items (header s))) in
  let cutoff0 := F64.div (F64.add (F64.of_Z 1) cutoff_freq) (F64.of_Z 2) in
  '(s, h, p, _) ← scan (laps_of s) (max_item_offset s)
                    (prune_item (to_drop s target_ratio) mean_size target_ratio)
                    tt first_offset (s, h, mkPruning 0 0 0 1 cutoff0);
  Some (s, h, cutoff p).

(** ** [check_integrity] *)

(** The loop stops short of the last header-sized stretch ([<], not [<=]). *)
Definition count_item s h off (count : Z) : option (Flow Z unit) :=
  let item := item_at s off in
  if klen integrity item =? 0 then Some (Stop count tt)
  else
    let live := negb (is_deleted integrity item)
                && negb (is_none (get_item_frequency h (key integrity item) (location s off))) in
    Some (Continue (off + size integrity item) (if live then count + 1 else count)).

Definition check_integrity s h : option bool :=
  _ ← guard (check_magic s);
  '(count, _) ← scan (laps_of s) (max_item_offset s - 1) (count_item s h) tt first_offset 0;
  Some (count <=? live_items (header s)).
End Segment.
