(* ===== verification/SegmentSpec.v ===== *)
(** * The scans of a segment

    A segment is a run of items laid end to end behind its first offset,
    published in the hashtable at the locations of its incarnation, with the
    live counters of its header in step. This file states that invariant and
    shows what each scan of [Segment] does to the segment, to the index, and
    to everything else that is published. *)
From S2P Require Import Prelude Packing Atomics Table F64 KvItem KvItemSpec.
From S2P Require Import SegState SegHeader SegHeaderSpec HashIface Segment.

(** ** Items in buffers *)

Record Entry := mkEntry {
  e_key : bytes;
  e_optional : bytes;
  e_value : Value;
  e_version : Z;
  e_deleted : bool
}.

Section Buffers.
Context (integrity : bool).
Implicit Types (buf : bytes) (e : Entry).

Definition entry_size e : Z :=
  item_size integrity (blen (e_key e)) (e_value e) (blen (e_optional e)).

(** Accepted by the cache, and not left locked. *)
Record entry_ok e : Prop := {
  entry_args : item_args (e_key e) (e_value e) (e_optional e);
  entry_key : 0 < blen (e_key e);
  entry_even : Z.odd (e_version e) = false
}.

Definition stored e buf : Prop :=
  holds integrity (e_key e) (e_value e) (e_optional e) (e_version e) (e_deleted e) buf.

(** Everything an item holds lies below its stored end. *)
Lemma holds_prefix k v o ver del n buf buf' :
  holds integrity k v o ver del buf -> stored_end integrity k v o <= n ->
  n <= blen buf' -> slice 0 n buf' = slice 0 n buf ->
  holds integrity k v o ver del buf'.
Proof.
  intros Hh Hn Hr Hs. pose proof (value_start_bound integrity k v o) as [? ?].
  pose proof (blen_nonneg k). pose proof (blen_nonneg o).
  assert (forall off len, 0 <= off -> 0 <= len -> off + len <= n ->
    slice off len buf' = slice off len buf) as Hsl.
  { intros off len ? ? ?. pose proof (slice_slice 0 n off len buf') as E'.
    pose proof (slice_slice 0 n off len buf) as E. rewrite Z.add_0_l in *.
    rewrite <- E, <- E' by lia. by rewrite Hs. }
  destruct (layout integrity) as (b & ? & ? & EK & EF & EV & EH & ?).
  assert (0 <= size_of v) by (destruct v; simpl; [apply blen_nonneg|lia]).
  assert (value_start integrity k v o + size_of v <= stored_end integrity k v o)
    by (unfold stored_end; destruct v; simpl; lia).
  destruct Hh. split; unfold klen, flags, vlen, get_uint in *; rewrite ?EK, ?EF, ?EV, ?EH in *;
    try (rewrite Hsl by lia; done).
  - intros Hu. rewrite Hsl; [auto|lia..|]. unfold stored_end in *. destruct v; [done|lia].
  - lia.
Qed.

Lemma entry_size_bound e :
  stored_end integrity (e_key e) (e_value e) (e_optional e) < entry_size e /\
  ITEM_HDR_SIZE integrity < entry_size e /\ 8 <= entry_size e /\ entry_size e mod 8 = 0.
Proof.
  destruct (item_size_covers_aux integrity (e_key e) (e_value e) (e_optional e)) as (Hm & ? & _).
  pose proof (value_start_bound integrity (e_key e) (e_value e) (e_optional e)) as [? ?].
  pose proof (blen_nonneg (e_key e)). pose proof (blen_nonneg (e_optional e)).
  unfold entry_size. split; [lia|]. split; [lia|]. split; [dm|done].
Qed.

Lemma stored_size e buf : entry_ok e -> stored e buf -> size integrity buf = entry_size e.
Proof. intros Hok Hs. eapply holds_size; [apply Hok|done]. Qed.

Lemma stored_prefix e buf buf' :
  stored e buf -> entry_size e <= blen buf' ->
  slice 0 (entry_size e) buf' = slice 0 (entry_size e) buf -> stored e buf'.
Proof.
  intros Hs Hr Heq. pose proof (entry_size_bound e). eapply holds_prefix; [exact Hs| |exact Hr|exact Heq].
  lia.
Qed.

Lemma set_version_same e buf :
  entry_ok e -> stored e buf -> is_u64 (e_value e) = true ->
  set_version_word integrity (e_version e) buf = buf.
Proof.
  intros Hok Hs Hu. pose proof (holds_room _ _ _ _ _ _ _ Hs) as Hr.
  destruct (holds_version _ _ _ _ _ _ _ Hs Hu) as [Hv _].
  pose proof (value_start_bound integrity (e_key e) (e_value e) (e_optional e)) as [? ?].
  pose proof (blen_nonneg (e_key e)). pose proof (blen_nonneg (e_optional e)).
  unfold set_version_word, set_uint.
  rewrite (holds_value_offset _ _ _ _ _ _ _ (entry_args _ Hok) Hs), <- Hv.
  apply blit_slice_same; [lia..|]. unfold stored_end in Hr. destruct (e_value e); [done|lia].
Qed.
End Buffers.

(** ** One item, relocated *)

Section Relocate.
Context (integrity : bool).
Context {H : Type} `{Hashtable H}.
Implicit Types (s src dst : Segment) (h : H) (e : Entry).

Lemma blen_item_at s off : 0 <= off <= blen (data s) -> blen (item_at s off) = blen (data s) - off.
Proof. apply blen_drop. Qed.

(** Rewriting everything from [off] on. *)
Lemma item_at_write_at s off bs :
  0 <= off -> off + blen bs = blen (data s) -> item_at (write_at off bs s) off = bs.
Proof.
  intros ? Hl. unfold item_at, write_at. cbn [data]. rewrite blit_in by lia.
  unfold blen in Hl. rewrite drop_app_length' by (rewrite length_take; lia).
  by rewrite (drop_ge (data s)), app_nil_r by lia.
Qed.

Lemma write_at_restore s off bs :
  0 <= off -> off + blen bs = blen (data s) ->
  write_at off (item_at s off) (write_at off bs s) = s.
Proof.
  intros ? Hl. pose proof (blen_nonneg bs). destruct s as [hd d]. unfold write_at, item_at. cbn [data header] in *.
  f_equal. assert (blen (drop (Z.to_nat off) d) = blen bs) as E by (rewrite blen_drop; lia).
  rewrite blit_blit by (unfold blen in *; lia).
  assert (drop (Z.to_nat off) d = slice off (blen d - off) d) as ->.
  { unfold slice, blen in *. symmetry. apply take_ge. rewrite length_drop. lia. }
  apply blit_slice_same; lia.
Qed.

(** [NumericVersionGuard] leaves no trace: the source is as it was, and the
    target holds the item with its version unlocked. *)
Lemma copy_and_relink_eq src dst h off wo r e :
  entry_ok e -> stored integrity e (item_at src off) ->
  0 <= off -> off + entry_size integrity e <= blen (data src) ->
  0 <= wo -> wo + entry_size integrity e <= blen (data dst) ->
  copy_and_relink integrity src dst h off wo r =
    (let '(relinked, h) := cas_location h (e_key e) (location src off) (location dst wo) r in
     Some (relinked, src, write_at wo (slice 0 (entry_size integrity e) (item_at src off)) dst, h)).
Proof.
  intros Hok Hst Ho Hr Hw Hrd. pose proof (entry_size_bound integrity e) as (Hend & _ & Hn & _).
  pose proof (entry_args _ Hok) as Ha.
  assert (size integrity (item_at src off) = entry_size integrity e) as Hsz
    by by apply stored_size.
  assert (key integrity (item_at src off) = e_key e) as Hkey by by eapply holds_read_key.
  unfold copy_and_relink, lock_numeric_version.
  rewrite (holds_numeric _ _ _ _ _ _ _ Ha Hst), Hsz.
  destruct (is_u64 (e_value e)) eqn:Hu; cbn [negb]; [|by rewrite Hkey].
  rewrite (holds_version_word _ _ _ _ _ _ _ Ha Hst Hu), (entry_even _ Hok).
  pose proof (blen_item_at src off ltac:(lia)) as Hli.
  set (item := item_at src off) in *. set (n := entry_size integrity e) in *.
  set (vs := value_start integrity (e_key e) (e_value e) (e_optional e)).
  assert (0 <= vs /\ vs + 16 <= n) as [Hvs Hvn].
  { subst vs. pose proof (value_start_bound integrity (e_key e) (e_value e) (e_optional e)) as [? ?].
    pose proof (blen_nonneg (e_key e)). pose proof (blen_nonneg (e_optional e)).
    unfold stored_end in *. destruct (e_value e); [done|lia]. }
  set (v' := u64 (e_version e + 1)).
  assert (forall buf, value_offset integrity buf = vs -> forall w,
    set_version_word integrity w buf = blit (vs + 8) (le_bytes 8 w) buf) as Hset.
  { intros buf Hb w. unfold set_version_word, set_uint. by rewrite Hb. }
  assert (holds integrity (e_key e) (e_value e) (e_optional e) v' (e_deleted e)
            (set_version_word integrity v' item)) as Hl.
  { destruct (e_value e) as [|x] eqn:Ev; [done|].
    apply (holds_set_version _ _ _ (arg_key _ _ _ Ha) (arg_optional _ _ _ Ha) x (e_version e)).
    - apply (arg_value _ _ _ Ha).
    - unfold stored in Hst. by rewrite Ev in Hst.
    - apply wrap_fits. lia. }
  set (locked := set_version_word integrity v' item) in *.
  assert (locked = blit (vs + 8) (le_bytes 8 v') item) as El.
  { apply Hset. by eapply holds_value_offset. }
  assert (blen locked = blen item) as Hll by by rewrite El, blen_blit.
  assert (blen (slice 0 n locked) = n) as Hpart by (apply blen_slice; lia).
  rewrite item_at_write_at by lia.
  set (dst1 := write_at wo (slice 0 n locked) dst).
  assert (holds integrity (e_key e) (e_value e) (e_optional e) v' (e_deleted e) (item_at dst1 wo)) as Hc.
  { assert (blen (item_at dst1 wo) = blen (data dst) - wo) as Hb
      by (rewrite blen_item_at; unfold dst1, write_at; cbn [data]; rewrite blen_blit; lia).
    eapply (holds_prefix _ _ _ _ _ _ n); [exact Hl|lia|lia|].
    unfold item_at, dst1, write_at. cbn [data]. rewrite slice_drop, Z.add_0_r by lia.
    apply slice_blit_eq; lia. }
  unfold stamp_relocated_copy. rewrite (holds_numeric _ _ _ _ _ _ _ Ha Hc), Hu.
  cbn [mbind option_bind]. rewrite (holds_read_key _ _ _ _ _ _ _ Ha Hl).
  change (location (write_at off locked src) off) with (location src off).
  change (location dst1 wo) with (location dst wo).
  destruct (cas_location h (e_key e) (location src off) (location dst wo) r) as [relinked h'].
  unfold guard_drop. rewrite (Hset locked) by by eapply holds_value_offset.
  rewrite (Hset (item_at dst1 wo)) by by eapply holds_value_offset.
  assert (blit (vs + 8) (le_bytes 8 (e_version e)) locked = item) as Hback.
  { rewrite El, blit_blit by (rewrite ?length_le_bytes, ?blen_le_bytes; lia || done).
    rewrite <- Hset by by eapply holds_value_offset. by apply set_version_same. }
  rewrite Hback. replace (write_at off item (write_at off locked src)) with src
    by (symmetry; apply write_at_restore; lia).
  do 3 f_equal. destruct dst as [hd d]. unfold dst1, write_at, item_at. cbn [data header] in *. f_equal.
  rewrite blit_nested by (rewrite ?blen_le_bytes; lia). f_equal.
  rewrite <- slice_blit_in by (rewrite ?blen_le_bytes; lia). by rewrite Hback.
Qed.
End Relocate.

(** ** The invariant *)

Section Invariant.
Context (integrity : bool).
Context {H : Type} `{LH : LawfulHashtable H}.
Implicit Types (s src dst : Segment) (h : H) (e : Entry) (es : list Entry) (p : Z * Entry).

Abbreviation esize := (entry_size integrity).
Abbreviation first := (first_offset integrity).

(** The items and the offsets they are at. *)
Fixpoint places (off : Z) es : list (Z * Entry) :=
  match es with
  | [] => []
  | e :: es => (off, e) :: places (off + esize e) es
  end.

Fixpoint total {A} (f : A -> Z) (l : list A) : Z :=
  match l with
  | [] => 0
  | a :: l => f a + total f l
  end.

Definition end_of es : Z := first + total esize es.

Abbreviation laid es := (places first es).

(** The item is published at its place. *)
Definition live h s p : bool :=
  negb (is_none (get_item_frequency h (e_key p.2) (location s p.1))).

Definition live_count h s es : Z := total (fun p => Z.b2z (live h s p)) (laid es).
Definition live_size h s es : Z := total (fun p => Z.b2z (live h s p) * esize p.2) (laid es).

(** The locations of this incarnation of the segment. *)
Definition here s (l : Z) : bool :=
  ((Location.unpack_location l).1 =? id (header s)) &&
  (Location.tag l =? Location.tag_for_generation (generation (header s))).

Definition i32_range (x : Z) : Prop := - 2 ^ 31 <= x < 2 ^ 31.

(** A segment that holds [es]. The live counters may exceed what is published
    by [di] items and [db] bytes: unlinks that hold no pin leave them so until
    the segment is drained. A segment without items has behind its magic bytes
    either nothing or the first item of an earlier incarnation. *)
Record seg_ok h s es (di db : Z) : Prop := {
  ok_id : 1 <= id (header s) <= Location.MAX_SEGMENTS;
  ok_generation : fits 16 (generation (header s));
  ok_room : first + ITEM_HDR_SIZE integrity <= blen (data s) <= Location.MAX_SEGMENT_BYTES;
  ok_bytes : Forall is_byte (data s);
  ok_magic : check_magic integrity s = true;
  ok_end : write_offset (header s) = end_of es /\ end_of es <= blen (data s);
  ok_stored : Forall (fun p => entry_ok p.2 /\ stored integrity p.2 (item_at s p.1)) (laid es);
  ok_residue : es = [] ->
    let item := item_at s first in
    if klen integrity item =? 0 then live_items (header s) = 0
    else KvItem.check_magic integrity item = true;
  ok_published k l f : get_item_frequency h k l = Some f -> here s l = true ->
    exists p, p ∈ laid es /\ l = location s p.1 /\ live h s p = true /\ e_deleted p.2 = false;
  ok_items : live_items (header s) = live_count h s es + di /\ 0 <= di <= 2 ^ 30;
  ok_size : live_bytes (header s) = first + live_size h s es + db /\ 0 <= db <= 2 ^ 30;
  ok_dead : i32_range (dead_items (header s)) /\ i32_range (dead_bytes (header s))
}.

(** *** Places *)

Lemma first_bounds : 0 <= first <= 8 /\ first mod 8 = 0.
Proof. unfold first_offset. by destruct integrity. Qed.

Lemma total_app {A} (f : A -> Z) l l' : total f (l ++ l') = total f l + total f l'.
Proof. induction l; cbn [total app]; lia. Qed.

Lemma total_nonneg {A} (f : A -> Z) l : (forall a, a ∈ l -> 0 <= f a) -> 0 <= total f l.
Proof.
  induction l as [|a l IH]; cbn [total]; intros Hf; [lia|].
  pose proof (Hf a ltac:(by left)). pose proof (IH (fun b Hb => Hf b ltac:(by right))). lia.
Qed.

Lemma total_ext {A} (f g : A -> Z) l : (forall a, a ∈ l -> f a = g a) -> total f l = total g l.
Proof.
  induction l as [|a l IH]; cbn [total]; intros Hf; [done|].
  rewrite (Hf a), IH; [done| |by left]. intros b Hb. apply Hf. by right.
Qed.

Lemma total_in {A} (f : A -> Z) l a : (forall b, 0 <= f b) -> a ∈ l -> f a <= total f l.
Proof.
  intros Hf. induction l as [|b l IH]; cbn [total]; intros Hp; [by apply not_elem_of_nil in Hp|].
  apply elem_of_cons in Hp as [->|Hp].
  - pose proof (total_nonneg f l (fun a _ => Hf a)). lia.
  - specialize (IH Hp). specialize (Hf b). lia.
Qed.

(** A change at one place. *)
Lemma total_update {A} (f g : A -> Z) l a :
  NoDup l -> a ∈ l -> (forall b, b ∈ l -> b <> a -> g b = f b) ->
  total g l = total f l - f a + g a.
Proof.
  induction l as [|b l IH]; cbn [total]; intros Hd Hin Hf; [by apply not_elem_of_nil in Hin|].
  apply NoDup_cons in Hd as [Hb Hd]. apply elem_of_cons in Hin as [->|Hin].
  - assert (total g l = total f l) as ->; [|lia].
    apply total_ext. intros c Hc. apply Hf; [by right|]. by intros ->.
  - rewrite IH; [|done..|intros c Hc; apply Hf; by right].
    rewrite (Hf b); [lia|by left|]. by intros ->.
Qed.

Lemma total_esize es : 0 <= total esize es.
Proof. apply total_nonneg. intros e _. pose proof (entry_size_bound integrity e). lia. Qed.

Lemma places_app off es es' :
  places off (es ++ es') = places off es ++ places (off + total esize es) es'.
Proof.
  revert off. induction es as [|e es IH]; intros off; cbn [app places total].
  - by rewrite Z.add_0_r.
  - by rewrite IH, Z.add_assoc.
Qed.

Lemma places_bounds off es p :
  p ∈ places off es -> off <= p.1 /\ p.1 + esize p.2 <= off + total esize es /\ p.2 ∈ es /\
    (off mod 8 = 0 -> p.1 mod 8 = 0).
Proof.
  revert off. induction es as [|e es IH]; intros off Hp; cbn [places total] in *.
  { by apply not_elem_of_nil in Hp. }
  pose proof (total_esize es). pose proof (entry_size_bound integrity e) as (_ & _ & ? & ?).
  apply elem_of_cons in Hp as [->|Hp].
  - cbn [fst snd]. split; [lia|]. split; [lia|]. split; [by left|done].
  - apply IH in Hp as (? & ? & ? & Hm). split; [lia|]. split; [lia|]. split; [by right|].
    intros Ho. apply Hm. dm.
Qed.

(** Distinct places do not overlap. *)
Lemma places_disjoint off es p q :
  p ∈ places off es -> q ∈ places off es -> p = q \/ p.1 + esize p.2 <= q.1 \/ q.1 + esize q.2 <= p.1.
Proof.
  revert off. induction es as [|e es IH]; intros off Hp Hq; cbn [places] in *.
  { by apply not_elem_of_nil in Hp. }
  apply elem_of_cons in Hp, Hq. destruct Hp as [->|Hp], Hq as [->|Hq]; cbn [fst snd].
  - by left.
  - apply places_bounds in Hq as [? _]. auto.
  - apply places_bounds in Hp as [? _]. auto.
  - by eapply IH.
Qed.

Lemma places_same_offset off es p q :
  p ∈ places off es -> q ∈ places off es -> p.1 = q.1 -> p = q.
Proof.
  intros Hp Hq E. pose proof (entry_size_bound integrity p.2) as (_ & _ & ? & _).
  pose proof (entry_size_bound integrity q.2) as (_ & _ & ? & _).
  destruct (places_disjoint off es p q Hp Hq) as [|[|]]; [done|lia..].
Qed.

Lemma places_nodup off es : NoDup (places off es).
Proof.
  revert off. induction es as [|e es IH]; intros off; cbn [places]; [apply NoDup_nil_2|].
  apply NoDup_cons. split; [|done]. intros Hp%places_bounds. cbn [fst snd] in Hp.
  pose proof (entry_size_bound integrity e) as (_ & _ & ? & _). lia.
Qed.

(** *** Locations *)

Lemma seg_length h s es di db : seg_ok h s es di db ->
  blen (data s) <= 8388608 /\ first + ITEM_HDR_SIZE integrity <= blen (data s) /\
  end_of es <= blen (data s) /\ write_offset (header s) = end_of es.
Proof.
  intros Hs. destruct (ok_room _ _ _ _ _ Hs) as [? Hm]. destruct (ok_end _ _ _ _ _ Hs) as [? ?].
  change Location.MAX_SEGMENT_BYTES with 8388608 in Hm. done.
Qed.

Lemma place_in h s es di db p :
  seg_ok h s es di db -> p ∈ laid es ->
  0 <= p.1 /\ first <= p.1 /\ p.1 + esize p.2 <= end_of es /\ p.1 mod 8 = 0 /\
  p.1 + esize p.2 <= blen (data s).
Proof.
  intros Hs Hp. destruct first_bounds as [? Hf]. destruct (ok_end _ _ _ _ _ Hs) as [_ He].
  apply places_bounds in Hp as (? & ? & _ & Hm). unfold end_of in *. specialize (Hm Hf). lia.
Qed.

Lemma place_stored h s es di db p :
  seg_ok h s es di db -> p ∈ laid es -> entry_ok p.2 /\ stored integrity p.2 (item_at s p.1).
Proof. intros Hs Hp. by apply (proj1 (Forall_forall _ _) (ok_stored _ _ _ _ _ Hs)). Qed.

Lemma issuable_at h s es di db off :
  seg_ok h s es di db -> 0 <= off < blen (data s) -> off mod 8 = 0 ->
  Location.issuable (id (header s)) (generation (header s)) off.
Proof.
  intros Hs Ho Hm. destruct (ok_room _ _ _ _ _ Hs). split; [apply Hs|]. split; [apply Hs|].
  split; [lia|done].
Qed.

Lemma place_issuable h s es di db p :
  seg_ok h s es di db -> p ∈ laid es ->
  Location.issuable (id (header s)) (generation (header s)) p.1.
Proof.
  intros Hs Hp. destruct (place_in _ _ _ _ _ _ Hs Hp) as (? & _ & ? & ? & ?).
  pose proof (entry_size_bound integrity p.2) as (_ & _ & ? & _).
  eapply issuable_at; [done|lia|done].
Qed.

Lemma issuable_here s off :
  Location.issuable (id (header s)) (generation (header s)) off -> here s (location s off) = true.
Proof.
  intros Hi. unfold here, location.
  destruct (Location.pack_unpack_location _ _ _ Hi) as (-> & -> & _). cbn [fst].
  by rewrite !Z.eqb_refl.
Qed.

Lemma issuable_item_loc i g off :
  Location.issuable i g off -> item_loc (Location.pack_location i g off).
Proof.
  intros Hi. split; [by apply Location.pack_location_fits|].
  destruct (Location.pack_unpack_location _ _ _ Hi) as (Hu & _ & Hg). split.
  - intros E. rewrite E in Hu. apply Location.issuable_bounds in Hi.
    change (Location.unpack_location 0) with (0, 0) in Hu. simplify_eq. lia.
  - intros E. rewrite E in Hg. done.
Qed.

(** Equal locations of one segment are equal offsets; two segments share none. *)
Lemma location_inj s off off' :
  Location.issuable (id (header s)) (generation (header s)) off ->
  Location.issuable (id (header s)) (generation (header s)) off' ->
  location s off = location s off' -> off = off'.
Proof. intros Hi Hi' E. by destruct (proj1 (Location.pack_location_inj _ _ _ _ _ _ Hi Hi') E) as (_ & ? & _). Qed.

Lemma here_other s s' l :
  id (header s) <> id (header s') -> here s l = true -> here s' l = false.
Proof.
  unfold here. intros Hne [E1%Z.eqb_eq _]%andb_true_iff. apply andb_false_iff. left.
  apply Z.eqb_neq. by rewrite E1.
Qed.

Lemma live_some h s p : live h s p = true <-> is_Some (get_item_frequency h (e_key p.2) (location s p.1)).
Proof.
  unfold live. rewrite <- not_eq_None_Some. destruct (get_item_frequency _ _ _); done.
Qed.

(** *** Changes of the index *)

Definition same_place s s' : Prop :=
  id (header s') = id (header s) /\ generation (header s') = generation (header s).

Lemma same_place_location s s' off : same_place s s' -> location s' off = location s off.
Proof. unfold location. by intros [-> ->]. Qed.

Lemma same_place_here s s' l : same_place s s' -> here s' l = here s l.
Proof. unfold here. by intros [-> ->]. Qed.

(** Another index that publishes the same here. *)
Lemma seg_ok_domain h h' s es di db :
  seg_ok h s es di db ->
  (forall k l, here s l = true -> is_Some (get_item_frequency h' k l) <-> is_Some (get_item_frequency h k l)) ->
  seg_ok h' s es di db.
Proof.
  intros Hs Hg.
  assert (forall p, p ∈ laid es -> live h' s p = live h s p) as Hl.
  { intros p Hp. apply eq_bool_prop_intro. rewrite !Is_true_true, !live_some. apply Hg.
    by eapply issuable_here, place_issuable. }
  destruct Hs as [X1 X2 X3 X4 X5 X6 X7 X8 X9 X10 X11 X12]. split; try done.
  - intros k l f Hf Hh. destruct (proj1 (Hg k l Hh) (mk_is_Some _ _ Hf)) as [f' Hf'].
    destruct (X9 k l f' Hf' Hh) as (p & Hp & ? & ? & ?). exists p. by rewrite Hl.
  - unfold live_count. rewrite (total_ext _ (fun p => Z.b2z (live h s p))); [done|].
    intros p Hp. by rewrite Hl.
  - unfold live_size. rewrite (total_ext _ (fun p => Z.b2z (live h s p) * esize p.2)); [done|].
    intros p Hp. by rewrite Hl.
Qed.

(** A change elsewhere. *)
Lemma seg_ok_elsewhere h h' s es di db :
  seg_ok h s es di db ->
  (forall k l, here s l = true -> get_item_frequency h' k l = get_item_frequency h k l) ->
  seg_ok h' s es di db.
Proof. intros Hs Hg. eapply seg_ok_domain; [done|]. intros k l Hl. by rewrite Hg. Qed.

Lemma live_total_bounds h s es di db p :
  seg_ok h s es di db -> p ∈ laid es -> live h s p = true ->
  1 <= live_count h s es /\ esize p.2 <= live_size h s es.
Proof.
  intros Hs Hp Hl. unfold live_count, live_size.
  pose proof (fun f Hf => total_in f (laid es) p Hf Hp) as Ht.
  split.
  - specialize (Ht (fun p => Z.b2z (live h s p))). cbv beta in Ht. rewrite Hl in Ht. apply Ht.
    intros a. destruct (live h s a); cbn; lia.
  - specialize (Ht (fun p => Z.b2z (live h s p) * esize p.2)). cbv beta in Ht. rewrite Hl in Ht.
    cbn [Z.b2z] in Ht. rewrite Z.mul_1_l in Ht. apply Ht. intros a.
    pose proof (entry_size_bound integrity a.2). destruct (live h s a); cbn [Z.b2z]; lia.
Qed.

Lemma total_places off es : total (fun p => esize p.2) (places off es) = total esize es.
Proof. revert off. induction es as [|e es IH]; intros off; cbn [places total snd]; [done|]. by rewrite IH. Qed.

Lemma total_le {A} (f g : A -> Z) l : (forall a, f a <= g a) -> total f l <= total g l.
Proof. intros Hf. induction l as [|a l IH]; cbn [total]; [lia|]. specialize (Hf a). lia. Qed.

Lemma seg_counts h s es di db :
  seg_ok h s es di db ->
  0 <= live_count h s es /\ 8 * live_count h s es <= live_size h s es /\
  live_size h s es <= total esize es <= 8388608.
Proof.
  intros Hs. destruct (seg_length _ _ _ _ _ Hs) as (? & _ & ? & _). unfold end_of in *.
  pose proof (proj1 first_bounds).
  assert (forall p, 8 <= esize p.2) as He by (intros p; pose proof (entry_size_bound integrity p.2); lia).
  unfold live_count, live_size. split; [|split; [|split]].
  - apply total_nonneg. intros p _. destruct (live h s p); cbn; lia.
  - assert (forall l : list (Z * Entry), 8 * total (fun p => Z.b2z (live h s p)) l =
      total (fun p => 8 * Z.b2z (live h s p)) l) as ->
      by (intros l; induction l; cbn [total]; lia).
    apply total_le. intros p. specialize (He p). destruct (live h s p); cbn [Z.b2z]; lia.
  - rewrite <- (total_places first es). apply total_le. intros p. specialize (He p).
    destruct (live h s p); cbn [Z.b2z]; lia.
  - lia.
Qed.

(** *** Accounting *)

Lemma i32_id x : i32_range x -> i32 x = x.
Proof. unfold i32_range, i32, wrap. pow2. intros. dm. Qed.

Lemma i32_in_range x : i32_range (i32 x).
Proof. unfold i32_range, i32, wrap. pow2. dm. Qed.

(** The header without an item of [n] bytes: dead, or moved away. *)
Definition moved_out (n : Z) (hd : SegmentHeader) : SegmentHeader :=
  with_live_bytes (live_bytes hd - n) (with_live_items (live_items hd - 1) hd).

Definition debited (n : Z) (hd : SegmentHeader) : SegmentHeader :=
  with_dead_bytes (i32 (dead_bytes hd + n)) (with_dead_items (i32 (dead_items hd + 1))
    (moved_out n hd)).

Definition moved_in (n : Z) (hd : SegmentHeader) : SegmentHeader :=
  with_write_offset (write_offset hd + n)
    (with_live_bytes (live_bytes hd + n) (with_live_items (live_items hd + 1) hd)).

Lemma live_counters h s es di db p :
  seg_ok h s es di db -> p ∈ laid es -> live h s p = true ->
  1 <= live_items (header s) < 2 ^ 31 /\ esize p.2 <= live_bytes (header s) < 2 ^ 31 /\
  p.1 <= max_item_offset integrity s.
Proof.
  intros Hs Hp Hl. destruct (live_total_bounds _ _ _ _ _ _ Hs Hp Hl).
  destruct (seg_counts _ _ _ _ _ Hs) as (? & ? & ?). destruct (place_in _ _ _ _ _ _ Hs Hp) as (? & ? & ? & ? & ?).
  destruct (seg_length _ _ _ _ _ Hs) as (? & ? & ? & Hw).
  destruct (ok_items _ _ _ _ _ Hs) as [-> ?]. destruct (ok_size _ _ _ _ _ Hs) as [-> ?].
  pose proof (proj1 first_bounds). pose proof (entry_size_bound integrity p.2).
  unfold max_item_offset. rewrite Hw. split; [lia|]. split; [lia|].
  destruct (Z.leb_spec (ITEM_HDR_SIZE integrity) (end_of es)); lia.
Qed.

Lemma remove_item_at_run s off e :
  entry_ok e -> stored integrity e (item_at s off) -> check_magic integrity s = true ->
  off <= max_item_offset integrity s -> 1 <= live_items (header s) < 2 ^ 31 ->
  esize e <= live_bytes (header s) < 2 ^ 31 ->
  remove_item_at integrity off s = Some (mkSegment (debited (esize e) (header s)) (data s)).
Proof.
  intros Hok Hst Hm Ho ? ?. pose proof (entry_size_bound integrity e) as (_ & _ & ? & _).
  unfold remove_item_at, get_item_at.
  rewrite (proj2 (Z.leb_le _ _)) by done. cbn [guard mbind option_bind].
  rewrite (stored_size integrity e) by done.
  rewrite Hm. cbn [guard mbind option_bind].
  unfold on_header, run, decr_item, decr_live_items, decr_live_bytes, incr_dead_item, fetch, atomic,
    interfere, mbind, option_bind, prog_bind.
  cbn -[i32 Z.leb Z.sub Z.add]. rewrite !(i32_id (live_items _ - 1)), !(i32_id (live_bytes _ - _))
    by (unfold i32_range; lia).
  rewrite !(proj2 (Z.leb_le _ _)) by lia. cbn [guard mbind option_bind].
  assert (forall hd, check_magic integrity (mkSegment hd (data s)) = true) as ->; [|done].
  intros hd. exact Hm.
Qed.

Lemma remove_item_at_eq h s es di db p :
  seg_ok h s es di db -> p ∈ laid es -> live h s p = true ->
  remove_item_at integrity p.1 s = Some (mkSegment (debited (esize p.2) (header s)) (data s)).
Proof.
  intros Hs Hp Hl. destruct (live_counters _ _ _ _ _ _ Hs Hp Hl) as (? & ? & ?).
  destruct (place_stored _ _ _ _ _ _ Hs Hp) as [Hok Hst].
  by apply remove_item_at_run; [..|apply Hs| | |].
Qed.

(** The item at a place is unlinked, and out of the live counters. *)
Lemma seg_ok_unlinked h h' s hd es di db p :
  seg_ok h s es di db -> p ∈ laid es -> live h s p = true ->
  (forall k l, here s l = true ->
     get_item_frequency h' k l = if l =? location s p.1 then None else get_item_frequency h k l) ->
  same_place s (mkSegment hd (data s)) -> write_offset hd = write_offset (header s) ->
  live_items hd = live_items (header s) - 1 -> live_bytes hd = live_bytes (header s) - esize p.2 ->
  i32_range (dead_items hd) -> i32_range (dead_bytes hd) ->
  seg_ok h' (mkSegment hd (data s)) es di db.
Proof.
  intros Hs Hp Hl Hg Hsame Hwo Hli Hlb Hdi Hdb.
  assert (forall q, live h' (mkSegment hd (data s)) q =
    negb (is_none (get_item_frequency h' (e_key q.2) (location s q.1)))) as Hlive.
  { intros q. unfold live. by rewrite (same_place_location _ _ _ Hsame). }
  assert (forall q, q ∈ laid es -> q <> p -> live h' (mkSegment hd (data s)) q = live h s q) as Hother.
  { intros q Hq Hne. rewrite Hlive, Hg by (by eapply issuable_here, place_issuable).
    destruct (Z.eqb_spec (location s q.1) (location s p.1)) as [E|]; [|done]. exfalso. apply Hne.
    eapply places_same_offset; [done..|]. eapply location_inj; [by eapply place_issuable..|done]. }
  assert (live h' (mkSegment hd (data s)) p = false) as Hthis.
  { rewrite Hlive, Hg by (by eapply issuable_here, place_issuable). by rewrite Z.eqb_refl. }
  pose proof Hs as [X1 X2 X3 X4 X5 X6 X7 X8 X9 X10 X11 X12]. pose proof Hsame as [Hid Hgen].
  cbn [header] in Hid, Hgen. split; cbn [header data]; rewrite ?Hid, ?Hgen, ?Hwo; try done.
  - intros ->. by apply not_elem_of_nil in Hp.
  - intros k l f Hf Hh. rewrite (same_place_here _ _ _ Hsame) in Hh. rewrite Hg in Hf by done.
    destruct (Z.eqb_spec l (location s p.1)) as [|Hne]; [done|].
    destruct (X9 k l f Hf Hh) as (q & Hq & -> & Hlq & Hd). exists q. split; [done|].
    rewrite (same_place_location _ _ _ Hsame). split; [done|]. split; [|done].
    rewrite Hother; [done..|]. by intros ->.
  - rewrite Hli. destruct X10 as [-> ?]. split; [|done]. unfold live_count.
    rewrite (total_update (fun q => Z.b2z (live h s q))
      (fun q => Z.b2z (live h' (mkSegment hd (data s)) q)) (laid es) p); [|apply places_nodup|done|].
    + rewrite Hthis, Hl. cbn [Z.b2z]. lia.
    + intros q Hq Hne. by rewrite Hother.
  - rewrite Hlb. destruct X11 as [-> ?]. split; [|done]. unfold live_size.
    rewrite (total_update (fun q => Z.b2z (live h s q) * esize q.2)
      (fun q => Z.b2z (live h' (mkSegment hd (data s)) q) * esize q.2) (laid es) p); [|apply places_nodup|done|].
    + rewrite Hthis, Hl. cbn [Z.b2z]. lia.
    + intros q Hq Hne. by rewrite Hother.
Qed.

(** Deleted items are not published. *)
Lemma live_not_deleted h s es di db p :
  seg_ok h s es di db -> p ∈ laid es -> live h s p = true -> e_deleted p.2 = false.
Proof.
  intros Hs Hp Hl. destruct (proj1 (live_some _ _ _) Hl) as [f Hf].
  pose proof (place_issuable _ _ _ _ _ _ Hs Hp) as Hi.
  destruct (ok_published _ _ _ _ _ Hs _ _ f Hf (issuable_here _ _ Hi)) as (q & Hq & El & _ & Hd).
  apply location_inj in El; [|done|by eapply place_issuable].
  by rewrite (places_same_offset _ _ p q Hp Hq El).
Qed.

(** Nothing is published behind the last item. *)
Lemma seg_ok_free h s es di db off :
  seg_ok h s es di db -> end_of es <= off ->
  Location.issuable (id (header s)) (generation (header s)) off ->
  unpublished h (location s off).
Proof.
  intros Hs Ho Hi k. destruct (get_item_frequency h k (location s off)) as [f|] eqn:E; [|done]. exfalso.
  destruct (ok_published _ _ _ _ _ Hs k _ f E) as (p & Hp & El & _ & _); [by apply issuable_here|].
  apply location_inj in El; [|done|by eapply place_issuable].
  destruct (place_in _ _ _ _ _ _ Hs Hp) as (? & _ & ? & _).
  pose proof (entry_size_bound integrity p.2) as (_ & _ & ? & _). lia.
Qed.

Lemma end_of_app es es' : end_of (es ++ es') = end_of es + total esize es'.
Proof. unfold end_of. rewrite total_app. lia. Qed.

Lemma end_of_snoc es e : end_of (es ++ [e]) = end_of es + esize e.
Proof. unfold end_of. rewrite total_app. cbn [total]. lia. Qed.

Lemma end_mod es : end_of es mod 8 = 0.
Proof.
  unfold end_of. destruct first_bounds as [_ Hf]. induction es as [|e es IH]; cbn [total].
  - by rewrite Z.add_0_r.
  - pose proof (entry_size_bound integrity e) as (_ & _ & _ & ?). dm.
Qed.

Lemma end_issuable h s es di db :
  seg_ok h s es di db -> end_of es < blen (data s) ->
  Location.issuable (id (header s)) (generation (header s)) (end_of es).
Proof.
  intros Hs He. eapply issuable_at; [done| |apply end_mod].
  pose proof (total_esize es). pose proof (proj1 first_bounds). unfold end_of in *. lia.
Qed.

Lemma i32_back x n : i32_range x -> i32 (i32 (x + n) - n) = x.
Proof. unfold i32_range, i32, wrap. pow2. intros. dm. Qed.

Lemma on_decr_dead n s :
  on_header (decr_dead_item n) s =
    Some (dead_bytes (header s),
      mkSegment (with_dead_bytes (i32 (dead_bytes (header s) - n))
        (with_dead_items (i32 (dead_items (header s) - 1)) (header s))) (data s)).
Proof. done. Qed.

(** The dead charge of an item that moved is taken back. *)
Lemma debited_back n hd :
  i32_range (dead_items hd) -> i32_range (dead_bytes hd) ->
  with_dead_bytes (i32 (dead_bytes (debited n hd) - n))
    (with_dead_items (i32 (dead_items (debited n hd) - 1)) (debited n hd)) = moved_out n hd.
Proof.
  intros Hi Hb.
  change (dead_bytes (debited n hd)) with (i32 (dead_bytes hd + n)).
  change (dead_items (debited n hd)) with (i32 (dead_items hd + 1)).
  rewrite !i32_back by done. by destruct hd.
Qed.

Lemma account_moved_eq h src es di db p dst wo :
  seg_ok h src es di db -> p ∈ laid es -> live h src p = true -> wo = write_offset (header dst) ->
  i32_range (live_items (header dst) + 1) -> i32_range (live_bytes (header dst) + esize p.2) ->
  account_moved integrity src dst p.1 wo (esize p.2) =
    Some (mkSegment (moved_out (esize p.2) (header src)) (data src),
          mkSegment (moved_in (esize p.2) (header dst)) (data dst)).
Proof.
  intros Hs Hp Hl -> Hi Hb. destruct (ok_dead _ _ _ _ _ Hs) as [Hdi Hdb].
  unfold account_moved. rewrite (remove_item_at_eq _ _ _ _ _ _ Hs Hp Hl).
  cbn [mbind option_bind]. rewrite on_decr_dead. cbn [mbind option_bind header data].
  rewrite debited_back by done. cbn [mbind option_bind].
  change (on_header incr_live_items dst) with
    (Some (live_items (header dst),
           mkSegment (with_live_items (i32 (live_items (header dst) + 1)) (header dst)) (data dst))).
  cbn [mbind option_bind]. rewrite i32_id by done. destruct dst as [hd dd]. cbn [header data] in *.
  change (on_header (incr_live_bytes (esize p.2)) (mkSegment ?h ?d)) with
    (Some (live_bytes h, mkSegment (with_live_bytes (i32 (live_bytes h + esize p.2)) h) d)).
  change (live_bytes (with_live_items (live_items hd + 1) hd)) with (live_bytes hd).
  cbn [mbind option_bind]. by rewrite i32_id by done.
Qed.

(** Bytes [d'] that differ from [d] between [off] and [off + n] at most. *)
Definition outside (off n : Z) (d d' : bytes) : Prop :=
  blen d' = blen d /\
  forall o l, 0 <= o -> 0 <= l -> o + l <= off \/ off + n <= o -> slice o l d' = slice o l d.

Lemma outside_blit off bs d :
  0 <= off -> off + blen bs <= blen d -> outside off (blen bs) d (blit off bs d).
Proof.
  intros. split; [apply blen_blit|]. intros o l ? ? [?|?]; [by apply slice_blit_before|by apply slice_blit_after].
Qed.

(** A write of everything from [off] on that changes [n] bytes. *)
Lemma outside_rewrite off n d raw :
  0 <= off -> 0 <= n -> off + n <= blen d -> blen raw = blen d - off ->
  (forall o l, n <= o -> 0 <= l -> slice o l raw = slice o l (drop (Z.to_nat off) d)) ->
  outside off n d (blit off raw d) /\ drop (Z.to_nat off) (blit off raw d) = raw.
Proof.
  intros Ho Hn Hd Hr Hs. assert (drop (Z.to_nat off) (blit off raw d) = raw) as E.
  { rewrite blit_in by lia. unfold blen in *. rewrite drop_app_length' by (rewrite length_take; lia).
    by rewrite (drop_ge d), app_nil_r by lia. }
  split; [|done]. split; [apply blen_blit|]. intros o l Ho' Hl [?|?].
  - apply slice_blit_before; lia.
  - replace o with (off + (o - off)) by lia. rewrite <- !slice_drop, E by lia. apply Hs; lia.
Qed.

Lemma stored_outside e off n d d' (p : Z) :
  stored integrity e (drop (Z.to_nat p) d) -> outside off n d d' ->
  0 <= p -> p + esize e <= blen d -> p + esize e <= off \/ off + n <= p ->
  stored integrity e (drop (Z.to_nat p) d').
Proof.
  intros Hst [Hb Hs] Hp Hl Ho. pose proof (entry_size_bound integrity e) as (_ & _ & ? & _).
  eapply stored_prefix; [exact Hst| |].
  - rewrite blen_drop; lia.
  - rewrite !slice_drop, Z.add_0_r by lia. apply Hs; lia.
Qed.

(** Items are stored where the bytes are not written. *)
Lemma stored_elsewhere h s es di db off n d' (q : Z * Entry) :
  seg_ok h s es di db -> outside off n (data s) d' -> q ∈ laid es ->
  q.1 + esize q.2 <= off \/ off + n <= q.1 ->
  entry_ok q.2 /\ stored integrity q.2 (drop (Z.to_nat q.1) d').
Proof.
  intros Hs Ho Hq Hd. destruct (place_stored _ _ _ _ _ _ Hs Hq) as [? Hsq]. split; [done|].
  destruct (place_in _ _ _ _ _ _ Hs Hq) as (? & _ & ? & _ & ?). eapply stored_outside; done.
Qed.

Lemma check_magic_outside off n s hd d' :
  check_magic integrity s = true -> outside off n (data s) d' -> first <= off ->
  check_magic integrity (mkSegment hd d') = true.
Proof.
  intros Hm [_ Hs] Hf. revert Hm. unfold check_magic, magic. unfold first_offset in *.
  destruct integrity; [|done]. cbn [data]. by rewrite Hs by lia.
Qed.

Lemma laid_snoc_app es e : laid (es ++ [e]) = laid es ++ [(end_of es, e)].
Proof. by rewrite places_app. Qed.

(** An item is appended, and published ([pub]) or dead. *)
Lemma seg_ok_appended (pub : bool) h h' s hd d' es di db e :
  let s' := mkSegment hd d' in
  seg_ok h s es di db -> entry_ok e -> (pub = true -> e_deleted e = false) ->
  outside (end_of es) (esize e) (data s) d' -> stored integrity e (drop (Z.to_nat (end_of es)) d') ->
  Forall is_byte d' -> end_of es + esize e <= blen (data s) ->
  (forall k l, here s l = true -> l <> location s (end_of es) ->
     is_Some (get_item_frequency h' k l) <-> is_Some (get_item_frequency h k l)) ->
  (is_Some (get_item_frequency h' (e_key e) (location s (end_of es))) <-> pub = true) ->
  (forall k, is_Some (get_item_frequency h' k (location s (end_of es))) -> pub = true) ->
  same_place s s' -> write_offset hd = end_of es + esize e ->
  live_items hd = live_items (header s) + Z.b2z pub -> live_bytes hd = live_bytes (header s) + Z.b2z pub * esize e ->
  i32_range (dead_items hd) -> i32_range (dead_bytes hd) ->
  seg_ok h' s' (es ++ [e]) di db.
Proof.
  intros s' Hs He Hnd Hout Hst Hbytes Hfit Hg Hsome Hall Hsame Hwo Hli Hlb Hdi Hdb.
  pose proof (entry_size_bound integrity e) as (_ & _ & Hn & _).
  pose proof (total_esize es) as Hte. pose proof (proj1 first_bounds) as Hf.
  assert (first <= end_of es) as Hfe by (unfold end_of; lia).
  pose proof (end_issuable _ _ _ _ _ Hs ltac:(lia)) as Hiss.
  assert (forall q, live h' s' q = negb (is_none (get_item_frequency h' (e_key q.2) (location s q.1)))) as Hlive.
  { intros q. unfold live. by rewrite (same_place_location _ _ _ Hsame). }
  assert (forall q, q ∈ laid es -> location s q.1 <> location s (end_of es)) as Hne.
  { intros q Hq E. apply location_inj in E; [|by eapply place_issuable|done].
    destruct (place_in _ _ _ _ _ _ Hs Hq) as (_ & _ & ? & _).
    pose proof (entry_size_bound integrity q.2) as (_ & _ & ? & _). lia. }
  assert (forall q, q ∈ laid es -> live h' s' q = live h s q) as Hold.
  { intros q Hq. apply eq_bool_prop_intro.
    rewrite !Is_true_true, !live_some, (same_place_location _ _ _ Hsame).
    apply Hg; [by eapply issuable_here, place_issuable|auto]. }
  assert (live h' s' (end_of es, e) = pub) as Hnew.
  { apply eq_bool_prop_intro. rewrite !Is_true_true, live_some. cbn [fst snd].
    by rewrite (same_place_location _ _ _ Hsame). }
  pose proof (laid_snoc_app es e) as El.
  pose proof Hs as [X1 X2 X3 X4 X5 X6 X7 X8 X9 X10 X11 X12]. pose proof Hsame as [Hid Hgen].
  destruct Hout as [Hb Hkeep].
  split; rewrite ?Hid, ?Hgen, ?El; cbn [header data s']; rewrite ?Hb; try done.
  - eapply check_magic_outside; [done|by split|done].
  - rewrite end_of_snoc. by split.
  - rewrite Forall_app, Forall_singleton. split; [|done]. apply Forall_forall. intros q Hq.
    eapply stored_elsewhere; [done|by split|done|]. left. apply (place_in _ _ _ _ _ _ Hs Hq).
  - by destruct es.
  - intros k l f Hfr Hh. rewrite (same_place_here _ _ _ Hsame) in Hh.
    destruct (decide (l = location s (end_of es))) as [->|Hl].
    + pose proof (Hall k (mk_is_Some _ _ Hfr)) as Hpub. exists (end_of es, e). split; [apply elem_of_app; right; by apply list_elem_of_singleton|].
      rewrite (same_place_location _ _ _ Hsame), Hnew. auto.
    + destruct (proj1 (Hg k l Hh Hl) (mk_is_Some _ _ Hfr)) as [f' Hf'].
      destruct (X9 k l f' Hf' Hh) as (q & Hq & -> & Hlq & Hd). exists q.
      split; [apply elem_of_app; by left|]. rewrite (same_place_location _ _ _ Hsame), Hold; done.
  - rewrite Hli. destruct X10 as [-> ?]. split; [|done]. unfold live_count.
    rewrite El, total_app. cbn [total]. rewrite Hnew.
    rewrite (total_ext (fun q => Z.b2z (live h' s' q)) (fun q => Z.b2z (live h s q))); [lia|].
    intros q Hq. by rewrite Hold.
  - rewrite Hlb. destruct X11 as [-> ?]. split; [|done]. unfold live_size.
    rewrite El, total_app. cbn [total snd]. rewrite Hnew.
    rewrite (total_ext (fun q => Z.b2z (live h' s' q) * esize q.2)
      (fun q => Z.b2z (live h s q) * esize q.2)); [lia|].
    intros q Hq. by rewrite Hold.
Qed.

(** The same, by a copy of the item's bytes. *)
Lemma seg_ok_linked h h' d hd es di db e buf (g : bytes -> option Z) :
  let d' := mkSegment hd (blit (end_of es) (slice 0 (esize e) buf) (data d)) in
  seg_ok h d es di db -> entry_ok e -> e_deleted e = false -> stored integrity e buf ->
  esize e <= blen buf -> Forall is_byte buf -> end_of es + esize e <= blen (data d) ->
  (forall k l, here d l = true ->
     get_item_frequency h' k l =
       if l =? location d (end_of es) then g k else get_item_frequency h k l) ->
  is_Some (g (e_key e)) ->
  same_place d d' -> write_offset hd = end_of es + esize e ->
  live_items hd = live_items (header d) + 1 -> live_bytes hd = live_bytes (header d) + esize e ->
  i32_range (dead_items hd) -> i32_range (dead_bytes hd) ->
  seg_ok h' d' (es ++ [e]) di db.
Proof.
  intros d' Hs He Hnd Hst Hbuf Hbytes Hfit Hg Hsome Hsame Hwo Hli Hlb Hdi Hdb.
  pose proof (entry_size_bound integrity e) as (_ & _ & Hn & _).
  assert (blen (slice 0 (esize e) buf) = esize e) as Hsl by (apply blen_slice; lia).
  pose proof (total_esize es) as Hte. pose proof (proj1 first_bounds) as Hf.
  assert (0 <= end_of es) by (unfold end_of; lia).
  pose proof (end_issuable _ _ _ _ _ Hs ltac:(lia)) as Hiss.
  apply (seg_ok_appended true h h' d); try done.
  - rewrite <- Hsl at 1. apply outside_blit; lia.
  - eapply stored_prefix; [exact Hst| |].
    + rewrite blen_drop; rewrite ?blen_blit; lia.
    + rewrite slice_drop, Z.add_0_r by lia. apply slice_blit_eq; lia.
  - pose proof (ok_bytes _ _ _ _ _ Hs). auto with bytes_len.
  - intros k l Hl Hne. by rewrite Hg, (proj2 (Z.eqb_neq _ _)).
  - rewrite Hg, Z.eqb_refl by by apply issuable_here. done.
  - cbn [Z.b2z]. lia.
Qed.

(** *** An item rewritten where it lies *)

Lemma laid_inv (es : list Entry) off e :
  (off, e) ∈ laid es -> exists es1 es2, es = es1 ++ e :: es2 /\ off = end_of es1.
Proof.
  unfold end_of. generalize first. induction es as [|e0 es IH]; intros o Hp; cbn [places] in Hp.
  { by apply not_elem_of_nil in Hp. }
  apply elem_of_cons in Hp as [Hp|Hp].
  - injection Hp as -> ->. exists [], es. split; [done|]. cbn [total]. lia.
  - destruct (IH _ Hp) as (es1 & es2 & -> & ->). exists (e0 :: es1), es2. split; [done|]. cbn [total]. lia.
Qed.

Lemma laid_around es1 e es2 :
  laid (es1 ++ e :: es2) = laid es1 ++ (end_of es1, e) :: places (end_of es1 + esize e) es2.
Proof. by rewrite places_app. Qed.

Lemma seg_ok_rewritten h s d' es1 e e' es2 di db :
  seg_ok h s (es1 ++ e :: es2) di db ->
  entry_ok e' -> e_key e' = e_key e -> esize e' = esize e ->
  outside (end_of es1) (esize e) (data s) d' -> Forall is_byte d' ->
  stored integrity e' (drop (Z.to_nat (end_of es1)) d') ->
  (e_deleted e' = false \/ unpublished h (location s (end_of es1))) ->
  seg_ok h (mkSegment (header s) d') (es1 ++ e' :: es2) di db.
Proof.
  intros Hs He Ek En Hout Hbytes Hst Hdel. set (s' := mkSegment (header s) d').
  pose proof (laid_around es1 e es2) as El. pose proof (laid_around es1 e' es2) as El'. rewrite En in El'.
  assert (forall q, live h s' q = live h s q) as Hlive by done.
  assert (live h s (end_of es1, e') = live h s (end_of es1, e)) as Hthis by (unfold live; cbn [fst snd]; by rewrite Ek).
  assert (end_of (es1 ++ e' :: es2) = end_of (es1 ++ e :: es2)) as Eend.
  { unfold end_of. rewrite !total_app. cbn [total]. by rewrite En. }
  assert (forall q, q ∈ laid es1 ++ places (end_of es1 + esize e) es2 ->
    q ∈ laid (es1 ++ e :: es2) /\ (q.1 + esize q.2 <= end_of es1 \/ end_of es1 + esize e <= q.1)) as Hother.
  { intros q [Hq|Hq]%elem_of_app; rewrite El.
    - split; [set_solver|]. left. by apply places_bounds in Hq as (_ & ? & _).
    - split; [set_solver|]. right. by apply places_bounds in Hq as (? & _). }
  pose proof Hs as [X1 X2 X3 X4 X5 X6 X7 X8 X9 X10 X11 X12]. pose proof Hout as [Hb Hkeep].
  split; cbn [header data s']; rewrite ?Hb, ?Eend; try done.
  - eapply check_magic_outside; [done|exact Hout|]. pose proof (total_esize es1). unfold end_of. lia.
  - rewrite El', Forall_app, Forall_cons. rewrite El, Forall_app, Forall_cons in X7.
    split; [|split; [done|]]; apply Forall_forall; intros q Hq;
      (destruct (Hother q) as [? ?]; [set_solver|]; by eapply stored_elsewhere).
  - by destruct es1.
  - intros k l f Hf Hl. destruct (X9 k l f Hf Hl) as (q & Hq & -> & Hlq & Hd).
    rewrite El, elem_of_app, elem_of_cons in Hq. destruct Hq as [Hq|[->|Hq]].
    + exists q. rewrite El'. split; [set_solver|done].
    + exists (end_of es1, e'). rewrite El'. split; [set_solver|]. split; [done|].
      split; [by rewrite Hlive, Hthis|]. destruct Hdel as [|Hu]; [done|].
      cbn [fst] in Hf. by rewrite Hu in Hf.
    + exists q. rewrite El'. split; [set_solver|done].
  - destruct X10 as [-> ?]. split; [|done]. unfold live_count. rewrite El, El', !total_app. cbn [total].
    by rewrite (Hlive (end_of es1, e')), Hthis.
  - destruct X11 as [-> ?]. split; [|done]. unfold live_size. rewrite El, El', !total_app. cbn [total snd].
    by rewrite (Hlive (end_of es1, e')), Hthis, En.
Qed.

(** *** Walking the items *)

Lemma max_offset_eq h s es di db :
  seg_ok h s es di db ->
  max_item_offset integrity s = match es with [] => first | _ => end_of es - ITEM_HDR_SIZE integrity end.
Proof.
  intros Hs. destruct (seg_length _ _ _ _ _ Hs) as (_ & _ & ? & Hw).
  unfold max_item_offset. rewrite Hw. destruct es as [|e es].
  - unfold end_of. cbn [total]. rewrite Z.add_0_r. unfold first_offset, ITEM_HDR_SIZE. by destruct integrity.
  - rewrite Z.min_l by lia. pose proof (total_esize es). pose proof (proj1 first_bounds).
    pose proof (entry_size_bound integrity e). unfold end_of in *. cbn [total] in *.
    by rewrite (proj2 (Z.leb_le _ _)) by lia.
Qed.

(** What a scan reads at a place. *)
Record reads s p : Prop := {
  read_item : get_item_at integrity p.1 s = Some (item_at s p.1);
  read_some : (klen integrity (item_at s p.1) =? 0) = false;
  read_klen : 0 < klen integrity (item_at s p.1);
  read_magic : KvItem.check_magic integrity (item_at s p.1) = true;
  read_key : key integrity (item_at s p.1) = e_key p.2;
  read_size : size integrity (item_at s p.1) = esize p.2;
  read_deleted : is_deleted integrity (item_at s p.1) = e_deleted p.2
}.

Lemma place_reads h s es di db p : seg_ok h s es di db -> p ∈ laid es -> reads s p.
Proof.
  intros Hs Hp. destruct (place_stored _ _ _ _ _ _ Hs Hp) as [Hok Hst].
  destruct (place_in _ _ _ _ _ _ Hs Hp) as (? & ? & ? & _ & ?).
  pose proof (entry_size_bound integrity p.2). pose proof (entry_key _ Hok).
  pose proof (holds_klen _ _ _ _ _ _ _ Hst) as Ek. pose proof (entry_args _ Hok).
  split.
  - unfold get_item_at. rewrite (max_offset_eq _ _ _ _ _ Hs).
    destruct es as [|e es]; [by apply not_elem_of_nil in Hp|].
    by rewrite (proj2 (Z.leb_le _ _)) by lia.
  - rewrite Ek. apply Z.eqb_neq. lia.
  - by rewrite Ek.
  - by eapply holds_check_magic.
  - by eapply holds_read_key.
  - by apply stored_size.
  - by eapply holds_deleted.
Qed.

Lemma laid_split es1 e es2 : (end_of es1, e) ∈ laid (es1 ++ e :: es2).
Proof. rewrite places_app. apply elem_of_app. right. by left. Qed.

(** What a scan reads behind the magic bytes of a segment without items. *)
Lemma get_uint_nonneg n off (buf : bytes) : Forall is_byte buf -> 0 <= get_uint n off buf.
Proof.
  intros Hb. unfold get_uint.
  apply (le_value_bounds (slice off (Z.of_nat n) buf)). by apply Forall_slice.
Qed.

Lemma residue_size (buf : bytes) : Forall is_byte buf -> 0 < size integrity buf.
Proof.
  intros Hb. unfold size. bits_arith.
  pose proof (get_uint_nonneg 1 (KLEN_OFFSET integrity) buf Hb : 0 <= klen integrity buf).
  pose proof (get_uint_nonneg 4 (VLEN_OFFSET integrity) buf Hb : 0 <= vlen integrity buf).
  pose proof (pad_bound integrity (klen integrity buf) (olen integrity buf)).
  assert (0 <= olen integrity buf).
  { unfold olen. apply Z.land_nonneg. left. apply get_uint_nonneg, Hb. }
  assert (6 <= ITEM_HDR_SIZE integrity) by (unfold ITEM_HDR_SIZE; destruct integrity; lia).
  destruct (is_numeric integrity buf); dm.
Qed.

Lemma residue_reads h s di db :
  seg_ok h s [] di db ->
  let item := item_at s first in
  get_item_at integrity first s = Some item /\ max_item_offset integrity s = first /\
  (klen integrity item = 0 /\ live_items (header s) = 0 \/
   (klen integrity item =? 0) = false /\ 0 < klen integrity item /\
   KvItem.check_magic integrity item = true /\ 0 < size integrity item /\
   forall k, get_item_frequency h k (location s first) = None).
Proof.
  intros Hs item. destruct (seg_length _ _ _ _ _ Hs) as (? & ? & _ & _).
  pose proof (max_offset_eq _ _ _ _ _ Hs) as Em. cbn in Em. pose proof (proj1 first_bounds).
  split; [unfold get_item_at; by rewrite Em, Z.leb_refl|]. split; [done|].
  assert (Forall is_byte item) as Hb by (apply Forall_drop, (ok_bytes _ _ _ _ _ Hs)).
  pose proof (ok_residue _ _ _ _ _ Hs eq_refl) as Hr. cbv zeta in Hr. fold item in Hr.
  destruct (Z.eqb_spec (klen integrity item) 0) as [|Hk]; [by left|right]. split; [done|].
  pose proof (get_uint_nonneg 1 (KLEN_OFFSET integrity) item Hb : 0 <= klen integrity item).
  split; [lia|]. split; [done|]. split; [by apply residue_size|]. intros k.
  assert (end_of [] = first) as <- by (unfold end_of; cbn [total]; lia).
  assert (6 <= ITEM_HDR_SIZE integrity) by (unfold ITEM_HDR_SIZE; destruct integrity; lia).
  eapply seg_ok_free; [done|done|]. eapply end_issuable; [done|].
  unfold end_of. cbn [total]. lia.
Qed.

(** The loop visits the items in order, each once, and comes to its end. *)
Lemma scan_ok {St R} h s es di db (I : list Entry -> St -> Prop) body (r : R) st max :
  seg_ok h s es di db ->
  (es <> [] -> end_of es - ITEM_HDR_SIZE integrity - 1 <= max < end_of es) ->
  I [] st ->
  (forall es1 e es2 st, es = es1 ++ e :: es2 -> I es1 st ->
     exists st', body (end_of es1) st = Some (Continue (end_of es1 + esize e) st') /\ I (es1 ++ [e]) st') ->
  (es = [] -> max < first \/ body first st = Some (Stop st r) \/
     exists off, body first st = Some (Continue off st) /\ max < off) ->
  exists st', scan (laps_of s) max body r first st = Some (st', r) /\ I es st'.
Proof.
  intros Hs Hmax HI Hstep Hempty. destruct (seg_length _ _ _ _ _ Hs) as (_ & Hroom & He & _).
  destruct (first_bounds) as [Hf _]. unfold laps_of. destruct es as [|e0 es0] eqn:Ees.
  { exists st. split; [|done]. cbn [scan].
    destruct (Z.ltb_spec max first) as [|Hm]; [done|].
    destruct (Hempty eq_refl) as [|[->|(off & -> & ?)]]; [lia|done|].
    cbn [mbind option_bind]. destruct (length (data s)) eqn:El.
    - unfold blen in Hroom. rewrite El in Hroom. unfold ITEM_HDR_SIZE in Hroom.
      destruct integrity; lia.
    - cbn [scan]. by rewrite (proj2 (Z.ltb_lt _ _)). }
  rewrite <- Ees in *. assert (es <> []) as Hne by by subst. specialize (Hmax Hne).
  assert (forall es2 es1 st fuel, es = es1 ++ es2 -> I es1 st -> total esize es2 < Z.of_nat fuel ->
    exists st', scan fuel max body r (end_of es1) st = Some (st', r) /\ I es st') as Hloop.
  { clear st HI Hempty. induction es2 as [|e es2 IH]; intros es1 st fuel Hes HI1 Hfuel.
    - rewrite app_nil_r in Hes. subst es1. cbn [total] in Hfuel.
      destruct fuel as [|fuel]; [lia|]. cbn [scan]. rewrite (proj2 (Z.ltb_lt _ _)) by lia. eauto.
    - destruct fuel as [|fuel]; [pose proof (total_esize (e :: es2)); lia|]. cbn [scan].
      pose proof (entry_size_bound integrity e) as (_ & Hh & H8 & _).
      cbn [total] in Hfuel. pose proof (total_esize es2).
      assert (end_of es = end_of es1 + esize e + total esize es2) as Eend
        by (rewrite Hes; unfold end_of; rewrite total_app; cbn [total]; lia).
      rewrite (proj2 (Z.ltb_ge _ _)) by lia.
      destruct (Hstep es1 e es2 st Hes HI1) as (st1 & -> & HI2). cbn [mbind option_bind].
      rewrite <- end_of_snoc. apply IH; [by rewrite <- app_assoc|done|lia]. }
  assert (end_of [] = first) as <- by (unfold end_of; cbn [total]; lia).
  apply (Hloop es []); [done..|]. unfold end_of, blen in *. lia.
Qed.

(** ** [clear] *)

Section Clear.
Context (debug_assertions : bool) (h0 : H) (s0 : Segment) (es : list Entry) (di db : Z).
Context (Hs0 : seg_ok h0 s0 es di db) (Hh0 : ht_inv h0).

(** Only the live and dead counters of the header change. *)
Definition counters_only (hd hd' : SegmentHeader) : Prop :=
  hd' = with_live_items (live_items hd') (with_live_bytes (live_bytes hd')
    (with_dead_items (dead_items hd') (with_dead_bytes (dead_bytes hd') hd))).

(** What left the live side went to the dead side. *)
Definition dead_charged (hd hd' : SegmentHeader) : Prop :=
  dead_items hd' = i32 (dead_items hd + (live_items hd - live_items hd')) /\
  dead_bytes hd' = i32 (dead_bytes hd + (live_bytes hd - live_bytes hd')).

Definition at_one_of s es1 (l : Z) : bool := existsb (fun p => l =? location s p.1) (laid es1).

(** The items unlinked so far, and the segment. *)
Definition unlinking (gone : Z -> bool) (st : Segment * H) : Prop :=
  let '(s, h) := st in
  ht_inv h /\ seg_ok h s es di db /\ data s = data s0 /\
  counters_only (header s0) (header s) /\ dead_charged (header s0) (header s) /\
  forall k l, get_item_frequency h k l = if gone l then None else get_item_frequency h0 k l.

Lemma counters_only_refl hd : counters_only hd hd.
Proof. unfold counters_only. by destruct hd. Qed.

Lemma unlinking_start : unlinking (fun _ => false) (s0, h0).
Proof.
  split; [done|]. split; [done|]. split; [done|]. split; [apply counters_only_refl|]. split; [|done].
  destruct (ok_dead _ _ _ _ _ Hs0). unfold dead_charged. rewrite !Z.sub_diag, !Z.add_0_r.
  by rewrite !i32_id.
Qed.

Lemma counters_only_place s : counters_only (header s0) (header s) ->
  same_place s0 s /\ write_offset (header s) = write_offset (header s0).
Proof. intros Hc. split; [split|]; rewrite Hc; done. Qed.

Lemma debited_charged n hd0 hd :
  counters_only hd0 hd -> dead_charged hd0 hd ->
  counters_only hd0 (debited n hd) /\ dead_charged hd0 (debited n hd).
Proof.
  intros Hc [Hi Hb]. split.
  - unfold counters_only in *. by rewrite Hc at 1.
  - unfold dead_charged.
    change (dead_items (debited n hd)) with (i32 (dead_items hd + 1)).
    change (dead_bytes (debited n hd)) with (i32 (dead_bytes hd + n)).
    change (live_items (debited n hd)) with (live_items hd - 1).
    change (live_bytes (debited n hd)) with (live_bytes hd - n).
    rewrite Hi, Hb. unfold i32, wrap. pow2. split; dm.
Qed.

(** One item is unlinked, with everything it takes. *)
Lemma unlink_step gone s h p :
  unlinking gone (s, h) -> p ∈ laid es -> live h s p = true ->
  exists h', remove h (e_key p.2) (location s p.1) = (true, h') /\
    remove_item_at integrity p.1 s = Some (mkSegment (debited (esize p.2) (header s)) (data s)) /\
    unlinking (fun l => gone l || (l =? location s0 p.1))
      (mkSegment (debited (esize p.2) (header s)) (data s), h').
Proof.
  intros (Hi & Hs & Hd & Hc & Hdc & Hg) Hp Hl.
  destruct (counters_only_place _ Hc) as [Hsame Hwo].
  destruct (proj1 (live_some _ _ _) Hl) as [f Hf].
  destruct (remove_published h (e_key p.2) (location s p.1) f Hi Hf) as (h' & Hr & Hi' & Hg').
  exists h'. split; [done|]. split; [by eapply remove_item_at_eq|].
  destruct (debited_charged (esize p.2) _ _ Hc Hdc) as [Hc' Hdc'].
  split; [done|]. split; [|split; [done|]; split; [done|]; split; [done|]].
  - apply (seg_ok_unlinked h h' s (debited (esize p.2) (header s)) es di db p); try done.
    + apply i32_in_range.
    + apply i32_in_range.
  - intros k l. rewrite Hg', Hg, (same_place_location _ _ _ Hsame).
    by destruct (l =? location s0 p.1), (gone l).
Qed.

(** An item that is not published leaves the set of them as it is. *)
Lemma unlinking_skip gone s h p :
  unlinking gone (s, h) -> p ∈ laid es -> live h s p = false ->
  unlinking (fun l => gone l || (l =? location s0 p.1)) (s, h).
Proof.
  intros (Hi & Hs & Hd & Hc & Hdc & Hg) Hp Hl.
  destruct (counters_only_place _ Hc) as [Hsame Hwo].
  do 5 (split; [done|]). intros k l. rewrite Hg. destruct (gone l) eqn:Eg; [done|]. cbn [orb].
  destruct (Z.eqb_spec l (location s0 p.1)) as [->|]; [|done].
  destruct (get_item_frequency h0 k (location s0 p.1)) as [f|] eqn:E; [|done]. exfalso.
  rewrite <- (same_place_location _ _ _ Hsame) in E.
  assert (get_item_frequency h k (location s p.1) = Some f) as E'.
  { rewrite Hg, (same_place_location _ _ _ Hsame), Eg.
    by rewrite (same_place_location _ _ _ Hsame) in E. }
  destruct (ok_published _ _ _ _ _ Hs k _ f E') as (q & Hq & El & Hlq & _);
    [by eapply issuable_here, place_issuable|].
  apply location_inj in El; [|by eapply place_issuable..].
  apply (places_same_offset _ _ _ _ Hp) in El; [|done]. congruence.
Qed.

Lemma at_one_snoc es1 e l : at_one_of s0 (es1 ++ [e]) l = at_one_of s0 es1 l || (l =? location s0 (end_of es1)).
Proof. unfold at_one_of. rewrite places_app, existsb_app. cbn [places existsb fst]. by rewrite orb_false_r. Qed.

Lemma unlinking_ext gone gone' st : (forall l, gone' l = gone l) -> unlinking gone st -> unlinking gone' st.
Proof.
  intros E. destruct st as [s h]. intros (? & ? & ? & ? & ? & Hg). do 5 (split; [done|]).
  intros k l. by rewrite E.
Qed.

Lemma clear_item_step es1 e es2 st :
  es = es1 ++ e :: es2 -> unlinking (at_one_of s0 es1) st ->
  exists st', clear_item integrity debug_assertions (end_of es1) st =
    Some (Continue (end_of es1 + esize e) st') /\ unlinking (at_one_of s0 (es1 ++ [e])) st'.
Proof.
  intros Ees Hu. destruct st as [s h]. set (p := (end_of es1, e)).
  assert (p ∈ laid es) as Hp by (rewrite Ees; apply laid_split).
  pose proof Hu as (_ & Hs & _ & _ & _ & _).
  destruct (place_reads _ _ _ _ _ _ Hs Hp) as [R1 R2 R3 R4 R5 R6 R7]. subst p. cbn [fst snd] in *.
  unfold clear_item. rewrite R1. cbn [mbind option_bind]. rewrite R2, R4. cbn [andb guard mbind option_bind].
  rewrite (proj2 (Z.ltb_lt _ _)) by done.
  unfold debug_assert. rewrite orb_true_r. cbn [guard mbind option_bind]. rewrite R5, R6.
  assert (forall s' h', seg_ok h' s' es di db ->
    0 <=? live_items (header s') = true /\ 0 <=? live_bytes (header s') = true) as Hpos.
  { intros s' h' Hs'. destruct (seg_counts _ _ _ _ _ Hs') as (? & ? & _). pose proof (proj1 first_bounds).
    destruct (ok_items _ _ _ _ _ Hs') as [-> ?]. destruct (ok_size _ _ _ _ _ Hs') as [-> ?].
    split; apply Z.leb_le; lia. }
  destruct (live h s (end_of es1, e)) eqn:El; unfold live in El; cbn [fst snd] in El.
  - rewrite (proj1 (negb_true_iff _) El).
    destruct (unlink_step _ s h _ Hu Hp El) as (h' & Hrh & Hrm & Hu'). cbn [fst snd] in *.
    rewrite Hrh, Hrm. cbn [mbind option_bind].
    destruct (Hpos _ h' (proj1 (proj2 Hu'))) as [-> ->]. rewrite orb_true_r. cbn [guard mbind option_bind].
    eexists. split; [done|]. eapply unlinking_ext; [apply at_one_snoc|done].
  - rewrite (proj1 (negb_false_iff _) El). cbn [mbind option_bind].
    destruct (Hpos s h Hs) as [-> ->]. rewrite orb_true_r. cbn [guard mbind option_bind].
    eexists. split; [done|]. eapply unlinking_ext; [apply at_one_snoc|].
    by apply (unlinking_skip _ s h _ Hu Hp).
Qed.

Lemma scanned_all gone h l k :
  unlinking (at_one_of s0 es) (gone, h) ->
  get_item_frequency h k l = if here s0 l then None else get_item_frequency h0 k l.
Proof.
  intros (_ & _ & _ & _ & _ & Hg). rewrite Hg. unfold at_one_of.
  destruct (existsb _ _) eqn:Ex; destruct (here s0 l) eqn:Eh; try done.
  - exfalso. apply existsb_exists in Ex as (p & Hp & ->%Z.eqb_eq). rewrite <- list_elem_of_In in Hp.
    rewrite issuable_here in Eh; [done|]. by eapply place_issuable.
  - destruct (get_item_frequency h0 k l) as [f|] eqn:E; [|done]. exfalso.
    destruct (ok_published _ _ _ _ _ Hs0 k l f E Eh) as (p & Hp & -> & _).
    assert (existsb (fun q => location s0 p.1 =? location s0 q.1) (laid es) = true) as Hx; [|congruence].
    apply existsb_exists. exists p. rewrite <- list_elem_of_In. split; [done|apply Z.eqb_refl].
Qed.

(** Claimed by the drain that clears it. *)
Definition is_draining s : Prop :=
  exists m, unpack (metadata (header s)) = Some m /\ state m = Draining.

Lemma assert_draining_ok s : is_draining s -> assert_draining debug_assertions s = Some tt.
Proof.
  intros (m & Em & Es). unfold assert_draining. destruct debug_assertions; [|done].
  assert (run read_state (header s) = Some (state m, header s)) as E.
  { apply seq_run_run. unfold read_state, load_metadata. eapply seq_bind; [|apply seq_ret].
    eapply seq_bind; [apply seq_load|by apply seq_unwrap]. }
  unfold on_header. rewrite E. cbn [mbind option_bind]. rewrite Es. by rewrite bool_decide_eq_true_2.
Qed.

Lemma clear_effect :
  is_draining s0 ->
  exists s h, clear integrity debug_assertions s0 h0 = Some (s, h) /\ ht_inv h /\
    (forall k l, get_item_frequency h k l = if here s0 l then None else get_item_frequency h0 k l) /\
    data s = data s0 /\ live_items (header s) = di /\ live_bytes (header s) = first + db /\
    write_offset (header s) = first + db /\ dead_charged (header s0) (header s) /\
    exists hd, counters_only (header s0) hd /\ header s = with_write_offset (live_bytes hd) hd.
Proof.
  intros Hdr. pose proof (max_offset_eq _ _ _ _ _ Hs0) as Em.
  destruct (scan_ok h0 s0 es di db (fun es1 => unlinking (at_one_of s0 es1))
    (clear_item integrity debug_assertions) tt (s0, h0) (max_item_offset integrity s0) Hs0)
    as ([s h] & Hscan & Hu).
  - intros Hne. rewrite Em. destruct es; [done|].
    assert (6 <= ITEM_HDR_SIZE integrity) by (unfold ITEM_HDR_SIZE; destruct integrity; lia). lia.
  - apply unlinking_start.
  - intros es1 e es2 st E Hu. by eapply clear_item_step.
  - intros ->. right. destruct (residue_reads _ _ _ _ Hs0) as (R1 & R2 & R3). rewrite R2.
    unfold clear_item. rewrite R1. cbn [mbind option_bind].
    destruct R3 as [[-> ->]|(R3 & R4 & R5 & R6 & R7)]; [by left|right].
    rewrite R3, R5, R7, (proj2 (Z.ltb_lt _ _) R4). cbn [andb guard mbind option_bind is_none].
    unfold debug_assert. rewrite orb_true_r. cbn [guard mbind option_bind].
    destruct (seg_counts _ _ _ _ _ Hs0) as (? & ? & _). pose proof (proj1 first_bounds).
    destruct (ok_items _ _ _ _ _ Hs0) as [Hi ?]. destruct (ok_size _ _ _ _ _ Hs0) as [Hb ?].
    rewrite !(proj2 (Z.leb_le _ _)) by lia. rewrite orb_true_r. cbn [guard mbind option_bind].
    eexists. split; [done|]. lia.
  - pose proof Hu as (Hi & Hs & Hd & Hc & Hdc & _).
    assert (forall p, p ∈ laid es -> live h s p = false) as Hdead.
    { intros p Hp. unfold live. destruct (counters_only_place _ Hc) as [Hsame _].
      rewrite (scanned_all _ _ _ _ Hu), (same_place_location _ _ _ Hsame).
      by rewrite issuable_here by (by eapply place_issuable). }
    assert (live_count h s es = 0 /\ live_size h s es = 0) as [Ec Ez].
    { unfold live_count, live_size. split;
        (rewrite (total_ext _ (fun _ => 0)) by (intros p Hp; by rewrite Hdead);
         generalize (laid es); intros l; induction l; cbn [total]; lia). }
    destruct (ok_items _ _ _ _ _ Hs) as [Eli _]. destruct (ok_size _ _ _ _ _ Hs) as [Elb _].
    unfold clear. rewrite assert_draining_ok by done. cbn [mbind option_bind]. rewrite Hscan. cbn [mbind option_bind].
    change (on_header (store with_write_offset (live_bytes (header s))) s)
      with (Some (tt, mkSegment (with_write_offset (live_bytes (header s)) (header s)) (data s))).
    cbn [mbind option_bind]. eexists _, _. split; [done|]. split; [done|].
    split; [intros k l; by eapply scanned_all|]. cbn [header data].
    change (live_items (with_write_offset ?x ?y)) with (live_items y).
    change (live_bytes (with_write_offset ?x ?y)) with (live_bytes y).
    change (write_offset (with_write_offset ?x ?y)) with x.
    split; [done|]. split; [lia|]. split; [lia|]. split; [lia|]. split; [done|]. eauto.
Qed.
End Clear.

(** ** Relocation *)

(** The items that move, in order, with the offset each gets: those [want]
    selects while there is room for them below [cap]. *)
Fixpoint plan (want : Z * Entry -> bool) (cap wo : Z) (l : list (Z * Entry)) : list (Z * (Z * Entry)) :=
  match l with
  | [] => []
  | p :: l =>
      if want p && (wo + esize p.2 <? cap)
      then (wo, p) :: plan want cap (wo + esize p.2) l
      else plan want cap wo l
  end.

Definition moved_entries (ms : list (Z * (Z * Entry))) : list Entry := map (fun m => m.2.2) ms.

Lemma plan_snoc want cap wo l p :
  plan want cap wo (l ++ [p]) =
    plan want cap wo l ++
      (let wo' := wo + total esize (moved_entries (plan want cap wo l)) in
       if want p && (wo' + esize p.2 <? cap) then [(wo', p)] else []).
Proof.
  revert wo. induction l as [|q l IH]; intros wo; cbn [plan app].
  - cbn [moved_entries map total]. rewrite Z.add_0_r. by destruct (_ && _).
  - destruct (want q && (wo + esize q.2 <? cap)).
    + rewrite IH. cbn [moved_entries map total app snd]. by rewrite Z.add_assoc.
    + apply IH.
Qed.

Lemma plan_in want cap wo l m :
  m ∈ plan want cap wo l ->
  m.2 ∈ l /\ want m.2 = true /\ wo <= m.1 /\
  m.1 + esize m.2.2 <= wo + total esize (moved_entries (plan want cap wo l)).
Proof.
  revert wo. induction l as [|q l IH]; intros wo Hm; cbn [plan] in *.
  { by apply not_elem_of_nil in Hm. }
  destruct (want q && (wo + esize q.2 <? cap)) eqn:E.
  - pose proof (total_esize (moved_entries (plan want cap (wo + esize q.2) l))).
    pose proof (entry_size_bound integrity q.2). unfold moved_entries in *. cbn [map total snd].
    apply elem_of_cons in Hm as [->|Hm]; cbn [fst snd].
    + apply andb_true_iff in E as [? _]. split; [by left|]. split; [done|]. lia.
    + destruct (IH _ Hm) as (? & ? & ? & ?). split; [by right|]. split; [done|]. lia.
  - destruct (IH _ Hm) as (? & ? & ? & ?). split; [by right|]. done.
Qed.

Section Relocation.
Context (h0 : H) (src0 dst0 : Segment) (es ed : list Entry) (dis dbs did dbd : Z).
Context (want : Z * Entry -> bool) (r : RelinkFreq).
Context (Hh0 : ht_inv h0) (Hsrc0 : seg_ok h0 src0 es dis dbs) (Hdst0 : seg_ok h0 dst0 ed did dbd).
Context (Hids : id (header src0) <> id (header dst0)).
Context (Hwant : forall p, p ∈ laid es -> want p = true -> live h0 src0 p = true).

Definition moves es1 : list (Z * (Z * Entry)) :=
  plan want (blen (data dst0)) (end_of ed) (laid es1).

(** The entries of the moved items are at their new locations, and gone from
    the old ones; everything else is published as it was. *)
Definition relocated_index (ms : list (Z * (Z * Entry))) h : Prop :=
  (forall m k, m ∈ ms -> get_item_frequency h k (location dst0 m.1) =
     relink_freq r <$> get_item_frequency h0 k (location src0 m.2.1)) /\
  (forall m k, m ∈ ms -> get_item_frequency h k (location src0 m.2.1) = None) /\
  (forall k l, (forall m, m ∈ ms -> l <> location dst0 m.1 /\ l <> location src0 m.2.1) ->
     get_item_frequency h k l = get_item_frequency h0 k l).

Definition relocating es1 (st : Segment * Segment * H) : Prop :=
  let '(src, dst, h) := st in
  let ms := moves es1 in
  ht_inv h /\ seg_ok h src es dis dbs /\ seg_ok h dst (ed ++ moved_entries ms) did dbd /\
  data src = data src0 /\
  header src = with_live_bytes (live_bytes (header src))
    (with_live_items (live_items (header src)) (header src0)) /\
  blen (data dst) = blen (data dst0) /\
  slice 0 (end_of ed) (data dst) = slice 0 (end_of ed) (data dst0) /\
  header dst = with_write_offset (write_offset (header dst))
    (with_live_bytes (live_bytes (header dst))
      (with_live_items (live_items (header dst)) (header dst0))) /\
  relocated_index ms h.

Lemma relocating_start : relocating [] (src0, dst0, h0).
Proof.
  unfold relocating, moves, relocated_index. cbn [places plan moved_entries map]. rewrite app_nil_r.
  do 4 (split; [done|]). split; [by destruct (header src0)|]. do 2 (split; [done|]).
  split; [by destruct (header dst0)|]. split; [|split].
  - intros m k Hm. by apply not_elem_of_nil in Hm.
  - intros m k Hm. by apply not_elem_of_nil in Hm.
  - done.
Qed.

Lemma laid_snoc es1 e : laid (es1 ++ [e]) = laid es1 ++ [(end_of es1, e)].
Proof. by rewrite places_app. Qed.

Lemma moves_snoc es1 e :
  moves (es1 ++ [e]) = moves es1 ++
    (let wo := end_of (ed ++ moved_entries (moves es1)) in
     if want (end_of es1, e) && (wo + esize e <? blen (data dst0)) then [(wo, (end_of es1, e))] else []).
Proof.
  unfold moves. rewrite laid_snoc, plan_snoc. cbn [snd]. f_equal. cbv zeta.
  set (ms := plan _ _ _ _).
  by rewrite end_of_app.
Qed.

Lemma moves_in es1 es2 m : es = es1 ++ es2 -> m ∈ moves es1 ->
  m.2 ∈ laid es /\ m.2.1 < end_of es1 /\ want m.2 = true /\ end_of ed <= m.1 /\
  m.1 + esize m.2.2 <= end_of (ed ++ moved_entries (moves es1)).
Proof.
  intros E Hm. pose proof (plan_in _ _ _ _ _ Hm) as (H1 & H2 & H3 & H4).
  pose proof (places_bounds _ _ _ H1) as (_ & ? & _ & _).
  pose proof (entry_size_bound integrity m.2.2) as (_ & _ & ? & _).
  split; [rewrite E, places_app; apply elem_of_app; by left|].
  split; [unfold end_of; lia|]. split; [done|]. split; [done|]. by rewrite end_of_app.
Qed.

Lemma relocating_places es1 src dst h :
  relocating es1 (src, dst, h) -> same_place src0 src /\ same_place dst0 dst /\
  dead_items (header src) = dead_items (header src0) /\
  dead_bytes (header src) = dead_bytes (header src0).
Proof.
  intros (_ & _ & _ & _ & Es & _ & _ & Ed & _). split; [split; by rewrite Es|].
  split; [split; by rewrite Ed|]. by rewrite Es.
Qed.

Lemma src_dst_differ off off' :
  Location.issuable (id (header src0)) (generation (header src0)) off ->
  Location.issuable (id (header dst0)) (generation (header dst0)) off' ->
  location src0 off <> location dst0 off'.
Proof.
  intros Hi Hi' E. pose proof (issuable_here dst0 off' Hi') as Hd. rewrite <- E in Hd.
  rewrite (here_other src0 dst0) in Hd; [done..|]. by apply issuable_here.
Qed.

Lemma moved_placed es1 m :
  m ∈ moves es1 -> (m.1, m.2.2) ∈ laid (ed ++ moved_entries (moves es1)).
Proof.
  rewrite places_app. intros Hm. apply elem_of_app. right.
  change (first + total esize ed) with (end_of ed). unfold moves in *.
  revert Hm. generalize (end_of ed). generalize (laid es1). intros l.
  induction l as [|q l IH]; intros wo Hm; cbn [plan] in *; [by apply not_elem_of_nil in Hm|].
  destruct (_ && _); [|by apply IH]. unfold moved_entries in *. cbn [map places snd].
  apply elem_of_cons in Hm as [->|Hm]; [by left|right; by apply IH].
Qed.

(** The next item has not been touched yet. *)
Lemma untouched es1 e es2 src dst h k :
  es = es1 ++ e :: es2 -> relocating es1 (src, dst, h) ->
  get_item_frequency h k (location src0 (end_of es1)) =
    get_item_frequency h0 k (location src0 (end_of es1)).
Proof.
  intros E Hr. pose proof Hr as (_ & _ & Hd & _ & _ & Hcap & _ & _ & _ & _ & Hg).
  destruct (relocating_places _ _ _ _ Hr) as (_ & [Edi Edg] & _).
  assert ((end_of es1, e) ∈ laid es) as Hp by (rewrite E; apply laid_split).
  apply Hg. intros m Hm. pose proof Hm as Hpm.
  apply (moves_in es1 (e :: es2) m E) in Hm as (Hm & Hlt & _ & _ & _). split.
  - apply src_dst_differ; [by eapply (place_issuable _ _ _ _ _ _ Hsrc0 Hp)|].
    pose proof (moved_placed es1 m Hpm) as Hq.
    rewrite <- Edi, <- Edg. apply (place_issuable _ _ _ _ _ _ Hd Hq).
  - intros El. apply location_inj in El; [cbn in El; lia| |].
    + by apply (place_issuable _ _ _ _ _ _ Hsrc0 Hp).
    + by apply (place_issuable _ _ _ _ _ _ Hsrc0 Hm).
Qed.

Lemma still_live es1 e es2 src dst h :
  es = es1 ++ e :: es2 -> relocating es1 (src, dst, h) ->
  live h src (end_of es1, e) = live h0 src0 (end_of es1, e).
Proof.
  intros E Hr. destruct (relocating_places _ _ _ _ Hr) as (Hsame & _).
  unfold live. cbn [fst snd]. rewrite (same_place_location _ _ _ Hsame).
  by rewrite (untouched es1 e es2 src dst h) by done.
Qed.

(** The index after one more move. *)
Lemma relocated_index_snoc es1 e es2 src dst h h' wo :
  es = es1 ++ e :: es2 -> relocating es1 (src, dst, h) ->
  wo = end_of (ed ++ moved_entries (moves es1)) ->
  Location.issuable (id (header dst0)) (generation (header dst0)) wo ->
  (forall k l, get_item_frequency h' k l =
     if l =? location dst0 wo then relink_freq r <$> get_item_frequency h k (location src0 (end_of es1))
     else if l =? location src0 (end_of es1) then None else get_item_frequency h k l) ->
  relocated_index (moves es1 ++ [(wo, (end_of es1, e))]) h'.
Proof.
  intros E Hr Hwo Hi Hg. pose proof Hr as (_ & _ & Hd & _ & _ & _ & _ & _ & Ha & Hb & Hc).
  destruct (relocating_places _ _ _ _ Hr) as (_ & [Edi Edg] & _).
  assert (Location.issuable (id (header src0)) (generation (header src0)) (end_of es1)) as Hp.
  { apply (place_issuable _ _ _ _ _ (end_of es1, e) Hsrc0). rewrite E. apply laid_split. }
  assert (forall m, m ∈ moves es1 ->
    Location.issuable (id (header src0)) (generation (header src0)) m.2.1 /\ m.2.1 <> end_of es1 /\
    Location.issuable (id (header dst0)) (generation (header dst0)) m.1 /\ m.1 <> wo) as Hold.
  { intros m Hm. pose proof (moved_placed _ _ Hm) as Hq.
    pose proof (place_issuable _ _ _ _ _ _ Hd Hq) as Hiq. rewrite Edi, Edg in Hiq.
    apply (moves_in es1 (e :: es2) m E) in Hm as (Hm & ? & _ & _ & ?).
    pose proof (entry_size_bound integrity m.2.2) as (_ & _ & ? & _).
    split; [by apply (place_issuable _ _ _ _ _ _ Hsrc0 Hm)|]. split; [lia|]. split; [done|lia]. }
  assert (forall m, m ∈ moves es1 ->
    location dst0 m.1 =? location dst0 wo = false /\ location dst0 m.1 =? location src0 (end_of es1) = false /\
    location src0 m.2.1 =? location dst0 wo = false /\
    location src0 m.2.1 =? location src0 (end_of es1) = false) as Hne.
  { intros m Hm. destruct (Hold m Hm) as (? & ? & ? & ?). rewrite !Z.eqb_neq.
    split; [intros X; by apply location_inj in X|].
    split; [intros X; by apply (src_dst_differ (end_of es1) m.1)|].
    split; [by apply src_dst_differ|]. intros X. by apply location_inj in X. }
  split; [|split].
  - intros m k [Hm| ->%list_elem_of_singleton]%elem_of_app.
    + rewrite Hg. destruct (Hne m Hm) as (-> & -> & _). by apply Ha.
    + cbn [fst snd]. rewrite Hg, Z.eqb_refl. by rewrite (untouched es1 e es2 src dst h).
  - intros m k [Hm| ->%list_elem_of_singleton]%elem_of_app.
    + rewrite Hg. destruct (Hne m Hm) as (_ & _ & -> & ->). by apply Hb.
    + cbn [fst snd]. rewrite Hg, Z.eqb_refl. by destruct (_ =? _) eqn:X; [apply Z.eqb_eq, src_dst_differ in X|].
  - intros k l Hl. rewrite Hg.
    destruct (Hl (wo, (end_of es1, e))) as [Hl1 Hl2]; [apply elem_of_app; right; by apply list_elem_of_singleton|].
    cbn [fst snd] in *. rewrite !(proj2 (Z.eqb_neq _ _)) by done. apply Hc.
    intros m Hm. apply Hl, elem_of_app. by left.
Qed.

Lemma relocating_skip es1 e st :
  want (end_of es1, e) && (end_of (ed ++ moved_entries (moves es1)) + esize e <? blen (data dst0)) = false ->
  relocating es1 st -> relocating (es1 ++ [e]) st.
Proof.
  intros Hw. destruct st as [[src dst] h]. unfold relocating. rewrite moves_snoc. cbv zeta.
  by rewrite Hw, app_nil_r.
Qed.

(** One item moves. *)
Lemma relocate_step es1 e es2 src dst h :
  es = es1 ++ e :: es2 -> relocating es1 (src, dst, h) ->
  let wo := write_offset (header dst) in
  want (end_of es1, e) && (wo + esize e <? blen (data dst0)) = true ->
  exists src' dst1 dst' h',
    copy_and_relink integrity src dst h (end_of es1) wo r = Some (true, src, dst1, h') /\
    account_moved integrity src dst1 (end_of es1) wo (esize e) = Some (src', dst') /\
    relocating (es1 ++ [e]) (src', dst', h').
Proof.
  intros E Hr wo Hw. pose proof Hr as (Hi & Hs & Hd & Eds & Ehs & Hcap & Hpre & Ehd & Hix).
  destruct (relocating_places _ _ _ _ Hr) as (Hsame & Hsamed & Edead1 & Edead2).
  assert ((end_of es1, e) ∈ laid es) as Hp by (rewrite E; apply laid_split).
  apply andb_true_iff in Hw as [Hwp Hfit%Z.ltb_lt].
  pose proof (Hwant _ Hp Hwp) as Hl. rewrite <- (still_live es1 e es2 src dst h E Hr) in Hl.
  destruct (seg_length _ _ _ _ _ Hd) as (Hmax & _ & Hend & Ewo). fold wo in Ewo.
  set (ed' := ed ++ moved_entries (moves es1)) in *.
  destruct (place_stored _ _ _ _ _ _ Hs Hp) as [Hok Hst].
  destruct (place_in _ _ _ _ _ _ Hs Hp) as (Hp0 & _ & _ & _ & Hproom).
  destruct (place_in _ _ _ _ _ _ Hsrc0 Hp) as (_ & _ & _ & _ & Hproom0).
  cbn [fst snd] in Hok, Hst, Hp0, Hproom, Hproom0.
  pose proof (entry_size_bound integrity e) as (_ & _ & Hn & _).
  pose proof (end_issuable _ _ _ _ _ Hd ltac:(rewrite Hcap; lia)) as Hiss. rewrite <- Ewo in Hiss.
  assert (0 <= wo) as Hwo0 by (destruct Hiss as (_ & _ & ? & _); lia).
  destruct (proj1 (live_some _ _ _) Hl) as [f Hf]. cbn [fst snd] in Hf.
  destruct (cas_published h (e_key e) (location src (end_of es1)) (location dst wo) r f Hi Hf)
    as (h' & Hcas & Hi' & Hg').
  { exact (issuable_item_loc _ _ _ Hiss). }
  { eapply seg_ok_free; [exact Hd|lia|done]. }
  assert (e_deleted e = false) as Hnd by exact (live_not_deleted _ _ _ _ _ _ Hs Hp Hl).
  set (dst1 := write_at wo (slice 0 (esize e) (item_at src (end_of es1))) dst).
  exists (mkSegment (moved_out (esize e) (header src)) (data src)), dst1,
    (mkSegment (moved_in (esize e) (header dst)) (data dst1)), h'.
  rewrite (copy_and_relink_eq integrity src dst h (end_of es1) wo r e), Hcas by (done || lia).
  destruct (seg_counts _ _ _ _ _ Hd) as (? & ? & ?).
  destruct (ok_items _ _ _ _ _ Hd) as [Edi ?]. destruct (ok_size _ _ _ _ _ Hd) as [Edb ?].
  pose proof (proj1 first_bounds).
  split; [done|]. split.
  { apply (account_moved_eq h src es dis dbs (end_of es1, e) dst1 wo Hs Hp Hl); [done|..];
      change (header dst1) with (header dst); cbn [snd]; unfold i32_range; rewrite ?Edi, ?Edb; lia. }
  assert (blen (item_at src (end_of es1)) = blen (data src) - end_of es1) as Hbi
    by (apply blen_item_at; lia).
  destruct (ok_dead _ _ _ _ _ Hs). destruct (ok_dead _ _ _ _ _ Hd).
  assert (here src (location src (end_of es1)) = true) as Hhs
    by by apply issuable_here, (place_issuable _ _ _ _ _ _ Hs Hp).
  assert (here dst (location dst wo) = true) as Hhd by by apply issuable_here.
  assert (id (header src) <> id (header dst)) as Hids'
    by (destruct Hsame as [-> _], Hsamed as [-> _]; done).
  unfold relocating. rewrite moves_snoc. cbv zeta. fold ed'. rewrite <- Ewo.
  rewrite Hwp, (proj2 (Z.ltb_lt _ _)) by done. cbn [andb].
  split; [done|]. split; [|split; [|split; [done|split; [|split; [|split; [|split]]]]]].
  - apply (seg_ok_unlinked h h' src (moved_out (esize e) (header src)) es dis dbs (end_of es1, e)); try done.
    intros k l Hhl. rewrite Hg'. cbn [fst]. destruct (Z.eqb_spec l (location dst wo)) as [->|]; [|done].
    by rewrite (here_other dst src) in Hhl.
  - unfold moved_entries. rewrite map_app, app_assoc. cbn [map snd]. fold (moved_entries (moves es1)).
    fold ed'. unfold dst1, write_at. cbn [data]. rewrite Ewo at 1.
    apply (seg_ok_linked h h' dst (moved_in (esize e) (header dst)) ed' did dbd e
      (item_at src (end_of es1))
      (fun k => relink_freq r <$> get_item_frequency h k (location src (end_of es1)))); try done; try lia.
    + apply Forall_drop, (ok_bytes _ _ _ _ _ Hs).
    + intros k l Hhl. rewrite <- Ewo, Hg'. destruct (l =? location dst wo); [done|].
      destruct (Z.eqb_spec l (location src (end_of es1))) as [->|]; [|done].
      by rewrite (here_other src dst) in Hhl.
    + rewrite Hf. by eexists.
    + unfold moved_in. cbn. fold wo. lia.
  - cbn [header]. unfold moved_out. rewrite Ehs at 1 2 3. done.
  - cbn [data]. unfold dst1, write_at. cbn [data]. by rewrite blen_blit.
  - cbn [data]. unfold dst1, write_at. cbn [data].
    pose proof (total_esize ed). pose proof (total_esize (moved_entries (moves es1))).
    assert (end_of ed <= wo /\ 0 <= end_of ed) as [? ?]
      by (rewrite Ewo; unfold ed'; rewrite end_of_app; unfold end_of; lia).
    rewrite slice_blit_before; [done|lia..|]. rewrite blen_slice; lia.
  - cbn [header]. unfold moved_in. rewrite Ehd at 1 2 3 4. done.
  - apply (relocated_index_snoc es1 e es2 src dst h h' wo E Hr Ewo).
    + destruct Hsamed as [<- <-]. done.
    + intros k l. rewrite Hg', (same_place_location _ _ _ Hsame), (same_place_location _ _ _ Hsamed). done.
Qed.
End Relocation.

Lemma scan_range h s es di db :
  seg_ok h s es di db -> es <> [] ->
  end_of es - ITEM_HDR_SIZE integrity - 1 <= max_item_offset integrity s < end_of es.
Proof.
  intros Hs Hne. rewrite (max_offset_eq _ _ _ _ _ Hs). destruct es; [done|].
  assert (6 <= ITEM_HDR_SIZE integrity) by (unfold ITEM_HDR_SIZE; destruct integrity; lia). lia.
Qed.

(** The walk over the places of [src] by the two relocating scans. *)
Section Relocating.
Context (h0 : H) (src0 dst0 : Segment) (es ed : list Entry) (dis dbs did dbd : Z).
Context (Hh0 : ht_inv h0) (Hsrc0 : seg_ok h0 src0 es dis dbs) (Hdst0 : seg_ok h0 dst0 ed did dbd).
Context (Hids : id (header src0) <> id (header dst0)).

Abbreviation relocated want r :=
  (relocating h0 src0 dst0 es ed dis dbs did dbd want r).

Lemma copy_into_effect :
  exists st, copy_into integrity src0 dst0 h0 = Some (st, inl tt) /\
    relocated (live h0 src0) Preserve es st.
Proof.
  apply (scan_ok h0 src0 es dis dbs (relocated (live h0 src0) Preserve) (copy_item integrity));
    [done|by eapply scan_range|by apply relocating_start|..].
  - intros es1 e es2 [[src dst] h] E Hr.
    pose proof (relocate_step h0 src0 dst0 es ed dis dbs did dbd (live h0 src0) Preserve
      Hsrc0 Hids ltac:(done) es1 e es2 src dst h E Hr) as Hstep.
    pose proof (still_live h0 src0 dst0 es ed dis dbs did dbd (live h0 src0) Preserve
      Hsrc0 Hids es1 e es2 src dst h E Hr) as Hlive.
    pose proof Hr as (_ & Hs & Hd & _ & _ & Hcap & _).
    assert ((end_of es1, e) ∈ laid es) as Hp by (rewrite E; apply laid_split).
    destruct (place_reads _ _ _ _ _ _ Hs Hp) as [R1 R2 _ R4 R5 R6 R7].
    pose proof (live_not_deleted _ _ _ _ _ _ Hs Hp) as Hnd.
    pose proof (proj1 (ok_end _ _ _ _ _ Hd)) as Ewo.
    unfold live at 1 in Hlive. unfold live at 1 in Hnd. cbn [fst snd] in *.
    unfold copy_item. rewrite R1. cbn [mbind option_bind].
    rewrite R2, R4, R5, R6, R7. cbn [andb guard mbind option_bind].
    rewrite Hcap, Z.leb_antisym in *. rewrite <- Hlive in Hstep.
    set (dead := is_none _) in *.
    destruct (negb dead && (write_offset (header dst) + esize e <? blen (data dst0))) eqn:Em.
    + destruct (Hstep eq_refl) as (src' & dst1 & dst' & h' & -> & Ha & Hr').
      apply andb_true_iff in Em as [Ed ->]. rewrite (Hnd Ed).
      rewrite (proj1 (negb_true_iff _) Ed). cbn [orb negb mbind option_bind]. rewrite Ha.
      cbn [mbind option_bind]. eauto.
    + assert (e_deleted e || dead || negb (write_offset (header dst) + esize e <? blen (data dst0)) = true) as ->.
      { apply andb_false_iff in Em as [->%negb_false_iff| ->]; by rewrite orb_true_r. }
      eexists. split; [done|]. apply relocating_skip; [|done]. rewrite <- Ewo, <- Hlive. done.
  - intros ->. right. destruct (residue_reads _ _ _ _ Hsrc0) as (R1 & R2 & R3). rewrite R2.
    unfold copy_item. rewrite R1. cbn [mbind option_bind].
    destruct R3 as [[-> ->]|(R3 & R4 & R5 & R6 & R7)]; [by left|right].
    rewrite R3, R5, R7. cbn [andb guard mbind option_bind is_none]. rewrite orb_true_r. cbn [orb].
    eexists. split; [done|]. lia.
Qed.

(** [freq > 0]. *)
Definition accessed h s p : bool :=
  negb (default 0 (get_item_frequency h (e_key p.2) (location s p.1)) =? 0).

Lemma accessed_live h s p : accessed h s p = true -> live h s p = true.
Proof. unfold accessed, live. by destruct (get_item_frequency _ _ _). Qed.

Lemma promote_effect r :
  exists src dst h,
    s3fifo_promote_from integrity (blen (data dst0)) src0 dst0 h0 r = Some (src, dst, h) /\
    relocated (accessed h0 src0) r es (src, dst, h).
Proof.
  destruct (scan_ok h0 src0 es dis dbs (relocated (accessed h0 src0) r)
    (promote_item integrity (blen (data dst0)) r) tt (src0, dst0, h0) (max_item_offset integrity src0))
    as ([[src dst] h] & Hscan & Hr); [done|by eapply scan_range|by apply relocating_start|..].
  - intros es1 e es2 [[src dst] h] E Hr.
    pose proof (relocate_step h0 src0 dst0 es ed dis dbs did dbd (accessed h0 src0) r
      Hsrc0 Hids (fun p _ => accessed_live _ _ p) es1 e es2 src dst h E Hr) as Hstep.
    pose proof (untouched h0 src0 dst0 es ed dis dbs did dbd (accessed h0 src0) r
      Hsrc0 Hids es1 e es2 src dst h (e_key e) E Hr) as Hsame.
    destruct (relocating_places h0 src0 dst0 es ed dis dbs did dbd _ _ _ _ _ _ Hr) as (Hpl & _).
    pose proof Hr as (_ & Hs & Hd & _ & _ & Hcap & _).
    assert ((end_of es1, e) ∈ laid es) as Hp by (rewrite E; apply laid_split).
    destruct (place_reads _ _ _ _ _ _ Hs Hp) as [R1 R2 _ R4 R5 R6 R7].
    pose proof (live_not_deleted _ _ _ _ _ _ Hs Hp) as Hnd.
    pose proof (proj1 (ok_end _ _ _ _ _ Hd)) as Ewo.
    rewrite <- (same_place_location _ _ (end_of es1) Hpl) in Hsame at 1.
    pose proof (accessed_live h src (end_of es1, e)) as Hal.
    unfold accessed in Hstep, Hal. cbn [fst snd] in *. rewrite <- Hsame in Hstep.
    unfold promote_item. rewrite R1. cbn [mbind option_bind].
    rewrite R2, R4, R5, R6, R7. cbn [andb guard mbind option_bind].
    set (freq := default 0 _) in *.
    destruct (negb (freq =? 0) && (write_offset (header dst) + esize e <? blen (data dst0))) eqn:Em.
    + destruct (Hstep eq_refl) as (src' & dst1 & dst' & h' & Hcp & Ha & Hr').
      apply andb_true_iff in Em as [Ed ->]. rewrite (Hnd (Hal Ed)).
      rewrite (proj1 (negb_true_iff _) Ed). rewrite Hcp. cbn [mbind option_bind]. rewrite Ha.
      cbn [mbind option_bind]. eauto.
    + exists (src, dst, h). split.
      { destruct (e_deleted e), (freq =? 0); try done. cbn [negb andb] in Em. by rewrite Em. }
      apply relocating_skip; [|done]. rewrite <- Ewo. unfold accessed. cbn [fst snd].
      by rewrite <- Hsame.
  - intros ->. right. destruct (residue_reads _ _ _ _ Hsrc0) as (R1 & R2 & R3). rewrite R2.
    unfold promote_item. rewrite R1. cbn [mbind option_bind].
    destruct R3 as [[-> ->]|(R3 & R4 & R5 & R6 & R7)]; [by left|right].
    rewrite R3, R5, R7. cbn [andb guard mbind option_bind default].
    eexists. split; [by destruct (is_deleted _ _)|]. lia.
  - exists src, dst, h. split; [|done]. unfold s3fifo_promote_from. by rewrite Hscan.
Qed.
End Relocating.

(** ** [prune] *)

Section Prune.
Context (h0 : H) (s0 : Segment) (es : list Entry) (di db : Z).
Context (Hs0 : seg_ok h0 s0 es di db) (Hh0 : ht_inv h0).
Context (budget : Z) (mean_size target_ratio : F64.f64).

Definition at_place (gone : list (Z * Entry)) (l : Z) : bool :=
  existsb (fun p => l =? location s0 p.1) gone.

Abbreviation sizes gone := (total (fun p => esize p.2) gone).

(** The items dropped so far, all live; all but the last fit the budget. *)
Definition pruning es1 (st : Segment * H * Pruning) : Prop :=
  let '(s, h, p) := st in
  exists gone, unlinking h0 s0 es di db (at_place gone) (s, h) /\
    (forall q, q ∈ gone -> q ∈ laid es1 /\ live h0 s0 q = true) /\
    n_dropped p = sizes gone /\
    live_bytes (header s) = live_bytes (header s0) - sizes gone /\
    (forall l q, gone = l ++ [q] -> sizes l < budget).

Lemma adjust_cutoff_dropped u t (p : Pruning) : n_dropped (adjust_cutoff u t p) = n_dropped p.
Proof. unfold adjust_cutoff. by destruct (_ <=? _). Qed.

Lemma at_place_snoc gone q l : at_place (gone ++ [q]) l = at_place gone l || (l =? location s0 q.1).
Proof. unfold at_place. rewrite existsb_app. cbn [existsb]. by rewrite orb_false_r. Qed.

Lemma pruning_more es1 e s h (p p' : Pruning) :
  pruning es1 (s, h, p) -> n_dropped p' = n_dropped p -> pruning (es1 ++ [e]) (s, h, p').
Proof.
  intros (gone & Hu & Hin & Hd & Hb & Hl) E. exists gone. split; [done|]. split; [|by rewrite E].
  intros q Hq. destruct (Hin q Hq). split; [|done]. rewrite laid_snoc. apply elem_of_app. by left.
Qed.

Lemma prune_item_step es1 e es2 st :
  es = es1 ++ e :: es2 -> pruning es1 st ->
  exists st', prune_item integrity budget mean_size target_ratio (end_of es1) st =
    Some (Continue (end_of es1 + esize e) st') /\ pruning (es1 ++ [e]) st'.
Proof.
  intros Ees Hpr. destruct st as [[s h] p0].
  pose proof Hpr as (gone & Hu & Hin & Hd & Hb & Hl). pose proof Hu as (_ & Hs & _ & Hc & _ & Hg).
  destruct (counters_only_place _ _ Hc) as [Hsame _].
  assert ((end_of es1, e) ∈ laid es) as Hp by (rewrite Ees; apply laid_split).
  destruct (place_reads _ _ _ _ _ _ Hs Hp) as [R1 R2 _ R4 R5 R6 R7].
  pose proof (live_not_deleted _ _ _ _ _ _ Hs Hp) as Hnd. cbn [fst snd] in *.
  unfold prune_item. rewrite R1. cbn [mbind option_bind].
  rewrite R2, R4, R5, R6, R7. cbn [andb guard mbind option_bind].
  destruct (e_deleted e) eqn:Ed; [eexists; split; [done|]; by eapply pruning_more|].
  destruct (is_none (get_item_frequency h (e_key e) (location s (end_of es1)))) eqn:En;
    [eexists; split; [done|]; by eapply pruning_more|].
  assert (live h s (end_of es1, e) = true) as Hlive by (unfold live; cbn [fst snd]; by rewrite En).
  set (p1 := mkPruning (n_scanned p0 + esize e) (n_dropped p0) (n_retained p0) (n_th_update p0) (cutoff p0)).
  set (p2 := adjust_cutoff _ _ p1).
  assert (n_dropped p2 = n_dropped p0) as E2 by exact (adjust_cutoff_dropped _ _ p1).
  clearbody p2. clear p1.
  set (weighted := F64.le (F64.div _ _) (cutoff p2)). clearbody weighted.
  destruct (F64.le (F64.literal 1 10000) (cutoff p2) && (0 <? budget) && (n_dropped p2 <? budget) && weighted) eqn:Ec.
  - apply andb_true_iff in Ec as [Ec _]. apply andb_true_iff in Ec as [_ Hbud%Z.ltb_lt].
    destruct (unlink_step h0 s0 es di db _ s h _ Hu Hp Hlive) as (h' & Hr & Hrm & Hu'). cbn [fst snd] in *.
    rewrite Hr, Hrm. cbn [mbind option_bind]. eexists. split; [done|].
    exists (gone ++ [(end_of es1, e)]). split; [|split; [|split; [|split]]].
    + eapply unlinking_ext; [|exact Hu']. intros l. apply at_place_snoc.
    + intros q [Hq| ->%list_elem_of_singleton]%elem_of_app; rewrite laid_snoc.
      * destruct (Hin q Hq). split; [apply elem_of_app; by left|done].
      * split; [apply elem_of_app; right; by apply list_elem_of_singleton|].
        unfold live in Hlive |- *. rewrite Hg, (same_place_location _ _ _ Hsame) in Hlive.
        by destruct (at_place gone _).
    + cbn [n_dropped]. rewrite E2, Hd, total_app. cbn [total snd]. lia.
    + change (live_bytes (header (mkSegment (debited (esize e) (header s)) (data s))))
        with (live_bytes (header s) - esize e).
      rewrite Hb, total_app. cbn [total snd]. lia.
    + intros l q [-> _]%app_inj_tail. lia.
  - eexists. split; [done|]. by eapply pruning_more.
Qed.
End Prune.

Lemma prune_effect h s es di db cutoff_freq target_ratio :
  ht_inv h -> seg_ok h s es di db ->
  exists s' h' c gone, prune integrity s h cutoff_freq target_ratio = Some (s', h', c) /\
    unlinking h s es di db (at_place s gone) (s', h') /\
    (forall q, q ∈ gone -> q ∈ laid es /\ live h s q = true) /\
    live_bytes (header s') = live_bytes (header s) - total (fun q => esize q.2) gone /\
    (forall l q, gone = l ++ [q] -> total (fun q => esize q.2) l < to_drop s target_ratio).
Proof.
  intros Hh Hs. unfold prune. set (mean := F64.div _ _). set (c0 := F64.div _ _).
  destruct (scan_ok h s es di db (pruning h s es di db (to_drop s target_ratio))
    (prune_item integrity (to_drop s target_ratio) mean target_ratio) tt
    (s, h, mkPruning 0 0 0 1 c0) (max_item_offset integrity s))
    as ([[s' h'] p'] & Hscan & (gone & Hu & Hin & _ & Hb & Hl)); [done|by eapply scan_range|..].
  - exists []. cbn [total]. rewrite Z.sub_0_r. split; [by apply unlinking_start|].
    split; [intros q Hq; by apply not_elem_of_nil in Hq|]. do 2 (split; [done|]).
    intros l q E. by destruct l.
  - intros. by eapply prune_item_step.
  - intros ->. right. destruct (residue_reads _ _ _ _ Hs) as (R1 & R2 & R3). rewrite R2.
    unfold prune_item. rewrite R1. cbn [mbind option_bind].
    destruct R3 as [[-> ->]|(R3 & R4 & R5 & R6 & R7)]; [by left|right].
    rewrite R3, R5, R7. cbn [andb guard mbind option_bind is_none].
    eexists. split; [by destruct (is_deleted _ _)|]. lia.
  - exists s', h', (cutoff p'), gone. rewrite Hscan. cbn [mbind option_bind]. done.
Qed.

(** ** The scans that only look *)

Lemma observed_live h s es di db es1 e es2 :
  seg_ok h s es di db -> es = es1 ++ e :: es2 ->
  let item := item_at s (end_of es1) in
  (klen integrity item =? 0) = false /\ size integrity item = esize e /\
  key integrity item = e_key e /\
  get_item_at integrity (end_of es1) s = Some item /\
  negb (is_deleted integrity item) &&
    negb (is_none (get_item_frequency h (key integrity item) (location s (end_of es1)))) =
    live h s (end_of es1, e).
Proof.
  intros Hs E item. assert ((end_of es1, e) ∈ laid es) as Hp by (rewrite E; apply laid_split).
  destruct (place_reads _ _ _ _ _ _ Hs Hp) as [R1 R2 _ _ R5 R6 R7].
  pose proof (live_not_deleted _ _ _ _ _ _ Hs Hp) as Hnd. cbn [fst snd] in *. subst item.
  do 4 (split; [done|]). rewrite R5, R7. unfold live in *. cbn [fst snd] in *.
  destruct (negb (is_none _)); [by rewrite Hnd|apply andb_false_r].
Qed.

Lemma check_integrity_effect h s es di db :
  seg_ok h s es di db -> check_integrity integrity s h = Some true.
Proof.
  intros Hs. unfold check_integrity. rewrite (ok_magic _ _ _ _ _ Hs). cbn [guard mbind option_bind].
  destruct (scan_ok h s es di db (fun es1 n => n = total (fun p => Z.b2z (live h s p)) (laid es1))
    (count_item integrity s h) tt 0 (max_item_offset integrity s - 1)) as (n & -> & ->); [done|..].
  - intros Hne. rewrite (max_offset_eq _ _ _ _ _ Hs). destruct es; [done|].
    assert (6 <= ITEM_HDR_SIZE integrity) by (unfold ITEM_HDR_SIZE; destruct integrity; lia). lia.
  - done.
  - intros es1 e es2 n E ->. destruct (observed_live _ _ _ _ _ es1 e es2 Hs E) as (R1 & R2 & _ & _ & R3).
    unfold count_item. rewrite R1, R2, R3. eexists. split; [done|].
    rewrite laid_snoc, total_app. cbn [total]. destruct (live h s (end_of es1, e)); cbn [Z.b2z]; lia.
  - intros ->. left. rewrite (max_offset_eq _ _ _ _ _ Hs). lia.
  - cbn [mbind option_bind]. f_equal. apply Z.leb_le. destruct (ok_items _ _ _ _ _ Hs) as [-> ?].
    unfold live_count. lia.
Qed.

Lemma remaining_keys_effect h s es di db :
  seg_ok h s es di db ->
  remaining_keys integrity s h = Some (map (fun p => e_key p.2) (List.filter (live h s) (laid es))).
Proof.
  intros Hs. unfold remaining_keys.
  destruct (scan_ok h s es di db
    (fun es1 ks => ks = map (fun p => e_key p.2) (List.filter (live h s) (laid es1)))
    (ghost_item integrity s h) tt [] (max_item_offset integrity s)) as (ks & -> & ->);
    [done|by eapply scan_range|done|..|done].
  - intros es1 e es2 n E ->. destruct (observed_live _ _ _ _ _ es1 e es2 Hs E) as (R1 & R2 & R3 & R4 & R5).
    unfold ghost_item. rewrite R4. cbn [mbind option_bind]. rewrite R1, R5, R2, R3.
    eexists. split; [done|].
    rewrite laid_snoc, List.filter_app, map_app. cbn [List.filter].
    destruct (live h s (end_of es1, e)); cbn [map]; by rewrite ?app_nil_r.
  - intros ->. right. destruct (residue_reads _ _ _ _ Hs) as (R1 & R2 & R3). rewrite R2.
    unfold ghost_item. rewrite R1. cbn [mbind option_bind].
    destruct R3 as [[-> _]|(R3 & R4 & R5 & R6 & R7)]; [by left|right].
    rewrite R3, R7. cbn [is_none negb]. rewrite andb_false_r. eexists. split; [done|]. lia.
Qed.
End Invariant.
