(* ===== verification/SegmentThms.v ===== *)
(** * What the scans of a segment do

    The theorems of [Segment], over any lawful hashtable, and their instance on
    the sequential [MultiChoiceHashtable] of [HashSeq]. *)
From S2P Require Import Prelude Packing Atomics Table TableSpec TableThms HashIface HashSeq F64.
From S2P Require Import KvItem KvItemSpec SegState SegHeader SegHeaderSpec Segment SegmentSpec.

Section Theorems.
Context (integrity debug_assertions : bool).
Context {H : Type} `{LH : LawfulHashtable H}.
Implicit Types (s src dst : Segment) (h : H) (es ed : list Entry).

Abbreviation laid es := (places integrity (first_offset integrity) es).
Abbreviation esize := (entry_size integrity).

(** C21. [clear] comes to its end without tripping an assertion and takes every
    entry of this incarnation out of the hashtable, and no other; what it took
    out goes from the live to the dead counters, which leaves of the live ones
    only what was over-counted before, and the write offset with it. *)
Theorem clear_spec s h es di db :
  ht_inv h -> seg_ok integrity h s es di db -> is_draining s ->
  exists s' h', clear integrity debug_assertions s h = Some (s', h') /\ ht_inv h' /\
    (forall k l, get_item_frequency h' k l = if here s l then None else get_item_frequency h k l) /\
    data s' = data s /\ live_items (header s') = di /\
    live_bytes (header s') = first_offset integrity + db /\
    write_offset (header s') = live_bytes (header s') /\
    dead_charged (header s) (header s') /\ same_place s s' /\
    metadata (header s') = metadata (header s).
Proof.
  intros Hh Hs Hdr.
  destruct (clear_effect integrity debug_assertions h s es di db Hs Hh Hdr)
    as (s' & h' & ? & ? & ? & ? & ? & Hb & Hw & ? & hd & Hc & Hhd).
  assert (same_place s s' /\ metadata (header s') = metadata (header s)) as [? ?].
  { unfold same_place. rewrite Hhd. unfold counters_only in Hc. by rewrite Hc. }
  assert (write_offset (header s') = live_bytes (header s')) by congruence.
  by exists s', h'.
Qed.

(** C20. [copy_into] succeeds and moves, in order, the live items there is room
    for: each is in the target with its key, value and version as they were,
    behind what the target held, published there with the frequency it had and
    no longer in the source; the others stay published in the source. Both
    segments' counters are in step, nothing is counted dead, and no other
    entry of the hashtable changes. *)
Theorem copy_into_spec src dst h es ed dis dbs did dbd :
  ht_inv h -> seg_ok integrity h src es dis dbs -> seg_ok integrity h dst ed did dbd ->
  id (header src) <> id (header dst) ->
  let ms := plan integrity (live h src) (blen (data dst)) (end_of integrity ed) (laid es) in
  exists src' dst' h', copy_into integrity src dst h = Some (src', dst', h', inl tt) /\
    ht_inv h' /\ seg_ok integrity h' src' es dis dbs /\
    seg_ok integrity h' dst' (ed ++ moved_entries ms) did dbd /\
    relocated_index h src dst Preserve ms h' /\
    data src' = data src /\
    slice 0 (end_of integrity ed) (data dst') = slice 0 (end_of integrity ed) (data dst) /\
    dead_items (header src') = dead_items (header src) /\
    dead_bytes (header src') = dead_bytes (header src).
Proof.
  intros Hh Hs Hd Hne ms.
  destruct (copy_into_effect integrity h src dst es ed dis dbs did dbd Hh Hs Hd Hne)
    as ([[src' dst'] h'] & Hcopy & Hr).
  destruct (relocating_places _ _ _ _ _ _ _ _ _ _ _ _ _ _ _ _ Hr) as (_ & _ & ? & ?).
  destruct Hr as (? & ? & ? & ? & _ & _ & ? & _ & ?).
  exists src', dst', h'. done.
Qed.

(** [s3fifo_promote_from] does the same for the items that were accessed,
    keeping or lowering their frequencies as [relink] says. *)
Theorem promote_spec src dst h es ed dis dbs did dbd relink :
  ht_inv h -> seg_ok integrity h src es dis dbs -> seg_ok integrity h dst ed did dbd ->
  id (header src) <> id (header dst) ->
  let ms := plan integrity (accessed h src) (blen (data dst)) (end_of integrity ed) (laid es) in
  exists src' dst' h',
    s3fifo_promote_from integrity (blen (data dst)) src dst h relink = Some (src', dst', h') /\
    ht_inv h' /\ seg_ok integrity h' src' es dis dbs /\
    seg_ok integrity h' dst' (ed ++ moved_entries ms) did dbd /\
    relocated_index h src dst relink ms h' /\ data src' = data src.
Proof.
  intros Hh Hs Hd Hne ms.
  destruct (promote_effect integrity h src dst es ed dis dbs did dbd Hh Hs Hd Hne relink)
    as (src' & dst' & h' & Hcopy & (? & ? & ? & ? & _ & _ & _ & _ & ?)).
  by exists src', dst', h'.
Qed.

(** C30. [prune] returns whatever the frequencies, the cutoff and the ratio are. It
    drops live items only, each with its accounting; it stops as soon as what it
    dropped reaches the excess over the target, and so drops nothing when the
    live bytes are within it. *)
Theorem prune_spec s h es di db cutoff_freq target_ratio :
  ht_inv h -> seg_ok integrity h s es di db ->
  exists s' h' cutoff gone,
    prune integrity s h cutoff_freq target_ratio = Some (s', h', cutoff) /\
    ht_inv h' /\ seg_ok integrity h' s' es di db /\ data s' = data s /\
    (forall k l, get_item_frequency h' k l =
       if at_place s gone l then None else get_item_frequency h k l) /\
    (forall q, q ∈ gone -> q ∈ laid es /\ live h s q = true) /\
    live_bytes (header s') = live_bytes (header s) - total (fun q => esize q.2) gone /\
    dead_charged (header s) (header s') /\
    (forall l q, gone = l ++ [q] -> total (fun q => esize q.2) l < to_drop s target_ratio) /\
    (to_drop s target_ratio <= 0 -> gone = []).
Proof.
  intros Hh Hs.
  destruct (prune_effect integrity h s es di db cutoff_freq target_ratio Hh Hs)
    as (s' & h' & c & gone & ? & (? & ? & ? & ? & ? & ?) & ? & ? & Hl).
  exists s', h', c, gone. do 9 (split; [done|]). intros Hd.
  destruct gone as [|q gone _] using rev_ind; [done|]. exfalso. specialize (Hl gone q eq_refl).
  assert (0 <= total (fun q => esize q.2) gone); [|lia].
  apply total_nonneg. intros a _. pose proof (entry_size_bound integrity a.2). lia.
Qed.

(** The scans that only look: [check_integrity] accepts the segment, and the
    ghost scan collects the keys of the live items, in order. *)
Theorem observers_spec s h es di db :
  seg_ok integrity h s es di db ->
  check_integrity integrity s h = Some true /\
  remaining_keys integrity s h =
    Some (map (fun p => e_key p.2) (List.filter (live h s) (laid es))).
Proof.
  intros Hs. split; [by eapply check_integrity_effect|by eapply remaining_keys_effect].
Qed.
End Theorems.

(** ** A segment with two items, and one with room for the first *)
Module SegmentDemo.
Import TableThms.Demo.

#[local] Instance demo_hashtable : Hashtable (Index Heap) := index_hashtable hash.
#[local] Instance demo_lawful : LawfulHashtable (Index Heap) := index_lawful hash.

Definition counter : Entry := mkEntry [107] [] (U64 7) 0 false.
Definition text : Entry := mkEntry [108; 109] [1] (Bytes [1; 2; 3; 4; 5]) 0 false.

Definition put (off : Z) (e : Entry) (buf : bytes) : bytes :=
  blit off (define true KvItemSpec.ItemDemo.hash32 (e_key e) (e_value e) (e_optional e)
              (drop (Z.to_nat off) buf)) buf.

Definition fresh (len : nat) : bytes := blit 0 (be_bytes 8 SEG_MAGIC) (replicate len 0).

Definition draining : Z := pack (mkMeta None None Draining 0).

Definition src : Segment :=
  mkSegment (with_metadata draining (with_generation 3 (with_live_items 2 (with_live_bytes 72
    (with_write_offset 72 (SegHeader.new true 1))))))
    (put 48 text (put 8 counter (fresh 128))).

Definition dst : Segment := mkSegment (SegHeader.new true 2) (fresh 64).

Definition with_entry (key : bytes) (l : Z) (m : TMem Heap) : TMem Heap :=
  default m (snd <$> run (Table.insert hash table key l) m).

Definition h : Index Heap :=
  mkIndex table (with_entry [108; 109] (location src 48) (with_entry [107] (location src 8) empty_mem)).

Definition known : list (nat * nat * bytes) :=
  map (fun kl => (default (0%nat, 0%nat) (entry_at hash h kl.1 kl.2), kl.1))
    [([107], location src 8); ([108; 109], location src 48)].

Lemma h_inv : ht_inv h.
Proof. apply (known_inv hash h known); [apply wf_words_ok|..]; by vm_compute. Qed.

Lemma h_published k l f :
  get_item_frequency h k l = Some f -> l = location src 8 \/ l = location src 48.
Proof.
  intros (q & Hq & <-)%(known_published hash h known);
    [|apply wf_words_ok; by vm_compute|by vm_compute..].
  assert (forallb (fun q => bool_decide (Hashbucket.location (word h q.1) = location src 8 \/
    Hashbucket.location (word h q.1) = location src 48)) known = true) as Hall by by vm_compute.
  rewrite forallb_forall in Hall. specialize (Hall q (proj1 (list_elem_of_In _ _) Hq)).
  exact (proj1 (bool_decide_eq_true _) Hall).
Qed.

Lemma stored_ok off e s :
  entry_ok e -> stored_end true (e_key e) (e_value e) (e_optional e) <= blen (item_at s off) ->
  e_version e = 0 -> e_deleted e = false ->
  (exists buf, stored_end true (e_key e) (e_value e) (e_optional e) <= blen buf /\
    slice 0 (entry_size true e) (item_at s off) =
    slice 0 (entry_size true e)
      (define true KvItemSpec.ItemDemo.hash32 (e_key e) (e_value e) (e_optional e) buf)) ->
  entry_size true e <= blen (item_at s off) -> stored true e (item_at s off).
Proof.
  intros Hok Hr Hv Hd (buf & Hb & E) Hn.
  destruct (define_holds true KvItemSpec.ItemDemo.hash32 KvItemSpec.ItemDemo.hash32_u32
    (e_key e) (e_value e) (e_optional e) buf (entry_args _ Hok) Hb) as (Hst & _).
  eapply stored_prefix; [|done|exact E]. unfold stored. by rewrite Hv, Hd.
Qed.

Lemma counter_ok : entry_ok counter.
Proof. split; [split|..]; vm_compute; intuition congruence. Qed.

Lemma text_ok : entry_ok text.
Proof.
  split; [split|..]; try (vm_compute; intuition congruence).
  split; [apply (bool_decide_unpack _); by vm_compute|vm_compute; intuition congruence].
Qed.

Abbreviation laid i es := (places i (first_offset i) es).

Ltac bounds := vm_compute; intuition congruence.

Lemma src_ok : seg_ok true h src [counter; text] 0 0.
Proof.
  split.
  - bounds.
  - bounds.
  - bounds.
  - apply (bool_decide_unpack _). by vm_compute.
  - by vm_compute.
  - bounds.
  - apply Forall_cons. split; [split; [apply counter_ok|]|apply Forall_singleton; split; [apply text_ok|]].
    + apply stored_ok; [apply counter_ok|by vm_compute..| |by vm_compute].
      exists (drop 8 (fresh 128)). split; by vm_compute.
    + apply stored_ok; [apply text_ok|by vm_compute..| |by vm_compute].
      exists (drop 48 (fresh 128)). split; by vm_compute.
  - intros E. exfalso. exact (nil_cons (eq_sym E)).
  - intros k l f [->| ->]%h_published _.
    + exists (8, counter). split; [left|by vm_compute].
    + exists (48, text). split; [right; left|by vm_compute].
  - bounds.
  - bounds.
  - bounds.
Qed.

Lemma dst_ok : seg_ok true h dst [] 0 0.
Proof.
  split.
  - bounds.
  - bounds.
  - bounds.
  - apply (bool_decide_unpack _). by vm_compute.
  - by vm_compute.
  - bounds.
  - apply Forall_nil_2.
  - by vm_compute.
  - intros k l f [->| ->]%h_published Hh; exfalso; revert Hh; vm_compute; discriminate.
  - bounds.
  - bounds.
  - bounds.
Qed.

Lemma clear_spec_witness :
  exists s' h', clear true true src h = Some (s', h') /\ ht_inv h' /\
    (forall k l, get_item_frequency h' k l = if here src l then None else get_item_frequency h k l) /\
    data s' = data src /\ live_items (header s') = 0 /\ live_bytes (header s') = first_offset true + 0 /\
    write_offset (header s') = live_bytes (header s') /\
    dead_charged (header src) (header s') /\ same_place src s' /\
    metadata (header s') = metadata (header src).
Proof.
  apply (clear_spec true true src h [counter; text] 0 0 h_inv src_ok).
  exists (mkMeta None None Draining 0). split; by vm_compute.
Defined.

Lemma copy_into_spec_witness :
  let ms := plan true (live h src) (blen (data dst)) (end_of true []) (laid true [counter; text]) in
  exists src' dst' h', copy_into true src dst h = Some (src', dst', h', inl tt) /\
    ht_inv h' /\ seg_ok true h' src' [counter; text] 0 0 /\
    seg_ok true h' dst' ([] ++ moved_entries ms) 0 0 /\
    relocated_index h src dst Preserve ms h' /\
    data src' = data src /\
    slice 0 (end_of true []) (data dst') = slice 0 (end_of true []) (data dst) /\
    dead_items (header src') = dead_items (header src) /\
    dead_bytes (header src') = dead_bytes (header src).
Proof.
  apply (copy_into_spec true src dst h [counter; text] [] 0 0 0 0 h_inv src_ok dst_ok).
  vm_compute. discriminate.
Defined.

Lemma promote_spec_witness :
  let ms := plan true (accessed h src) (blen (data dst)) (end_of true []) (laid true [counter; text]) in
  exists src' dst' h',
    s3fifo_promote_from true (blen (data dst)) src dst h Decrement = Some (src', dst', h') /\
    ht_inv h' /\ seg_ok true h' src' [counter; text] 0 0 /\
    seg_ok true h' dst' ([] ++ moved_entries ms) 0 0 /\
    relocated_index h src dst Decrement ms h' /\ data src' = data src.
Proof.
  apply (promote_spec true src dst h [counter; text] [] 0 0 0 0 Decrement h_inv src_ok dst_ok).
  vm_compute. discriminate.
Defined.

Lemma prune_spec_witness :
  exists s' h' cutoff gone,
    prune true src h (F64.of_Z 5) (F64.literal 3 10) = Some (s', h', cutoff) /\
    ht_inv h' /\ seg_ok true h' s' [counter; text] 0 0 /\ data s' = data src /\
    (forall k l, get_item_frequency h' k l =
       if at_place src gone l then None else get_item_frequency h k l) /\
    (forall q, q ∈ gone -> q ∈ laid true [counter; text] /\ live h src q = true) /\
    live_bytes (header s') = live_bytes (header src) - total (fun q => entry_size true q.2) gone /\
    dead_charged (header src) (header s') /\
    (forall l q, gone = l ++ [q] ->
       total (fun q => entry_size true q.2) l < to_drop src (F64.literal 3 10)) /\
    (to_drop src (F64.literal 3 10) <= 0 -> gone = []).
Proof.
  exact (prune_spec true src h [counter; text] 0 0 (F64.of_Z 5) (F64.literal 3 10) h_inv src_ok).
Defined.

Lemma observers_spec_witness :
  check_integrity true src h = Some true /\
  remaining_keys true src h =
    Some (map (fun p => e_key p.2) (List.filter (live h src) (laid true [counter; text]))).
Proof. exact (observers_spec true src h [counter; text] 0 0 src_ok). Defined.

(** The first item fits the target and moves, the second does not and stays;
    a prune to three tenths lowers its cutoff before the first item, keeps that,
    raises it, and drops the second. *)
Example moves_first :
  map fst (plan true (live h src) 64 8 (laid true [counter; text])) = [8] /\
  (get_item_frequency h [107] (location src 8), get_item_frequency h [108; 109] (location src 48))
    = (Some 1, Some 1) /\
  match copy_into true src dst h with
  | Some (src', dst', h', inl tt) =>
      key true (item_at dst' 8) = [107] /\ read_value true (item_at dst' 8) = Some (U64 7) /\
      get_item_frequency h' [107] (location dst 8) = Some 1 /\
      get_item_frequency h' [107] (location src 8) = None /\
      get_item_frequency h' [108; 109] (location src 48) = Some 1 /\
      live_items (header src') = 1 /\ live_items (header dst') = 1
  | _ => False
  end /\
  match prune true src h (F64.of_Z 5) (F64.literal 3 10) with
  | Some (s', h', _) => remaining_keys true s' h' = Some [[107]] /\ live_bytes (header s') = 48
  | None => False
  end.
Proof. vm_compute. intuition. Qed.

(** Without the magic bytes: an item that fills its segment. [merge_compact]
    takes the segment for compaction, since the live bytes of the two segments
    add up to a segment, but [copy_into] leaves the item behind, to be dropped
    with the segment. *)
Definition full : Segment :=
  mkSegment (with_metadata draining (with_live_items 1 (with_live_bytes 32
    (with_write_offset 32 (SegHeader.new false 1)))))
    (define false KvItemSpec.ItemDemo.hash32 [107] (U64 7) [] (replicate 32 0)).

Definition spare : Segment := mkSegment (SegHeader.new false 2) (replicate 32 0).

Definition full_h : Index Heap := mkIndex table (with_entry [107] (location full 0) empty_mem).

Example exact_fit_left_behind :
  live_bytes (header spare) + live_bytes (header full) <= blen (data spare) /\
  match copy_into false full spare full_h with
  | Some (full', spare', h', inl tt) =>
      live_items (header full') = 1 /\ live_items (header spare') = 0 /\
      get_item_frequency h' [107] (location full 0) = Some 1
  | _ => False
  end.
Proof. vm_compute. intuition congruence. Qed.
End SegmentDemo.
