(* ===== verification/PinProtocol.v ===== *)
(** * The pin protocol of one segment

    How the threads of the cache share a segment: readers, writers and
    removers pin it ([try_acquire_reader], [try_pin_writer],
    [try_pin_remover] and the guards' drops), an evictor claims, drains and
    recycles or condemns it ([claim_for_drain], [finalize_drained], [recycle],
    [condemn]), the last pin of a condemned segment frees it, and an allocator
    takes it from the free queue, publishes and seals it.

    A state of the system is the shared part of the header and the program
    counter of every thread; [next] is one atomic access of one thread. The
    metadata word is its decoded form ([SegState.metadata_roundtrip]). A
    single-shot [cas_metadata] that nothing branches on before its exchange is
    one access; the claim and the release of a condemned segment keep their
    load and their exchange apart. Links change under the chain lock of the
    segment's bucket, which is taken to leave a claimed segment alone: [Relink]
    is offered in the published states only. *)
From S2P Require Import Prelude SegState.

Record Shared := mkShared {
  word : Metadata;
  generation : Z;
  refs : Z;
  writers : Z;
  removers : Z;
  queued : bool
}.

#[export] Instance Metadata_eq_dec : EqDecision Metadata.
Proof. solve_decision. Defined.

(** Where a thread stands: the access named is its next one. *)
Inductive Pc :=
| Idle
(* try_acquire_reader *)
| AcqCount | AcqRecheck | AcqBackout
(* a SegmentGuard is held *)
| Pinned
(* try_release_condemned, after a decrement that saw 1 *)
| RelLoad | RelSwap (w : Metadata) | RelBump
(* the segment was freed by this thread, which now pushes it *)
| Freed
(* try_pin_writer; a WriterPin is held *)
| WrCount | WrRecheck | WrBackout | Writing
(* try_pin_remover; a RemoverPin is held *)
| RmCount | RmRecheck | RmBackout | Removing
(* claim_for_drain *)
| ClaimSwap (w : Metadata) | WaitWriters | WaitRemovers
(* finalize_drained: clear, then the reader count *)
| Clearing | CheckRefs
(* recycle *)
| Recycling | RecycleBump
(* condemn *)
| Condemning | CondemnTag (w : Metadata) | CondemnSwap (w : Metadata) (g : Z) | CondemnRecheck
(* reserve_free and the publication of the segment *)
| Popped | Preparing | Linked | Filling.

#[export] Instance Pc_eq_dec : EqDecision Pc.
Proof. solve_decision. Defined.

(** What a thread chooses to do where it has a choice. *)
Inductive Act :=
| Go
| Acquire | PinWriter | PinRemover | Claim (from : State) | Pop
| Seal (next : option Z)
| Relink (next prev : option Z)
| Link (next prev : option Z) | Publish (to : State) | Release.

Implicit Types (s : Shared) (w : Metadata).

Definition with_word w s : Shared :=
  mkShared w (generation s) (refs s) (writers s) (removers s) (queued s).
Definition with_refs (n : Z) s : Shared :=
  mkShared (word s) (generation s) n (writers s) (removers s) (queued s).
Definition with_writers (n : Z) s : Shared :=
  mkShared (word s) (generation s) (refs s) n (removers s) (queued s).
Definition with_removers (n : Z) s : Shared :=
  mkShared (word s) (generation s) (refs s) (writers s) n (queued s).
Definition with_queued (b : bool) s : Shared :=
  mkShared (word s) (generation s) (refs s) (writers s) (removers s) b.
Definition bump s : Shared :=
  mkShared (word s) (u16 (generation s + 1)) (refs s) (writers s) (removers s) (queued s).

Definition st s : State := state (word s).

(** [cas_metadata] with the links cleared, kept or set. *)
Definition cas (expected new_state : State) (links : option (option Z * option Z)) s : option Shared :=
  if bool_decide (st s = expected) then
    let m := word s in
    let (n, p) := default (next m, prev m) links in
    Some (with_word (mkMeta n p new_state (tag m)) s)
  else None.

Definition cleared : option (option Z * option Z) := Some (None, None).

Definition removable (x : State) : bool :=
  match x with
  | Sealed | Live => true
  | _ => false
  end.

Definition claimable (x : State) : bool :=
  match x with
  | Sealed | Live => true
  | _ => false
  end.

(** ** The operations

    One access of one thread, by operation; [None] where the program counter
    is not one of the operation's. *)
Definition Step : Type := option (Pc * Shared).

(** [try_acquire_reader]. *)
Definition acquire_start s : Step := Some (if is_readable (st s) then AcqCount else Idle, s).

Definition release_reader_for_guard s : Step :=
  Some (if refs s =? 1 then RelLoad else Idle, with_refs (u32 (refs s - 1)) s).

Definition acquire_step (p : Pc) s : Step :=
  match p with
  | AcqCount => Some (AcqRecheck, with_refs (u32 (refs s + 1)) s)
  | AcqRecheck => Some (if is_readable (st s) then Pinned else AcqBackout, s)
  | AcqBackout => release_reader_for_guard s
  | _ => None
  end.

(** Drop of a [SegmentGuard]; [try_release_condemned] follows it where the
    count was 1. *)
Definition drop_step (p : Pc) s : Step :=
  match p with
  | Pinned => release_reader_for_guard s
  | _ => None
  end.

Definition release_condemned_step (p : Pc) s : Step :=
  match p with
  | RelLoad => Some (if bool_decide (st s = AwaitingRelease) then RelSwap (word s) else Idle, s)
  | RelSwap w =>
      if bool_decide (word s = w) then Some (RelBump, with_word new_free s) else Some (Idle, s)
  | RelBump => Some (Freed, bump s)
  | _ => None
  end.

(** [return_segment], [push_freed]. *)
Definition push_step (p : Pc) s : Step :=
  match p with
  | Freed => Some (Idle, with_queued true s)
  | _ => None
  end.

(** [try_pin_writer] and [release_writer]. *)
Definition pin_writer_start s : Step := Some (if is_writable (st s) then WrCount else Idle, s).

Definition writer_step (p : Pc) s : Step :=
  match p with
  | WrCount => Some (WrRecheck, with_writers (u32 (writers s + 1)) s)
  | WrRecheck => Some (if is_writable (st s) then Writing else WrBackout, s)
  | WrBackout | Writing => Some (Idle, with_writers (u32 (writers s - 1)) s)
  | _ => None
  end.

(** [try_pin_remover] and [release_remover]. *)
Definition pin_remover_start s : Step := Some (if removable (st s) then RmCount else Idle, s).

Definition remover_step (p : Pc) s : Step :=
  match p with
  | RmCount => Some (RmRecheck, with_removers (u32 (removers s + 1)) s)
  | RmRecheck => Some (if removable (st s) then Removing else RmBackout, s)
  | RmBackout | Removing => Some (Idle, with_removers (u32 (removers s - 1)) s)
  | _ => None
  end.

(** [claim_for_drain] (from Sealed) and its copy in [drain_chain] (from Sealed
    or Live): the load and the exchange, then the waits. *)
Definition claim_start (from : State) s : Step :=
  Some (if claimable from && bool_decide (st s = from) then ClaimSwap (word s) else Idle, s).

Definition claim_step (p : Pc) s : Step :=
  match p with
  | ClaimSwap w =>
      if bool_decide (word s = w)
      then Some (WaitWriters, with_word (mkMeta (next w) (prev w) Draining (tag w)) s)
      else Some (Idle, s)
  | WaitWriters => Some (if writers s =? 0 then WaitRemovers else WaitWriters, s)
  | WaitRemovers => Some (if removers s =? 0 then Clearing else WaitRemovers, s)
  | _ => None
  end.

(** [finalize_drained]: clear the segment, then recycle or condemn it. *)
Definition finalize_step (p : Pc) s : Step :=
  match p with
  | Clearing => Some (CheckRefs, s)
  | CheckRefs => Some (if refs s =? 0 then Recycling else Condemning, s)
  | _ => None
  end.

(** [recycle], by [try_release_drained]. *)
Definition recycle_step (p : Pc) s : Step :=
  match p with
  | Recycling => s ← cas Draining Free cleared s; Some (RecycleBump, s)
  | RecycleBump => Some (Freed, bump s)
  | _ => None
  end.

(** [condemn]: [cas_condemn], which loads the word, then the generation, and
    exchanges the word it loaded; then the recheck, which a [cas_condemn] that
    failed would go on to as well (the assertion between them is a debug one). *)
Definition condemn_step (p : Pc) s : Step :=
  match p with
  | Condemning => Some (if bool_decide (st s = Draining) then CondemnTag (word s) else CondemnRecheck, s)
  | CondemnTag w => Some (CondemnSwap w (generation s), s)
  | CondemnSwap w g =>
      if bool_decide (word s = w)
      then Some (CondemnRecheck, with_word (mkMeta None None AwaitingRelease (u8 (Z.land g 0xFF))) s)
      else Some (CondemnRecheck, s)
  | CondemnRecheck => Some (if refs s =? 0 then RelLoad else Idle, s)
  | _ => None
  end.

(** [reserve_free]: steal from the queue, then [try_reserve]. *)
Definition steal_start s : Step :=
  if queued s then Some (Popped, with_queued false s) else Some (Idle, s).

Definition reserve_step (p : Pc) s : Step :=
  match p with
  | Popped => s ← cas Free Reserved cleared s; Some (Preparing, s)
  | _ => None
  end.

(** Publication as the tail of a chain ([try_expand]). *)
Definition link_step (n p : option Z) s : Step :=
  s ← cas Reserved Linking (Some (n, p)) s; Some (Linked, s).

Definition publish_step s : Step := s ← cas Linking Live None s; Some (Idle, s).

Definition seal_step (n : option Z) s : Step :=
  s ← cas Live Sealed (Some (n, prev (word s))) s; Some (Idle, s).

(** Publication as a copy destination ([link_dest_before],
    [publish_dest_sealed]). *)
Definition publish_dest_step s : Step := s ← cas Linking Relinking None s; Some (Filling, s).
Definition publish_dest_sealed_step s : Step := s ← cas Relinking Sealed None s; Some (Idle, s).

(** [release_unused], by [try_release]. *)
Definition release_unused_step (p : Pc) s : Step :=
  match p with
  | Preparing => s ← cas Reserved Free cleared s; Some (Freed, s)
  | Linked => s ← cas Linking Free cleared s; Some (Freed, s)
  | _ => None
  end.

(** [update_links] by a neighbour. *)
Definition relink_step (n p : option Z) s : Step :=
  if is_readable (st s) then Some (Idle, with_word (mkMeta n p (st s) (tag (word s))) s) else None.

(** What a thread does next: go on with its operation, or choose one. *)
Definition next_step (a : Act) (p : Pc) s : Step :=
  match a, p with
  | Acquire, Idle => acquire_start s
  | PinWriter, Idle => pin_writer_start s
  | PinRemover, Idle => pin_remover_start s
  | Claim from, Idle => claim_start from s
  | Pop, Idle => steal_start s
  | Seal n, Idle => seal_step n s
  | Relink n p, Idle => relink_step n p s
  | Link n p, Preparing => link_step n p s
  | Release, p => release_unused_step p s
  | Publish Live, Linked => publish_step s
  | Publish Relinking, Linked => publish_dest_step s
  | Publish Sealed, Filling => publish_dest_sealed_step s
  | Go, (AcqCount | AcqRecheck | AcqBackout) as p => acquire_step p s
  | Go, Pinned as p => drop_step p s
  | Go, (RelLoad | RelSwap _ | RelBump) as p => release_condemned_step p s
  | Go, Freed as p => push_step p s
  | Go, (WrCount | WrRecheck | WrBackout | Writing) as p => writer_step p s
  | Go, (RmCount | RmRecheck | RmBackout | Removing) as p => remover_step p s
  | Go, (ClaimSwap _ | WaitWriters | WaitRemovers) as p => claim_step p s
  | Go, (Clearing | CheckRefs) as p => finalize_step p s
  | Go, (Recycling | RecycleBump) as p => recycle_step p s
  | Go, (Condemning | CondemnTag _ | CondemnSwap _ _ | CondemnRecheck) as p => condemn_step p s
  | Go, Popped as p => reserve_step p s
  | _, _ => None
  end.

(** ** The system *)

Record System := mkSys { shared : Shared; threads : list Pc }.

Definition system_step (i : nat) (a : Act) (y : System) : option System :=
  p ← threads y !! i;
  ps ← next_step a p (shared y);
  Some (mkSys ps.2 (<[i := ps.1]> (threads y))).

(** A segment as [SegmentHeader::new] makes it, on the free queue. *)
Definition fresh : Shared := mkShared new_free 0 0 0 0 true.

Definition initial (n : nat) : System := mkSys fresh (replicate n Idle).

Fixpoint run_steps (steps : list (nat * Act)) (y : System) : option System :=
  match steps with
  | [] => Some y
  | (i, a) :: steps => y ← system_step i a y; run_steps steps y
  end.

Inductive reachable (n : nat) : System -> Prop :=
| reach_initial : reachable n (initial n)
| reach_step i a y y' : reachable n y -> system_step i a y = Some y' -> reachable n y'.
