(* ===== verification/PinSafety.v ===== *)
(** * Safety of the pin protocol

    The invariant of [PinProtocol], for any number of threads and any
    interleaving: the counters count the pins, a segment has one owner outside
    its published states, a drain that has waited excludes writers and
    removers, a recycled segment has no reader, and a condemned segment is
    never left without somebody to free it. *)
From S2P Require Import Prelude SegState PinProtocol.

(** ** Classes of program counters *)

Definition holds_ref (p : Pc) : bool :=
  match p with
  | AcqRecheck | AcqBackout | Pinned => true
  | _ => false
  end.

Definition holds_writer (p : Pc) : bool :=
  match p with
  | WrRecheck | WrBackout | Writing => true
  | _ => false
  end.

Definition holds_remover (p : Pc) : bool :=
  match p with
  | RmRecheck | RmBackout | Removing => true
  | _ => false
  end.

(** The state a thread has to itself. *)
Definition owns (p : Pc) : option State :=
  match p with
  | RelBump | RecycleBump | Freed | Popped => Some Free
  | Preparing => Some Reserved
  | Linked => Some Linking
  | Filling => Some Relinking
  | WaitWriters | WaitRemovers | Clearing | CheckRefs | Recycling | Condemning | CondemnTag _ | CondemnSwap _ _ =>
      Some Draining
  | _ => None
  end.

Definition is_owner (p : Pc) : bool :=
  match owns p with
  | Some _ => true
  | None => false
  end.

(** A drain past its wait for the writers, for the removers. *)
Definition past_writers (p : Pc) : bool :=
  match p with
  | WaitRemovers | Clearing | CheckRefs | Recycling | Condemning | CondemnTag _ | CondemnSwap _ _ => true
  | _ => false
  end.

Definition past_removers (p : Pc) : bool :=
  match p with
  | Clearing | CheckRefs | Recycling | Condemning | CondemnTag _ | CondemnSwap _ _ => true
  | _ => false
  end.

(** Somebody bound to free the condemned segment [w]. *)
Definition will_free (w : Metadata) (p : Pc) : bool :=
  match p with
  | CondemnRecheck | RelLoad => true
  | RelSwap w' => bool_decide (w' = w)
  | p => holds_ref p
  end.

(** The word a condemnation loaded, up to its exchange. *)
Definition loaded (p : Pc) : option Metadata :=
  match p with
  | CondemnTag w | CondemnSwap w _ => Some w
  | _ => None
  end.

(** How many owners a segment has in each state. *)
Definition owners_in (x : State) : Z :=
  match x with
  | Live | Sealed | AwaitingRelease => 0
  | _ => 1
  end.

Definition in_service (x : State) : bool :=
  match x with
  | Live | Sealed | Draining => true
  | _ => false
  end.

Fixpoint cnt (f : Pc -> bool) (ts : list Pc) : Z :=
  match ts with
  | [] => 0
  | p :: ts => Z.b2z (f p) + cnt f ts
  end.

Lemma cnt_nonneg f ts : 0 <= cnt f ts.
Proof. induction ts as [|p ts IH]; simpl; [lia|]. destruct (f p); simpl; lia. Qed.

Lemma cnt_le f ts : cnt f ts <= Z.of_nat (length ts).
Proof. induction ts as [|p ts IH]; cbn [cnt length]; [lia|]. destruct (f p); simpl Z.b2z; lia. Qed.

Lemma cnt_perm f ts ts' : ts ≡ₚ ts' -> cnt f ts = cnt f ts'.
Proof. induction 1; simpl; lia. Qed.

Lemma cnt_zero f ts p : cnt f ts = 0 -> p ∈ ts -> f p = false.
Proof.
  revert p. induction ts as [|q ts IH]; intros p H Hp; [by apply elem_of_nil in Hp|].
  simpl in H. pose proof (cnt_nonneg f ts). apply elem_of_cons in Hp as [->|Hp].
  - destruct (f q); simpl in *; [lia|done].
  - apply IH; [|done]. destruct (f q); simpl in *; lia.
Qed.

Lemma cnt_pos f ts p : p ∈ ts -> f p = true -> 0 < cnt f ts.
Proof.
  intros Hp Hf. pose proof (cnt_nonneg f ts).
  destruct (Z.eq_dec (cnt f ts) 0) as [E|]; [|lia].
  pose proof (cnt_zero f ts p E Hp). congruence.
Qed.

Lemma cnt_ex f ts : 0 < cnt f ts -> exists p, p ∈ ts /\ f p = true.
Proof.
  induction ts as [|q ts IH]; simpl; [lia|]. destruct (f q) eqn:E.
  - intros _. exists q. split; [by left|done].
  - simpl. intros (p & ? & ?)%IH. exists p. split; [by right|done].
Qed.

(** ** The invariant *)

Record inv (s : Shared) (ts : list Pc) : Prop := {
  inv_refs : refs s = cnt holds_ref ts;
  inv_writers : writers s = cnt holds_writer ts;
  inv_removers : removers s = cnt holds_remover ts;
  inv_length : Z.of_nat (length ts) < 2 ^ 32;
  inv_owner : forall p x, p ∈ ts -> owns p = Some x -> st s = x;
  inv_owners : cnt is_owner ts + Z.b2z (queued s) = owners_in (st s);
  inv_queued : queued s = true -> st s = Free;
  inv_relswap : forall w, RelSwap w ∈ ts -> state w = AwaitingRelease;
  inv_claimswap : forall w, ClaimSwap w ∈ ts -> claimable (state w) = true;
  inv_condemn : forall p w, p ∈ ts -> loaded p = Some w -> word s = w;
  inv_writing : Writing ∈ ts -> in_service (st s) = true /\ forall p, p ∈ ts -> past_writers p = false;
  inv_removing : Removing ∈ ts -> in_service (st s) = true /\ forall p, p ∈ ts -> past_removers p = false;
  inv_recycling : Recycling ∈ ts -> Pinned ∈ ts -> False;
  inv_freed : st s = AwaitingRelease -> exists p, p ∈ ts /\ will_free (word s) p = true
}.

Lemma inv_perm s ts ts' : ts ≡ₚ ts' -> inv s ts -> inv s ts'.
Proof.
  intros P [Hr Hw Hm Hl Ho Hn Hq Hs Hc Hcd Hwr Hrm Hrc Hf].
  assert (forall p, p ∈ ts' <-> p ∈ ts) as E by (intros; by rewrite P).
  split; rewrite <- ?(cnt_perm _ _ _ P), <- ?(Permutation_length P); try done.
  - intros p x. rewrite E. apply Ho.
  - intros w. rewrite E. apply Hs.
  - intros w. rewrite E. apply Hc.
  - intros p w. rewrite E. apply Hcd.
  - rewrite E. intros [? H]%Hwr. split; [done|]. intros p. rewrite E. apply H.
  - rewrite E. intros [? H]%Hrm. split; [done|]. intros p. rewrite E. apply H.
  - by rewrite !E.
  - intros (p & ? & ?)%Hf. exists p. by rewrite E.
Qed.

(** ** Every step preserves it *)

Section Step.
Context (s : Shared) (p : Pc) (rest : list Pc).
Context (Hinv : inv s (p :: rest)).

Lemma in_rest q : q ∈ rest -> q ∈ p :: rest.
Proof. intros. by right. Qed.

Lemma rest_owner q x : q ∈ rest -> owns q = Some x -> st s = x.
Proof. intros Hq. apply (inv_owner _ _ Hinv). by right. Qed.

(** The thread is the owner, or none is: the others own nothing. *)
Lemma rest_alone q : is_owner p = true \/ queued s = true \/ owners_in (st s) = 0 ->
  q ∈ rest -> owns q = None.
Proof.
  intros H Hq. pose proof (inv_owners _ _ Hinv) as Hn. cbn [cnt] in Hn.
  pose proof (cnt_nonneg is_owner rest) as Hr.
  assert (cnt is_owner rest = 0) as E.
  { destruct H as [H|[H|H]]; [rewrite H in Hn|rewrite H in Hn|].
    - destruct (queued s), (st s); simpl in *; lia.
    - destruct (is_owner p), (st s); simpl in *; lia.
    - destruct (is_owner p), (queued s); simpl in *; lia. }
  pose proof (cnt_zero is_owner rest q E Hq) as Hf. unfold is_owner in Hf.
  by destruct (owns q).
Qed.

Lemma rest_len f : cnt f rest < 2 ^ 32 - 1.
Proof.
  pose proof (cnt_le f rest). pose proof (inv_length _ _ Hinv) as Hl. cbn [length] in Hl. lia.
Qed.

Lemma inc_id f : 0 <= cnt f rest -> u32 (cnt f rest + 1) = cnt f rest + 1.
Proof. intros. pose proof (rest_len f). unfold wrap. apply Z.mod_small. lia. Qed.

Lemma dec_id f : u32 (1 + cnt f rest - 1) = cnt f rest.
Proof.
  pose proof (rest_len f). pose proof (cnt_nonneg f rest).
  unfold wrap. rewrite Z.mod_small; lia.
Qed.
End Step.

(** The cases of a step, with the tests it made. *)
Ltac pin_cases E :=
  match type of E with
  | next_step ?a ?p ?s = Some (?p', ?s') =>
      destruct p, a; try discriminate E;
      unfold next_step, acquire_start, acquire_step, drop_step, release_reader_for_guard,
        release_condemned_step, push_step, pin_writer_start, writer_step, pin_remover_start,
        remover_step, claim_start, claim_step, finalize_step, recycle_step, condemn_step,
        steal_start, reserve_step, link_step, publish_step, seal_step, publish_dest_step,
        publish_dest_sealed_step, release_unused_step, relink_step, cas in E;
      repeat match type of E with
      | context [match ?x with Live => _ | _ => _ end] => is_var x; destruct x; try discriminate E
      | context [if ?b then _ else _] => destruct b eqn:?
      end;
      simpl in E; try discriminate E; simplify_eq;
      rewrite ?bool_decide_eq_true, ?bool_decide_eq_false in *
  end.

(** The owner of a draining segment finds the word it loaded. *)
Ltac pin_step Hi E :=
  let Hd := fresh "Hd" in let Hw := fresh "Hw" in
  lazymatch type of Hi with
  | inv ?s (?p :: ?rest) =>
      pose proof (inv_owner s (p :: rest) Hi p Draining ltac:(by left)) as Hd;
      pose proof (fun w => inv_condemn s (p :: rest) Hi p w ltac:(by left)) as Hw
  end;
  pin_cases E;
  try match goal with
  | H : st _ <> Draining |- _ => exfalso; apply H, Hd; reflexivity
  | H : word _ <> _ |- _ => exfalso; apply H, Hw; reflexivity
  end;
  clear Hd Hw.

Lemma step_counts s p rest a p' s' :
  inv s (p :: rest) -> next_step a p s = Some (p', s') ->
  refs s' = cnt holds_ref (p' :: rest) /\ writers s' = cnt holds_writer (p' :: rest) /\
  removers s' = cnt holds_remover (p' :: rest).
Proof.
  intros Hi E. pose proof (inv_refs _ _ Hi) as H1. pose proof (inv_writers _ _ Hi) as H2.
  pose proof (inv_removers _ _ Hi) as H3.
  pose proof (dec_id _ _ _ Hi) as Hd. pose proof (inc_id _ _ _ Hi) as Hu.
  pose proof (fun f => cnt_nonneg f rest) as Hn.
  pin_step Hi E.
  all: cbn [cnt holds_ref holds_writer holds_remover Z.b2z] in *;
    rewrite ?H1, ?H2, ?H3, ?Z.add_0_l, ?Hd, ?Hu by done;
    cbn [refs writers removers with_refs with_writers with_removers with_word with_queued bump];
    lia.
Qed.

(** The projections of a step's shared state. *)
Ltac shared_simpl :=
  cbn [refs writers removers with_refs with_writers with_removers with_word with_queued bump
       word queued generation state tag next prev new_free cnt owns is_owner owners_in Z.b2z
       removable claimable is_readable is_writable in_service past_writers past_removers] in *.

(** A state that changes hands has no owner among the other threads. *)
Lemma rest_unowned s p rest q x :
  inv s (p :: rest) -> q ∈ rest -> owns q = Some x ->
  is_owner p = false /\ queued s = false /\ owners_in (st s) = 1.
Proof.
  intros Hi Hq Hx. pose proof (rest_alone _ _ _ Hi q) as Ha. split_and!.
  - destruct (is_owner p); [|done]. rewrite Ha in Hx by auto. done.
  - destruct (queued s); [|done]. rewrite Ha in Hx by auto. done.
  - destruct (st s) eqn:E; try done; rewrite Ha in Hx by (auto; rewrite E; auto); done.
Qed.

Lemma step_owner s p rest a p' s' :
  inv s (p :: rest) -> next_step a p s = Some (p', s') ->
  forall q x, q ∈ p' :: rest -> owns q = Some x -> st s' = x.
Proof.
  intros Hi E q x Hq Hx. pose proof (rest_owner _ _ _ Hi) as Ho.
  pose proof (fun x => inv_owner _ _ Hi p x ltac:(by left)) as Hp.
  pose proof (inv_queued _ _ Hi) as Hqu.
  pose proof (inv_relswap _ _ Hi) as Hrs. pose proof (inv_claimswap _ _ Hi) as Hcs.
  apply elem_of_cons in Hq as [->|Hq].
  - pin_step Hi E; simpl in Hx; simplify_eq; unfold st in *; shared_simpl; auto.
  - destruct (rest_unowned _ _ _ _ _ Hi Hq Hx) as (Hn & Hnq & Hn1).
    pose proof (Hrs (word s)) as Hrs'. pose proof (Hcs (word s)) as Hcs'.
    pin_step Hi E; unfold st in *; shared_simpl; eauto; try congruence; exfalso; subst.
    all: repeat match goal with H : state _ = _ |- _ => rewrite H in * end; try discriminate.
    all: try (rewrite Hrs' in Hn1 by (by left); discriminate).
    all: try (specialize (Hcs' ltac:(by left)); destruct (state (word s)); discriminate).
Qed.

Lemma step_owners s p rest a p' s' :
  inv s (p :: rest) -> next_step a p s = Some (p', s') ->
  cnt is_owner (p' :: rest) + Z.b2z (queued s') = owners_in (st s') /\
  (queued s' = true -> st s' = Free).
Proof.
  intros Hi E. pose proof (inv_owners _ _ Hi) as Hn. pose proof (inv_queued _ _ Hi) as Hq.
  pose proof (fun x => inv_owner _ _ Hi p x ltac:(by left)) as Hp.
  pose proof (inv_relswap _ _ Hi (word s)) as Hrs.
  pose proof (inv_claimswap _ _ Hi (word s)) as Hcs.
  pose proof (cnt_nonneg is_owner rest).
  pin_step Hi E; unfold st in *; shared_simpl; try tauto; subst.
  all: repeat match goal with H : state _ = _ |- _ => rewrite H in * end; shared_simpl.
  all: try (specialize (Hp _ eq_refl); try rewrite Hp in * ).
  all: try (rewrite Hrs in * by (by left)).
  all: try (specialize (Hcs ltac:(by left)); destruct (state (word s)); try discriminate).
  all: try (destruct (queued _) eqn:Eq; shared_simpl).
  all: try (specialize (Hq eq_refl); try discriminate Hq; rewrite ?Hq in * ); shared_simpl.
  all: split; [lia|]; first [done | auto; lia | lia].
Qed.

Lemma step_saved s p rest a p' s' :
  inv s (p :: rest) -> next_step a p s = Some (p', s') ->
  (forall w, RelSwap w ∈ p' :: rest -> state w = AwaitingRelease) /\
  (forall w, ClaimSwap w ∈ p' :: rest -> claimable (state w) = true).
Proof.
  intros Hi E. split; intros w [Hw|Hw]%elem_of_cons.
  - subst. pin_step Hi E; done.
  - apply (inv_relswap _ _ Hi). by right.
  - subst. pin_step Hi E. apply andb_true_iff in Heqb as [Hc Hb].
    apply bool_decide_eq_true in Hb. unfold st in Hb. by rewrite Hb.
  - apply (inv_claimswap _ _ Hi). by right.
Qed.

Lemma past_writers_owns q : past_writers q = true -> owns q = Some Draining.
Proof. by destruct q. Qed.

Lemma past_removers_owns q : past_removers q = true -> owns q = Some Draining.
Proof. by destruct q. Qed.

(** No thread but the owner changes a state in service other than to one in
    service, and a claim ends at most in a wait. *)
Lemma step_writing s p rest a p' s' :
  inv s (p :: rest) -> next_step a p s = Some (p', s') ->
  Writing ∈ p' :: rest ->
  in_service (st s') = true /\ forall q, q ∈ p' :: rest -> past_writers q = false.
Proof.
  intros Hi E Hw. pose proof (inv_writing _ _ Hi) as H1.
  pose proof (fun q x => inv_owner _ _ Hi q x) as Ho.
  pose proof (inv_relswap _ _ Hi (word s)) as Hrs.
  pose proof (inv_writers _ _ Hi) as Hc.
  assert (Writing ∈ p :: rest -> in_service (st s) = true /\ past_writers p = false /\
    forall q, q ∈ rest -> past_writers q = false) as H.
  { intros [? Hpw]%H1. split; [done|]. split; [apply Hpw; by left|].
    intros q Hq. apply Hpw. by right. }
  assert (Writing ∈ rest -> writers s <> 0) as Hne.
  { intros Hin. pose proof (cnt_pos holds_writer rest _ Hin eq_refl).
    rewrite Hc. cbn [cnt]. pose proof (cnt_nonneg holds_writer rest).
    destruct (holds_writer p); simpl; lia. }
  apply elem_of_cons in Hw as [<-|Hw].
  - (* a writer enters: the segment is Live *)
    pin_step Hi E. unfold is_writable, st in *. destruct (state (word s')) eqn:Es; try done.
    split; [done|]. intros q [->|Hq]%elem_of_cons; [done|].
    destruct (past_writers q) eqn:Eq; [|done].
    by specialize (Ho q Draining ltac:(by right) (past_writers_owns q Eq)).
  - destruct H as (Hs & Hp & Hr); [by right|].
    pin_step Hi E; unfold st in *; shared_simpl; try discriminate Hp.
    all: try (split; [|intros q [->|Hq]%elem_of_cons; [done|by apply Hr]]).
    all: try done; exfalso.
    all: try match goal with H : state _ = _ |- _ => rewrite H in Hs; discriminate Hs end.
    + rewrite Hrs in Hs by (subst; by left). discriminate Hs.
    + apply Z.eqb_eq in Heqb. by apply Hne.
Qed.

Lemma step_removing s p rest a p' s' :
  inv s (p :: rest) -> next_step a p s = Some (p', s') ->
  Removing ∈ p' :: rest ->
  in_service (st s') = true /\ forall q, q ∈ p' :: rest -> past_removers q = false.
Proof.
  intros Hi E Hw. pose proof (inv_removing _ _ Hi) as H1.
  pose proof (fun q x => inv_owner _ _ Hi q x) as Ho.
  pose proof (inv_relswap _ _ Hi (word s)) as Hrs.
  pose proof (inv_removers _ _ Hi) as Hc.
  assert (Removing ∈ p :: rest -> in_service (st s) = true /\ past_removers p = false /\
    forall q, q ∈ rest -> past_removers q = false) as H.
  { intros [? Hpw]%H1. split; [done|]. split; [apply Hpw; by left|].
    intros q Hq. apply Hpw. by right. }
  assert (Removing ∈ rest -> removers s <> 0) as Hne.
  { intros Hin. pose proof (cnt_pos holds_remover rest _ Hin eq_refl).
    rewrite Hc. cbn [cnt]. pose proof (cnt_nonneg holds_remover rest).
    destruct (holds_remover p); simpl; lia. }
  apply elem_of_cons in Hw as [<-|Hw].
  - (* a remover enters: the segment is Live or Sealed *)
    pin_step Hi E. assert (in_service (st s') = true /\ st s' <> Draining) as [Hs Hd].
    { unfold removable in *. by destruct (st s'). }
    split; [done|]. intros q [->|Hq]%elem_of_cons; [done|].
    destruct (past_removers q) eqn:Eq; [|done]. destruct Hd.
    by apply (Ho q Draining ltac:(by right) (past_removers_owns q Eq)).
  - destruct H as (Hs & Hp & Hr); [by right|].
    pin_step Hi E; unfold st in *; shared_simpl; try discriminate Hp.
    all: try (split; [|intros q [->|Hq]%elem_of_cons; [done|by apply Hr]]).
    all: try done; exfalso.
    all: try match goal with H : state _ = _ |- _ => rewrite H in Hs; discriminate Hs end.
    + rewrite Hrs in Hs by (subst; by left). discriminate Hs.
    + apply Z.eqb_eq in Heqb. by apply Hne.
Qed.

Lemma step_recycling s p rest a p' s' :
  inv s (p :: rest) -> next_step a p s = Some (p', s') ->
  Recycling ∈ p' :: rest -> Pinned ∈ p' :: rest -> False.
Proof.
  intros Hi E Hr Hp. pose proof (inv_recycling _ _ Hi) as H1.
  pose proof (fun q x => inv_owner _ _ Hi q x) as Ho.
  pose proof (inv_refs _ _ Hi) as Hc. cbn [cnt] in Hc.
  apply elem_of_cons in Hr as [<-|Hr]; apply elem_of_cons in Hp as [Hp|Hp]; try done.
  - (* the reader count was seen to be zero *)
    pin_step Hi E. apply Z.eqb_eq in Heqb.
    pose proof (cnt_pos holds_ref rest _ Hp eq_refl). simpl in Hc. lia.
  - (* a reader enters: the segment is readable, hence not Draining *)
    subst p'. pin_step Hi E. specialize (Ho Recycling Draining ltac:(by right) eq_refl).
    by rewrite Ho in Heqb.
  - apply H1; by right.
Qed.

(** A condemned segment keeps somebody who will free it. *)
Lemma step_freed s p rest a p' s' :
  inv s (p :: rest) -> next_step a p s = Some (p', s') ->
  st s' = AwaitingRelease -> exists q, q ∈ p' :: rest /\ will_free (word s') q = true.
Proof.
  intros Hi E Hs'. pose proof (inv_freed _ _ Hi) as Hf.
  pose proof (inv_refs _ _ Hi) as Hc. cbn [cnt] in Hc.
  pose proof (fun x => inv_owner _ _ Hi p x ltac:(by left)) as Ho.
  assert (0 < cnt holds_ref rest -> exists q, q ∈ p' :: rest /\ will_free (word s') q = true) as Hh.
  { intros (q & Hq & Hhq)%cnt_ex. exists q. split; [by right|]. by destruct q. }
  assert (will_free (word s') p' = true -> exists q, q ∈ p' :: rest /\ will_free (word s') q = true) as Hn.
  { intros. exists p'. split; [by left|done]. }
  assert (st s = AwaitingRelease -> word s' = word s -> will_free (word s) p = false ->
    exists q, q ∈ p' :: rest /\ will_free (word s') q = true) as Hk.
  { intros Hs Hw Hp. destruct (Hf Hs) as (q & [->|Hq]%elem_of_cons & Hq'); [congruence|].
    exists q. rewrite Hw. split; [by right|done]. }
  pose proof (cnt_nonneg holds_ref rest).
  pin_step Hi E; unfold st in *; shared_simpl;
    try (apply Hn; done); try (apply Hk; done); try discriminate.
  - by rewrite Hs' in Heqb.
  - apply Hh. apply Z.eqb_neq in Heqb. simpl in Hc. lia.
  - apply Hh. apply Z.eqb_neq in Heqb. simpl in Hc. lia.
  - apply Hn. by apply bool_decide_eq_true.
  - apply Hk; [done..|]. by apply bool_decide_eq_false.
  - apply Hh. apply Z.eqb_neq in Heqb. simpl in Hc. lia.
Qed.

(** The word stays as a condemnation loaded it. *)
Lemma step_loaded s p rest a p' s' :
  inv s (p :: rest) -> next_step a p s = Some (p', s') ->
  forall q w, q ∈ p' :: rest -> loaded q = Some w -> word s' = w.
Proof.
  intros Hi E q w Hq Hw. apply elem_of_cons in Hq as [->|Hq].
  - pose proof (fun w => inv_condemn _ _ Hi p w ltac:(by left)) as Hc.
    pin_step Hi E; simpl in Hw; simplify_eq; auto.
  - pose proof (inv_condemn _ _ Hi q w ltac:(by right) Hw) as Hc.
    assert (owns q = Some Draining) as Ho by by destruct q.
    destruct (rest_unowned _ _ _ _ _ Hi Hq Ho) as (Hn & _ & _).
    pose proof (inv_owner _ _ Hi q _ ltac:(by right) Ho) as Hs.
    pose proof (inv_relswap _ _ Hi (word s)) as Hrs. pose proof (inv_claimswap _ _ Hi (word s)) as Hcs.
    pin_step Hi E; try done; exfalso; unfold st in *; subst.
    all: try (rewrite Hs in *; done).
    all: first [by rewrite Hrs in Hs by (by left)|by specialize (Hcs ltac:(by left)); rewrite Hs in Hcs].
Qed.

Lemma step_inv s p rest a p' s' :
  inv s (p :: rest) -> next_step a p s = Some (p', s') -> inv s' (p' :: rest).
Proof.
  intros Hi E. destruct (step_counts _ _ _ _ _ _ Hi E) as (? & ? & ?).
  destruct (step_owners _ _ _ _ _ _ Hi E) as [? ?]. destruct (step_saved _ _ _ _ _ _ Hi E).
  split; try done.
  - apply (inv_length _ _ Hi).
  - by eapply step_owner.
  - by eapply step_loaded.
  - by eapply step_writing.
  - by eapply step_removing.
  - by eapply step_recycling.
  - by eapply step_freed.
Qed.

Lemma cnt_replicate f n : f Idle = false -> cnt f (replicate n Idle) = 0.
Proof. intros H. induction n as [|n IH]; simpl; [done|]. by rewrite H, IH. Qed.

Lemma reachable_inv n y :
  Z.of_nat n < 2 ^ 32 -> reachable n y -> inv (shared y) (threads y).
Proof.
  intros Hn H. induction H as [|i a y y' _ IH E].
  - assert (forall p, p ∈ replicate n Idle -> p = Idle) as Hi.
    { intros p Hp. by apply elem_of_replicate in Hp as [-> _]. }
    split; simpl; rewrite ?cnt_replicate by done; try done.
    + by rewrite length_replicate.
    + by intros p x ->%Hi.
    + by intros w [=]%Hi.
    + by intros w [=]%Hi.
    + by intros p w ->%Hi.
    + by intros [=]%Hi.
    + by intros [=]%Hi.
    + by intros [=]%Hi.
  - unfold system_step in E. apply bind_Some in E as (p & Hp & E).
    apply bind_Some in E as ([p' s'] & E & [= <-]). simpl.
    pose proof (delete_Permutation _ _ _ Hp) as P.
    eapply inv_perm; [|eapply step_inv; [eapply inv_perm; [exact P|exact IH]|exact E]].
    assert (i < length (threads y))%nat by by eapply lookup_lt_Some.
    rewrite insert_take_drop by done. rewrite delete_take_drop. solve_Permutation.
Qed.

(** ** What it means for the pins *)

Lemma owners_two f ts i j p q :
  ts !! i = Some p -> ts !! j = Some q -> f p = true -> f q = true -> i <> j -> 2 <= cnt f ts.
Proof.
  intros Hi Hj Hp Hq Hne. rewrite (cnt_perm _ _ _ (delete_Permutation _ _ _ Hi)). simpl. rewrite Hp.
  assert (q ∈ base.delete i ts) as Hin.
  { apply list_elem_of_lookup. destruct (decide (j < i)%nat).
    - exists j. by rewrite list_lookup_delete_lt.
    - exists (pred j). rewrite list_lookup_delete_ge by lia. by replace (S (pred j)) with j by lia. }
  pose proof (cnt_pos f _ _ Hin Hq). simpl. lia.
Qed.
