(* ===== verification/PinThms.v ===== *)
(** * Theorems of the pin protocol

    The guarantees the segments code relies on, from the invariant of
    [PinSafety]; the one it relies on and does not have, as a run
    ([PinDemo.late_release_frees_pinned]); and the schedules on which it does
    hold ([reader_safe]). *)
From S2P Require Import Prelude SegState PinProtocol PinSafety.

Section Guarantees.
Context (n : nat) (y : System) (few_threads : Z.of_nat n < 2 ^ 32).

(** The pin counters are exact: each is the number of threads between their
    increment and their decrement, whatever was interleaved. *)
Theorem pins_counted :
  reachable n y ->
  refs (shared y) = cnt holds_ref (threads y) /\
  writers (shared y) = cnt holds_writer (threads y) /\
  removers (shared y) = cnt holds_remover (threads y).
Proof. intros H%reachable_inv; [|done]. by destruct H. Qed.

(** C5. Once [claim_for_drain] returns, the draining thread has the items to
    itself: no other thread writes or removes any, none drains too, and the
    segment stays Draining. *)
Theorem drain_exclusive i p :
  reachable n y -> threads y !! i = Some p -> past_removers p = true ->
  st (shared y) = Draining /\
  Writing ∉ threads y /\ Removing ∉ threads y /\
  forall j q, threads y !! j = Some q -> owns q = Some Draining -> j = i.
Proof.
  intros H%reachable_inv Hp Hd; [|done].
  assert (p ∈ threads y) as Hin by (apply list_elem_of_lookup; eauto).
  assert (owns p = Some Draining) as Hop by by apply past_removers_owns.
  assert (st (shared y) = Draining) as Hs by by eapply inv_owner.
  split_and!; [done|..].
  - intros Hw. apply (inv_writing _ _ H) in Hw as [_ Hw]. specialize (Hw p Hin). by destruct p.
  - intros Hw. apply (inv_removing _ _ H) in Hw as [_ Hw]. specialize (Hw p Hin). by destruct p.
  - intros j q Hq Hoq. destruct (decide (j = i)) as [|Hne]; [done|exfalso].
    pose proof (owners_two is_owner _ _ _ _ _ Hq Hp) as H2. unfold is_owner at 1 2 in H2.
    rewrite Hop, Hoq in H2. specialize (H2 eq_refl eq_refl Hne).
    pose proof (inv_owners _ _ H) as Hn. rewrite Hs in Hn. simpl in Hn.
    destruct (queued (shared y)); simpl in Hn; lia.
Qed.

(** C36. A segment is in one place only: on the free queue (once, and Free), in the
    hands of one thread, or published; and the state is always the one its
    owner expects, so the transitions of the owner cannot fail. *)
Theorem single_owner :
  reachable n y ->
  (queued (shared y) = true -> st (shared y) = Free /\ forall p, p ∈ threads y -> owns p = None) /\
  (forall i p x, threads y !! i = Some p -> owns p = Some x -> st (shared y) = x /\
     forall j q, threads y !! j = Some q -> owns q <> None -> j = i) /\
  (owners_in (st (shared y)) = 1 -> queued (shared y) = true \/
     exists p, p ∈ threads y /\ owns p = Some (st (shared y))).
Proof.
  intros H%reachable_inv; [|done]. pose proof (inv_owners _ _ H) as Hn.
  pose proof (cnt_nonneg is_owner (threads y)). split_and!.
  - intros Hq. assert (Hs := inv_queued _ _ H Hq). split; [done|]. intros p Hp.
    rewrite Hq, Hs in Hn. simpl in Hn.
    pose proof (cnt_zero is_owner (threads y) p ltac:(lia) Hp) as Ho. unfold is_owner in Ho.
    by destruct (owns p).
  - intros i p x Hp Hx. assert (p ∈ threads y) as Hin by (apply list_elem_of_lookup; eauto).
    split; [by eapply inv_owner|]. intros j q Hq Hoq.
    destruct (decide (j = i)) as [|Hne]; [done|exfalso].
    pose proof (owners_two is_owner _ _ _ _ _ Hq Hp) as H2. unfold is_owner at 1 2 in H2.
    rewrite Hx in H2. destruct (owns q); [|done]. specialize (H2 eq_refl eq_refl Hne).
    destruct (queued (shared y)), (st (shared y)); simpl in Hn; lia.
  - intros Ho. destruct (queued (shared y)); [by left|right]. rewrite Ho in Hn. simpl in Hn.
    destruct (cnt_ex is_owner (threads y)) as (p & Hp & Hop); [lia|].
    exists p. split; [done|]. unfold is_owner in Hop. destruct (owns p) as [x|] eqn:E; [|done].
    f_equal. symmetry. by eapply inv_owner.
Qed.

(** C24. [recycle] only runs on a segment without readers: between its look at the
    reader count and the transition to Free nobody holds a pin. *)
Theorem recycle_unpinned i :
  reachable n y -> threads y !! i = Some Recycling ->
  st (shared y) = Draining /\ Pinned ∉ threads y.
Proof.
  intros H%reachable_inv Hi; [|done].
  assert (Recycling ∈ threads y) as Hin by (apply list_elem_of_lookup; eauto).
  split; [by eapply inv_owner|]. intros Hp. by apply (inv_recycling _ _ H).
Qed.

(** C25. A condemned segment is not stranded: as long as it awaits its release some
    thread holds a pin on it, or is about to look at its state, or holds the
    word its release exchanges. *)
Theorem condemned_not_stranded :
  reachable n y -> st (shared y) = AwaitingRelease ->
  exists p, p ∈ threads y /\
    (holds_ref p = true \/ p = CondemnRecheck \/ p = RelLoad \/ p = RelSwap (word (shared y))).
Proof.
  intros H%reachable_inv Hs; [|done].
  destruct (inv_freed _ _ H Hs) as (p & Hp & Hw). exists p. split; [done|].
  destruct p; simpl in Hw; auto. apply bool_decide_eq_true in Hw. subst. auto.
Qed.
End Guarantees.

(** ** Readers *)

(** A thread in [try_release_condemned], on the strength of an earlier look at
    the reader count. *)
Definition releasing (p : Pc) : bool :=
  match p with
  | RelLoad | RelSwap _ => true
  | _ => false
  end.

Definition condemns (p : Pc) : bool :=
  match p with
  | CondemnSwap _ _ => true
  | _ => false
  end.

(** The runs in which no segment is condemned while a thread is still in the
    release of an earlier pin of it. *)
Inductive calm (n : nat) : System -> Prop :=
| calm_initial : calm n (initial n)
| calm_step i p a y y' :
    calm n y -> threads y !! i = Some p ->
    (condemns p = true -> forall q, q ∈ threads y -> releasing q = false) ->
    system_step i a y = Some y' -> calm n y'.

(** The states in which the items of a segment are those of its incarnation. *)
Definition data_valid (x : State) : bool :=
  match x with
  | Live | Sealed | Relinking | Draining | AwaitingRelease => true
  | _ => false
  end.

Definition readers_ok (s : Shared) (ts : list Pc) : Prop :=
  Pinned ∈ ts -> data_valid (st s) = true /\
    (st s = AwaitingRelease -> forall q, q ∈ ts -> releasing q = false).

Lemma step_readers_ok s p rest a p' s' :
  inv s (p :: rest) -> readers_ok s (p :: rest) ->
  (condemns p = true -> forall q, q ∈ p :: rest -> releasing q = false) ->
  next_step a p s = Some (p', s') -> readers_ok s' (p' :: rest).
Proof.
  intros Hi Hr Hc E Hp. pose proof (inv_refs _ _ Hi) as Hn. cbn [cnt] in Hn.
  pose proof (inv_relswap _ _ Hi) as Hrs. pose proof (inv_recycling _ _ Hi) as Hrec.
  pose proof (fun x => inv_owner _ _ Hi p x ltac:(by left)) as Ho.
  apply elem_of_cons in Hp as [Hp|Hp].
  { subst p'. pin_cases E. unfold is_readable in Heqb.
    split; [by destruct (st s')|]. intros Hs. by rewrite Hs in Heqb. }
  destruct (Hr ltac:(by right)) as [Hd Hf].
  pose proof (cnt_pos holds_ref rest _ Hp eq_refl) as Hpos.
  assert (st s = AwaitingRelease -> forall q, q ∈ rest -> releasing q = false) as Hf'.
  { intros Hs q Hq. apply Hf; [done|by right]. }
  assert (st s = AwaitingRelease -> releasing p = false) as Hfp.
  { intros Hs. apply Hf; [done|by left]. }
  pin_step Hi E; unfold st in *; shared_simpl; simpl in Ho, Hn.
  (* the state is kept, or was that of a segment no reader holds *)
  all: try match goal with H : state _ = _ |- _ => rewrite H in Hd; discriminate Hd end.
  all: try match goal with H : (refs _ =? _) = true |- _ => apply Z.eqb_eq in H; lia end.
  all: try (split; [done|intros Hs q [->|Hq]%elem_of_cons; [done|by apply Hf']]; done).
  - (* the load of try_release_condemned *) by specialize (Hfp Heqb).
  - (* its exchange *) subst w. specialize (Hfp (Hrs _ ltac:(by left))). done.
  - (* recycle *) exfalso. apply Hrec; [by left|by right].
  - (* condemn *) split; [done|]. intros _ q [->|Hq]%elem_of_cons; [done|].
    apply Hc; [done|by right].
Qed.

Lemma calm_reachable n y : calm n y -> reachable n y.
Proof. induction 1; [constructor|by econstructor]. Qed.

Lemma readers_ok_perm s ts ts' : ts ≡ₚ ts' -> readers_ok s ts -> readers_ok s ts'.
Proof.
  unfold readers_ok. intros P H Hp. rewrite <- P in Hp. destruct (H Hp) as [? Hf].
  split; [done|]. intros Hs q Hq. rewrite <- P in Hq. auto.
Qed.

(** C6. On the runs in which no segment is condemned while an earlier pin of it is
    still being released, a reader's segment is never freed under it: its data
    stay those of the incarnation it pinned. *)
Theorem reader_safe n y :
  Z.of_nat n < 2 ^ 32 -> calm n y -> Pinned ∈ threads y ->
  data_valid (st (shared y)) = true /\ queued (shared y) = false.
Proof.
  intros Hn Hc Hp. assert (Hi := reachable_inv n y Hn (calm_reachable n y Hc)).
  assert (readers_ok (shared y) (threads y)) as Hr.
  { clear Hp Hi. induction Hc as [|i p a y y' Hc IH Hp Hg E].
    - intros Hp. apply elem_of_replicate in Hp as [[=] _].
    - pose proof (reachable_inv n y Hn (calm_reachable n y Hc)) as Hi.
      unfold system_step in E. rewrite Hp in E. simpl in E.
      apply bind_Some in E as ([p' s'] & E & [= <-]). simpl.
      pose proof (delete_Permutation _ _ _ Hp) as P.
      eapply readers_ok_perm; [|eapply step_readers_ok; [by eapply inv_perm|
        by eapply readers_ok_perm| |exact E]].
      + assert (i < length (threads y))%nat by by eapply lookup_lt_Some.
        rewrite insert_take_drop by done. rewrite delete_take_drop. solve_Permutation.
      + intros Hcp q. rewrite <- P. by apply Hg. }
  destruct (Hr Hp) as [Hd _]. split; [done|].
  destruct (queued (shared y)) eqn:Hq; [|done]. apply (inv_queued _ _ Hi) in Hq.
  by rewrite Hq in Hd.
Qed.

(** ** Runs *)

Module PinDemo.
(** Thread 3 publishes the segment; 0 and 1 read, 2 evicts. *)
Definition publish : list (nat * Act) :=
  [(3, Pop); (3, Go); (3, Link None None); (3, Publish Live)]%nat.
Definition pin (i : nat) : list (nat * Act) := [(i, Acquire); (i, Go); (i, Go)].
Definition claim : list (nat * Act) :=
  [(2, Claim Sealed); (2, Go); (2, Go); (2, Go); (2, Go)]%nat.
Definition go (i k : nat) : list (nat * Act) := replicate k (i, Go).

Lemma run_steps_reachable n steps y y' :
  reachable n y -> run_steps steps y = Some y' -> reachable n y'.
Proof.
  revert y. induction steps as [|[i a] steps IH]; intros y H E; simpl in E; [congruence|].
  apply bind_Some in E as (y1 & E1 & E). eapply IH; [|done]. by econstructor.
Qed.

Definition late_release : list (nat * Act) :=
  publish ++ pin 0 ++ [(3%nat, Seal None)] ++ go 0 1 ++ pin 1 ++ claim ++ go 2 5 ++ go 0 4.

(** C38. Thread 0 drops its guard, sees the count go to zero and stalls; thread 1
    pins the sealed segment, the evictor condemns it in favour of that pin, and
    thread 0 then completes the release: the segment is on the free queue, and
    can be published anew, under the pin of thread 1. *)
Theorem late_release_frees_pinned :
  exists y y', reachable 4 y /\ threads y !! 1%nat = Some Pinned /\
    st (shared y) = Free /\ queued (shared y) = true /\
    run_steps publish y = Some y' /\ threads y' !! 1%nat = Some Pinned /\ st (shared y') = Live.
Proof.
  destruct (run_steps late_release (initial 4)) as [y|] eqn:E; [|by vm_compute in E].
  exists y. assert (reachable 4 y) as H by by (eapply run_steps_reachable; [constructor|exact E]).
  vm_compute in E. injection E as <-. eexists. by vm_compute.
Qed.

Definition mid : list (nat * Act) :=
  publish ++ pin 0 ++ [(3%nat, Seal None)] ++ claim.

Definition system (steps : list (nat * Act)) : System :=
  default (initial 4) (run_steps steps (initial 4)).

Lemma system_reachable steps :
  run_steps steps (initial 4) <> None -> reachable 4 (system steps).
Proof.
  unfold system. destruct (run_steps _ _) as [y|] eqn:E; [|done]. intros _.
  eapply run_steps_reachable; [constructor|exact E].
Qed.

Lemma pins_counted_witness :
  refs (shared (system mid)) = cnt holds_ref (threads (system mid)) /\
  writers (shared (system mid)) = cnt holds_writer (threads (system mid)) /\
  removers (shared (system mid)) = cnt holds_remover (threads (system mid)).
Proof. apply (pins_counted 4); [done|]. apply system_reachable. by vm_compute. Defined.

Lemma drain_exclusive_witness :
  st (shared (system mid)) = Draining /\
  Writing ∉ threads (system mid) /\ Removing ∉ threads (system mid) /\
  forall j q, threads (system mid) !! j = Some q -> owns q = Some Draining -> j = 2%nat.
Proof.
  apply (drain_exclusive 4 (system mid) ltac:(done) 2 CheckRefs); [|done|done].
  apply system_reachable. by vm_compute.
Defined.

Lemma single_owner_witness :
  let y := system mid in
  (queued (shared y) = true -> st (shared y) = Free /\ forall p, p ∈ threads y -> owns p = None) /\
  (forall i p x, threads y !! i = Some p -> owns p = Some x -> st (shared y) = x /\
     forall j q, threads y !! j = Some q -> owns q <> None -> j = i) /\
  (owners_in (st (shared y)) = 1 -> queued (shared y) = true \/
     exists p, p ∈ threads y /\ owns p = Some (st (shared y))).
Proof. apply (single_owner 4); [done|]. apply system_reachable. by vm_compute. Defined.

Lemma recycle_unpinned_witness :
  let y := system (publish ++ pin 0 ++ [(3%nat, Seal None)] ++ go 0 2 ++ claim ++ go 2 1) in
  st (shared y) = Draining /\ Pinned ∉ threads y.
Proof.
  intros y. apply (recycle_unpinned 4 y ltac:(done) 2); [|done].
  apply system_reachable. by vm_compute.
Defined.

Lemma condemned_not_stranded_witness :
  let y := system (mid ++ go 2 5) in
  exists p, p ∈ threads y /\
    (holds_ref p = true \/ p = CondemnRecheck \/ p = RelLoad \/ p = RelSwap (word (shared y))).
Proof.
  intros y. apply (condemned_not_stranded 4 y ltac:(done)); [|done].
  apply system_reachable. by vm_compute.
Defined.

(** The runs whose condemnations find no thread releasing, by computation. *)
Fixpoint run_calm (steps : list (nat * Act)) (y : System) : option System :=
  match steps with
  | [] => Some y
  | (i, a) :: steps =>
      if forallb (fun p => negb (condemns p)) (take 1 (drop i (threads y)))
         || forallb (fun q => negb (releasing q)) (threads y)
      then y ← system_step i a y; run_calm steps y
      else None
  end.

Lemma run_calm_spec n steps y y' : calm n y -> run_calm steps y = Some y' -> calm n y'.
Proof.
  revert y. induction steps as [|[i a] steps IH]; intros y H E; simpl in E; [congruence|].
  destruct (_ || _) eqn:Hg; [|done].
  apply bind_Some in E as (y1 & E1 & E). eapply IH; [|done].
  assert (E1' := E1). unfold system_step in E1'. apply bind_Some in E1' as (p & Hp & _).
  apply (calm_step n i p a y); [done|done| |done]. intros Hc q Hq.
  apply orb_true_iff in Hg as [Hg|Hg].
  - rewrite (drop_S _ _ _ Hp) in Hg. simpl in Hg. by rewrite Hc in Hg.
  - rewrite forallb_forall in Hg. apply negb_true_iff, Hg. by apply list_elem_of_In.
Qed.

Lemma reader_safe_witness :
  exists y, calm 4 y /\ Pinned ∈ threads y /\ st (shared y) = AwaitingRelease /\
    data_valid (st (shared y)) = true /\ queued (shared y) = false.
Proof.
  destruct (run_calm (mid ++ go 2 5) (initial 4)) as [y|] eqn:E; [|by vm_compute in E].
  assert (calm 4 y) as H by by (eapply run_calm_spec; [constructor|exact E]).
  exists y. assert (Pinned ∈ threads y) as Hp.
  { vm_compute in E. injection E as <-. by left. }
  split; [done|]. split; [done|]. split; [vm_compute in E; by injection E as <-|].
  by apply (reader_safe 4 y).
Defined.
End PinDemo.
