(* ===== verification/TtlBuckets.v ===== *)
(** * TTL buckets

    The bucket arithmetic of [ttl_buckets/ttl_buckets.rs] and the fields of
    [ttl_buckets/ttl_bucket.rs]: 1024 buckets in four tiers of 256, the map
    from a time to live (seconds in a [u32], read as an [i32]) to its bucket,
    and the floor each bucket stamps its segments with. Draining and expanding
    a chain are in [Segments]. *)
From S2P Require Import Prelude.

Definition BUCKETS_PER_TIER : Z := 256.
Definition TIER_COUNT : Z := 4.
Definition TOTAL_BUCKETS : Z := BUCKETS_PER_TIER * TIER_COUNT.
Definition TIER_1_SHIFT : Z := 3.
Definition TIER_2_SHIFT : Z := 7.
Definition TIER_3_SHIFT : Z := 11.
Definition TIER_4_SHIFT : Z := 15.
Definition TIER_1_MAX : Z := Z.shiftl 1 (TIER_1_SHIFT + 8).
Definition TIER_2_MAX : Z := Z.shiftl 1 (TIER_2_SHIFT + 8).
Definition TIER_3_MAX : Z := Z.shiftl 1 (TIER_3_SHIFT + 8).

(** [bucket_index]: on an [i32], two's complement. *)
Definition bucket_index (secs : Z) : Z :=
  if secs <=? 0 then TOTAL_BUCKETS - 1
  else if Z.land secs (Z.lnot (TIER_1_MAX - 1)) =? 0 then Z.shiftr secs TIER_1_SHIFT
  else if Z.land secs (Z.lnot (TIER_2_MAX - 1)) =? 0 then
    Z.shiftr secs TIER_2_SHIFT + BUCKETS_PER_TIER
  else if Z.land secs (Z.lnot (TIER_3_MAX - 1)) =? 0 then
    Z.shiftr secs TIER_3_SHIFT + BUCKETS_PER_TIER * 2
  else
    let idx := Z.shiftr secs TIER_4_SHIFT + BUCKETS_PER_TIER * 3 in
    Z.min idx (TOTAL_BUCKETS - 1).

(** [TtlBucket], without its chain lock: 0 is no segment. *)
Record TtlBucket := mkBucket { head : Z; tail : Z; ttl : Z; nseg : Z; next_to_merge : Z }.

Definition new_bucket (ttl : Z) : TtlBucket := mkBucket 0 0 ttl 0 0.

Definition widths : list Z :=
  [Z.shiftl 1 TIER_1_SHIFT; Z.shiftl 1 TIER_2_SHIFT; Z.shiftl 1 TIER_3_SHIFT; Z.shiftl 1 TIER_4_SHIFT].

(** [TtlBuckets::new]. *)
Definition new : list TtlBucket :=
  mjoin (map (fun width =>
    map (fun j => new_bucket (Z.max (width * Z.of_nat j) 1)) (seq 0 (Z.to_nat BUCKETS_PER_TIER)))
    widths).

(** [as i32] of a [u32]. *)
Definition as_i32 (x : Z) : Z := if x <? 2 ^ 31 then x else x - 2 ^ 32.

Definition get_bucket_index (secs : Z) : Z := bucket_index (as_i32 secs).

(** [get_bucket]: [None] is an access out of bounds. *)
Definition get_bucket (buckets : list TtlBucket) (secs : Z) : option TtlBucket :=
  buckets !! Z.to_nat (get_bucket_index secs).

Definition holds_ttl (b : TtlBucket) (secs : Z) : bool := secs =? u32 (ttl b).

(** ** The tiers *)

(** Masking away the low bits leaves zero exactly below the power. *)
Lemma above_mask k x :
  0 <= k -> 0 < x -> (Z.land x (Z.lnot (2 ^ k - 1)) =? 0) = (x <? 2 ^ k).
Proof.
  intros Hk Hx. pose proof (Z.pow_pos_nonneg 2 k ltac:(lia) Hk) as Hp.
  assert (Z.land x (Z.lnot (2 ^ k - 1)) = x - x mod 2 ^ k) as ->.
  { assert (2 ^ k - 1 = Z.ones k) as -> by (rewrite Z.ones_equiv; lia).
    rewrite <- Z.ldiff_land, Z.ldiff_ones_r by done.
    rewrite Z.shiftl_mul_pow2, Z.shiftr_div_pow2 by done.
    pose proof (Z.div_mod x (2 ^ k) ltac:(lia)). lia. }
  destruct (Z.ltb_spec x (2 ^ k)).
  - rewrite Z.mod_small by lia. apply Z.eqb_eq. lia.
  - apply Z.eqb_neq. pose proof (Z.mod_pos_bound x (2 ^ k) Hp). lia.
Qed.

Lemma bucket_index_tiers x :
  bucket_index x =
    if x <=? 0 then 1023
    else if x <? 2048 then x / 8
    else if x <? 32768 then x / 128 + 256
    else if x <? 524288 then x / 2048 + 512
    else Z.min (x / 32768 + 768) 1023.
Proof.
  unfold bucket_index. destruct (Z.leb_spec x 0); [done|].
  change TIER_1_MAX with (2 ^ 11). change TIER_2_MAX with (2 ^ 15). change TIER_3_MAX with (2 ^ 19).
  rewrite !above_mask by lia. rewrite !Z.shiftr_div_pow2 by (vm_compute; congruence). done.
Qed.

Lemma bucket_index_range x : 0 <= bucket_index x < 1024.
Proof. rewrite bucket_index_tiers. repeat case_bool; dm. Qed.

(** The floor of a bucket. *)
Definition floor (i : Z) : Z :=
  Z.max (if i <? 256 then 8 * i else if i <? 512 then 128 * (i - 256)
         else if i <? 768 then 2048 * (i - 512) else 32768 * (i - 768)) 1.

Lemma new_lookup i : 0 <= i < 1024 -> new !! Z.to_nat i = Some (new_bucket (floor i)).
Proof.
  intros Hi.
  assert (forallb (fun n => bool_decide (fmap ttl (new !! n) = Some (floor (Z.of_nat n)) /\
    fmap head (new !! n) = Some 0 /\ fmap tail (new !! n) = Some 0 /\
    fmap nseg (new !! n) = Some 0 /\ fmap next_to_merge (new !! n) = Some 0)) (seq 0 1024) = true)
    as H by (vm_compute; reflexivity).
  rewrite forallb_forall in H. specialize (H (Z.to_nat i)).
  rewrite bool_decide_eq_true, in_seq, Z2Nat.id in H by lia.
  destruct H as (H1 & H2 & H3 & H4 & H5); [lia|].
  destruct (new !! Z.to_nat i) as [[h t l n m]|]; simpl in *; simplify_eq. done.
Qed.

Lemma length_new : length new = 1024%nat.
Proof. by vm_compute. Qed.

(** The floor of the bucket of a positive time to live does not exceed it. *)
Lemma floor_le x : 0 < x -> floor (bucket_index x) <= x.
Proof. intros. rewrite bucket_index_tiers. unfold floor. repeat case_bool; dm. Qed.

Lemma bucket_index_mono x y : 0 < x <= y -> bucket_index x <= bucket_index y.
Proof. intros. rewrite !bucket_index_tiers. repeat case_bool; dm. Qed.

(** The widths, seen from the bucket: how much of a time to live is given up. *)
Definition width (i : Z) : Z :=
  if i <? 256 then 8 else if i <? 512 then 128 else if i <? 768 then 2048 else 32768.

Lemma floor_loss x : 0 < x -> bucket_index x < 1023 -> x - floor (bucket_index x) < width (bucket_index x).
Proof. intros Hx. rewrite bucket_index_tiers. unfold floor, width. repeat case_bool; dm. Qed.

Lemma floor_mono x y : 0 < x <= y -> floor (bucket_index x) <= floor (bucket_index y).
Proof. intros. rewrite !bucket_index_tiers. unfold floor. repeat case_bool; dm. Qed.

Lemma floor_inj x y :
  0 < x -> 0 < y -> floor (bucket_index x) = floor (bucket_index y) -> bucket_index x = bucket_index y.
Proof. intros Hx Hy. rewrite !bucket_index_tiers. unfold floor. repeat case_bool; dm. Qed.

Lemma as_i32_pos x : fits 32 x -> 0 < as_i32 x -> as_i32 x = x /\ x < 2 ^ 31.
Proof. unfold fits, as_i32. pow2. case_bool; lia. Qed.

Lemma get_bucket_some secs : get_bucket new secs = Some (new_bucket (floor (get_bucket_index secs))).
Proof. apply new_lookup, bucket_index_range. Qed.

Lemma bucket_ttl_fits i : 0 <= i < 1024 -> fits 32 (floor i) /\ 0 < floor i.
Proof. intros. unfold floor, fits. pow2. repeat case_bool; lia. Qed.

(** C39. [get_bucket] is total on every time to live. A positive one (below 2^31
    seconds) never gets a bucket whose stamp outlives it, and loses less than
    the width of its tier below the last bucket; anything else, and everything
    past the last floor, gets the last bucket. *)
Theorem get_bucket_ttl secs :
  fits 32 secs ->
  exists b, get_bucket new secs = Some b /\ fits 32 (ttl b) /\ 0 < ttl b /\
    (0 < secs < 2 ^ 31 -> ttl b <= secs /\
       (get_bucket_index secs < 1023 -> secs - ttl b < width (get_bucket_index secs))) /\
    (secs = 0 \/ 2 ^ 31 <= secs \/ 8355840 <= secs -> ttl b = 8355840).
Proof.
  intros Hs. exists (new_bucket (floor (get_bucket_index secs))). rewrite get_bucket_some.
  cbn [ttl new_bucket]. destruct (bucket_ttl_fits (get_bucket_index secs)) as [? ?];
    [apply bucket_index_range|].
  split_and!; try done; unfold get_bucket_index, as_i32.
  - intros [? ?]. rewrite (proj2 (Z.ltb_lt secs (2 ^ 31))) by done.
    split; [by apply floor_le|by apply floor_loss].
  - intros Hc. assert (bucket_index (if secs <? 2 ^ 31 then secs else secs - 2 ^ 32) = 1023) as ->; [|done].
    unfold fits in Hs. rewrite bucket_index_tiers. pow2. repeat case_bool; dm.
Qed.

(** A longer time to live never goes to an earlier bucket, and the stamp of a
    bucket that holds items identifies it ([holds_ttl]). *)
Theorem buckets_ordered secs secs' :
  0 < secs <= secs' -> secs' < 2 ^ 31 ->
  get_bucket_index secs <= get_bucket_index secs' /\
  exists b b', get_bucket new secs = Some b /\ get_bucket new secs' = Some b' /\
    ttl b <= ttl b' /\
    (holds_ttl b (ttl b') = true <-> get_bucket_index secs = get_bucket_index secs').
Proof.
  intros [H1 H2] H3. assert (as_i32 secs = secs /\ as_i32 secs' = secs') as [E1 E2].
  { unfold as_i32. rewrite !(proj2 (Z.ltb_lt _ _)) by lia. done. }
  unfold get_bucket_index at 1 2 3 4. rewrite E1, E2.
  pose proof (bucket_index_mono secs secs' ltac:(lia)) as Hm. split; [done|].
  do 2 eexists. rewrite !get_bucket_some. split_and!; try done.
  - cbn [ttl new_bucket]. unfold get_bucket_index. rewrite E1, E2.
    by apply floor_mono.
  - unfold holds_ttl. cbn [ttl new_bucket]. unfold get_bucket_index. rewrite E1, E2.
    destruct (bucket_ttl_fits (bucket_index secs)) as [? _]; [apply bucket_index_range|].
    rewrite wrap_id, Z.eqb_eq by done. split.
    + intros E. symmetry. apply floor_inj; try done; lia.
    + by intros ->.
Qed.

Module TtlDemo.
Lemma get_bucket_ttl_witness :
  exists b, get_bucket new 3600 = Some b /\ fits 32 (ttl b) /\ 0 < ttl b /\
    (0 < 3600 < 2 ^ 31 -> ttl b <= 3600 /\
       (get_bucket_index 3600 < 1023 -> 3600 - ttl b < width (get_bucket_index 3600))) /\
    (3600 = 0 \/ 2 ^ 31 <= 3600 \/ 8355840 <= 3600 -> ttl b = 8355840).
Proof. apply (get_bucket_ttl 3600). vm_compute. intuition congruence. Defined.

Lemma buckets_ordered_witness :
  get_bucket_index 2047 <= get_bucket_index 2048 /\
  exists b b', get_bucket new 2047 = Some b /\ get_bucket new 2048 = Some b' /\
    ttl b <= ttl b' /\
    (holds_ttl b (ttl b') = true <-> get_bucket_index 2047 = get_bucket_index 2048).
Proof. apply (buckets_ordered 2047 2048); [lia|by vm_compute]. Defined.

(** The time to live 0 is stamped like the longest one: about 97 days. *)
Example zero_ttl_expires : fmap ttl (get_bucket new 0) = Some 8355840.
Proof. by vm_compute. Qed.
End TtlDemo.
