(* ===== verification/Eviction.v ===== *)
(** * Choosing a segment to evict

    [Eviction] of [eviction/mod.rs] (ranking, the merge parameters), the ghost
    queue of [eviction/ghost.rs], and [Segments::least_valuable_seg] with its
    helper policies, on a snapshot of the segment headers: no other thread
    moves during a selection here (a selected segment is claimed, and the claim
    decides, see [PinProtocol]). Instants are seconds of the coarse clock.
    The ratios of the merge policy are [f64]s. *)
From S2P Require Import Prelude F64 Atomics Packing TtlBuckets SegState SegHeader.
From stdpp Require Import gmap sorting.
#[local] Open Scope Z_scope.

(** ** Policies *)

Inductive Policy :=
| PolicyNone
| PolicyRandom
| RandomFifo
| Fifo
| Cte
| Util
| Merge (max merge compact : Z)
| S3Fifo (admission_ratio : F64.f64).

(** ** The ghost queue *)

Record GhostQueue := mkGhost { queue : list Z; set : gset Z; capacity : Z }.

Definition ghost_new (capacity : Z) : GhostQueue := mkGhost [] ∅ capacity.

Definition ghost_contains (g : GhostQueue) (hash : Z) : bool := bool_decide (hash ∈ set g).

(** The loop of [insert]: pop while the set is at capacity. *)
Fixpoint ghost_make_room (queue : list Z) (set : gset Z) (capacity : Z) : list Z * gset Z :=
  if Z.of_nat (size set) <? capacity then (queue, set)
  else
    match queue with
    | old :: queue => ghost_make_room queue (set ∖ {[old]}) capacity
    | [] => ([], set)
    end.

Definition ghost_insert (hash : Z) (g : GhostQueue) : GhostQueue :=
  if ghost_contains g hash then g
  else
    let (q, s) := ghost_make_room (queue g) (set g) (capacity g) in
    mkGhost (q ++ [hash]) (s ∪ {[hash]}) (capacity g).

Definition ghost_remove (hash : Z) (g : GhostQueue) : GhostQueue :=
  mkGhost (queue g) (set g ∖ {[hash]}) (capacity g).

(** ** Ranking *)

Record Eviction := mkEviction {
  policy : Policy;
  last_update_time : Z;
  ranked_segs : list (option Z);
  index : nat;
  rng : Z;
  ghost : GhostQueue
}.

Definition is_s3fifo (p : Policy) : bool :=
  match p with
  | S3Fifo _ => true
  | _ => false
  end.

Definition new_eviction (nseg : nat) (p : Policy) (seed : option Z) (now : Z) : Eviction :=
  mkEviction p now (replicate nseg None) 0 (default Random.DEFAULT_SEED seed)
    (ghost_new (if is_s3fifo p then Z.max 1024 (Z.of_nat nseg * 64) else 0)).

(** [Eviction::least_valuable_seg]. *)
Definition next_ranked (e : Eviction) : option Z * Eviction :=
  (mjoin (ranked_segs e !! index e),
   mkEviction (policy e) (last_update_time e) (ranked_segs e) (S (index e)) (rng e) (ghost e)).

Definition ranks (p : Policy) : bool :=
  match p with
  | Fifo | Cte | Util => true
  | _ => false
  end.

(** [should_rerank]; [ranked_segs[0]] panics on a cache without segments. *)
Definition should_rerank (now : Z) (e : Eviction) : option (bool * Eviction) :=
  if ranks (policy e) then
    first ← ranked_segs e !! 0%nat;
    if negb (bool_decide (is_Some first)) || (1 <? now - last_update_time e)
       || (length (ranked_segs e) <? index e + 8)%nat
    then Some (true, mkEviction (policy e) now (ranked_segs e) (index e) (rng e) (ghost e))
    else Some (false, e)
  else Some (false, e).

(** A header's [can_evict], with no other thread running. *)
Definition evictable (h : SegmentHeader) : bool :=
  match run can_evict h with
  | Some (b, _) => b
  | None => false
  end.

#[global] Arguments evictable : simpl never.

(** The order of [(bool, K, NonZeroU32)]. *)
Definition rank_key : Type := bool * Z * Z.

Definition rank_le (a b : rank_key) : Prop :=
  let '(x, k, i) := a in
  let '(y, l, j) := b in
  (x = false /\ y = true) \/ (x = y /\ (k < l \/ (k = l /\ i <= j))).

#[export] Instance rank_le_dec a b : Decision (rank_le a b).
Proof. destruct a as [[x k] i], b as [[y l] j]. unfold rank_le. apply _. Defined.

(** [rank_by]: a slot beyond the ranking keeps its value ([zip]). *)
Fixpoint overwrite (slots : list (option Z)) (ids : list Z) : list (option Z) :=
  match slots, ids with
  | _ :: slots, id :: ids => Some id :: overwrite slots ids
  | slots, _ => slots
  end.

Definition rank_by (key : SegmentHeader -> Z) (headers : list SegmentHeader) (e : Eviction) : Eviction :=
  let ranked := merge_sort rank_le (map (fun h => (negb (evictable h), key h, id h)) headers) in
  mkEviction (policy e) (last_update_time e) (overwrite (ranked_segs e) (map snd ranked)) 0
    (rng e) (ghost e).

Definition rerank (headers : list SegmentHeader) (e : Eviction) : Eviction :=
  match policy e with
  | Fifo => rank_by (fun h => Z.max (create_at h) (merge_at h)) headers e
  | Cte => rank_by (fun h => create_at h + ttl h) headers e
  | Util => rank_by live_bytes headers e
  | _ => e
  end.

(** ** Merge parameters *)

Definition max_merge (e : Eviction) : Z :=
  match policy e with
  | Merge max _ _ => max
  | _ => 8
  end.

Definition n_merge (e : Eviction) : Z :=
  match policy e with
  | Merge _ merge _ => merge
  | _ => 4
  end.

Definition n_compact (e : Eviction) : Z :=
  match policy e with
  | Merge _ _ compact => compact
  | _ => 2
  end.

Definition compact_ratio (e : Eviction) : F64.f64 :=
  if n_compact e =? 0 then F64.of_Z 0 else F64.div (F64.of_Z 1) (F64.of_Z (n_compact e)).

Definition target_ratio (e : Eviction) : F64.f64 := F64.div (F64.of_Z 1) (F64.of_Z (n_merge e)).

Definition stop_ratio (e : Eviction) : F64.f64 :=
  F64.add (F64.mul (target_ratio e) (F64.of_Z (n_merge e - 1))) (F64.literal 5 100).

(** ** [Segments::least_valuable_seg] *)

Section Select.
Context (headers : list SegmentHeader) (heads : list Z) (now : Z).
Implicit Types (e : Eviction).

Definition header (i : Z) : option SegmentHeader := if i <? 0 then None else headers !! Z.to_nat i.

(** The header of segment [id] is entry [id - 1]. *)
Definition header_of (id : Z) : option SegmentHeader := header (id - 1).

Definition cap : Z := Z.of_nat (length headers).

Definition random (e : Eviction) : Z * Eviction :=
  let (x, rng) := Random.next_u32 (rng e) in
  (x, mkEviction (policy e) (last_update_time e) (ranked_segs e) (index e) rng (ghost e)).

(** The indices of a probe of every segment, from [start]. *)
Definition probe (start : Z) : list Z :=
  map (fun i => (start + Z.of_nat i) mod cap) (seq 0 (length headers)).

Definition evictable_at (i : Z) : bool :=
  match header i with
  | Some h => evictable h
  | None => false
  end.

Definition select_random (start : Z) : option Z :=
  i ← find evictable_at (probe start); Some (i + 1).

(** The walk of a bucket's chain, at most [cap] steps. *)
Fixpoint oldest_evictable (fuel : nat) (seg : option Z) : option Z :=
  match fuel with
  | O => None
  | S fuel =>
      id ← seg;
      h ← header_of id;
      if evictable h then Some id
      else
        m ← unpack (metadata h);
        oldest_evictable fuel (next m)
  end.

Definition bucket_at (i : Z) : option Z :=
  h ← header i;
  m ← unpack (metadata h);
  if is_readable (state m) then Some (get_bucket_index (ttl h)) else None.

Fixpoint select_random_fifo (indices : list Z) (examined : gset Z) : option Z :=
  match indices with
  | [] => None
  | i :: indices =>
      match bucket_at i with
      | None => select_random_fifo indices examined
      | Some bucket =>
          if bool_decide (bucket ∈ examined) then select_random_fifo indices examined
          else
            match oldest_evictable (length headers) (nonzero (default 0 (heads !! Z.to_nat bucket))) with
            | Some id => Some id
            | None => select_random_fifo indices (examined ∪ {[bucket]})
            end
      end
  end.

(** The loop over the ranking: it ends at the first free slot, so a lap per
    slot, and one more, are enough. *)
Fixpoint select_ranked (fuel : nat) e : option (option Z * Eviction) :=
  match fuel with
  | O => None
  | S fuel =>
      let (seg, e) := next_ranked e in
      match seg with
      | None => Some (None, e)
      | Some id =>
          if evictable_at (id - 1) then Some (Some id, e) else select_ranked fuel e
      end
  end.

(** [start %= self.cap]: it panics on an empty cache. *)
Definition random_start e : option (Z * Eviction) :=
  let (start, e) := random e in
  if cap =? 0 then None else Some (start mod cap, e).

(** [None] is a panic or a run out of fuel. *)
Definition least_valuable_seg e : option (option Z * Eviction) :=
  match policy e with
  | PolicyNone => Some (None, e)
  | PolicyRandom =>
      r ← random_start e;
      Some (select_random r.1, r.2)
  | RandomFifo =>
      r ← random_start e;
      Some (select_random_fifo (probe r.1) ∅, r.2)
  | _ =>
      r ← should_rerank now e;
      let e := if r.1 : bool then rerank headers r.2 else r.2 in
      select_ranked (S (length (ranked_segs e))) e
  end.
End Select.
