(* ===== verification/EvictionSpec.v ===== *)
(** * What eviction selects

    The ghost queue as a bounded set with first-in first-out replacement, and
    where that description fails; the ranking as a sort with the evictable
    segments first; and the segment every policy selects. *)
From S2P Require Import Prelude Atomics Packing TtlBuckets SegState SegHeader Eviction.
From stdpp Require Import gmap sorting.
#[local] Open Scope Z_scope.

(** ** The ghost queue *)

Inductive GhostOp :=
| GInsert (hash : Z)
| GRemove (hash : Z).

Definition ghost_step (g : GhostQueue) (op : GhostOp) : GhostQueue :=
  match op with
  | GInsert h => ghost_insert h g
  | GRemove h => ghost_remove h g
  end.

Definition ghost_run (capacity : Z) (ops : list GhostOp) : GhostQueue :=
  foldl ghost_step (ghost_new capacity) ops.

Definition ghost_inv (cap : Z) (g : GhostQueue) : Prop :=
  capacity g = cap /\ set g ⊆ list_to_set (queue g) /\ Z.of_nat (size (set g)) <= Z.max 1 cap.

(** Room is made by dropping a prefix of the queue, and what it holds from the set. *)
Lemma ghost_make_room_spec q s cap :
  s ⊆ list_to_set q ->
  exists k, ghost_make_room q s cap = (drop k q, s ∖ list_to_set (take k q)) /\
    s ∖ list_to_set (take k q) ⊆ list_to_set (drop k q) /\
    (0 < cap -> Z.of_nat (size (s ∖ list_to_set (take k q))) < cap) /\
    (cap <= 0 -> s ∖ list_to_set (take k q) = ∅) /\
    ((0 < k)%nat -> cap <= Z.of_nat (size s)).
Proof.
  revert s. induction q as [|h q IH]; intros s Hs; simpl.
  - exists 0%nat. simpl. assert (s = ∅) as -> by set_solver.
    rewrite size_empty, difference_empty_L. case_bool; split_and!; try done; lia.
  - destruct (Z.ltb_spec (Z.of_nat (size s)) cap).
    + exists 0%nat. simpl. rewrite difference_empty_L. split_and!; try done; lia.
    + destruct (IH (s ∖ {[h]})) as (k & E & H1 & H2 & H3 & _); [set_solver|].
      exists (S k). simpl. rewrite E, <- difference_difference_l_L. split_and!; try done; lia.
Qed.

Lemma ghost_insert_inv cap h g : ghost_inv cap g -> ghost_inv cap (ghost_insert h g).
Proof.
  intros (Hc & Hs & Hz). unfold ghost_insert. case_match; [done|].
  destruct (ghost_make_room_spec (queue g) (set g) (capacity g)) as (k & E & H1 & H2 & H3 & _); [done|].
  rewrite E. split_and!; simpl; [done|..].
  - rewrite list_to_set_app_L. set_solver.
  - pose proof (size_union_alt (set g ∖ list_to_set (take k (queue g))) {[h]}) as Hu.
    pose proof (subseteq_size ({[h]} ∖ (set g ∖ list_to_set (take k (queue g)))) {[h]} ltac:(set_solver)) as Hl.
    rewrite size_singleton in Hl.
    destruct (Z.le_gt_cases (capacity g) 0) as [Hn|Hn].
    + rewrite (H3 Hn) in Hu, Hl |- *. rewrite size_empty in Hu. lia.
    + specialize (H2 ltac:(lia)). lia.
Qed.

Lemma ghost_step_inv cap op g : ghost_inv cap g -> ghost_inv cap (ghost_step g op).
Proof.
  destruct op; [apply ghost_insert_inv|]. intros (Hc & Hs & Hz). split_and!; simpl; [done|set_solver|].
  pose proof (subseteq_size (set g ∖ {[hash]}) (set g) ltac:(set_solver)). lia.
Qed.

Lemma ghost_run_inv cap ops : ghost_inv cap (ghost_run cap ops).
Proof.
  unfold ghost_run. assert (ghost_inv cap (ghost_new cap)) as H.
  { split_and!; [done|set_solver|]. cbn [set ghost_new]. rewrite size_empty. lia. }
  revert H. generalize (ghost_new cap). induction ops as [|op ops IH]; intros g H; [done|].
  apply IH, ghost_step_inv, H.
Qed.

(** After any sequence of insertions and removals the ghost queue holds at most
    its capacity of hashes. An insertion makes its hash a member, adds no
    other, and forgets nothing while there is room; a removal takes out its
    hash and nothing else. *)
Theorem ghost_queue_bounded cap ops h h' :
  0 < cap ->
  let g := ghost_run cap ops in
  Z.of_nat (size (set g)) <= cap /\
  ghost_contains (ghost_insert h g) h = true /\
  (h <> h' -> ghost_contains (ghost_insert h g) h' = true -> ghost_contains g h' = true) /\
  (Z.of_nat (size (set g)) < cap -> ghost_contains g h' = true ->
     ghost_contains (ghost_insert h g) h' = true) /\
  ghost_contains (ghost_remove h g) h' = negb (bool_decide (h = h')) && ghost_contains g h'.
Proof.
  intros Hcap g. destruct (ghost_run_inv cap ops) as (Hc & Hs & Hz). fold g in Hc, Hs, Hz.
  destruct (ghost_make_room_spec (queue g) (set g) (capacity g)) as (k & E & H1 & H2 & H3 & H4); [done|].
  split; [lia|]. unfold ghost_insert. split_and!.
  - destruct (ghost_contains g h) eqn:Eh; [done|]. rewrite E. apply bool_decide_eq_true. set_solver.
  - intros Hne. destruct (ghost_contains g h); [done|]. rewrite E.
    unfold ghost_contains. rewrite !bool_decide_eq_true. simpl. set_solver.
  - intros Hr Hh. destruct (ghost_contains g h) eqn:Eh; [done|]. rewrite E.
    destruct k as [|k]; [|specialize (H4 ltac:(lia)); lia].
    revert Hh. unfold ghost_contains. rewrite !bool_decide_eq_true. simpl. set_solver.
  - unfold ghost_contains, ghost_remove. simpl.
    repeat case_bool_decide; simpl; set_solver.
Qed.

(** Without removals the queue lists exactly the members, each once, oldest
    first: an insertion at capacity forgets the oldest one and no other. *)
Definition ghost_exact (cap : Z) (g : GhostQueue) : Prop :=
  capacity g = cap /\ NoDup (queue g) /\ set g = list_to_set (queue g) /\
  Z.of_nat (length (queue g)) <= cap.

Lemma size_list_to_set_nodup (l : list Z) : NoDup l -> size (list_to_set l : gset Z) = length l.
Proof. apply size_list_to_set. Qed.

Lemma ghost_insert_fifo_aux cap g h :
  0 < cap -> ghost_exact cap g -> h ∉ queue g ->
  queue (ghost_insert h g) =
    (if Z.of_nat (length (queue g)) <? cap then queue g else drop 1 (queue g)) ++ [h] /\
  ghost_exact cap (ghost_insert h g).
Proof.
  intros Hcap (Hc & Hn & Hs & Hl) Hh.
  assert (ghost_contains g h = false) as Eh.
  { apply bool_decide_eq_false. rewrite Hs, elem_of_list_to_set. done. }
  unfold ghost_insert. rewrite Eh, Hs, Hc.
  set (q' := if Z.of_nat (length (queue g)) <? cap then queue g else drop 1 (queue g)).
  assert (ghost_make_room (queue g) (list_to_set (queue g)) cap = (q', list_to_set q')) as ->.
  { subst q'. destruct (queue g) as [|x q]; cbn [ghost_make_room];
      rewrite size_list_to_set_nodup by done.
    { by case_match. }
    destruct (Z.ltb_spec (Z.of_nat (length (x :: q))) cap); [done|].
    apply NoDup_cons in Hn as [Hx Hn]. simpl in Hl. cbn [list_to_set drop].
    assert (({[x]} ∪ list_to_set q) ∖ {[x]} = (list_to_set q : gset Z)) as ->.
    { apply set_eq. intros y. rewrite elem_of_difference, elem_of_union, elem_of_singleton, !elem_of_list_to_set.
      split; [set_solver|]. intros Hy. split; [by right|]. by intros ->. }
    destruct q; cbn [ghost_make_room]; rewrite size_list_to_set_nodup, (proj2 (Z.ltb_lt _ _)) by
      (done || simpl in *; lia); done. }
  assert (NoDup q' /\ h ∉ q' /\ Z.of_nat (length q') < cap) as (Hq1 & Hq2 & Hq3).
  { subst q'. destruct (Z.ltb_spec (Z.of_nat (length (queue g))) cap); [done|].
    rewrite <- (take_drop 1 (queue g)), elem_of_app in Hh.
    rewrite <- (take_drop 1 (queue g)) in Hn. apply NoDup_app in Hn as (_ & _ & ?).
    split; [done|]. split; [tauto|]. rewrite length_drop. lia. }
  split; [done|]. split_and!; simpl; [done|..].
  - apply NoDup_app. split_and!; [done|set_solver|apply NoDup_singleton].
  - rewrite list_to_set_app_L. simpl. by rewrite union_empty_r_L.
  - rewrite length_app. simpl. lia.
Qed.

Lemma ghost_exact_run cap hs :
  0 < cap -> ghost_exact cap (ghost_run cap (map GInsert hs)).
Proof.
  intros Hcap. unfold ghost_run. assert (ghost_exact cap (ghost_new cap)) as H.
  { split; [done|]. split; [apply NoDup_nil_2|]. split; [done|]. simpl. lia. }
  revert H. generalize (ghost_new cap). induction hs as [|h hs IH]; intros g H; [done|].
  apply IH. simpl. destruct (decide (h ∈ queue g)) as [Hh|Hh].
  - unfold ghost_insert. assert (ghost_contains g h = true) as ->; [|done].
    apply bool_decide_eq_true. destruct H as (_ & _ & -> & _). by apply elem_of_list_to_set.
  - by apply ghost_insert_fifo_aux.
Qed.

(** A ghost queue that is only inserted into is a window of the most recent
    distinct hashes: it holds the members once each, oldest first, and a new
    hash at capacity pushes out the oldest one alone. *)
Theorem ghost_fifo cap hs h :
  0 < cap ->
  let g := ghost_run cap (map GInsert hs) in
  NoDup (queue g) /\ set g = list_to_set (queue g) /\
  queue (ghost_insert h g) =
    (if ghost_contains g h then queue g
     else (if Z.of_nat (length (queue g)) <? cap then queue g else drop 1 (queue g)) ++ [h]) /\
  set (ghost_insert h g) = list_to_set (queue (ghost_insert h g)).
Proof.
  intros Hcap g. pose proof (ghost_exact_run cap hs Hcap) as H. fold g in H.
  assert (ghost_contains g h = bool_decide (h ∈ queue g)) as Eh.
  { destruct H as (_ & _ & Hs & _). unfold ghost_contains. rewrite Hs.
    apply bool_decide_ext, elem_of_list_to_set. }
  split; [apply H|]. split; [apply H|]. rewrite Eh. case_bool_decide as Hh.
  - unfold ghost_insert. rewrite Eh. split; [done|]. apply H.
  - destruct (ghost_insert_fifo_aux cap g h Hcap H Hh) as [E (_ & _ & Hs & _)]. by split.
Qed.

Lemma ghost_room_noop q s cap : Z.of_nat (size s) < cap -> ghost_make_room q s cap = (q, s).
Proof. intros H. destruct q; cbn [ghost_make_room]; by rewrite (proj2 (Z.ltb_lt _ _) H). Qed.

(** C40. [remove] leaves its hash in the queue: hits keep the set below its
    capacity, so the queue is never popped and grows without bound, whatever
    the capacity. *)
Theorem ghost_queue_grows cap h n :
  0 < cap ->
  length (queue (ghost_run cap (mjoin (replicate n [GInsert h; GRemove h])))) = n.
Proof.
  intros Hcap. unfold ghost_run.
  assert (forall q, length (queue (foldl ghost_step (mkGhost q ∅ cap)
    (mjoin (replicate n [GInsert h; GRemove h])))) = (length q + n)%nat) as H.
  { induction n as [|n IH]; intros q; [by rewrite Nat.add_0_r|].
    cbn [replicate mjoin list_join app foldl ghost_step]. unfold ghost_insert.
    rewrite ghost_room_noop by (cbn [set capacity]; by rewrite size_empty).
    unfold ghost_contains, ghost_remove. rewrite bool_decide_eq_false_2 by (cbn; set_solver).
    cbn [queue set capacity]. assert ((∅ ∪ {[h]}) ∖ {[h]} = (∅ : gset Z)) as -> by set_solver.
    unfold mjoin in IH. rewrite IH, length_app. simpl. lia. }
  apply (H []).
Qed.

(** A segment is evictable when it is sealed and no reader pins it. *)
Lemma evictable_spec h :
  evictable h = true <->
  exists m, unpack (metadata h) = Some m /\ state m = Sealed /\ ref_count h = 0.
Proof.
  unfold evictable, run, can_evict, read_state, load_metadata, read_ref_count, load, mbind, prog_bind, unwrap.
  cbn [atomic interfere sched mem mret prog_ret].
  destruct (unpack (metadata h)) as [m|]; cbn; [|split; [done|by intros (? & ? & _)]].
  destruct (is_evictable (state m)) eqn:Es; cbn.
  - rewrite Z.eqb_eq. split; [intros Hc; exists m; by destruct (state m)|].
    by intros (? & [= <-] & _ & ?).
  - split; [done|]. intros (? & [= <-] & Hs & _). by rewrite Hs in Es.
Qed.

(** ** Ranking *)

#[local] Opaque evictable unpack get_bucket_index merge_sort.

Lemma rank_le_last k i y : rank_le (true, k, i) y -> y.1.1 = true.
Proof. destruct y as [[b l] j]. by intros [[? ?]|[<- ?]]. Qed.

#[export] Instance rank_le_total : Total rank_le.
Proof.
  intros [[[] k] i] [[[] l] j]; unfold rank_le; [|by right; left|by left; left|].
  all: destruct (Z.lt_trichotomy k l) as [?|[->|?]]; [left; lia| |right; lia].
  all: destruct (Z.le_ge_cases i j); [left|right]; lia.
Qed.

#[export] Instance rank_le_trans : Transitive rank_le.
Proof.
  intros [[x k] i] [[y l] j] [[z m] n]. unfold rank_le.
  intros [[-> ->]|[-> ?]] [[? ->]|[-> ?]]; try done; [by left..|right; split; [done|lia]].
Qed.

(** The sort key of a policy that ranks. *)
Definition key_of (p : Policy) (h : SegmentHeader) : Z :=
  match p with
  | Fifo => Z.max (create_at h) (merge_at h)
  | Cte => create_at h + SegHeader.ttl h
  | Util => live_bytes h
  | _ => 0
  end.

Definition entry (p : Policy) (h : SegmentHeader) : rank_key :=
  (negb (evictable h), key_of p h, id h).

Definition ranking (p : Policy) (headers : list SegmentHeader) : list rank_key :=
  merge_sort rank_le (map (entry p) headers).

Lemma rerank_ranking headers e :
  ranks (policy e) = true ->
  rerank headers e =
    mkEviction (policy e) (last_update_time e)
      (overwrite (ranked_segs e) (map snd (ranking (policy e) headers))) 0 (rng e) (ghost e).
Proof. unfold rerank, rank_by, ranking, entry. by destruct (policy e). Qed.

Lemma overwrite_all slots ids : length slots = length ids -> overwrite slots ids = map Some ids.
Proof.
  revert ids. induction slots as [|s slots IH]; intros [|i ids] H; simpl in *; try done.
  f_equal. apply IH. lia.
Qed.

Lemma length_ranking p headers : length (ranking p headers) = length headers.
Proof. unfold ranking. by rewrite merge_sort_Permutation, length_map. Qed.

(** Segment [i] has its header at position [i - 1]. *)
Definition ids_ok (headers : list SegmentHeader) : Prop :=
  forall i h, headers !! i = Some h -> id h = Z.of_nat i + 1.

Lemma ids_ok_entry headers h :
  ids_ok headers -> h ∈ headers -> header_of headers (id h) = Some h.
Proof.
  intros Hi [i Hh]%list_elem_of_lookup. unfold header_of, header. rewrite (Hi i h Hh).
  rewrite <- Hh, (proj2 (Z.ltb_ge _ _)) by lia. f_equal. lia.
Qed.

(** [rerank] permutes the segment ids into the ranking: evictable segments
    first, by the key of the policy and then by id, the others last; and the
    next selection starts over from the front. *)
Theorem rerank_spec headers e :
  ranks (policy e) = true -> length (ranked_segs e) = length headers ->
  let e' := rerank headers e in
  index e' = 0%nat /\
  exists r, ranked_segs e' = map Some (map snd r) /\ r ≡ₚ map (entry (policy e)) headers /\
    StronglySorted rank_le r.
Proof.
  intros Hr Hl e'. subst e'. rewrite rerank_ranking by done. split; [done|].
  exists (ranking (policy e) headers). cbn [ranked_segs]. split; [|split].
  - apply overwrite_all. by rewrite length_map, length_ranking.
  - apply merge_sort_Permutation.
  - apply StronglySorted_merge_sort; apply _.
Qed.

(** ** Selection *)

Section Select.
Context (headers : list SegmentHeader) (heads : list Z) (now : Z).
Implicit Types (e : Eviction).

(** The first evictable segment of a ranking, up to its first free slot. *)
Fixpoint scan (slots : list (option Z)) : option Z :=
  match slots with
  | Some id :: slots => if evictable_at headers (id - 1) then Some id else scan slots
  | _ => None
  end.

Lemma select_ranked_spec fuel e :
  (length (drop (index e) (ranked_segs e)) < fuel)%nat ->
  exists e', select_ranked headers fuel e = Some (scan (drop (index e) (ranked_segs e)), e').
Proof.
  revert e. induction fuel as [|fuel IH]; intros e Hf; [lia|].
  cbn [select_ranked next_ranked].
  destruct (ranked_segs e !! index e) as [slot|] eqn:E.
  - rewrite (drop_S _ _ _ E) in Hf |- *. simpl in Hf.
    destruct slot as [id|]; simpl; [|by eexists].
    destruct (evictable_at headers (id - 1)); [by eexists|]. apply (IH (mkEviction _ _ _ _ _ _)). simpl. lia.
  - simpl. rewrite drop_ge by (by apply lookup_ge_None). by eexists.
Qed.

(** What [select_ranked] takes from the ranking in use: the first evictable
    segment from the index on, past [skipped], unless a free slot, or the end,
    comes first. *)
Definition takes e (r : option Z) (e' : Eviction) : Prop :=
  exists skipped rest, drop (index e) (ranked_segs e) = map Some skipped ++ rest /\
    (forall i, i ∈ skipped -> evictable_at headers (i - 1) = false) /\
    match r with
    | Some i => evictable_at headers (i - 1) = true /\ head rest = Some (Some i)
    | None => mjoin (head rest) = None
    end /\
    ranked_segs e' = ranked_segs e /\ index e' = S (index e + length skipped).

Lemma select_ranked_takes fuel e r e' : select_ranked headers fuel e = Some (r, e') -> takes e r e'.
Proof.
  revert e. induction fuel as [|fuel IH]; intros e; [done|]. cbn [select_ranked next_ranked].
  assert (mjoin (ranked_segs e !! index e) = mjoin (head (drop (index e) (ranked_segs e)))) as Eh.
  { destruct (ranked_segs e !! index e) as [slot|] eqn:E; [by rewrite (drop_S _ _ _ E)|].
    by rewrite drop_ge by (by apply lookup_ge_None). }
  destruct (mjoin (ranked_segs e !! index e)) as [i|] eqn:E.
  2:{ intros [= <- <-]. exists [], (drop (index e) (ranked_segs e)). rewrite Nat.add_0_r. split_and!; try done; intros j []%elem_of_nil. }
  assert (ranked_segs e !! index e = Some (Some i)) as El by (destruct (_ !! _) as [[?|]|]; by simplify_eq/=).
  destruct (evictable_at headers (i - 1)) eqn:Ev.
  - intros [= <- <-]. exists [], (drop (index e) (ranked_segs e)). rewrite (drop_S _ _ _ El).
    rewrite Nat.add_0_r. split_and!; try done; intros j []%elem_of_nil.
  - intros (skipped & rest & Ed & Hs & Hr & Er & Ei)%IH. cbn [index ranked_segs] in *.
    exists (i :: skipped), rest. rewrite (drop_S _ _ _ El), Ed. split_and!; simpl; try done; [|lia].
    by intros j [->|Hj]%elem_of_cons; [|apply Hs].
Qed.

Lemma scan_evictable slots id : scan slots = Some id -> evictable_at headers (id - 1) = true.
Proof.
  induction slots as [|[i|] slots IH]; simpl; try done.
  destruct (evictable_at headers (i - 1)) eqn:E; [by intros [= <-]|done].
Qed.

(** In a sorted ranking of all the segments the scan stops at the front. *)
Lemma scan_ranking r p :
  ids_ok headers -> StronglySorted rank_le r -> (forall x, x ∈ r -> x ∈ map (entry p) headers) ->
  match scan (map Some (map snd r)) with
  | Some i => exists h, h ∈ headers /\ id h = i /\ evictable h = true /\
      forall x, x ∈ r -> rank_le (entry p h) x
  | None => forall x, x ∈ r -> x.1.1 = true
  end.
Proof.
  intros Hi Hs Hr. destruct r as [|x r]; cbn [map scan]; [intros x []%elem_of_nil|].
  apply StronglySorted_inv in Hs as [Hs Hx]. rewrite Forall_forall in Hx.
  destruct (list_elem_of_fmap_1 (entry p) headers x) as (h & -> & Hh); [apply Hr; by left|].
  cbn [entry snd]. unfold evictable_at. fold (header_of headers (id h)).
  rewrite (ids_ok_entry headers h) by done.
  destruct (evictable h) eqn:Ev.
  - exists h. split_and!; try done. intros x [->|Hin]%elem_of_cons; [|by apply Hx].
    unfold rank_le, entry. right. split; [done|]. right. lia.
  - assert (forall x, x ∈ r -> x.1.1 = true) as Hall.
    { intros x Hin. apply Hx in Hin. unfold entry in Hin. rewrite Ev in Hin.
      by eapply rank_le_last. }
    assert (scan (map Some (map snd r)) = None) as ->.
    { clear Hx Hs. induction r as [|y r IH]; simpl; [done|].
      destruct (list_elem_of_fmap_1 (entry p) headers y) as (h' & -> & Hh'); [apply Hr; by right; left|].
      pose proof (Hall (entry p h') ltac:(by left)) as Hb. cbn [entry snd fst] in *.
      unfold evictable_at. fold (header_of headers (id h')). rewrite (ids_ok_entry headers h') by done.
      apply negb_true_iff in Hb. rewrite Hb. apply IH.
      - intros z Hz. apply Hr. apply elem_of_cons in Hz as [->|?]; [by left|by right; right].
      - intros z Hz. apply Hall. by right. }
    intros x [->|Hin]%elem_of_cons; [|by apply Hall]. unfold entry. simpl. by rewrite Ev.
Qed.

Lemma oldest_evictable_spec fuel seg id :
  oldest_evictable headers fuel seg = Some id -> evictable_at headers (id - 1) = true.
Proof.
  revert seg. induction fuel as [|fuel IH]; intros seg H; [done|]. simpl in H.
  destruct seg as [i|]; simpl in H; [|done]. destruct (header_of headers i) as [h|] eqn:Eh; simpl in H; [|done].
  destruct (evictable h) eqn:Ev.
  - injection H as <-. unfold evictable_at. unfold header_of in Eh. by rewrite Eh.
  - destruct (unpack (metadata h)); simpl in H; [by eapply IH|done].
Qed.

(** The chain of the bucket of a readable segment. *)
Definition bucket_oldest (b : Z) : option Z :=
  oldest_evictable headers (length headers) (nonzero (default 0 (heads !! Z.to_nat b))).

Lemma select_random_fifo_spec indices examined :
  (forall b, b ∈ examined -> bucket_oldest b = None) ->
  match select_random_fifo headers heads indices examined with
  | Some id => exists i b, i ∈ indices /\ bucket_at headers i = Some b /\ bucket_oldest b = Some id
  | None => forall i b, i ∈ indices -> bucket_at headers i = Some b -> bucket_oldest b = None
  end.
Proof.
  revert examined. induction indices as [|i l IH]; intros ex Hex; simpl; [by intros ? ? ?%elem_of_nil|].
  destruct (bucket_at headers i) as [b|] eqn:Eb.
  - case_bool_decide as Hb; [|fold (bucket_oldest b); destruct (bucket_oldest b) as [id|] eqn:Eo].
    + specialize (IH ex Hex). destruct (select_random_fifo headers heads l ex).
      * destruct IH as (j & b' & ? & ? & ?). exists j, b'. by split; [right|].
      * intros j b' [->|Hj]%elem_of_cons E; [simplify_eq; by apply Hex|by apply (IH j)].
    + exists i, b. by split; [left|].
    + specialize (IH (ex ∪ {[b]})). destruct (select_random_fifo headers heads l (ex ∪ {[b]})).
      * destruct IH as (j & b' & ? & ? & ?); [set_solver|]. exists j, b'. by split; [right|].
      * intros j b' [->|Hj]%elem_of_cons E; [by simplify_eq|apply (IH ltac:(set_solver) j b' Hj E)].
  - specialize (IH ex Hex). destruct (select_random_fifo headers heads l ex).
    + destruct IH as (j & b' & ? & ? & ?). exists j, b'. by split; [right|].
    + intros j b' [->|Hj]%elem_of_cons E; [by rewrite E in Eb|by apply (IH j)].
Qed.

(** A probe visits every segment, wherever it starts. *)
Lemma elem_of_probe start i :
  0 <= start -> i ∈ probe headers start <-> 0 <= i < cap headers.
Proof.
  intros Hs. unfold probe, cap. rewrite list_elem_of_fmap. split.
  - intros (n & -> & Hn%elem_of_seq). apply Z.mod_pos_bound. lia.
  - intros Hi. exists (Z.to_nat ((i - start) mod Z.of_nat (length headers))).
    pose proof (Z.mod_pos_bound (i - start) (Z.of_nat (length headers)) ltac:(lia)).
    split; [|apply elem_of_seq; lia]. rewrite Z2Nat.id, Zplus_mod_idemp_r by lia.
    replace (start + (i - start)) with i by lia. symmetry. by apply Z.mod_small.
Qed.

Lemma find_spec {A} (f : A -> bool) l :
  match List.find f l with
  | Some x => x ∈ l /\ f x = true
  | None => forall x, x ∈ l -> f x = false
  end.
Proof.
  destruct (List.find f l) eqn:E.
  - apply List.find_some in E as [H1 H2]. split; [by apply list_elem_of_In|done].
  - intros x Hx. by apply (List.find_none f l E), list_elem_of_In.
Qed.
End Select.

Section Policies.
Context (headers : list SegmentHeader) (heads : list Z) (now : Z).
Implicit Types (e : Eviction).

Definition evictable_id (id : Z) : Prop :=
  exists h, header_of headers id = Some h /\ evictable h = true.

Lemma evictable_at_id i : evictable_at headers i = true <-> evictable_id (i + 1).
Proof.
  unfold evictable_at, evictable_id, header_of. replace (i + 1 - 1) with i by lia.
  destruct (header headers i); split; [by eexists|by intros (? & [= <-] & ?)|done|by intros (? & ? & _)].
Qed.

(** Whether this selection ranks the segments again. *)
Definition reranks e : bool :=
  negb (bool_decide (is_Some (mjoin (ranked_segs e !! 0%nat)))) || (1 <? now - last_update_time e)
    || (length (ranked_segs e) <? index e + 8)%nat.

Lemma ranked_select e :
  ranks (policy e) = true -> ranked_segs e <> [] ->
  exists e' e'', least_valuable_seg headers heads now e =
      Some (scan headers (drop (index e') (ranked_segs e')), e'') /\
    takes headers e' (scan headers (drop (index e') (ranked_segs e'))) e'' /\
    e' = if reranks e
         then rerank headers (mkEviction (policy e) now (ranked_segs e) (index e) (rng e) (ghost e))
         else e.
Proof.
  intros Hr Hn. destruct (ranked_segs e) as [|s l] eqn:El; [done|].
  assert (should_rerank now e = Some (reranks e, if reranks e
    then mkEviction (policy e) now (ranked_segs e) (index e) (rng e) (ghost e) else e)) as E.
  { unfold should_rerank, reranks. rewrite Hr, El. cbn [lookup list_lookup mbind option_bind].
    by destruct (_ || _). }
  assert (least_valuable_seg headers heads now e =
    r ← should_rerank now e;
    let e := if r.1 : bool then rerank headers r.2 else r.2 in
    select_ranked headers (S (length (ranked_segs e))) e) as ->.
  { unfold least_valuable_seg. by destruct (policy e). }
  rewrite E. cbn [mbind option_bind fst snd]. rewrite <- El. clear E.
  destruct (reranks e) eqn:R.
  all: edestruct (select_ranked_spec headers) as [e'' Es];
    [|do 2 eexists; split; [exact Es|]; by split; [eapply select_ranked_takes|]].
  all: rewrite length_drop; lia.
Qed.

Lemma select_evictable e :
  headers <> [] -> ranked_segs e <> [] ->
  exists r e', least_valuable_seg headers heads now e = Some (r, e') /\
    forall id, r = Some id -> exists h m, header_of headers id = Some h /\
      unpack (metadata h) = Some m /\ state m = Sealed /\ ref_count h = 0.
Proof.
  intros Hh Hn.
  assert (exists r e', least_valuable_seg headers heads now e = Some (r, e') /\
    forall id, r = Some id -> evictable_at headers (id - 1) = true) as (r & e' & E & H).
  { assert (cap headers =? 0 = false) as Hc.
    { apply Z.eqb_neq. unfold cap. by destruct headers; [|simpl; lia]. }
    assert (forall e, (exists x e', random_start headers e = Some (x, e'))) as Hs.
    { intros e0. unfold random_start. destruct (random e0). rewrite Hc. by do 2 eexists. }
    destruct (ranks (policy e)) eqn:Hr.
    - destruct (ranked_select e Hr Hn) as (e1 & e2 & -> & _). do 2 eexists. split; [done|].
      apply scan_evictable.
    - unfold least_valuable_seg. destruct (Hs e) as (x & e1 & Ex).
      destruct (policy e) eqn:Ep; try done; rewrite ?Ex; cbn [mbind option_bind fst snd].
      + by do 2 eexists.
      + do 2 eexists. split; [done|]. intros id Hid. unfold select_random in Hid.
        pose proof (find_spec (evictable_at headers) (probe headers x)) as Hf.
        destruct (List.find _ _) as [i|]; [|done]. simpl in Hid. destruct Hf as [_ Hf].
        injection Hid as <-. by replace (i + 1 - 1) with i by lia.
      + do 2 eexists. split; [done|]. intros id Hid.
        pose proof (select_random_fifo_spec headers heads (probe headers x) ∅ ltac:(set_solver)) as Hf.
        rewrite Hid in Hf. destruct Hf as (i & b & _ & _ & Hf). by eapply oldest_evictable_spec.
      + unfold should_rerank. rewrite Ep. cbn [ranks mbind option_bind fst snd].
        edestruct (select_ranked_spec headers) as [e'' ->]; [|do 2 eexists; split; [done|apply scan_evictable]].
        rewrite length_drop. lia.
      + unfold should_rerank. rewrite Ep. cbn [ranks mbind option_bind fst snd].
        edestruct (select_ranked_spec headers) as [e'' ->]; [|do 2 eexists; split; [done|apply scan_evictable]].
        rewrite length_drop. lia. }
  exists r, e'. split; [done|]. intros id ->. specialize (H id eq_refl).
  apply evictable_at_id in H. replace (id - 1 + 1) with id in H by lia.
  destruct H as (h & Eh & (m & Hm)%evictable_spec). by exists h, m.
Qed.

Lemma length_overwrite slots ids : length (overwrite slots ids) = length slots.
Proof. revert ids. induction slots as [|s slots IH]; intros [|i ids]; simpl; auto. Qed.

Lemma select_ranked_keeps fuel e r e' :
  select_ranked headers fuel e = Some (r, e') ->
  length (ranked_segs e') = length (ranked_segs e) /\ policy e' = policy e.
Proof.
  revert e. induction fuel as [|fuel IH]; intros e; [done|]. cbn [select_ranked next_ranked].
  destruct (mjoin _) as [id|]; [|by intros [= <- <-]].
  destruct (evictable_at headers (id - 1)); [by intros [= <- <-]|]. intros E%IH. done.
Qed.

Lemma rerank_keeps e :
  length (ranked_segs (rerank headers e)) = length (ranked_segs e) /\ policy (rerank headers e) = policy e.
Proof. unfold rerank, rank_by. destruct (policy e) eqn:Ep; cbn; rewrite ?length_overwrite; done. Qed.

Lemma least_valuable_keeps e r e' :
  least_valuable_seg headers heads now e = Some (r, e') ->
  length (ranked_segs e') = length (ranked_segs e) /\ policy e' = policy e.
Proof.
  assert (forall r' e1, should_rerank now e = Some (r', e1) ->
    length (ranked_segs e1) = length (ranked_segs e) /\ policy e1 = policy e) as Hs.
  { intros r' e1. unfold should_rerank. destruct (ranks (policy e)); [|by intros [= _ <-]].
    destruct (ranked_segs e !! 0%nat); [|done]. cbn. case_match; by intros [= _ <-]. }
  assert (forall st e1, random_start headers e = Some (st, e1) ->
    length (ranked_segs e1) = length (ranked_segs e) /\ policy e1 = policy e) as Hr.
  { intros st e1. unfold random_start, random. destruct (Random.next_u32 (rng e)).
    case_match; [done|]. by intros [= _ <-]. }
  unfold least_valuable_seg. destruct (policy e) eqn:Ep; rewrite <- ?Ep in *.
  all: try (by intros [= _ <-]).
  all: try (destruct (random_start headers e) as [[st e1]|] eqn:E1; [|done]; cbn;
    intros [= _ <-]; by eapply Hr).
  all: destruct (should_rerank now e) as [[b e1]|] eqn:E1; [|done];
    cbn [mbind option_bind fst snd];
    destruct (Hs _ _ eq_refl) as [L1 P1]; intros [L2 P2]%select_ranked_keeps;
    rewrite L2, P2; destruct b; [destruct (rerank_keeps e1)|]; split; congruence.
Qed.

(** On a cache with segments a selection always returns (no panic, no endless
    probe), and what it returns is a sealed segment without readers. *)
Theorem selected_is_evictable e :
  headers <> [] -> ranked_segs e <> [] ->
  exists r e', least_valuable_seg headers heads now e = Some (r, e') /\
    forall id, r = Some id -> exists h m, header_of headers id = Some h /\
      unpack (metadata h) = Some m /\ state m = Sealed /\ ref_count h = 0.
Proof. apply select_evictable. Qed.

(** [Random] finds an evictable segment whenever there is one, wherever the
    probe starts, and [None] evicts nothing. *)
Theorem random_finds_any e :
  headers <> [] ->
  (policy e = PolicyRandom ->
     exists r e', least_valuable_seg headers heads now e = Some (r, e') /\
       (r = None <-> forall i, 0 <= i < cap headers -> evictable_at headers i = false)) /\
  (policy e = PolicyNone -> least_valuable_seg headers heads now e = Some (None, e)).
Proof.
  intros Hh. split; intros Ep; unfold least_valuable_seg; rewrite Ep; [|done].
  unfold random_start. destruct (random e) as [x e'] eqn:Er.
  assert (0 < cap headers) as Hc by (unfold cap; destruct headers; [done|simpl; lia]).
  rewrite (proj2 (Z.eqb_neq (cap headers) 0)) by lia. cbn [mbind option_bind fst snd].
  do 2 eexists. split; [done|]. unfold select_random.
  pose proof (Z.mod_pos_bound x (cap headers) Hc) as Hx.
  pose proof (find_spec (evictable_at headers) (probe headers (x mod cap headers))) as Hf.
  destruct (List.find _ _) as [i|]; simpl.
  - destruct Hf as [Hi Hf]. apply elem_of_probe in Hi; [|lia]. split; [done|].
    intros Ha. by rewrite Ha in Hf.
  - split; [|done]. intros _ i Hi. apply Hf, elem_of_probe; [lia|done].
Qed.

(** [RandomFifo] returns the oldest evictable segment of the chain of a bucket
    that has readable segments, and gives up only when no such bucket's chain
    has an evictable one. *)
Theorem random_fifo_oldest e :
  headers <> [] -> policy e = RandomFifo ->
  exists r e', least_valuable_seg headers heads now e = Some (r, e') /\
    match r with
    | Some id => exists i b, 0 <= i < cap headers /\ bucket_at headers i = Some b /\
        bucket_oldest headers heads b = Some id
    | None => forall i b, 0 <= i < cap headers -> bucket_at headers i = Some b ->
        bucket_oldest headers heads b = None
    end.
Proof.
  intros Hh Ep. unfold least_valuable_seg. rewrite Ep.
  unfold random_start. destruct (random e) as [x e'] eqn:Er.
  assert (0 < cap headers) as Hc by (unfold cap; destruct headers; [done|simpl; lia]).
  rewrite (proj2 (Z.eqb_neq (cap headers) 0)) by lia. cbn [mbind option_bind fst snd].
  do 2 eexists. split; [done|].
  pose proof (Z.mod_pos_bound x (cap headers) Hc) as Hx.
  pose proof (select_random_fifo_spec headers heads (probe headers (x mod cap headers)) ∅
    ltac:(set_solver)) as Hf.
  destruct (select_random_fifo _ _ _ _).
  - destruct Hf as (i & b & Hi & ? & ?). exists i, b. by apply elem_of_probe in Hi; [|lia].
  - intros i b Hi. apply Hf, elem_of_probe; [lia|done].
Qed.

(** C28. [Fifo], [Cte] and [Util]. A selection that ranks again, which it does
    without a ranking, with one over a second old, and when fewer than 8 of its
    segments are left: the selected segment is the least of the evictable ones
    by the key of the policy (the later of creation and last merge; the expiry;
    the live bytes), ties going to the lower id, and there is none only when no
    segment is evictable. Any other selection takes the next evictable segment
    of the ranking it has, and none when the rest of it has none. *)
Theorem ranked_selects_least e :
  ids_ok headers -> ranks (policy e) = true ->
  length (ranked_segs e) = length headers -> headers <> [] ->
  exists r e', least_valuable_seg headers heads now e = Some (r, e') /\
    if reranks e then
      match r with
      | Some i => exists h, h ∈ headers /\ id h = i /\ evictable h = true /\
          forall h', h' ∈ headers -> evictable h' = true ->
            key_of (policy e) h < key_of (policy e) h' \/
            key_of (policy e) h = key_of (policy e) h' /\ id h <= id h'
      | None => forall h, h ∈ headers -> evictable h = false
      end
    else takes headers e r e'.
Proof.
  intros Hi Hr Hl Hh.
  destruct (ranked_select e Hr) as (e1 & e2 & E & Ht & E1); [by destruct (ranked_segs e), headers|].
  destruct (reranks e); [|subst e1; by do 2 eexists].
  rewrite rerank_ranking in E1 by done. cbn [policy ranked_segs last_update_time rng ghost] in E1.
  rewrite overwrite_all in E1 by (by rewrite length_map, length_ranking).
  do 2 eexists. split; [exact E|]. rewrite E1. cbn [index ranked_segs]. rewrite drop_0.
  pose proof (merge_sort_Permutation rank_le (map (entry (policy e)) headers)) as Hp.
  pose proof (scan_ranking headers (ranking (policy e) headers) (policy e) Hi
    ltac:(apply StronglySorted_merge_sort; apply _)
    ltac:(intros y; unfold ranking; by rewrite Hp)) as Hsc.
  assert (forall h, h ∈ headers -> entry (policy e) h ∈ ranking (policy e) headers) as Hin.
  { intros h Hin. unfold ranking. rewrite Hp. by apply list_elem_of_fmap_2. }
  destruct (scan headers (map Some (map snd (ranking (policy e) headers)))) as [i|].
  - destruct Hsc as (h & ? & ? & Ev & Hm). exists h. split_and!; try done.
    intros h' Hh' Ev'. specialize (Hm _ (Hin h' Hh')). unfold entry in Hm. rewrite Ev, Ev' in Hm.
    destruct Hm as [[? ?]|[_ Hm]]; [done|]. lia.
  - intros h Hh'. specialize (Hsc _ (Hin h Hh')). unfold entry in Hsc. simpl in Hsc.
    by apply negb_true_iff.
Qed.
End Policies.

(** ** Instances *)

Module EvictDemo.
(** Four segments of one bucket (time to live 100), chained 1, 3, 2, 4: the
    first is pinned, the last still written. *)
Definition seg (i : Z) (s : State) (nx : option Z) (live refs : Z) : SegmentHeader :=
  mkHeader i 8 live 1 10 0 100 refs (pack (mkMeta nx None s 0)) 0 0 0 0 0 0.

Definition headers : list SegmentHeader :=
  [seg 1 Sealed (Some 3) 5 1; seg 2 Sealed (Some 4) 10 0; seg 3 Sealed (Some 2) 30 0; seg 4 Live None 2 0].

Definition heads : list Z := <[12%nat := 1]> (replicate 1024 0).

Definition start (p : Policy) : Eviction := new_eviction 4 p None 50.

Example util_ranking :
  ranked_segs (rerank headers (start Util)) = [Some 2; Some 3; Some 4; Some 1].
Proof. by vm_compute. Qed.

Example util_selects_emptiest : fmap fst (least_valuable_seg headers heads 51 (start Util)) = Some (Some 2).
Proof. by vm_compute. Qed.

Example random_fifo_skips_pinned :
  fmap fst (least_valuable_seg headers heads 51 (start RandomFifo)) = Some (Some 3).
Proof. by vm_compute. Qed.

Lemma ghost_queue_bounded_witness :
  0 < 2 /\
  (let g := ghost_run 2 [GInsert 7; GInsert 8; GRemove 7; GInsert 9] in
   Z.of_nat (size (set g)) <= 2 /\
   ghost_contains (ghost_insert 7 g) 7 = true /\
   (7 <> 9 -> ghost_contains (ghost_insert 7 g) 9 = true -> ghost_contains g 9 = true) /\
   (Z.of_nat (size (set g)) < 2 -> ghost_contains g 9 = true -> ghost_contains (ghost_insert 7 g) 9 = true) /\
   ghost_contains (ghost_remove 7 g) 9 = negb (bool_decide (7 = 9)) && ghost_contains g 9).
Proof. split; [lia|]. apply (ghost_queue_bounded 2 [GInsert 7; GInsert 8; GRemove 7; GInsert 9] 7 9). lia. Defined.

Lemma ghost_fifo_witness :
  let g := ghost_run 2 (map GInsert [7; 8; 7; 9]) in
  NoDup (queue g) /\ set g = list_to_set (queue g) /\
  queue (ghost_insert 5 g) =
    (if ghost_contains g 5 then queue g
     else (if Z.of_nat (length (queue g)) <? 2 then queue g else drop 1 (queue g)) ++ [5]) /\
  set (ghost_insert 5 g) = list_to_set (queue (ghost_insert 5 g)).
Proof. apply (ghost_fifo 2 [7; 8; 7; 9] 5). lia. Defined.

Lemma ghost_queue_grows_witness :
  0 < 1024 /\ length (queue (ghost_run 1024 (mjoin (replicate 3 [GInsert 7; GRemove 7])))) = 3%nat.
Proof. split; [lia|]. apply (ghost_queue_grows 1024 7 3). lia. Defined.

(** The stale entry of a removed hash also ages its next insertion: 7 is pushed
    out before 8, inserted earlier. *)
Example stale_entry_evicts_early :
  let g := ghost_run 2 [GInsert 7; GRemove 7; GInsert 8; GInsert 7; GInsert 9] in
  ghost_contains g 7 = false /\ ghost_contains g 8 = true.
Proof. by vm_compute. Qed.

Lemma selected_is_evictable_witness :
  headers <> [] /\ ranked_segs (start Fifo) <> [] /\
  exists r e', least_valuable_seg headers heads 51 (start Fifo) = Some (r, e') /\
    forall id, r = Some id -> exists h m, header_of headers id = Some h /\
      unpack (metadata h) = Some m /\ state m = Sealed /\ ref_count h = 0.
Proof. split; [done|]. split; [done|]. by apply (selected_is_evictable headers heads 51 (start Fifo)). Defined.

Lemma random_finds_any_witness :
  headers <> [] /\
  (policy (start PolicyRandom) = PolicyRandom ->
   exists r e', least_valuable_seg headers heads 51 (start PolicyRandom) = Some (r, e') /\
     (r = None <-> forall i, 0 <= i < cap headers -> evictable_at headers i = false)) /\
  (policy (start PolicyRandom) = PolicyNone ->
   least_valuable_seg headers heads 51 (start PolicyRandom) = Some (None, start PolicyRandom)).
Proof. split; [done|]. by apply (random_finds_any headers heads 51 (start PolicyRandom)). Defined.

Lemma random_fifo_oldest_witness :
  policy (start RandomFifo) = RandomFifo /\
  exists r e', least_valuable_seg headers heads 51 (start RandomFifo) = Some (r, e') /\
    match r with
    | Some id => exists i b, 0 <= i < cap headers /\ bucket_at headers i = Some b /\
        bucket_oldest headers heads b = Some id
    | None => forall i b, 0 <= i < cap headers -> bucket_at headers i = Some b ->
        bucket_oldest headers heads b = None
    end.
Proof. split; [done|]. by apply (random_fifo_oldest headers heads 51 (start RandomFifo)). Defined.

Lemma headers_ids_ok : ids_ok headers.
Proof. intros [|[|[|[|i]]]] h H; simplify_eq/=; done. Qed.

(** Nine sealed segments, the first pinned after the ranking was made, and the
    last emptied. *)
Definition nine (refs live : Z) : list SegmentHeader :=
  seg 1 Sealed None 1 refs :: map (fun i => seg i Sealed None i 0) [2; 3; 4; 5; 6; 7; 8] ++ [seg 9 Sealed None live 0].

Definition ranked_nine : Eviction :=
  mkEviction Util 51 (map Some [1; 2; 3; 4; 5; 6; 7; 8; 9]) 0 0 (ghost_new 0).

Lemma nine_ids_ok refs live : ids_ok (nine refs live).
Proof. intros [|[|[|[|[|[|[|[|[|i]]]]]]]]] h H; simplify_eq/=; done. Qed.

(** Within the second the old ranking stands: 2 is taken, although 9 has fewer
    live bytes by now. *)
Example stale_ranking_misses_least :
  fmap fst (least_valuable_seg (nine 0 9) heads 51 (new_eviction 9 Util None 50)) = Some (Some 1) /\
  fmap fst (least_valuable_seg (nine 1 0) heads 51 ranked_nine) = Some (Some 2) /\
  fmap fst (least_valuable_seg (nine 1 0) heads 53 ranked_nine) = Some (Some 9).
Proof. by vm_compute. Qed.

Lemma ranked_selects_least_witness :
  (ids_ok headers /\ reranks 51 (start Util) = true /\
   exists r e', least_valuable_seg headers heads 51 (start Util) = Some (r, e') /\
    match r with
    | Some i => exists h, h ∈ headers /\ id h = i /\ evictable h = true /\
        forall h', h' ∈ headers -> evictable h' = true ->
          key_of (policy (start Util)) h < key_of (policy (start Util)) h' \/
          key_of (policy (start Util)) h = key_of (policy (start Util)) h' /\ id h <= id h'
    | None => forall h, h ∈ headers -> evictable h = false
    end) /\
  (ids_ok (nine 1 0) /\ reranks 51 ranked_nine = false /\
   exists r e', least_valuable_seg (nine 1 0) heads 51 ranked_nine = Some (r, e') /\ takes (nine 1 0) ranked_nine r e').
Proof.
  split; (split; [apply headers_ids_ok || apply nine_ids_ok|split; [done|]]).
  - by apply (ranked_selects_least headers heads 51 (start Util)); [apply headers_ids_ok|..].
  - by apply (ranked_selects_least (nine 1 0) heads 51 ranked_nine); [apply nine_ids_ok|..].
Defined.
End EvictDemo.
