(* ===== verification/Segments.v ===== *)
(** * The segments of a cache

    [Segments] of [segments/segments.rs] and the chain operations of
    [ttl_buckets]: the free and spare queues, the doubly linked chain of every
    TTL bucket, eviction under every policy, merging, the S3-FIFO pools,
    expiry, and the reservation of space for an item. One thread runs here:
    a compare-and-swap that another thread could make fail succeeds, a chain
    lock is free, and a wait for pins of other threads to be released does not
    end ([None]), as does a panic. Reader pins of other threads are the
    reference counts of the headers. What the threads do to one segment is the
    subject of [PinProtocol]; here are the segments together. *)
From S2P Require Import Prelude Packing Atomics Table F64 KvItem HashIface.
From S2P Require Import TtlBuckets Eviction SegState SegHeader Segment.

(** ** The state *)

Record Config := mkConfig {
  segment_size : Z;
  cap : Z;
  policy : Eviction.Policy;
  spare_capacity : Z;
  admission_cap : Z
}.

(** [Segments], with the buckets and the hashtable its methods are given. An id
    is an index into [headers] and [datas], from 1. *)
Record World (H : Type) := mkWorld {
  headers : list SegmentHeader;
  datas : list bytes;
  free_queue : list Z;
  freed : Z;
  spare_queue : list Z;
  spare_count : Z;
  admission_count : Z;
  evict : Eviction.Eviction;
  evicts_started : Z;
  evicts_finished : Z;
  buckets : list TtlBucket;
  last_expired : Z;
  hashtable : H
}.
Arguments mkWorld {H}.
Arguments headers {H}.
Arguments datas {H}.
Arguments free_queue {H}.
Arguments freed {H}.
Arguments spare_queue {H}.
Arguments spare_count {H}.
Arguments admission_count {H}.
Arguments evict {H}.
Arguments evicts_started {H}.
Arguments evicts_finished {H}.
Arguments buckets {H}.
Arguments last_expired {H}.
Arguments hashtable {H}.

Section State.
Context {H : Type}.
Implicit Types (w : World H).

Definition set_headers x w : World H :=
  mkWorld x (datas w) (free_queue w) (freed w) (spare_queue w) (spare_count w)
    (admission_count w) (evict w) (evicts_started w) (evicts_finished w) (buckets w)
    (last_expired w) (hashtable w).
Definition set_datas x w : World H :=
  mkWorld (headers w) x (free_queue w) (freed w) (spare_queue w) (spare_count w)
    (admission_count w) (evict w) (evicts_started w) (evicts_finished w) (buckets w)
    (last_expired w) (hashtable w).
Definition set_free x n w : World H :=
  mkWorld (headers w) (datas w) x n (spare_queue w) (spare_count w)
    (admission_count w) (evict w) (evicts_started w) (evicts_finished w) (buckets w)
    (last_expired w) (hashtable w).
Definition set_spare x n w : World H :=
  mkWorld (headers w) (datas w) (free_queue w) (freed w) x n
    (admission_count w) (evict w) (evicts_started w) (evicts_finished w) (buckets w)
    (last_expired w) (hashtable w).
Definition set_admission_count x w : World H :=
  mkWorld (headers w) (datas w) (free_queue w) (freed w) (spare_queue w) (spare_count w)
    x (evict w) (evicts_started w) (evicts_finished w) (buckets w) (last_expired w) (hashtable w).
Definition set_evict x w : World H :=
  mkWorld (headers w) (datas w) (free_queue w) (freed w) (spare_queue w) (spare_count w)
    (admission_count w) x (evicts_started w) (evicts_finished w) (buckets w)
    (last_expired w) (hashtable w).
Definition set_evictions started finished w : World H :=
  mkWorld (headers w) (datas w) (free_queue w) (freed w) (spare_queue w) (spare_count w)
    (admission_count w) (evict w) started finished (buckets w) (last_expired w) (hashtable w).
Definition set_buckets x w : World H :=
  mkWorld (headers w) (datas w) (free_queue w) (freed w) (spare_queue w) (spare_count w)
    (admission_count w) (evict w) (evicts_started w) (evicts_finished w) x
    (last_expired w) (hashtable w).
Definition set_last_expired x w : World H :=
  mkWorld (headers w) (datas w) (free_queue w) (freed w) (spare_queue w) (spare_count w)
    (admission_count w) (evict w) (evicts_started w) (evicts_finished w) (buckets w)
    x (hashtable w).
Definition set_hashtable x w : World H :=
  mkWorld (headers w) (datas w) (free_queue w) (freed w) (spare_queue w) (spare_count w)
    (admission_count w) (evict w) (evicts_started w) (evicts_finished w) (buckets w)
    (last_expired w) x.

(** Programs over the state. *)
Definition M (A : Type) : Type := World H -> option (A * World H).

#[export] Instance m_ret : MRet M := fun A a w => Some (a, w).
#[export] Instance m_bind : MBind M := fun A B k m w =>
  match m w with
  | Some (a, w) => k a w
  | None => None
  end.

Definition gets {A} (f : World H -> A) : M A := fun w => Some (f w, w).
Definition modify (f : World H -> World H) : M unit := fun w => Some (tt, f w).
Definition lift {A} (x : option A) : M A := fun w => a ← x; Some (a, w).
Definition crash {A} : M A := fun _ => None.

(** An access to the headers out of bounds panics. *)
Definition idx (id : Z) : nat := Z.to_nat (id - 1).

Definition header_at (id : Z) w : option SegmentHeader :=
  if id <=? 0 then None else headers w !! idx id.

(** A method of the header of segment [id]. *)
Definition on (id : Z) {A} (p : prog SegmentHeader A) : M A := fun w =>
  h ← header_at id w;
  '(a, h) ← run p h;
  Some (a, set_headers (<[idx id := h]> (headers w)) w).

Definition field (id : Z) {A} (f : SegmentHeader -> A) : M A := fun w =>
  h ← header_at id w; Some (f h, w).

(** Fields of the bucket at [b]. *)
Definition bucket_field (b : nat) {A} (f : TtlBucket -> A) : M A := fun w =>
  x ← buckets w !! b; Some (f x, w).

Definition set_bucket (b : nat) (f : TtlBucket -> TtlBucket) : M unit := fun w =>
  x ← buckets w !! b; Some (tt, set_buckets (<[b := f x]> (buckets w)) w).
End State.

(** Ids in a bucket: 0 is none. *)
Definition with_head (x : option Z) (b : TtlBucket) : TtlBucket :=
  mkBucket (or_zero x) (tail b) (TtlBuckets.ttl b) (nseg b) (next_to_merge b).
Definition with_tail (x : option Z) (b : TtlBucket) : TtlBucket :=
  mkBucket (head b) (or_zero x) (TtlBuckets.ttl b) (nseg b) (next_to_merge b).
Definition with_nseg (n : Z) (b : TtlBucket) : TtlBucket :=
  mkBucket (head b) (tail b) (TtlBuckets.ttl b) n (next_to_merge b).
Definition with_next_to_merge (x : option Z) (b : TtlBucket) : TtlBucket :=
  mkBucket (head b) (tail b) (TtlBuckets.ttl b) (nseg b) (or_zero x).

Inductive ClearOutcome := Freed | Deferred.

Section Segments.
Context (integrity debug_assertions : bool).
Context {H : Type} `{Hashtable H} (hash_key : bytes -> Z).
Context (cfg : Config) (now : Z).
Implicit Types (id : Z) (b : nat).

Abbreviation M := (@M H).

Definition check (x : bool) : M unit := if x then mret tt else crash.
Definition debug_check (x : bool) : M unit := check (negb debug_assertions || x).

(** ** Views of segments *)

(** [segment]: its header and its slice of the heap, magic checked; [None] is
    [BadSegmentId]. *)
Definition view id : M (option Segment) := fun w =>
  if id <=? 0 then None
  else
    match headers w !! idx id, datas w !! idx id with
    | Some h, Some d =>
        let s := mkSegment h d in
        if check_magic integrity s then Some (Some s, w) else None
    | _, _ => Some (None, w)
    end.

(** The view was mutated. *)
Definition put_back id (s : Segment) : M unit :=
  modify (fun w => set_datas (<[idx id := Segment.data s]> (datas w))
                     (set_headers (<[idx id := Segment.header s]> (headers w)) w)).

Definition put_hashtable (h : H) : M unit := modify (set_hashtable h).

Definition unwrap_view (s : option Segment) : M Segment := lift s.

(** [segment_pair]. *)
Definition view_pair first second : M (option (Segment * Segment)) :=
  if first =? second then mret None
  else
    x ← view first;
    y ← view second;
    mret (match x, y with
          | Some x, Some y => Some (x, y)
          | _, _ => None
          end).

(** ** Chain surgery *)

Definition unlink id : M unit :=
  next ← on id next_seg;
  _ ← (match next with
       | Some n => prev ← on id prev_seg; on n (set_prev_seg prev)
       | None => mret tt
       end);
  prev ← on id prev_seg;
  match prev with
  | Some p => next ← on id next_seg; on p (set_next_seg next)
  | None => mret tt
  end.

(** [link_dest_before]. *)
Definition link_dest_before this at_ b : M unit :=
  prev ← on at_ prev_seg;
  linking ← on this (cas_metadata Reserved Linking (Some (Some at_)) (Some prev));
  _ ← debug_check linking;
  _ ← (match prev with
       | Some p => on p (update_links (Some (Some this)) None)
       | None => set_bucket b (with_head (Some this))
       end);
  _ ← on at_ (update_links None (Some (Some this)));
  relinking ← on this (cas_metadata Linking Relinking None None);
  debug_check relinking.

Definition publish_dest_sealed id : M unit :=
  sealed ← on id (cas_metadata Relinking Sealed None None);
  debug_check sealed.

(** ** Queues *)

(** [FreeQueue::push_freed]. *)
Definition push_freed id : M unit :=
  modify (fun w => set_free (free_queue w ++ [id]) (u64 (freed w + 1)) w).

Definition return_segment id : M unit :=
  count ← gets spare_count;
  if spare_capacity cfg <=? count then push_freed id
  else modify (fun w => set_spare (spare_queue w ++ [id]) (u32 (count + 1)) w).

Definition steal_free : M (option Z) := fun w =>
  match free_queue w with
  | [] => Some (None, w)
  | raw :: q => Some (Some raw, set_free q (freed w) w)
  end.

Definition steal_spare : M (option Z) := fun w =>
  match spare_queue w with
  | [] => Some (None, w)
  | raw :: q => Some (Some raw, set_spare q (spare_count w) w)
  end.

Definition in_range id : bool := (1 <=? id) && (id <=? cap cfg).

Definition reserve_free : M (option Z) :=
  s ← steal_free;
  match s with
  | None => mret None
  | Some raw =>
      _ ← debug_check (in_range raw);
      if raw =? 0 then mret None
      else
        ok ← on raw (try_reserve integrity now);
        if ok : bool then mret (Some raw)
        else
          _ ← modify (fun w => set_free (free_queue w ++ [raw]) (freed w) w);
          mret None
  end.

Definition reserve_spare : M (option Z) :=
  s ← steal_spare;
  match s with
  | None => reserve_free
  | Some raw =>
      _ ← debug_check (in_range raw);
      if raw =? 0 then mret None
      else
        ok ← on raw (try_reserve integrity now);
        if ok : bool then
          _ ← modify (fun w => set_spare (spare_queue w) (u32 (spare_count w - 1)) w);
          mret (Some raw)
        else
          _ ← modify (fun w => set_spare (spare_queue w ++ [raw]) (spare_count w) w);
          mret None
  end.

Definition release_unused id : M unit :=
  released ← on id try_release;
  _ ← check released;
  return_segment id.

(** ** Draining *)

(** A segment leaves the admission pool with its service. *)
Definition leave_pool id : M unit :=
  pool ← on id read_pool;
  _ ← (if bool_decide (pool = Admission) then
         prev ← gets admission_count;
         _ ← modify (set_admission_count (u32 (prev - 1)));
         debug_check (0 <? prev)
       else mret tt);
  on id reset_pool.

Definition recycle id : M unit :=
  _ ← unlink id;
  _ ← leave_pool id;
  _ ← on id (reset_write_stats integrity);
  freed ← on id try_release_drained;
  _ ← debug_check freed;
  return_segment id.

Definition condemn id (next prev : option Z) : M ClearOutcome :=
  _ ← leave_pool id;
  condemned ← on id cas_condemn;
  _ ← debug_check condemned;
  _ ← (match prev with
       | Some p => on p (update_links (Some next) None)
       | None => mret tt
       end);
  _ ← (match next with
       | Some n => on n (update_links None (Some prev))
       | None => mret tt
       end);
  refs ← on id read_ref_count;
  released ← (if refs =? 0 then on id try_release_condemned else mret false);
  if released : bool then
    _ ← on id (reset_write_stats integrity);
    _ ← return_segment id;
    mret Freed
  else mret Deferred.

(** The waits for writers and removers: without other threads they are over at
    once or never. *)
Definition wait_pins id : M unit :=
  writers ← on id (load active_writers);
  _ ← check (writers =? 0);
  removers ← on id (load active_removers);
  check (removers =? 0).

Definition claim_for_drain id : M bool :=
  won ← on id (cas_metadata Sealed Draining None None);
  if won : bool then _ ← wait_pins id; mret true else mret false.

(** [Segment::clear] in place. *)
Definition clear_in_place id : M unit :=
  s ← view id;
  s ← unwrap_view s;
  h ← gets hashtable;
  '(s, h) ← lift (Segment.clear integrity debug_assertions s h);
  _ ← put_back id s;
  put_hashtable h.

Definition finalize_drained id : M ClearOutcome :=
  next ← on id next_seg;
  prev ← on id prev_seg;
  _ ← clear_in_place id;
  refs ← on id read_ref_count;
  if refs =? 0 then _ ← recycle id; mret Freed else condemn id next prev.

Definition clear_segment id : M (option ClearOutcome) :=
  won ← claim_for_drain id;
  if won : bool then o ← finalize_drained id; mret (Some o) else mret None.

Definition is_sealed_member id b : M bool :=
  st ← on id read_state;
  secs ← field id SegHeader.ttl;
  bucket ← bucket_field b (fun x => x);
  mret (bool_decide (st = Sealed) && holds_ttl bucket secs).

(** [lock_sealed_in_bucket]: the bucket, its chain locked. *)
Definition lock_sealed_in_bucket id : M (option nat) :=
  secs ← field id SegHeader.ttl;
  let b := Z.to_nat (get_bucket_index secs) in
  ok ← is_sealed_member id b;
  mret (if ok : bool then Some b else None).

(** A drained segment that was the head of the bucket's chain is not any more. *)
Definition advance_head b (prev next : option Z) : M unit :=
  match prev with
  | None => set_bucket b (with_head next)
  | Some _ => mret tt
  end.

(** ** Expiry *)

Definition expired id : M bool :=
  at_ ← field id create_at;
  secs ← field id SegHeader.ttl;
  mret (negb (now <? at_ + secs)).

(** One segment of [drain_chain]'s walk: whether it was freed. *)
Definition drain_one b id (next prev : option Z) : M Z :=
  _ ← wait_pins id;
  _ ← clear_in_place id;
  h ← bucket_field b head;
  _ ← (if h =? id then set_bucket b (with_head next) else mret tt);
  t ← bucket_field b tail;
  _ ← (if t =? id then set_bucket b (with_tail prev) else mret tt);
  refs ← on id read_ref_count;
  if refs =? 0 then _ ← recycle id; mret 1
  else
    o ← condemn id next prev;
    mret (match o with Freed => 1 | Deferred => 0 end).

Fixpoint drain_from (fuel : nat) b (expire : bool) (freed : Z) (cursor : option Z) : M Z :=
  match fuel with
  | O => crash
  | S fuel =>
      match cursor with
      | None => mret freed
      | Some id =>
          s ← view id;
          _ ← unwrap_view s;
          go ← (if expire then expired id else mret true);
          if negb go then mret freed
          else
            next ← on id next_seg;
            prev ← on id prev_seg;
            sealed ← on id (cas_metadata Sealed Draining None None);
            drained ← (if sealed : bool then mret true
                       else on id (cas_metadata Live Draining None None));
            _ ← debug_check drained;
            if negb drained then drain_from fuel b expire freed next
            else
              n ← drain_one b id next prev;
              drain_from fuel b expire (freed + n) next
      end
  end.

(** A chain has at most [cap] segments, and the walk one lap more. *)
Definition chain_fuel : nat := S (Z.to_nat (cap cfg)).

Definition drain_chain b (expire : bool) : M Z :=
  h ← bucket_field b head;
  drain_from chain_fuel b expire 0 (nonzero h).

Fixpoint drain_buckets (expire : bool) (bs : list nat) : M Z :=
  match bs with
  | [] => mret 0
  | b :: bs =>
      n ← drain_chain b expire;
      m ← drain_buckets expire bs;
      mret (n + m)
  end.

Definition all_buckets : M (list nat) := gets (fun w => seq 0 (length (buckets w))).

(** [TtlBuckets::expire]: once per tick of the clock. *)
Definition expire : M Z :=
  last ← gets last_expired;
  _ ← modify (set_last_expired now);
  if last =? now then mret 0
  else bs ← all_buckets; drain_buckets true bs.

(** [TtlBuckets::clear]. *)
Definition clear : M Z := bs ← all_buckets; drain_buckets false bs.

(** ** Reserving space for an item *)

(** [ReservedItem]: it holds a writer pin on its segment until it is dropped. *)
Record ReservedItem := mkReserved { r_seg : Z; r_generation : Z; r_offset : Z }.

Inductive AllocOutcome :=
| Reserved_ (r : ReservedItem)
| Full
| NotWritable.

Definition try_alloc_item id (size : Z) : M AllocOutcome :=
  _ ← debug_check (id <=? cap cfg);
  pinned ← on id try_pin_writer;
  if negb pinned then mret NotWritable
  else
    offset ← on id (try_reserve_space size (segment_size cfg));
    match offset with
    | None => _ ← on id release_writer; mret Full
    | Some offset =>
        _ ← on id incr_live_items;
        _ ← on id (incr_live_bytes size);
        g ← field id generation;
        mret (Reserved_ (mkReserved id g offset))
    end.

Inductive TtlBucketsError := ItemOversized (size : Z) | NoFreeSegments.

Definition set_ttl id (secs : Z) : M unit := on id (store with_ttl secs).

(** The election of a new tail. *)
Definition seal_tail b (tail_id id : Z) : M bool :=
  sealed ← on tail_id (cas_metadata Live Sealed (Some (Some id)) None);
  if sealed : bool then
    linked ← on id (cas_metadata Reserved Linking (Some None) (Some (Some tail_id)));
    _ ← debug_check linked;
    _ ← set_bucket b (with_tail (Some id));
    mret true
  else
    st ← on tail_id read_state;
    if bool_decide (st = Live) then crash else mret false.

Definition first_tail b id : M bool :=
  t ← bucket_field b tail;
  if t =? 0 then
    _ ← set_bucket b (with_tail (Some id));
    h ← bucket_field b head;
    _ ← debug_check (h =? 0);
    linked ← on id (cas_metadata Reserved Linking (Some None) (Some None));
    _ ← debug_check linked;
    _ ← set_bucket b (with_head (Some id));
    mret true
  else mret false.

(** The bucket moved on since [observed] was read. *)
Definition stale_tail b (observed : option (Z * Z)) : M bool :=
  match observed with
  | None => mret false
  | Some (tail_id, gen) =>
      t ← bucket_field b tail;
      g ← field tail_id generation;
      mret (negb (bool_decide (nonzero t = Some tail_id)) || negb (g =? gen))
  end.

Definition try_expand b (observed : option (Z * Z)) : M (unit + TtlBucketsError) :=
  id ← reserve_free;
  match id with
  | None => mret (inr NoFreeSegments)
  | Some id =>
      secs ← bucket_field b TtlBuckets.ttl;
      _ ← set_ttl id (u32 secs);
      stale ← stale_tail b observed;
      if stale : bool then _ ← release_unused id; mret (inl tt)
      else
        won ← (match observed with
               | Some (tail_id, _) => seal_tail b tail_id id
               | None => first_tail b id
               end);
        if won : bool then
          live ← on id (cas_metadata Linking Live None None);
          _ ← debug_check live;
          _ ← set_bucket b (fun x => with_nseg (u32 (nseg x + 1)) x);
          mret (inl tt)
        else
          t ← bucket_field b tail;
          _ ← check (negb (bool_decide (nonzero t = fst <$> observed)));
          _ ← release_unused id;
          mret (inl tt)
  end.

Fixpoint reserve_loop (fuel : nat) b (size : Z) : M (ReservedItem + TtlBucketsError) :=
  match fuel with
  | O => crash
  | S fuel =>
      let expand observed :=
        r ← try_expand b observed;
        match r with
        | inl _ => reserve_loop fuel b size
        | inr e => mret (inr e)
        end in
      t ← bucket_field b tail;
      match nonzero t with
      | Some id =>
          observed_gen ← field id generation;
          o ← try_alloc_item id size;
          match o with
          | Reserved_ r => mret (inl r)
          | NotWritable => reserve_loop fuel b size
          | Full => expand (Some (id, observed_gen))
          end
      | None => expand None
      end
  end.

(** [TtlBucket::reserve]: a lap that does not return takes a segment off the
    free queue. *)
Definition reserve b (size : Z) : M (ReservedItem + TtlBucketsError) :=
  if segment_size cfg <? size then mret (inr (ItemOversized size))
  else
    free ← gets free_queue;
    reserve_loop (S (S (length free))) b size.

(** [ReservedItem::define], on the heap, and its drop. *)
Definition define_reserved (crc32 : bytes -> Z) (r : ReservedItem) (key : bytes) (value : Value)
    (optional : bytes) : M unit :=
  modify (fun w => set_datas (alter (fun d =>
      blit (r_offset r) (KvItem.define integrity crc32 key value optional
                           (drop (Z.to_nat (r_offset r)) d)) d)
    (idx (r_seg r)) (datas w)) w).

Definition drop_reserved (r : ReservedItem) : M unit :=
  _ ← on (r_seg r) release_writer; mret tt.

(** ** Reaching items *)

Definition tag_matches_header (location : Z) (h : SegmentHeader) : bool :=
  Location.tag location =? Location.tag_for_generation (generation h).

Definition resolve (location : Z) : M (option (Z * Z)) :=
  let '(seg_id, offset) := Location.unpack_location location in
  if seg_id =? 0 then mret None
  else if cap cfg <? seg_id then mret None
  else
    matches ← field seg_id (tag_matches_header location);
    mret (if matches : bool then Some (seg_id, offset) else None).

(** [get_item_at]. *)
Definition item_bytes id (offset : Z) : M bytes := fun w =>
  d ← datas w !! idx id; Some (drop (Z.to_nat offset) d, w).

(** [Drop for SegmentGuard]. *)
Definition drop_guard id : M unit :=
  freed ← on id (SegHeader.drop_guard integrity);
  if freed : bool then push_freed id else mret tt.

(** [acquire_item_at]: the item, under a reader pin of its segment. *)
Definition acquire_item_at (location : Z) : M (option bytes) :=
  let '(seg_id, offset) := Location.unpack_location location in
  if seg_id =? 0 then mret None
  else
    _ ← check (seg_id <=? cap cfg);
    o ← on seg_id try_acquire_reader;
    match o with
    | NotReadable => mret None
    | ReleaseCondemned =>
        _ ← on seg_id (reset_write_stats integrity);
        _ ← return_segment seg_id;
        mret None
    | Acquired =>
        matches ← field seg_id (tag_matches_header location);
        if matches : bool then item ← item_bytes seg_id offset; mret (Some item)
        else _ ← drop_guard seg_id; mret None
    end.

(** ** Merging *)

Definition can_evict_at id : M bool := on id can_evict.

Definition inherit_created dest src : M unit :=
  created ← field src create_at;
  on dest (store with_create_at created).

Definition configure_spare spare start : M unit :=
  secs ← field start SegHeader.ttl;
  _ ← set_ttl spare secs;
  _ ← on spare reset_pool;
  on spare (mark_merged now).

(** The number of evictable segments from [id] on, at most [max]; beyond the
    heap it stops with a warning. *)
Fixpoint merge_evict_chain_len (max : nat) id : M Z :=
  match max with
  | O => mret 0
  | S max =>
      w ← gets headers;
      if negb ((1 <=? id) && (id <=? Z.of_nat (length w))) then mret 0
      else
        ok ← can_evict_at id;
        if negb ok then mret 0
        else
          next ← on id next_seg;
          match next with
          | Some n => len ← merge_evict_chain_len max n; mret (1 + len)
          | None => mret 1
          end
  end.

(** As long as their live bytes fit one segment. *)
Fixpoint merge_compact_chain_len (max : nat) (occupied : Z) id : M Z :=
  match max with
  | O => mret 0
  | S max =>
      w ← gets headers;
      if negb ((1 <=? id) && (id <=? Z.of_nat (length w))) then mret 0
      else
        ok ← can_evict_at id;
        if negb ok then mret 0
        else
          bytes ← field id live_bytes;
          let occupied := i32 (occupied + bytes) in
          if segment_size cfg <? occupied then mret 0
          else
            next ← on id next_seg;
            match next with
            | Some n => len ← merge_compact_chain_len max occupied n; mret (1 + len)
            | None => mret 1
            end
  end.

Definition claim_start start b : M bool :=
  member ← is_sealed_member start b;
  if negb member then mret false
  else
    ok ← can_evict_at start;
    if negb ok then mret false else claim_for_drain start.

(** The destination in the place of a claimed segment. *)
Definition place_spare spare start b : M unit :=
  _ ← configure_spare spare start;
  _ ← inherit_created spare start;
  link_dest_before spare start b.

Definition copy_between cand spare : M unit :=
  p ← view_pair cand spare;
  '(x, y) ← lift p;
  h ← gets hashtable;
  '(x, y, h, _) ← lift (copy_into integrity x y h);
  _ ← put_back cand x;
  _ ← put_back spare y;
  put_hashtable h.

Definition prune_in_place id (cutoff ratio : F64.f64) : M F64.f64 :=
  s ← view id;
  s ← unwrap_view s;
  h ← gets hashtable;
  '(s, h, cutoff) ← lift (prune integrity s h cutoff ratio);
  _ ← put_back id s;
  _ ← put_hashtable h;
  mret cutoff.

(** A candidate behind the first one is checked and claimed on the way. *)
Definition claim_candidate start cand : M bool :=
  if cand =? start then mret true
  else
    ok ← can_evict_at cand;
    if negb ok then mret false else claim_for_drain cand.

Fixpoint merge_evict_loop (fuel : nat) start spare (max_merge stop_bytes : Z) (ratio : F64.f64)
    (merged : Z) (cutoff : F64.f64) (cand : option Z) : M (option Z) :=
  match fuel with
  | O => crash
  | S fuel =>
      match cand with
      | None => mret None
      | Some id =>
          if max_merge <? merged then mret (Some id)
          else
            bytes ← field spare live_bytes;
            if stop_bytes <=? bytes then mret (Some id)
            else
              claimed ← claim_candidate start id;
              if negb claimed then mret (Some id)
              else
                next ← on id next_seg;
                cutoff ← prune_in_place id cutoff ratio;
                _ ← copy_between id spare;
                _ ← finalize_drained id;
                merge_evict_loop fuel start spare max_merge stop_bytes ratio (merged + 1) cutoff next
      end
  end.

Definition merge_evict_fallback_drop start b : M (option Z + SegmentsError) :=
  member ← is_sealed_member start b;
  if negb member then mret (inr NoEvictableSegments)
  else
    next ← on start next_seg;
    prev ← on start prev_seg;
    o ← clear_segment start;
    match o with
    | Some _ => _ ← advance_head b prev next; mret (inl next)
    | None => mret (inr NoEvictableSegments)
    end.

Definition stop_bytes_of (e : Eviction.Eviction) : Z :=
  F64.as_i32 (F64.mul (stop_ratio e) (F64.of_Z (segment_size cfg))).

Definition merge_evict start b : M (option Z + SegmentsError) :=
  e ← gets evict;
  chain_len ← merge_evict_chain_len (Z.to_nat (max_merge e)) start;
  if chain_len <? 3 then mret (inr NoEvictableSegments)
  else
    spare ← reserve_spare;
    match spare with
    | None => merge_evict_fallback_drop start b
    | Some spare =>
        claimed ← claim_start start b;
        if negb claimed then _ ← release_unused spare; mret (inr NoEvictableSegments)
        else
          _ ← place_spare spare start b;
          let ratio := if chain_len <? n_merge e then F64.div (F64.of_Z 1) (F64.of_Z chain_len)
                       else target_ratio e in
          next ← merge_evict_loop chain_fuel start spare (max_merge e) (stop_bytes_of e) ratio 0
                   (F64.of_Z 1) (Some start);
          _ ← publish_dest_sealed spare;
          mret (inl next)
    end.

Fixpoint merge_compact_loop (fuel : nat) start spare (max_merge stop_bytes merged : Z)
    (cand : option Z) : M (option Z) :=
  match fuel with
  | O => crash
  | S fuel =>
      match cand with
      | None => mret None
      | Some id =>
          if max_merge <? merged then mret (Some id)
          else
            ok ← (if id =? start then mret true else can_evict_at id);
            if negb ok then mret (Some id)
            else
              spare_size ← field spare live_bytes;
              cand_size ← field id live_bytes;
              if (stop_bytes <=? spare_size) || (segment_size cfg <? i32 (spare_size + cand_size))
              then mret (Some id)
              else
                claimed ← (if id =? start then mret true else claim_for_drain id);
                if negb claimed then mret (Some id)
                else
                  next ← on id next_seg;
                  _ ← copy_between id spare;
                  _ ← finalize_drained id;
                  merge_compact_loop fuel start spare max_merge stop_bytes (merged + 1) next
      end
  end.

Definition merge_compact start b : M (option Z + SegmentsError) :=
  e ← gets evict;
  chain_len ← merge_compact_chain_len (Z.to_nat (max_merge e)) 0 start;
  if chain_len <? 2 then mret (inr NoEvictableSegments)
  else
    next ← on start next_seg;
    match next with
    | None => mret (inr NoEvictableSegments)
    | Some _ =>
        spare ← reserve_spare;
        match spare with
        | None => mret (inl None)
        | Some spare =>
            claimed ← claim_start start b;
            if negb claimed then _ ← release_unused spare; mret (inr NoEvictableSegments)
            else
              _ ← place_spare spare start b;
              next ← merge_compact_loop chain_fuel start spare (max_merge e) (stop_bytes_of e) 0
                       (Some start);
              _ ← publish_dest_sealed spare;
              mret (inl next)
        end
    end.

(** ** S3-FIFO *)

(** The walk of one chain: the oldest evictable segment of the pool so far. *)
Fixpoint oldest_in_chain (fuel : nat) (pool : SegmentPool) (best : option (Z * Z)) (seg : option Z)
    : M (option (Z * Z)) :=
  match fuel with
  | O => crash
  | S fuel =>
      match seg with
      | None => mret best
      | Some id =>
          p ← on id read_pool;
          ok ← (if bool_decide (p = pool) then can_evict_at id else mret false);
          created ← field id create_at;
          merged ← field id merge_at;
          let age := Z.max created merged in
          let better := match best with None => true | Some (_, a) => age <? a end in
          next ← on id next_seg;
          oldest_in_chain fuel pool (if ok && better then Some (id, age) else best) next
      end
  end.

Fixpoint oldest_in_buckets (pool : SegmentPool) (best : option (Z * Z)) (bs : list nat)
    : M (option (Z * Z)) :=
  match bs with
  | [] => mret best
  | b :: bs =>
      h ← bucket_field b head;
      best ← oldest_in_chain chain_fuel pool best (nonzero h);
      oldest_in_buckets pool best bs
  end.

Definition find_oldest_seg_in_pool (pool : SegmentPool) : M (option Z) :=
  bs ← all_buckets;
  best ← oldest_in_buckets pool None bs;
  mret (fst <$> best).

Definition promote_between src dst (relink : RelinkFreq) : M unit :=
  p ← view_pair src dst;
  match p with
  | None => mret tt
  | Some (x, y) =>
      h ← gets hashtable;
      '(x, y, h) ← lift (s3fifo_promote_from integrity (segment_size cfg) x y h relink);
      _ ← put_back src x;
      _ ← put_back dst y;
      put_hashtable h
  end.

Definition s3fifo_ghost_remaining id : M unit :=
  s ← view id;
  match s with
  | None => mret tt
  | Some s =>
      h ← gets hashtable;
      keys ← lift (remaining_keys integrity s h);
      modify (fun w =>
        let e := evict w in
        set_evict (mkEviction (Eviction.policy e) (last_update_time e) (ranked_segs e)
          (Eviction.index e) (rng e)
          (fold_left (fun g key => ghost_insert (hash_key key) g) keys (ghost e))) w)
  end.

(** [s3fifo_evict_admission] and [s3fifo_evict_main] differ in the frequency
    of what they promote, and in the ghosts. *)
Definition s3fifo_evict_seg id (relink : RelinkFreq) (ghosts : bool) : M (unit + SegmentsError) :=
  b ← lock_sealed_in_bucket id;
  match b with
  | None => mret (inr EvictFailure)
  | Some b =>
      src_ttl ← field id SegHeader.ttl;
      claimed ← claim_for_drain id;
      if negb claimed then mret (inr EvictFailure)
      else
        target ← reserve_free;
        _ ← (match target with
             | None => mret tt
             | Some tid =>
                 _ ← on tid reset_pool;
                 _ ← set_ttl tid src_ttl;
                 _ ← inherit_created tid id;
                 _ ← link_dest_before tid id b;
                 _ ← promote_between id tid relink;
                 publish_dest_sealed tid
             end);
        _ ← (if ghosts then s3fifo_ghost_remaining id else mret tt);
        next ← on id next_seg;
        prev ← on id prev_seg;
        outcome ← finalize_drained id;
        _ ← advance_head b prev next;
        mret (match outcome with Freed => inl tt | Deferred => inr EvictFailure end)
  end.

Definition s3fifo_evict : M (unit + SegmentsError) :=
  seg ← find_oldest_seg_in_pool Admission;
  match seg with
  | Some id => s3fifo_evict_seg id Preserve true
  | None =>
      seg ← find_oldest_seg_in_pool Main;
      match seg with
      | Some id => s3fifo_evict_seg id Decrement false
      | None => mret (inr NoEvictableSegments)
      end
  end.

(** ** [evict] *)

Definition least_valuable : M (option Z) := fun w =>
  '(seg, e) ← Eviction.least_valuable_seg (headers w) (map head (buckets w)) now (evict w);
  Some (seg, set_evict e w).

Definition evict_dropping : M (unit + SegmentsError) :=
  seg ← least_valuable;
  match seg with
  | None => mret (inr NoEvictableSegments)
  | Some id =>
      b ← lock_sealed_in_bucket id;
      match b with
      | None => mret (inr EvictFailure)
      | Some b =>
          next ← on id next_seg;
          prev ← on id prev_seg;
          outcome ← clear_segment id;
          match outcome with
          | None => mret (inr EvictFailure)
          | Some outcome =>
              _ ← advance_head b prev next;
              mret (match outcome with Freed => inl tt | Deferred => inr EvictFailure end)
          end
      end
  end.

(** The buckets in turn, from the one of a random segment. *)
Fixpoint merge_any (bs : list nat) : M (unit + SegmentsError) :=
  match bs with
  | [] => mret (inr NoEvictableSegments)
  | b :: bs =>
      h ← bucket_field b head;
      match nonzero h with
      | None => merge_any bs
      | Some first =>
          n ← bucket_field b next_to_merge;
          let start := default first (nonzero n) in
          r ← merge_evict start b;
          match r with
          | inl next => _ ← set_bucket b (with_next_to_merge next); mret (inl tt)
          | inr _ => _ ← set_bucket b (with_next_to_merge None); merge_any bs
          end
      end
  end.

Definition evict_merging : M (unit + SegmentsError) :=
  e ← gets evict;
  let '(r, e) := Eviction.random e in
  _ ← modify (set_evict e);
  _ ← check (negb (cap cfg =? 0));
  secs ← field (r mod cap cfg + 1) SegHeader.ttl;
  bs ← all_buckets;
  let n := length bs in
  merge_any (map (fun i => (Z.to_nat (get_bucket_index secs) + i) mod n)%nat (seq 0 (S n))).

Definition evict_policy : M (unit + SegmentsError) :=
  match policy cfg with
  | Eviction.Merge _ _ _ => evict_merging
  | S3Fifo _ => s3fifo_evict
  | PolicyNone => mret (inr NoEvictableSegments)
  | _ => evict_dropping
  end.

Definition evict_one : M (unit + SegmentsError) :=
  _ ← modify (fun w => set_evictions (u64 (evicts_started w + 1)) (evicts_finished w) w);
  n ← expire;
  r ← (if 0 <? n then mret (inl tt) else evict_policy);
  _ ← modify (fun w => set_evictions (evicts_started w) (u64 (evicts_finished w + 1)) w);
  mret r.

(** ** [remove_at] *)

(** An item's removal, after its entry is unlinked, under a remover pin of
    segment [pin]. *)
Definition remove_at (location pin : Z) : M (unit + SegmentsError) :=
  r ← resolve location;
  match r with
  | None => _ ← on pin release_remover; mret (inl tt)
  | Some (id, offset) =>
      s ← view id;
      match s with
      | None => _ ← on pin release_remover; mret (inr BadSegmentId)
      | Some s =>
          s ← lift (remove_item_at integrity offset s);
          _ ← put_back id s;
          _ ← on pin release_remover;
          items ← field id live_items;
          evictable ← (if items =? 0 then can_evict_at id else mret false);
          if evictable : bool then
            b ← lock_sealed_in_bucket id;
            match b with
            | None => mret (inl tt)
            | Some b =>
                next ← on id next_seg;
                prev ← on id prev_seg;
                o ← clear_segment id;
                _ ← (match o with
                     | Some _ => advance_head b prev next
                     | None => mret tt
                     end);
                mret (inl tt)
            end
          else
            match policy cfg with
            | Eviction.Merge _ _ _ =>
                e ← gets evict;
                let target := compact_ratio e in
                let ratio_of x := F64.div (F64.of_Z x) (F64.of_Z (segment_size cfg)) in
                bytes ← field id live_bytes;
                if F64.lt target (ratio_of bytes) then mret (inl tt)
                else
                  next ← on id next_seg;
                  match next with
                  | None => mret (inl tt)
                  | Some n =>
                      ok ← can_evict_at n;
                      next_bytes ← field n live_bytes;
                      if negb ok then mret (inl tt)
                      else if F64.le (ratio_of next_bytes) target then
                        secs ← field id SegHeader.ttl;
                        let b := Z.to_nat (get_bucket_index secs) in
                        _ ← merge_compact id b;
                        _ ← set_bucket b (with_next_to_merge None);
                        mret (inl tt)
                      else mret (inl tt)
                  end
            | _ => mret (inl tt)
            end
      end
  end.

(** ** Observers *)

Definition items : M Z := gets (fun w =>
  fold_left (fun total h => total + Z.max (live_items h) 0) (headers w) 0).

Fixpoint check_segments (ids : list Z) : M bool :=
  match ids with
  | [] => mret true
  | id :: ids =>
      st ← on id read_state;
      ok ← (match st with
            | Live | Sealed | Relinking =>
                h ← field id (fun h => h);
                d ← item_bytes id 0;
                t ← gets hashtable;
                lift (Segment.check_integrity integrity (mkSegment h d) t)
            | _ => mret true
            end);
      rest ← check_segments ids;
      mret (ok && rest)
  end.

Definition check_all : M bool := check_segments (map (fun i => Z.of_nat i + 1) (seq 0 (Z.to_nat (cap cfg)))).
End Segments.
