(* ===== verification/SegmentsBuilder.v ===== *)
(** * Construction of the segments

    [SegmentsBuilder] of [segments/builder.rs] and [Segments::from_builder]:
    the validation of a configuration, and the initial state of the heap and
    the queues. The anonymous memory map is a parameter. *)
From S2P Require Import Prelude Packing F64 KvItem TtlBuckets Eviction SegHeader Segment Segments.

Record SegmentsBuilder := mkBuilder {
  b_heap_size : Z;
  b_segment_size : Z;
  b_policy : Eviction.Policy;
  b_seed : option Z
}.

Definition default_builder : SegmentsBuilder :=
  mkBuilder (64 * 1024 * 1024) (1024 * 1024) Eviction.PolicyRandom None.

Definition eviction_seed (seed : Z) (b : SegmentsBuilder) : SegmentsBuilder :=
  mkBuilder (b_heap_size b) (b_segment_size b) (b_policy b) (Some seed).
Definition with_segment_size (n : Z) (b : SegmentsBuilder) : SegmentsBuilder :=
  mkBuilder (b_heap_size b) n (b_policy b) (b_seed b).
Definition with_heap_size (n : Z) (b : SegmentsBuilder) : SegmentsBuilder :=
  mkBuilder n (b_segment_size b) (b_policy b) (b_seed b).
Definition with_policy (p : Eviction.Policy) (b : SegmentsBuilder) : SegmentsBuilder :=
  mkBuilder (b_heap_size b) (b_segment_size b) p (b_seed b).

Section Build.
Context (integrity : bool) (map_anon : Z -> option bytes) (now : Z).

(** [segments] is what the heap has room for; the map is cut into them. *)
Definition chunk (size : Z) (data : bytes) (i : nat) : bytes :=
  slice (size * Z.of_nat i) size data.

Definition init_segment (size : Z) (data : bytes) (i : nat) : option Segment :=
  Segment.init integrity
    (mkSegment (SegHeader.new integrity (Z.of_nat i + 1)) (chunk size data i)).

Definition admission_cap_of (p : Eviction.Policy) (segments : Z) : Z :=
  match p with
  | S3Fifo ratio => F64.round_as_u32 (F64.mul (F64.of_Z segments) ratio)
  | _ => 0
  end.

Definition spare_capacity_of (p : Eviction.Policy) : Z :=
  match p with
  | Eviction.Merge _ _ _ => 1
  | _ => 0
  end.

(** [Segments::from_builder], with the buckets and the hashtable beside it;
    the outer [None] is a panic. *)
Definition from_builder {H} (b : SegmentsBuilder) (buckets : list TtlBucket) (h : H)
    : option (Config * World H + SegmentsError) :=
  let size := b_segment_size b in
  let segments := b_heap_size b / size in
  if Location.MAX_SEGMENTS <? segments
  then Some (inr (TooManySegments segments Location.MAX_SEGMENTS))
  else
    match map_anon (segments * size) with
    | None => Some (inr Mmap)
    | Some data =>
        let ids := seq 0 (Z.to_nat segments) in
        segs ← mapM (init_segment size data) ids;
        let spare := Z.to_nat (spare_capacity_of (b_policy b)) in
        let queue := map (fun i => Z.of_nat i + 1) ids in
        Some (inl
          (mkConfig size segments (b_policy b) (spare_capacity_of (b_policy b))
             (admission_cap_of (b_policy b) segments),
           mkWorld (map header segs) (map Segment.data segs) (drop spare queue) 0 (take spare queue)
             (spare_capacity_of (b_policy b)) 0
             (new_eviction (Z.to_nat segments) (b_policy b) (b_seed b) now)
             0 0 buckets now h))
    end.

Definition build {H} (b : SegmentsBuilder) (buckets : list TtlBucket) (h : H)
    : option (Config * World H + SegmentsError) :=
  let size := b_segment_size b in
  if size <? ITEM_HDR_SIZE integrity + 1 then Some (inr SegmentTooSmall)
  else if Location.MAX_SEGMENT_BYTES <? size
  then Some (inr (SegmentTooLarge size Location.MAX_SEGMENT_BYTES))
  else if negb (Z.rem size 8 =? 0) then Some (inr SegmentSizeUnaligned)
  else if (b_heap_size b =? 0) || negb (b_heap_size b mod size =? 0)
  then Some (inr (InvalidHeapSize (b_heap_size b) size))
  else from_builder b buckets h.
End Build.
