(* ===== verification/Segcache.v ===== *)
(** * The cache

    [Segcache] of [segcache.rs] and its [Builder]: lookups that pin what they
    find, insertion with eviction, compare-and-swap, deletion, in-place
    arithmetic, expiry, on the heap of [Segments] and the hashtable of [Table],
    with [SegmentsVerifier] of [hashtable/mod.rs] between them. One thread runs;
    what it waits for happens or it is stuck ([None]), as it is when it panics.
    The loops that go round when another thread got in the way have [fuel]. The
    key hash ([ahash]), the checksum ([crc32fast]), the memory map and
    [Backoff::is_completed] ([crossbeam_utils]) belong to other crates. *)
From S2P Require Import Prelude Packing Atomics Table HashIface HashSeq F64 KvItem TtlBuckets Eviction.
From S2P Require Import SegState SegHeader Segment Segments SegmentsBuilder.

Inductive SegcacheError :=
| HashTableInsertEx
| EvictionEx
| ItemOversized (size : Z)
| NoFreeSegments
| Exists
| NotFound
| DataCorrupted
| NotNumeric.

Definition RESERVE_RETRIES : nat := 3.
Definition REVALIDATE_RETRIES : nat := 16.

(** [coarse_ttl]: whole seconds, at most what a [u32] holds. *)
Definition coarse_ttl (secs : Z) : Z := u32 (Z.min (2 ^ 32 - 1) secs).

(** [RawItem], a pointer into a segment, and the guard that keeps it valid. *)
Record Pin := mkPin { pin_seg : Z; pin_offset : Z }.

(** [Item]: it holds a reader pin until it is dropped, and what is read through
    it is what is there then. *)
Record Item := mkItem { item_pin : Pin; item_cas : Z }.

(** What the inner loop of [get_pinned] ends with: a result, or [continue
    'resolve] with the attempts so far. *)
Inductive Turn (A : Type) := Done (a : A) | Resolve (attempts : nat).
Arguments Done {A}.
Arguments Resolve {A}.

Section Segcache.
Context (integrity debug_assertions : bool) (hash_key crc32 : bytes -> Z).
Context (backoff_completed : nat -> bool) (fuel : nat).
Context (cfg : Config) (now : Z).

(** The cache: its configuration [cfg], and the heap with the buckets and the
    hashtable. *)
Definition Cache : Type := World (Index unit).

#[local] Hint Extern 0 (Hashtable (Index unit)) => exact (index_hashtable hash_key) : typeclass_instances.

Abbreviation M := (@Segments.M (Index unit)).
Implicit Types (w : Cache) (key value optional : bytes).

(** ** The verifier *)

(** [SegmentsVerifier::verify]. *)
Definition verify_pinned key (location : Z) : M (Verified Pin) :=
  let '(seg_id, offset) := Location.unpack_location location in
  if (seg_id =? 0) || (cap cfg <? seg_id) then
    _ ← debug_check debug_assertions false;
    mret DifferentKey
  else
    r ← acquire_item_at integrity cfg location;
    match r with
    | Some raw =>
        _ ← debug_check debug_assertions (offset + KvItem.size integrity raw <=? segment_size cfg);
        if bool_decide (KvItem.key integrity raw = key) then mret (Match (mkPin seg_id offset))
        else _ ← drop_guard integrity seg_id; mret DifferentKey
    | None => mret (Unverified location)
    end.

(** What the scans of the hashtable see of it. A match leaves the pin behind,
    nothing else leaves anything: the scan reads the heap as it is, and the pin
    is taken when it is over ([pinned]). A panic ends the scan as well. *)
#[local] Instance segments_verifier : KeyVerifier Cache (option Pin) := {
  verify w key location _ :=
    match verify_pinned key location w with
    | Some (Match pin, _) => Match (Some pin)
    | Some (DifferentKey, _) => DifferentKey
    | Some (Unverified location, _) => Unverified location
    | None => Match None
    end
}.

(** ** The hashtable *)

Definition with_table {A} (p : Table -> prog (TMem Cache) A) : M A := fun w =>
  let i := hashtable w in
  '(a, m) ← run (p (table i)) (mkTMem (Table.buckets (memory i)) (freq_rng (memory i)) w);
  Some (a, set_hashtable (mkIndex (table i) (mkTMem (Table.buckets m) (freq_rng m) tt)) w).

Definition pinned (r : Lookup (Hit (option Pin))) : M (Lookup (Hit Pin)) :=
  match r with
  | Found hit =>
      match hit_pin hit with
      | Some pin =>
          _ ← on (pin_seg pin) try_acquire_reader;
          mret (Found (Build_Hit (hit_location hit) (hit_slot hit) pin))
      | None => crash
      end
  | Absent => mret Absent
  | Unknown location => mret (Unknown location)
  end.

(** [lookup_hit]. *)
Definition lookup_hit key (update_freq : bool) : M (Lookup (Hit Pin)) :=
  r ← (if update_freq then with_table (fun t => Table.lookup hash_key t key)
       else with_table (fun t => Table.lookup_no_freq_update hash_key t key));
  pinned r.

(** [lookup_slot] drops the pin of its hit. *)
Definition lookup_slot key : M (Lookup (Z * SlotRef)) :=
  with_table (fun t => Table.lookup_slot hash_key t key).

Definition slot_publishes (s : SlotRef) (location : Z) : M bool :=
  with_table (fun _ => Table.slot_publishes s location).

Definition cas_location_at (s : SlotRef) (old new : Z) (preserve_freq : bool) : M bool :=
  with_table (fun _ => Table.cas_location_at s old new preserve_freq).

Definition table_insert key (location : Z) : M (option Insert) :=
  with_table (fun t => Table.insert hash_key t key location).

Definition table_remove key (location : Z) : M bool :=
  with_table (fun t => Table.remove hash_key t key location).

Definition item_frequency key (location : Z) : M (option Z) :=
  with_table (fun t => Table.get_item_frequency hash_key t key location).

(** ** Items *)

Definition unpin (pin : Pin) : M unit := drop_guard integrity (pin_seg pin).

Definition raw_at (pin : Pin) : M bytes := item_bytes (pin_seg pin) (pin_offset pin).

(** A write through the pointer: the item's bytes up to the segment's end. *)
Definition write_raw (pin : Pin) (raw : bytes) : M unit :=
  modify (fun w => set_datas (alter (blit (pin_offset pin) raw) (idx (pin_seg pin)) (datas w)) w).

(** The methods of [Item]. *)
Definition item_key (i : Item) : M bytes := raw ← raw_at (item_pin i); mret (KvItem.key integrity raw).
Definition item_value (i : Item) : M Value :=
  raw ← raw_at (item_pin i); lift (read_value integrity raw).
Definition item_optional (i : Item) : M (option bytes) :=
  raw ← raw_at (item_pin i); mret (KvItem.optional integrity raw).
Definition drop_item (i : Item) : M unit := unpin (item_pin i).

Definition token_for (raw : bytes) (location generation : Z) : Z :=
  let base := CasToken.new location generation in
  match numeric_version integrity raw with
  | Some version => CasToken.mix_version base version
  | None => base
  end.

Definition generation_of (seg_id : Z) : M Z := field seg_id generation.

(** Instants are the seconds since the epoch of the coarse clock, which counts
    them in an [u32]; here they are unbounded. *)
Definition remaining_ttl (seg_id : Z) : M (Z + SegcacheError) :=
  created ← field seg_id create_at;
  secs ← field seg_id SegHeader.ttl;
  if secs =? 0 then mret (inl 0)
  else
    let expires_at := created + secs in
    if expires_at <=? now then mret (inr NotFound) else mret (inl (expires_at - now)).

(** ** [get] *)

Definition item_from_pin (location : Z) (pin : Pin) : M (option Item) :=
  let '(seg_id, _) := Location.unpack_location location in
  if seg_id =? 0 then _ ← unpin pin; mret None
  else
    r ← remaining_ttl seg_id;
    match r with
    | inr _ => _ ← unpin pin; mret None
    | inl _ =>
        raw ← raw_at pin;
        _ ← check (KvItem.check_magic integrity raw);
        g ← generation_of seg_id;
        mret (Some (mkItem pin (token_for raw location g)))
    end.

(** The new attempts, and where to go on. *)
Definition follow_republished (current : option Z) (attempts : nat) : option Z * nat :=
  let attempts := S attempts in
  if (REVALIDATE_RETRIES <=? attempts)%nat then (None, attempts) else (current, attempts).

(** [None]: the budget is spent. *)
Definition triage_unknown_location (location : Z) (attempts : nat) : M (option nat) :=
  r ← resolve cfg location;
  match r with
  | None =>
      let attempts := S attempts in
      mret (if (REVALIDATE_RETRIES <=? attempts)%nat then None else Some attempts)
  | Some _ => mret (Some attempts)
  end.

Definition triaged (location : Z) (attempts : nat) : M (Turn (option Item)) :=
  a ← triage_unknown_location location attempts;
  mret (match a with Some attempts => Resolve attempts | None => Done None end).

(** The cold fallback: the pinned location was not published any more. *)
Fixpoint revalidate (fuel : nat) key (location : Z) (pin : Pin) (attempts : nat)
    : M (Turn (option Item)) :=
  match fuel with
  | O => crash
  | S fuel =>
      let settle current :=
        if bool_decide (current = Some location) then
          i ← item_from_pin location pin; mret (Done i)
        else
          _ ← unpin pin;
          match follow_republished current attempts with
          | (None, _) => mret (Done None)
          | (Some location, attempts) =>
              next ← acquire_item_at integrity cfg location;
              match next with
              | None => triaged location attempts
              | Some _ =>
                  let '(seg_id, offset) := Location.unpack_location location in
                  revalidate fuel key location (mkPin seg_id offset) attempts
              end
          end in
      r ← lookup_hit key false;
      match r with
      | Found other => _ ← unpin (hit_pin other); settle (Some (hit_location other))
      | Absent => settle None
      | Unknown unknown => _ ← unpin pin; triaged unknown attempts
      end
  end.

Fixpoint resolve_loop (laps : nat) key (update_freq : bool) (attempts : nat) : M (option Item) :=
  match laps with
  | O => crash
  | S laps =>
      r ← lookup_hit key update_freq;
      match r with
      | Absent => mret None
      | Unknown location =>
          a ← triage_unknown_location location attempts;
          match a with
          | None => mret None
          | Some attempts => resolve_loop laps key update_freq attempts
          end
      | Found hit =>
          published ← slot_publishes (hit_slot hit) (hit_location hit);
          if published : bool then item_from_pin (hit_location hit) (hit_pin hit)
          else
            t ← revalidate fuel key (hit_location hit) (hit_pin hit) attempts;
            match t with
            | Done i => mret i
            | Resolve attempts => resolve_loop laps key update_freq attempts
            end
      end
  end.

Definition get_pinned key (update_freq : bool) : M (option Item) :=
  resolve_loop fuel key update_freq 0.

Definition get key : M (option Item) := get_pinned key true.
Definition get_no_freq_incr key : M (option Item) := get_pinned key false.

(** ** Writing *)

(** [wait_while_draining_or_filling]: without other threads a drain or a fill
    does not end. *)
Definition wait_while_draining_or_filling (location : Z) : M unit :=
  r ← resolve cfg location;
  match r with
  | None => mret tt
  | Some (seg_id, _) =>
      st ← on seg_id read_state;
      check (negb (bool_decide (st = Draining \/ st = Relinking)))
  end.

(** Under a remover pin of its own segment, an unlinked item is taken out. *)
Definition remove_unlinked (location seg_id : Z) : M unit :=
  _ ← remove_at integrity debug_assertions cfg now location seg_id; mret tt.

Definition rollback_reservation (reserved : ReservedItem) (location : Z) : M unit :=
  _ ← drop_reserved reserved;
  let '(seg_id, _) := Location.unpack_location location in
  if seg_id =? 0 then mret tt
  else
    pinned ← on seg_id try_pin_remover;
    if pinned : bool then remove_unlinked location seg_id else mret tt.

(** [evict], its result ignored. *)
Definition run_evict : M unit :=
  _ ← evict_one integrity debug_assertions hash_key cfg now; mret tt.

(** The S3-FIFO routing of an item, by its ghost. *)
Definition route (hash : Z) : M SegmentPool :=
  match policy cfg with
  | S3Fifo _ =>
      e ← gets evict;
      pool ← (if ghost_contains (ghost e) hash then
                _ ← modify (set_evict (mkEviction (Eviction.policy e) (last_update_time e)
                      (ranked_segs e) (Eviction.index e) (rng e) (ghost_remove hash (ghost e))));
                mret Main
              else mret Admission);
      count ← gets admission_count;
      let room := match pool with Admission => count <? admission_cap cfg | Main => true end in
      _ ← (if room then mret tt else run_evict);
      mret pool
  | _ => mret Main
  end.

(** [wait_for_running_evictions]: an eviction that runs does not end. *)
Definition wait_for_running_evictions (freed_before : Z) : M bool :=
  started ← gets evicts_started;
  finished ← gets evicts_finished;
  freed ← gets freed;
  if negb (freed =? freed_before) then mret true
  else _ ← check (started <=? finished); mret false.

(** The segment is labelled, and counted by the insert that labels it. *)
Definition label_pool (reserved : ReservedItem) (pool : SegmentPool) : M unit :=
  match pool with
  | Main => mret tt
  | Admission =>
      labelled ← on (r_seg reserved) (cas_pool Main Admission);
      if labelled : bool then modify (fun w => set_admission_count (u32 (admission_count w + 1)) w)
      else mret tt
  end.

Fixpoint reserve_retry (laps retries : nat) key (value : Value) optional (secs size : Z)
    (pool : SegmentPool) : M (ReservedItem + SegcacheError) :=
  match laps with
  | O => crash
  | S laps =>
      r ← reserve integrity debug_assertions cfg now (Z.to_nat (get_bucket_index secs)) size;
      match r with
      | inl reserved =>
          _ ← define_reserved integrity crc32 reserved key value optional;
          _ ← label_pool reserved pool;
          mret (inl reserved)
      | inr (Segments.ItemOversized size) => mret (inr (ItemOversized size))
      | inr Segments.NoFreeSegments =>
          freed_before ← gets freed;
          _ ← run_evict;
          freed_after ← gets freed;
          progress ← (if negb (freed_after =? freed_before) then mret true
                      else wait_for_running_evictions freed_before);
          if progress : bool then reserve_retry laps retries key value optional secs size pool
          else
            match retries with
            | S (S _ as retries) => reserve_retry laps retries key value optional secs size pool
            | _ => mret (inr NoFreeSegments)
            end
      end
  end.

Definition reserve_and_define key (value : Value) optional (secs : Z) : M (ReservedItem + SegcacheError) :=
  let size := item_size integrity (blen key) value (blen optional) in
  pool ← route (hash_key key);
  reserve_retry fuel RESERVE_RETRIES key value optional secs size pool.

Definition location_of (reserved : ReservedItem) : Z :=
  Location.pack_location (r_seg reserved) (r_generation reserved) (r_offset reserved).

(** ** [insert] *)

(** The loop after the reservation; [None] is [continue 'operation]. *)
Fixpoint publish (laps : nat) key (reserved : ReservedItem) (snoozes : nat)
    : M (option (unit + SegcacheError)) :=
  match laps with
  | O => crash
  | S laps =>
      let new_location := location_of reserved in
      let abandon location :=
        _ ← rollback_reservation reserved new_location;
        _ ← wait_while_draining_or_filling location;
        mret None in
      r ← lookup_slot key;
      match r with
      | Unknown location => abandon location
      | Found (old_location, slot) =>
          if old_location =? new_location then _ ← drop_reserved reserved; mret (Some (inl tt))
          else
            let '(old_seg_id, _) := Location.unpack_location old_location in
            if old_seg_id =? 0 then
              _ ← rollback_reservation reserved new_location; mret (Some (inr HashTableInsertEx))
            else
              pinned ← on old_seg_id try_pin_remover;
              if negb pinned then
                if (old_seg_id =? r_seg reserved) || backoff_completed snoozes
                then abandon old_location
                else publish laps key reserved (S snoozes)
              else
                swapped ← cas_location_at slot old_location new_location true;
                if swapped : bool then
                  _ ← drop_reserved reserved;
                  _ ← remove_unlinked old_location old_seg_id;
                  mret (Some (inl tt))
                else _ ← on old_seg_id release_remover; publish laps key reserved snoozes
      | Absent =>
          raw ← item_bytes (r_seg reserved) (r_offset reserved);
          i ← table_insert (KvItem.key integrity raw) new_location;
          match i with
          | Some (InsertUnknown location) => abandon location
          | Some Created => _ ← drop_reserved reserved; mret (Some (inl tt))
          | Some (Replaced raced_old) =>
              _ ← drop_reserved reserved;
              let '(raced_seg, _) := Location.unpack_location raced_old in
              _ ← (if raced_seg =? 0 then mret tt
                   else
                     pinned ← on raced_seg try_pin_remover;
                     if pinned : bool then remove_unlinked raced_old raced_seg else mret tt);
              mret (Some (inl tt))
          | None =>
              _ ← rollback_reservation reserved new_location; mret (Some (inr HashTableInsertEx))
          end
      end
  end.

Fixpoint insert_loop (laps : nat) key (value : Value) optional (secs : Z) : M (unit + SegcacheError) :=
  match laps with
  | O => crash
  | S laps =>
      r ← reserve_and_define key value optional secs;
      match r with
      | inr e => mret (inr e)
      | inl reserved =>
          o ← publish fuel key reserved 0;
          match o with
          | Some r => mret r
          | None => insert_loop laps key value optional secs
          end
      end
  end.

Definition insert key (value : Value) (optional : option bytes) (secs : Z) : M (unit + SegcacheError) :=
  insert_loop fuel key value (default [] optional) (coarse_ttl secs).

(** ** [replace_at] *)

(** The token of the pinned item, under its version lock when it is numeric:
    [None] when it is not the one expected, the version to restore otherwise. *)
Definition verify_token (old : Pin) (old_location expected : Z) : M (option (option Z)) :=
  raw ← raw_at old;
  g ← generation_of (pin_seg old);
  let base := CasToken.new old_location g in
  match lock_numeric_version integrity raw with
  | NumericOk (version, locked) =>
      _ ← write_raw old locked;
      if CasToken.mix_version base version =? expected then mret (Some (Some version))
      else _ ← write_raw old (guard_drop integrity version locked); mret None
  | NotNumericError => mret (if base =? expected then Some None else None)
  | Spins => crash
  end.

Definition drop_version (old : Pin) (version : option Z) : M unit :=
  match version with
  | Some v => raw ← raw_at old; write_raw old (guard_drop integrity v raw)
  | None => mret tt
  end.

Fixpoint replace_loop (laps : nat) key (old_location : Z) (old_slot : SlotRef) (reserved : ReservedItem)
    (expected_token : option Z) (old_seg_id : Z) (snoozes : nat) : M (unit + SegcacheError) :=
  match laps with
  | O => crash
  | S laps =>
      let new_location := location_of reserved in
      let exists_ := _ ← rollback_reservation reserved new_location; mret (inr Exists) in
      let unpin_exists := _ ← on old_seg_id release_remover; exists_ in
      pinned ← on old_seg_id try_pin_remover;
      if negb pinned then
        f ← item_frequency key old_location;
        if bool_decide (f = None) || (old_seg_id =? r_seg reserved) || backoff_completed snoozes
        then exists_
        else replace_loop laps key old_location old_slot reserved expected_token old_seg_id (S snoozes)
      else
        at_ ← resolve cfg old_location;
        match at_ with
        | None => unpin_exists
        | Some (seg_id, old_offset) =>
            let old := mkPin seg_id old_offset in
            gate ← (match expected_token with
                    | None => mret (Some None)
                    | Some expected =>
                        f ← item_frequency key old_location;
                        if bool_decide (f = None) then mret None
                        else verify_token old old_location expected
                    end);
            match gate with
            | None => unpin_exists
            | Some version =>
                swapped ← cas_location_at old_slot old_location new_location true;
                _ ← drop_version old version;
                if swapped : bool then
                  _ ← drop_reserved reserved;
                  _ ← remove_unlinked old_location old_seg_id;
                  mret (inl tt)
                else
                  _ ← on old_seg_id release_remover;
                  f ← item_frequency key old_location;
                  if bool_decide (f = None) then exists_
                  else replace_loop laps key old_location old_slot reserved expected_token old_seg_id snoozes
            end
        end
  end.

Definition replace_at key (old_location : Z) (old_slot : SlotRef) (reserved : ReservedItem)
    (expected_token : option Z) : M (unit + SegcacheError) :=
  let '(old_seg_id, _) := Location.unpack_location old_location in
  if old_seg_id =? 0 then
    _ ← rollback_reservation reserved (location_of reserved); mret (inr NotFound)
  else replace_loop fuel key old_location old_slot reserved expected_token old_seg_id 0.

(** ** [cas] *)

Fixpoint cas_lookup (laps : nat) key (attempts : nat) : M (Z * SlotRef * Z + SegcacheError) :=
  match laps with
  | O => crash
  | S laps =>
      r ← lookup_hit key false;
      match r with
      | Absent => mret (inr NotFound)
      | Unknown _ => cas_lookup laps key attempts
      | Found hit =>
          let '(seg_id, _) := Location.unpack_location (hit_location hit) in
          if seg_id =? 0 then _ ← unpin (hit_pin hit); mret (inr NotFound)
          else
            t ← remaining_ttl seg_id;
            match t with
            | inr error => _ ← unpin (hit_pin hit); mret (inr error)
            | inl _ =>
                published ← slot_publishes (hit_slot hit) (hit_location hit);
                if negb published then
                  _ ← unpin (hit_pin hit);
                  let attempts := S attempts in
                  if (RESERVE_RETRIES <=? attempts)%nat then mret (inr Exists)
                  else cas_lookup laps key attempts
                else
                  raw ← raw_at (hit_pin hit);
                  g ← generation_of seg_id;
                  _ ← unpin (hit_pin hit);
                  mret (inl (hit_location hit, hit_slot hit, token_for raw (hit_location hit) g))
            end
      end
  end.

Definition cas key (value : Value) (optional : option bytes) (secs token : Z) : M (unit + SegcacheError) :=
  r ← cas_lookup fuel key 0;
  match r with
  | inr e => mret (inr e)
  | inl (location, slot, current_cas) =>
      if negb (current_cas =? token) then mret (inr Exists)
      else
        r ← reserve_and_define key value (default [] optional) (coarse_ttl secs);
        match r with
        | inr e => mret (inr e)
        | inl reserved => replace_at key location slot reserved (Some token)
        end
  end.

(** ** [delete] *)

(** Under a remover pin of [seg_id], the entry unlinked: the item is marked and
    taken out. *)
Definition remove_marked (location : Z) (at_ : Pin) : M unit :=
  r ← resolve cfg location;
  _ ← (match r with
       | Some _ => raw ← raw_at at_; write_raw at_ (set_deleted integrity true raw)
       | None => mret tt
       end);
  remove_unlinked location (pin_seg at_).

(** The unlink of an entry whose segment cannot be pinned; whether it landed,
    and whether the key is gone. *)
Definition unlink_unpinned key (location seg_id observed_gen : Z) : M (bool * bool) :=
  g ← generation_of seg_id;
  if negb (g =? observed_gen) then mret (false, false)
  else
    removed ← table_remove key location;
    if negb removed then mret (false, false)
    else
      r ← lookup_hit key false;
      match r with
      | Found hit => _ ← unpin (hit_pin hit); mret (true, false)
      | Absent => mret (true, true)
      | Unknown _ => mret (true, false)
      end.

Fixpoint delete_loop (laps : nat) key (unlinked : bool) : M bool :=
  match laps with
  | O => crash
  | S laps =>
      r ← lookup_hit key false;
      match r with
      | Absent => mret unlinked
      | Unknown _ => delete_loop laps key unlinked
      | Found hit =>
          _ ← unpin (hit_pin hit);
          let location := hit_location hit in
          let '(seg_id, offset) := Location.unpack_location location in
          if seg_id =? 0 then
            if unlinked then mret true else table_remove key location
          else
            observed_gen ← generation_of seg_id;
            t ← remaining_ttl seg_id;
            match t with
            | inr _ => mret unlinked
            | inl _ =>
                pinned ← on seg_id try_pin_remover;
                if negb pinned then
                  '(landed, gone) ← unlink_unpinned key location seg_id observed_gen;
                  if gone : bool then mret true else delete_loop laps key (unlinked || landed)
                else
                  removed ← table_remove key location;
                  if negb removed then _ ← on seg_id release_remover; mret unlinked
                  else _ ← remove_marked location (mkPin seg_id offset); mret true
            end
      end
  end.

Definition delete key : M bool := delete_loop fuel key false.

(** ** Expiry and observers *)

Definition expire : M Z := Segments.expire integrity debug_assertions cfg now.
Definition clear : M Z := Segments.clear integrity debug_assertions cfg now.
Definition items : M Z := Segments.items.

Definition check_integrity : M (unit + SegcacheError) :=
  ok ← check_all integrity cfg;
  mret (if ok : bool then inl tt else inr DataCorrupted).

(** ** In-place arithmetic *)

Fixpoint numeric_loop (laps : nat) key (op : Z -> Z) : M (Z + SegcacheError) :=
  match laps with
  | O => crash
  | S laps =>
      r ← lookup_hit key true;
      match r with
      | Absent => mret (inr NotFound)
      | Unknown _ => numeric_loop laps key op
      | Found hit =>
          let pin := hit_pin hit in
          let '(seg_id, _) := Location.unpack_location (hit_location hit) in
          if seg_id =? 0 then _ ← unpin pin; mret (inr NotFound)
          else
            t ← remaining_ttl seg_id;
            match t with
            | inr error => _ ← unpin pin; mret (inr error)
            | inl _ =>
                raw ← raw_at pin;
                match lock_numeric_version integrity raw with
                | Spins => crash
                | NotNumericError =>
                    published ← slot_publishes (hit_slot hit) (hit_location hit);
                    _ ← unpin pin;
                    if published : bool then mret (inr NotNumeric) else numeric_loop laps key op
                | NumericOk (version, locked) =>
                    _ ← write_raw pin locked;
                    published ← slot_publishes (hit_slot hit) (hit_location hit);
                    if negb published then
                      _ ← drop_version pin (Some version);
                      _ ← unpin pin;
                      numeric_loop laps key op
                    else
                      raw ← raw_at pin;
                      let '(new, raw) := guard_update integrity crc32 version op raw in
                      _ ← write_raw pin raw;
                      _ ← unpin pin;
                      mret (inl new)
                end
            end
      end
  end.

Definition numeric_update key (op : Z -> Z) : M (Z + SegcacheError) := numeric_loop fuel key op.

Definition wrapping_add key (rhs : Z) : M (Z + SegcacheError) :=
  numeric_update key (fun v => u64 (v + rhs)).
Definition saturating_sub key (rhs : Z) : M (Z + SegcacheError) :=
  numeric_update key (fun v => sat_sub v rhs).

(** ** [try_into_numeric] *)

(** What the lookup loop of [try_into_numeric] ends with. *)
Inductive Conversion :=
| Settled (r : unit + SegcacheError)
| Create
| Convert (location : Z) (slot : SlotRef) (parsed : Z) (optional : bytes) (secs : Z).

Definition convertible (raw : bytes) (hit : Hit Pin) (seg_id : Z) : M Conversion :=
  v ← lift (read_value integrity raw);
  match v with
  | U64 _ => mret (Settled (inl tt))
  | Bytes b =>
      match parse_simple_numeric b with
      | None => mret (Settled (inr NotNumeric))
      | Some parsed =>
          t ← remaining_ttl seg_id;
          mret (match t with
                | inr error => Settled (inr error)
                | inl secs => Convert (hit_location hit) (hit_slot hit) parsed
                                (default [] (KvItem.optional integrity raw)) secs
                end)
      end
  end.

Fixpoint numeric_lookup (laps : nat) key (attempts : nat) : M Conversion :=
  match laps with
  | O => crash
  | S laps =>
      r ← lookup_hit key false;
      match r with
      | Unknown _ => numeric_lookup laps key attempts
      | Absent => mret Create
      | Found hit =>
          let '(seg_id, _) := Location.unpack_location (hit_location hit) in
          if seg_id =? 0 then _ ← unpin (hit_pin hit); mret (Settled (inr NotFound))
          else
            published ← slot_publishes (hit_slot hit) (hit_location hit);
            if negb published then
              _ ← unpin (hit_pin hit);
              let attempts := S attempts in
              if (RESERVE_RETRIES <=? attempts)%nat then mret (Settled (inr Exists))
              else numeric_lookup laps key attempts
            else
              raw ← raw_at (hit_pin hit);
              c ← convertible raw hit seg_id;
              _ ← unpin (hit_pin hit);
              mret c
      end
  end.

Definition try_into_numeric key (initial secs : Z) : M (unit + SegcacheError) :=
  c ← numeric_lookup fuel key 0;
  match c with
  | Settled r => mret r
  | Create => insert key (U64 initial) None secs
  | Convert location slot parsed optional secs =>
      r ← reserve_and_define key (U64 parsed) optional secs;
      match r with
      | inr e => mret (inr e)
      | inl reserved => replace_at key location slot reserved None
      end
  end.
End Segcache.

(** ** The builder *)

Record Builder := mkCacheBuilder {
  hash_power : Z;
  overflow_factor : F64.f64;
  segments_builder : SegmentsBuilder
}.

Definition builder : Builder := mkCacheBuilder 16 (F64.of_Z 0) default_builder.

(** [None] where the [assert!] fails. *)
Definition with_hash_power (power : Z) (b : Builder) : option Builder :=
  if 7 <=? power then Some (mkCacheBuilder power (overflow_factor b) (segments_builder b)) else None.
Definition with_overflow_factor (percent : F64.f64) (b : Builder) : Builder :=
  mkCacheBuilder (hash_power b) percent (segments_builder b).
Definition on_segments (f : SegmentsBuilder -> SegmentsBuilder) (b : Builder) : Builder :=
  mkCacheBuilder (hash_power b) (overflow_factor b) (f (segments_builder b)).
Definition heap_size (bytes : Z) : Builder -> Builder := on_segments (with_heap_size bytes).
Definition cache_segment_size (size : Z) : Builder -> Builder := on_segments (with_segment_size size).
Definition cache_eviction (p : Eviction.Policy) : Builder -> Builder := on_segments (with_policy p).
Definition cache_eviction_seed (seed : Z) : Builder -> Builder := on_segments (eviction_seed seed).

(** [MultiChoiceHashtable::new], and [set_freq_seed] when a seed is given. *)
Definition new_table (power : Z) (seed : option Z) : option (Index unit) :=
  '(t, m) ← with_choices power 2 tt;
  Some (mkIndex t (match seed with
                   | Some seed => mkTMem (Table.buckets m) seed (world m)
                   | None => m
                   end)).

Definition build_cache (integrity : bool) (map_anon : Z -> option bytes) (now : Z) (b : Builder)
    : option (Config * Cache + SegmentsError) :=
  t ← new_table (hash_power b) (b_seed (segments_builder b));
  SegmentsBuilder.build integrity map_anon now (segments_builder b) TtlBuckets.new t.
