(* ===== verification/HeapRules.v ===== *)
(** * Rules for programs over the segments

    Total-correctness rules for the monad of [Segments]: [wp m Q w] says that
    [m] returns from [w], with a result and a state that satisfy [Q]. Every
    header operation the heap uses has its effect on a decodable header as an
    equation of [run]. *)
From S2P Require Import Prelude Atomics SegState SegHeader SegHeaderSpec Segments.

Section Rules.
Context {H : Type}.
Implicit Types (w : World H).

Definition wp {A} (m : @M H A) (Q : A -> World H -> Prop) w : Prop :=
  match m w with
  | Some (a, w') => Q a w'
  | None => False
  end.

Lemma wp_ret {A} (a : A) Q w : Q a w -> wp (mret a) Q w.
Proof. done. Qed.

Lemma wp_bind {A B} (m : @M H A) (k : A -> @M H B) Q w :
  wp m (fun a w' => wp (k a) Q w') w -> wp (x ← m; k x) Q w.
Proof. unfold wp, mbind, m_bind. by destruct (m w) as [[]|]. Qed.

Lemma wp_unbind {A B} (m : @M H A) (k : A -> @M H B) Q w :
  wp (x ← m; k x) Q w -> wp m (fun a w' => wp (k a) Q w') w.
Proof. unfold wp, mbind, m_bind. by destruct (m w) as [[]|]. Qed.

Lemma wp_ret_r {A} (m : @M H A) Q w : wp (x ← m; mret x) Q w -> wp m Q w.
Proof. unfold wp, mbind, m_bind. by destruct (m w) as [[]|]. Qed.

Lemma wp_mono {A} (m : @M H A) Q Q' w :
  wp m Q w -> (forall a w', Q a w' -> Q' a w') -> wp m Q' w.
Proof. unfold wp. destruct (m w) as [[]|]; eauto. Qed.

Lemma wp_intro {A} (m : @M H A) Q w a w' : m w = Some (a, w') -> Q a w' -> wp m Q w.
Proof. unfold wp. by intros ->. Qed.

Lemma wp_elim {A} (m : @M H A) Q w : wp m Q w -> exists a w', m w = Some (a, w') /\ Q a w'.
Proof. unfold wp. destruct (m w) as [[a w']|]; [eauto|done]. Qed.

Lemma wp_gets {A} (f : World H -> A) Q w : Q (f w) w -> wp (gets f) Q w.
Proof. done. Qed.

Lemma wp_modify f Q w : Q tt (f w) -> wp (modify f) Q w.
Proof. done. Qed.

Lemma wp_lift {A} (x : option A) a Q w : x = Some a -> Q a w -> wp (lift x) Q w.
Proof. by intros ->. Qed.

Lemma wp_check (x : bool) Q w : x = true -> Q tt w -> wp (check x) Q w.
Proof. by intros ->. Qed.

Lemma wp_debug_check d (x : bool) Q w : x = true -> Q tt w -> wp (debug_check d x) Q w.
Proof. intros ->. by apply wp_check, orb_true_r. Qed.

(** ** Headers *)

Definition put id h w : World H := set_headers (<[idx id := h]> (headers w)) w.

Lemma header_put id h h0 w j :
  header_at id w = Some h0 ->
  header_at j (put id h w) = if decide (j = id) then Some h else header_at j w.
Proof.
  unfold header_at, put, idx. intros E. cbn [headers set_headers].
  destruct (Z.leb_spec id 0); [done|]. case_decide as D.
  - subst j. rewrite (proj2 (Z.leb_gt _ _)) by done. apply list_lookup_insert_eq.
    by eapply lookup_lt_Some.
  - destruct (Z.leb_spec j 0); [done|]. apply list_lookup_insert_ne. lia.
Qed.

Lemma wp_on id {A} (p : prog SegmentHeader A) h a h' Q w :
  header_at id w = Some h -> run p h = Some (a, h') -> Q a (put id h' w) -> wp (on id p) Q w.
Proof. unfold wp, on. intros -> ?. cbn [mbind option_bind]. by rewrite H0. Qed.

Lemma put_id id h w : header_at id w = Some h -> put id h w = w.
Proof.
  unfold header_at, put, set_headers. destruct (id <=? 0); [done|]. intros E.
  rewrite list_insert_id by done. by destruct w.
Qed.

(** An operation that only looks. *)
Lemma wp_look id {A} (p : prog SegmentHeader A) h a Q w :
  header_at id w = Some h -> run p h = Some (a, h) -> Q a w -> wp (on id p) Q w.
Proof. intros E1 E2 HQ. eapply wp_on; [done..|]. by rewrite put_id. Qed.

Lemma wp_field id {A} (f : SegmentHeader -> A) h Q w :
  header_at id w = Some h -> Q (f h) w -> wp (field id f) Q w.
Proof. unfold wp, field. by intros ->. Qed.

Lemma wp_bucket_field b {A} (f : TtlBuckets.TtlBucket -> A) x Q w :
  buckets w !! b = Some x -> Q (f x) w -> wp (bucket_field b f) Q w.
Proof. unfold wp, bucket_field. by intros ->. Qed.

Lemma wp_set_bucket b f x Q w :
  buckets w !! b = Some x -> Q tt (set_buckets (<[b := f x]> (buckets w)) w) ->
  wp (set_bucket b f) Q w.
Proof. unfold wp, set_bucket. by intros ->. Qed.
End Rules.

(** ** Header operations *)

Section HeaderOps.
Implicit Types (h : SegmentHeader) (m : Metadata) (nx pv : option (option Z)).

Definition relinked nx pv (s : State) m : Metadata :=
  mkMeta (default (next m) nx) (default (prev m) pv) s (tag m).

Definition with_meta m h : SegmentHeader := with_metadata (pack m) h.

Lemma run_cas_metadata e s nx pv h m :
  unpack (metadata h) = Some m ->
  run (cas_metadata e s nx pv) h =
    Some (if decide (state m = e) then (true, with_meta (relinked nx pv s m) h) else (false, h)).
Proof.
  intros Em. apply seq_run_run. unfold cas_metadata.
  eapply seq_bind; [apply seq_load|]. eapply seq_bind; [by apply seq_unwrap|].
  case_bool_decide; case_decide; try done; cbn [negb].
  eapply seq_bind; [apply seq_exchange_metadata|]. apply seq_ret.
Qed.

Lemma run_update_links nx pv h m :
  unpack (metadata h) = Some m ->
  run (update_links nx pv) h = Some (tt, with_meta (relinked nx pv (state m) m) h).
Proof.
  intros Em. unfold update_links, exchange_from, run, mbind, prog_bind, load, atomic, interfere.
  cbn [sched length exchange_loop]. unfold update_links_lap, mbind, prog_bind.
  cbn [mem]. rewrite Em. cbn [unwrap]. unfold mret, prog_ret.
  unfold compare_exchange_metadata, compare_exchange, atomic, interfere. cbn [sched mem].
  by rewrite Z.eqb_refl.
Qed.

Lemma run_load_metadata h m : unpack (metadata h) = Some m -> run load_metadata h = Some (m, h).
Proof.
  intros Em. apply seq_run_run. eapply seq_bind; [apply seq_load|by apply seq_unwrap].
Qed.

Lemma seq_load_metadata h m : unpack (metadata h) = Some m -> seq_run load_metadata h (m, h).
Proof. intros Em. eapply seq_bind; [apply seq_load|by apply seq_unwrap]. Qed.

Lemma run_next_seg h m : unpack (metadata h) = Some m -> run next_seg h = Some (next m, h).
Proof. intros Em. apply seq_run_run. eapply seq_bind; [by apply seq_load_metadata|apply seq_ret]. Qed.

Lemma run_prev_seg h m : unpack (metadata h) = Some m -> run prev_seg h = Some (prev m, h).
Proof. intros Em. apply seq_run_run. eapply seq_bind; [by apply seq_load_metadata|apply seq_ret]. Qed.

Lemma seq_read_state h m : unpack (metadata h) = Some m -> seq_run read_state h (state m, h).
Proof. intros Em. eapply seq_bind; [by apply seq_load_metadata|apply seq_ret]. Qed.

Lemma run_read_state h m : unpack (metadata h) = Some m -> run read_state h = Some (state m, h).
Proof. intros Em. by apply seq_run_run, seq_read_state. Qed.

Lemma run_load (f : SegmentHeader -> Z) h : run (load f) h = Some (f h, h).
Proof. done. Qed.

Lemma run_store set (v : Z) h : run (store set v) h = Some (tt, set v h).
Proof. done. Qed.

Lemma run_read_pool h : run read_pool h = Some (pool_from_u8 (pool h), h).
Proof. done. Qed.

Lemma run_can_evict h m :
  unpack (metadata h) = Some m ->
  run can_evict h = Some (is_evictable (state m) && (ref_count h =? 0), h).
Proof.
  intros Em. apply seq_run_run. eapply seq_bind; [by apply seq_read_state|].
  destruct (is_evictable (state m)); [|apply seq_ret].
  eapply seq_bind; [apply seq_load|apply seq_ret].
Qed.

Lemma run_reset_write_stats integrity h : run (reset_write_stats integrity) h = Some (tt, reset integrity h).
Proof. done. Qed.

Lemma run_try_reserve integrity now h m :
  unpack (metadata h) = Some m -> state m = Free ->
  run (try_reserve integrity now) h =
    Some (true, with_merge_at now (with_create_at now (reset integrity (clear_links Reserved (tag m) h)))).
Proof.
  intros Em Es. apply seq_run_run. unfold try_reserve.
  pose proof (seq_cas h m Free Reserved Em) as E. rewrite decide_True in E by done.
  eapply seq_bind; [exact E|]. unfold reset_write_stats.
  repeat first [eapply seq_bind; [apply seq_store|]|apply seq_ret].
Qed.

Lemma run_try_release h m :
  unpack (metadata h) = Some m -> state m = Reserved ->
  run try_release h = Some (true, clear_links Free (tag m) h).
Proof.
  intros Em Es. apply seq_run_run. unfold try_release.
  pose proof (seq_cas h m Reserved Free Em) as E. rewrite decide_True in E by done.
  eapply seq_bind; [exact E|]. apply seq_ret.
Qed.

Lemma run_try_release_drained h m :
  unpack (metadata h) = Some m -> state m = Draining ->
  run try_release_drained h = Some (true, bumped (clear_links Free (tag m) h)).
Proof.
  intros Em Es. apply seq_run_run. unfold try_release_drained.
  pose proof (seq_cas h m Draining Free Em) as E. rewrite decide_True in E by done.
  eapply seq_bind; [exact E|]. eapply seq_bind; [apply seq_fetch|apply seq_ret].
Qed.

Lemma run_cas_condemn h m :
  unpack (metadata h) = Some m -> state m = Draining ->
  run cas_condemn h = Some (true, clear_links AwaitingRelease (u8 (Z.land (generation h) 0xFF)) h).
Proof.
  intros Em Es. apply seq_run_run. unfold cas_condemn.
  eapply seq_bind; [apply seq_load|]. eapply seq_bind; [by apply seq_unwrap|].
  rewrite bool_decide_eq_true_2 by done. cbn [negb].
  eapply seq_bind; [apply seq_load|]. eapply seq_bind; [apply seq_exchange_metadata|]. apply seq_ret.
Qed.
End HeaderOps.
