(* ===== verification/HeapShape.v ===== *)
(** * The shape of the heap

    Which queue or chain every segment is in. A [Layout] names the chains of
    the buckets, the segments in nobody's queue ([held]: taken from one and not
    yet linked, or unlinked and not yet returned) and those condemned to their
    readers. [shape] says that this accounts for every segment once, and that
    the header words agree: their states, and in a chain their links. [exc]
    names the segments of the chains that are not at rest there (claimed, or
    being filled). *)
From S2P Require Import Prelude Packing Atomics KvItem TtlBuckets Eviction SegState SegHeader SegHeaderSpec.
From S2P Require Import Segments HeapRules.

(** The neighbours of an element of a list. *)
Lemma head_in {A} (l : list A) (a : A) : hd_error l = Some a -> a ∈ l.
Proof. destruct l; [done|]. intros [= ->]. by left. Qed.

Lemma last_in {A} (l : list A) (a : A) : last l = Some a -> a ∈ l.
Proof. intros (l' & ->)%last_Some. rewrite elem_of_app. right. by left. Qed.

(** Permutations that move one element. *)
Ltac bring x :=
  rewrite <- ?app_assoc; cbn [app]; rewrite ?app_assoc; rewrite <- ?(Permutation_middle _ _ x);
  rewrite <- ?app_assoc; cbn [app]; rewrite ?app_nil_r; try done.

Section Edit.
Context {H : Type}.
Implicit Types (w : World H) (x y : Z).

(** The header of [x], changed by [f]. *)
Definition edit x (f : SegmentHeader -> SegmentHeader) w : World H :=
  set_headers (if x <=? 0 then headers w else alter f (idx x) (headers w)) w.

Definition edit_opt (o : option Z) f w : World H :=
  match o with
  | Some x => edit x f w
  | None => w
  end.

Lemma header_edit x f w y :
  header_at y (edit x f w) = if decide (y = x) then f <$> header_at y w else header_at y w.
Proof.
  unfold header_at, edit, idx. cbn [headers set_headers].
  destruct (Z.leb_spec x 0), (Z.leb_spec y 0); case_decide; subst; try done; try lia.
  - apply list_lookup_alter_eq.
  - apply list_lookup_alter_ne. lia.
Qed.

Lemma header_edit_opt o f w y :
  header_at y (edit_opt o f w) = if decide (o = Some y) then f <$> header_at y w else header_at y w.
Proof.
  destruct o as [x|]; cbn [edit_opt]; [|by rewrite decide_False].
  rewrite header_edit. repeat case_decide; congruence.
Qed.

Lemma put_edit x f h w : header_at x w = Some h -> put x (f h) w = edit x f w.
Proof.
  unfold header_at, put, edit. destruct (x <=? 0); [done|]. intros E. f_equal.
  apply list_eq. intros i. destruct (decide (i = idx x)) as [->|].
  - rewrite list_lookup_insert_eq by (by eapply lookup_lt_Some).
    by rewrite list_lookup_alter_eq, E.
  - by rewrite list_lookup_insert_ne, list_lookup_alter_ne.
Qed.

Lemma edit_edit x f g w : edit x g (edit x f w) = edit x (g ∘ f) w.
Proof.
  unfold edit. destruct (x <=? 0); [by destruct w|]. unfold set_headers. f_equal. cbn.
  apply list_eq. intros i. destruct (decide (i = idx x)) as [->|].
  - rewrite !list_lookup_alter_eq. by destruct (headers w !! idx x).
  - by rewrite !list_lookup_alter_ne.
Qed.

Lemma wp_edit x {A} (p : prog SegmentHeader A) h a f Q w :
  header_at x w = Some h -> run p h = Some (a, f h) -> Q a (edit x f w) -> wp (on x p) Q w.
Proof. intros E1 E2 HQ. eapply wp_on; [done..|]. by rewrite (put_edit _ _ _ _ E1). Qed.

Lemma length_edit x f w : length (headers (edit x f w)) = length (headers w).
Proof. unfold edit. cbn [headers set_headers]. destruct (x <=? 0); [done|]. apply length_alter. Qed.

(** [update_links], as a function of the header. *)
Definition relink_with nx pv (h : SegmentHeader) : SegmentHeader :=
  match unpack (metadata h) with
  | Some m => with_meta (relinked nx pv (state m) m) h
  | None => h
  end.

Lemma wp_update_links x nx pv h m Q w :
  header_at x w = Some h -> unpack (metadata h) = Some m ->
  Q tt (edit x (relink_with nx pv) w) -> wp (on x (update_links nx pv)) Q w.
Proof.
  intros E1 E2. eapply wp_edit; [done|]. rewrite (run_update_links _ _ _ _ E2).
  unfold relink_with. by rewrite E2.
Qed.
End Edit.

(** ** Layouts *)

Record Layout := mkLayout { chains : list (list Z); held : list Z; waiting : list Z }.

(** The ids of the segments. *)
Definition ids (n : Z) : list Z := seqZ 1 n.

(** The layout with another chain in bucket [b]. *)
Definition with_chain (b : nat) (l : list Z) (L : Layout) : Layout :=
  mkLayout (<[b := l]> (chains L)) (held L) (waiting L).
Definition with_held (l : list Z) (L : Layout) : Layout := mkLayout (chains L) l (waiting L).
Definition with_waiting (l : list Z) (L : Layout) : Layout := mkLayout (chains L) (held L) l.

Section Shape.
Context {H : Type} (cfg : Config).
Implicit Types (w : World H) (x y : Z) (l : list Z) (L : Layout) (exc : Z -> option State).

(** The header of [x] is in state [st] with these links. *)
Definition sits w x (st : State) (nx pv : option Z) : Prop :=
  exists h m, header_at x w = Some h /\ unpack (metadata h) = Some m /\
    state m = st /\ next m = nx /\ prev m = pv.

Definition accounted w L : list Z :=
  free_queue w ++ spare_queue w ++ mjoin (chains L) ++ held L ++ waiting L.

(** At rest the last segment of a chain is written to, the others are sealed. *)
Definition rest_state (after : list Z) : State :=
  match after with
  | [] => Live
  | _ => Sealed
  end.

Definition pinned w x : bool :=
  match header_at x w with
  | Some h => negb (ref_count h =? 0)
  | None => false
  end.

Definition in_pool w x : SegmentPool := default Main ((fun h => pool_from_u8 (pool h)) <$> header_at x w).

Definition admitted w : list Z := List.filter (fun x => bool_decide (in_pool w x = Admission)) (ids (cap cfg)).

(** The bucket whose floor is the time to live of its segments. *)
Definition bucket_of_ttl (b : nat) (secs : Z) : Prop :=
  (b < 1024)%nat /\ secs = floor (Z.of_nat b) /\ get_bucket_index secs = Z.of_nat b.

Record shape w L exc : Prop := {
  sh_cap : 1 <= cap cfg <= Location.MAX_SEGMENTS;
  sh_len : length (headers w) = Z.to_nat (cap cfg) /\ length (datas w) = Z.to_nat (cap cfg);
  sh_ids : accounted w L ≡ₚ ids (cap cfg);
  sh_idle x : x ∈ free_queue w ++ spare_queue w -> sits w x Free None None;
  sh_chain b l l1 x l2 : chains L !! b = Some l -> l = l1 ++ x :: l2 ->
    sits w x (default (rest_state l2) (exc x)) (hd_error l2) (last l1);
  sh_ttl b l x h : chains L !! b = Some l -> x ∈ l -> header_at x w = Some h ->
    bucket_of_ttl b (SegHeader.ttl h);
  sh_waiting x : x ∈ waiting L -> sits w x AwaitingRelease None None /\ pinned w x = true;
  sh_pool x : in_pool w x = Admission -> x ∈ mjoin (chains L) ++ held L;
  sh_admitted : admission_count w = Z.of_nat (length (admitted w));
  sh_spare : spare_count w = Z.of_nat (length (spare_queue w)) /\
    spare_count w <= spare_capacity cfg < 2 ^ 32
}.

(** The ends of the chains are in the buckets. *)
Record anchored w (cs : list (list Z)) : Prop := {
  an_len : length (buckets w) = 1024%nat /\ length cs = 1024%nat;
  an_bucket b l : cs !! b = Some l -> exists t, buckets w !! b = Some t /\
    head t = or_zero (hd_error l) /\ tail t = or_zero (last l) /\
    TtlBuckets.ttl t = floor (Z.of_nat b)
}.

(** No writer or remover is inside. *)
Definition unpinned w : Prop :=
  forall x h, header_at x w = Some h -> active_writers h = 0 /\ active_removers h = 0.

(** ** First consequences *)

Lemma in_ids n x : x ∈ ids n <-> 1 <= x < 1 + n.
Proof. unfold ids. rewrite elem_of_seqZ. lia. Qed.

Lemma accounted_range w L exc x : shape w L exc -> x ∈ accounted w L -> 1 <= x <= cap cfg.
Proof. intros Hs Hx. rewrite (sh_ids _ _ _ Hs), in_ids in Hx. lia. Qed.

Lemma accounted_nodup w L exc : shape w L exc -> NoDup (accounted w L).
Proof. intros Hs. rewrite (sh_ids _ _ _ Hs). apply NoDup_seqZ. Qed.

Lemma header_some w L exc x :
  shape w L exc -> 1 <= x <= cap cfg -> exists h, header_at x w = Some h.
Proof.
  intros Hs Hx. unfold header_at. rewrite (proj2 (Z.leb_gt _ _)) by lia.
  apply lookup_lt_is_Some. destruct (sh_len _ _ _ Hs) as [-> _]. unfold idx. lia.
Qed.

Lemma header_range w L exc x h : shape w L exc -> header_at x w = Some h -> 1 <= x <= cap cfg.
Proof.
  intros Hs. unfold header_at. destruct (Z.leb_spec x 0); [done|]. intros E%lookup_lt_Some.
  destruct (sh_len _ _ _ Hs) as [E' _]. unfold idx in E. lia.
Qed.

Lemma sits_header w x st nx pv : sits w x st nx pv -> exists h, header_at x w = Some h.
Proof. intros (h & _ & ? & _). eauto. Qed.

Lemma sits_fun w x st nx pv st' nx' pv' :
  sits w x st nx pv -> sits w x st' nx' pv' -> st = st' /\ nx = nx' /\ pv = pv'.
Proof. intros (h & m & ? & ? & ? & ? & ?) (h' & m' & ? & ? & ? & ? & ?). simplify_eq. done. Qed.

Lemma sits_ext w w' x st nx pv :
  header_at x w' = header_at x w -> sits w x st nx pv -> sits w' x st nx pv.
Proof. unfold sits. by intros ->. Qed.

Lemma chain_in L b l x : chains L !! b = Some l -> x ∈ l -> x ∈ mjoin (chains L).
Proof. intros Hb Hx. apply list_elem_of_join. exists l. split; [done|]. by eapply list_elem_of_lookup_2. Qed.

Lemma chained_accounted w L b l x : chains L !! b = Some l -> x ∈ l -> x ∈ accounted w L.
Proof. intros Hb Hx. unfold accounted. rewrite !elem_of_app. right. right. left. by eapply chain_in. Qed.

Lemma nodup_join_lookup (cs : list (list Z)) b l : NoDup (mjoin cs) -> cs !! b = Some l -> NoDup l.
Proof.
  revert b. induction cs as [|c cs IH]; intros [|b] Hn; [done..| |]; cbn in *; intros E; simplify_eq.
  - by apply NoDup_app in Hn as [? _].
  - apply NoDup_app in Hn as (_ & _ & ?). eauto.
Qed.

Lemma join_disjoint (cs : list (list Z)) b b' l l' x :
  NoDup (mjoin cs) -> cs !! b = Some l -> cs !! b' = Some l' -> x ∈ l -> x ∈ l' -> b = b'.
Proof.
  revert b b'. induction cs as [|c cs IH]; intros [|b] [|b'] Hn; [done..| | | |]; cbn in *; intros E E' Hx Hx';
    simplify_eq; apply NoDup_app in Hn as (H1 & H2 & H3); try done.
  - exfalso. apply (H2 x Hx). apply list_elem_of_join. exists l'. split; [done|]. by eapply list_elem_of_lookup_2.
  - exfalso. apply (H2 x Hx'). apply list_elem_of_join. exists l. split; [done|]. by eapply list_elem_of_lookup_2.
  - f_equal. eauto.
Qed.

Lemma chains_nodup w L exc : shape w L exc -> NoDup (mjoin (chains L)).
Proof.
  intros Hs%accounted_nodup. unfold accounted in Hs.
  apply NoDup_app in Hs as (_ & _ & Hs). apply NoDup_app in Hs as (_ & _ & Hs).
  by apply NoDup_app in Hs as (? & _ & _).
Qed.

Lemma chain_nodup w L exc b l : shape w L exc -> chains L !! b = Some l -> NoDup l.
Proof. intros Hs. by apply nodup_join_lookup, (chains_nodup _ _ _ Hs). Qed.

Lemma chain_unique w L exc b b' l l' x :
  shape w L exc -> chains L !! b = Some l -> chains L !! b' = Some l' -> x ∈ l -> x ∈ l' -> b = b'.
Proof. intros Hs. by apply join_disjoint, (chains_nodup _ _ _ Hs). Qed.

Lemma chain_header w L exc b l x :
  shape w L exc -> chains L !! b = Some l -> x ∈ l -> exists h m, header_at x w = Some h /\ unpack (metadata h) = Some m.
Proof.
  intros Hs Hb (l1 & l2 & ->)%list_elem_of_split.
  destruct (sh_chain _ _ _ Hs _ _ _ _ _ Hb eq_refl) as (h & m & ? & ? & _). eauto.
Qed.

(** ** Changes that leave the shape alone *)

(** What the shape looks at in a header. *)
Definition skeleton (h : SegmentHeader) : Z * Z * SegmentPool * bool :=
  (metadata h, SegHeader.ttl h, pool_from_u8 (pool h), ref_count h =? 0).

Definition same_queues w w' : Prop :=
  free_queue w' = free_queue w /\ spare_queue w' = spare_queue w /\
  spare_count w' = spare_count w /\ admission_count w' = admission_count w /\
  length (headers w') = length (headers w) /\ length (datas w') = length (datas w).

Lemma in_pool_ext w w' x :
  pool_from_u8 ∘ pool <$> header_at x w' = pool_from_u8 ∘ pool <$> header_at x w -> in_pool w' x = in_pool w x.
Proof. unfold in_pool, compose. by intros ->. Qed.

Lemma admitted_ext w w' :
  (forall x, in_pool w' x = in_pool w x) -> admitted w' = admitted w.
Proof. intros E. unfold admitted. apply List.filter_ext. intros x. by rewrite E. Qed.

(** The same but for the reader pins. *)
Definition bones (h : SegmentHeader) : Z * Z * SegmentPool := (metadata h, SegHeader.ttl h, pool_from_u8 (pool h)).

Lemma shape_bones w w' L exc :
  shape w L exc -> same_queues w w' ->
  (forall x, bones <$> header_at x w' = bones <$> header_at x w) ->
  (forall x, x ∈ waiting L -> pinned w' x = pinned w x) -> shape w' L exc.
Proof.
  intros Hs (E1 & E2 & E3 & E4 & E5 & E6) E Ew.
  assert (forall x, in_pool w' x = in_pool w x) as Ep.
  { intros x. apply in_pool_ext. specialize (E x).
    destruct (header_at x w'), (header_at x w); simplify_eq/=; unfold bones, compose in *; congruence. }
  assert (forall x st nx pv, sits w x st nx pv -> sits w' x st nx pv) as Esits.
  { intros x st nx pv (h & m & Eh & Em & ? & ? & ?). specialize (E x). rewrite Eh in E.
    destruct (header_at x w') as [h'|] eqn:Eh'; simplify_eq/=. unfold bones in E. simplify_eq.
    exists h', m. split_and!; try done. congruence. }
  destruct Hs. split; try done.
  - rewrite E5, E6. done.
  - unfold accounted. rewrite E1, E2. done.
  - intros x. rewrite E1, E2. eauto.
  - intros. eauto.
  - intros b l x h' Hb Hx Eh'. specialize (E x). rewrite Eh' in E.
    destruct (header_at x w) as [h|] eqn:Eh; [|done]. simplify_eq/=. unfold bones in E.
    assert (SegHeader.ttl h' = SegHeader.ttl h) as -> by congruence. eauto.
  - intros x Hx. rewrite Ew by done. destruct (sh_waiting0 x Hx) as [? Hp]. by split; [eauto|].
  - intros x. rewrite Ep. eauto.
  - by rewrite E4, (admitted_ext w w').
  - by rewrite E2, E3.
Qed.

Lemma shape_ext w w' L exc :
  shape w L exc -> same_queues w w' ->
  (forall x, skeleton <$> header_at x w' = skeleton <$> header_at x w) -> shape w' L exc.
Proof.
  intros Hs Hq E. apply (shape_bones w); [done..| |]; intros x.
  - specialize (E x). destruct (header_at x w'), (header_at x w); try done. cbn in *.
    apply (inj Some) in E. unfold skeleton, bones in *. congruence.
  - intros _. specialize (E x). unfold pinned. destruct (header_at x w'), (header_at x w); try done.
    apply (inj Some) in E. unfold skeleton in E. by injection E as _ _ _ ->.
Qed.

(** An edit that keeps the skeleton. *)
Lemma shape_edit x f w L exc :
  shape w L exc -> (forall h, header_at x w = Some h -> skeleton (f h) = skeleton h) -> shape (edit x f w) L exc.
Proof.
  intros Hs Hf. eapply shape_ext; [done| |].
  - unfold same_queues. by rewrite length_edit.
  - intros y. rewrite header_edit. case_decide; subst; [|done].
    destruct (header_at x w) as [h|]; [|done]. cbn. by rewrite Hf.
Qed.

(** ** Splicing *)

Lemma link_ok_in w L exc o :
  shape w L exc -> (forall x, o = Some x -> 1 <= x <= cap cfg) -> link_ok o.
Proof.
  intros Hs Ho x Hx. specialize (Ho x Hx). destruct (sh_cap _ _ _ Hs).
  change Location.MAX_SEGMENTS with 262142 in *. lia.
Qed.

Lemma unpack_with_meta m h : meta_ok m -> unpack (metadata (with_meta m h)) = Some m.
Proof. apply unpack_pack_aux. Qed.

Lemma relinked_ok nx pv s m :
  meta_ok m -> (forall o, nx = Some o -> link_ok o) -> (forall o, pv = Some o -> link_ok o) ->
  meta_ok (relinked nx pv s m).
Proof.
  intros (? & ? & ?) Hn Hp. split; [|split; [|done]]; cbn.
  - destruct nx as [o|]; [by apply Hn|done].
  - destruct pv as [o|]; [by apply Hp|done].
Qed.

Lemma sits_relink w w' x st nx pv nx' pv' :
  sits w x st nx pv -> header_at x w' = relink_with nx' pv' <$> header_at x w ->
  (forall o, nx' = Some o -> link_ok o) -> (forall o, pv' = Some o -> link_ok o) ->
  sits w' x st (default nx nx') (default pv pv').
Proof.
  intros (h & m & Eh & Em & <- & <- & <-) E Hn Hp. rewrite Eh in E.
  exists (relink_with nx' pv' h), (relinked nx' pv' (state m) m). split; [done|].
  split; [|done]. unfold relink_with. rewrite Em. apply unpack_with_meta, relinked_ok; try done.
  by eapply unpack_ok.
Qed.

(** What unlinking a segment with these links does to the header of [y]. *)
Definition splice (nx pv : option Z) (y : Z) (h : SegmentHeader) : SegmentHeader :=
  if decide (pv = Some y) then relink_with (Some nx) None h
  else if decide (nx = Some y) then relink_with None (Some pv) h else h.

Lemma relink_skeleton nx pv h :
  (skeleton (relink_with nx pv h)).1.1.2 = (skeleton h).1.1.2 /\
  (skeleton (relink_with nx pv h)).1.2 = (skeleton h).1.2 /\
  (skeleton (relink_with nx pv h)).2 = (skeleton h).2.
Proof. unfold relink_with. by destruct (unpack (metadata h)). Qed.

Lemma splice_skeleton nx pv y h :
  (skeleton (splice nx pv y h)).1.1.2 = (skeleton h).1.1.2 /\
  (skeleton (splice nx pv y h)).1.2 = (skeleton h).1.2 /\
  (skeleton (splice nx pv y h)).2 = (skeleton h).2.
Proof. unfold splice. repeat case_decide; try apply relink_skeleton; done. Qed.


(** ** Being in one place only *)

Record apart w L : Prop := {
  idle_chain x : x ∈ free_queue w ++ spare_queue w -> x ∉ mjoin (chains L);
  idle_held x : x ∈ free_queue w ++ spare_queue w -> x ∉ held L;
  idle_waiting x : x ∈ free_queue w ++ spare_queue w -> x ∉ waiting L;
  chain_held x : x ∈ mjoin (chains L) -> x ∉ held L;
  chain_waiting x : x ∈ mjoin (chains L) -> x ∉ waiting L;
  held_waiting x : x ∈ held L -> x ∉ waiting L
}.

Lemma shape_apart w L exc : shape w L exc -> apart w L.
Proof.
  intros Hs%accounted_nodup. unfold accounted in Hs. rewrite app_assoc in Hs.
  apply NoDup_app in Hs as (_ & H1 & Hs). apply NoDup_app in Hs as (_ & H2 & Hs).
  apply NoDup_app in Hs as (_ & H3 & _).
  split; intros x Hx; first [specialize (H1 x Hx)|specialize (H2 x Hx)|by apply H3];
    intros Hx'; first [apply H1|apply H2]; rewrite ?elem_of_app; auto.
Qed.

Lemma splice_other nx pv y h : nx <> Some y -> pv <> Some y -> splice nx pv y h = h.
Proof. intros. unfold splice. by rewrite !decide_False. Qed.

Lemma splice_prev nx pv y h : pv = Some y -> splice nx pv y h = relink_with (Some nx) None h.
Proof. intros. unfold splice. by rewrite decide_True. Qed.

Lemma splice_next nx pv y h :
  nx = Some y -> pv <> Some y -> splice nx pv y h = relink_with None (Some pv) h.
Proof. intros. unfold splice. by rewrite decide_False, decide_True. Qed.

Lemma join_insert (cs : list (list Z)) b l l' x :
  cs !! b = Some l -> l ≡ₚ x :: l' -> mjoin cs ≡ₚ x :: mjoin (<[b := l']> cs).
Proof.
  revert b. induction cs as [|c cs IH]; intros [|b] E Hp; [done..| |]; cbn in *; simplify_eq.
  - by rewrite Hp.
  - change (mjoin (c :: <[b:=l']> cs)) with (c ++ mjoin (<[b:=l']> cs)).
    rewrite (IH b E Hp), Permutation_middle. done.
Qed.

Lemma join_insert_more (cs : list (list Z)) b l l' x :
  cs !! b = Some l -> l' ≡ₚ x :: l -> mjoin (<[b := l']> cs) ≡ₚ x :: mjoin cs.
Proof.
  intros Hb Hp.
  rewrite (join_insert (<[b := l']> cs) b l' l x); [|apply list_lookup_insert_eq; by eapply lookup_lt_Some|done].
  by rewrite list_insert_insert_eq, list_insert_id.
Qed.

Section Cut.
Context (w w' : World H) (L : Layout) (exc : Z -> option State) (b : nat) (l1 l2 : list Z) (x : Z).
Context (Hs : shape w L exc) (Hb : chains L !! b = Some (l1 ++ x :: l2)).
Context (Hq : same_queues w w').
Context (Hh : forall y, header_at y w' = splice (hd_error l2) (last l1) y <$> header_at y w).

Lemma cut_neighbour y : hd_error l2 = Some y \/ last l1 = Some y -> y ∈ l1 ++ l2.
Proof. rewrite elem_of_app. intros [?%head_in|?%last_in]; auto. Qed.

Lemma cut_same y : y ∉ l1 ++ l2 -> header_at y w' = header_at y w.
Proof.
  intros Hy. rewrite Hh. destruct (header_at y w) as [h|]; [|done]. cbn.
  rewrite splice_other; [done|..]; intros E; apply Hy, cut_neighbour; auto.
Qed.

Lemma cut_sits y st nx pv : y ∉ l1 ++ l2 -> sits w y st nx pv -> sits w' y st nx pv.
Proof. intros ?. by apply sits_ext, cut_same. Qed.

Lemma cut_in_chain y : y ∈ l1 ++ l2 -> y ∈ l1 ++ x :: l2.
Proof. rewrite !elem_of_app, elem_of_cons. tauto. Qed.

Lemma cut_chain_states l1' y l2' :
  (l2 = [] -> l1 = []) -> l1 ++ l2 = l1' ++ y :: l2' ->
  sits w' y (default (rest_state l2') (exc y)) (hd_error l2') (last l1').
Proof.
  intros Hend E. pose proof (chain_nodup _ _ _ _ _ Hs Hb) as Hn.
  pose proof (sh_cap _ _ _ Hs) as Hcap.
  assert (forall z, z ∈ l1 ++ l2 -> 1 <= z <= cap cfg) as Hr.
  { intros z Hz. eapply accounted_range; [done|]. eapply chained_accounted; [done|]. by apply cut_in_chain. }
  assert (forall l, l = l1 \/ l = l2 -> link_ok (hd_error l) /\ link_ok (last l)) as Hlk.
  { intros l Hl. split; eapply link_ok_in; try done; intros z Hz; apply Hr, elem_of_app;
      [apply head_in in Hz|apply last_in in Hz]; destruct Hl; subst; auto. }
  rewrite NoDup_app, NoDup_cons in Hn. destruct Hn as (Hn1 & Hd & Hx & Hn2).
  apply app_eq_app in E as (k & [[-> E]|[-> E]]).
  - destruct k as [|z k]; cbn in E.
    + (* y heads what was behind x *)
      subst l2. rewrite app_nil_r in *.
      pose proof (sh_chain _ _ _ Hs b _ (l1' ++ [x]) y l2' Hb ltac:(by rewrite <- app_assoc)) as Hy.
      rewrite last_snoc in Hy.
      refine (sits_relink w w' y _ _ _ None (Some (last l1')) Hy _ _ _); [|done|].
      * rewrite Hh. destruct (header_at y w) as [h|]; [|done]. cbn.
        rewrite splice_next; [done..|]. intros E%last_in. apply (Hd y E). right. by left.
      * intros o [= <-]. apply Hlk. auto.
    + injection E as <- ->.
      pose proof (sh_chain _ _ _ Hs b _ l1' y (k ++ x :: l2) Hb ltac:(by rewrite <- app_assoc)) as Hy.
      assert (rest_state (k ++ x :: l2) = rest_state (k ++ l2)) as <-.
      { destruct k; [|done]. cbn in *. destruct l2; [|done]. by destruct (app_cons_not_nil l1' [] y (eq_sym (Hend eq_refl))). }
      assert (y ∉ l2) as Hyl2.
      { intros Hy2. apply (Hd y); [|by right]. rewrite elem_of_app. right. by left. }
      destruct k as [|z k].
      * refine (sits_relink w w' y _ _ _ (Some (hd_error l2)) None Hy _ _ _); [|intros o [= <-]; apply Hlk; auto|done].
        rewrite Hh. destruct (header_at y w) as [h|]; [|done]. cbn. rewrite splice_prev; [done|].
        apply last_snoc.
      * eapply sits_ext; [|exact Hy]. rewrite Hh. destruct (header_at y w) as [h|]; [|done]. cbn.
        rewrite splice_other; [done|by intros ?%head_in|].
        rewrite last_app_cons, last_cons_cons. intros E%last_in.
        apply NoDup_app in Hn1 as (_ & _ & Hn1). apply NoDup_cons in Hn1 as [Hn1 _]. by apply Hn1.
  - (* y is further back *)
    destruct k as [|z k]; cbn in E.
    + subst l2. rewrite app_nil_r in *.
      pose proof (sh_chain _ _ _ Hs b _ (l1 ++ [x]) y l2' Hb ltac:(by rewrite <- app_assoc)) as Hy.
      rewrite last_snoc in Hy.
      refine (sits_relink w w' y _ _ _ None (Some (last l1)) Hy _ _ _); [|done|intros o [= <-]; apply Hlk; auto].
      rewrite Hh. destruct (header_at y w) as [h|]; [|done]. cbn.
      rewrite splice_next; [done..|]. intros E%last_in. apply (Hd y E). right. by left.
    + subst l2.
      pose proof (sh_chain _ _ _ Hs b _ (l1 ++ x :: z :: k) y l2' Hb
        ltac:(by rewrite <- app_assoc)) as Hy.
      assert (last (l1 ++ x :: z :: k) = last (l1 ++ z :: k)) as E.
      { by rewrite !last_app_cons, last_cons_cons. }
      rewrite E in Hy. eapply sits_ext; [|exact Hy].
      rewrite Hh. destruct (header_at y w) as [h|]; [|done]. cbn.
      rewrite splice_other; [done| |].
      * cbn. intros [= ->]. apply NoDup_cons in Hn2 as [Hn2 _]. apply Hn2. rewrite elem_of_app. right. by left.
      * intros E'%last_in. apply (Hd y E'). right. right. rewrite elem_of_app. right. by left.
Qed.

Definition cut_layout : Layout :=
  mkLayout (<[b := l1 ++ l2]> (chains L)) (x :: held L) (waiting L).

Lemma cut_chains : mjoin (chains L) ≡ₚ x :: mjoin (chains cut_layout).
Proof. eapply join_insert; [done|]. by rewrite Permutation_middle. Qed.

Lemma cut_skeleton y h :
  header_at y w' = Some h ->
  exists h0, header_at y w = Some h0 /\ SegHeader.ttl h = SegHeader.ttl h0 /\
    pool_from_u8 (pool h) = pool_from_u8 (pool h0) /\ (ref_count h =? 0) = (ref_count h0 =? 0).
Proof.
  rewrite Hh. destruct (header_at y w) as [h0|]; [|done]. intros [= <-].
  exists h0. split; [done|]. by apply splice_skeleton.
Qed.

Lemma cut_in_pool y : in_pool w' y = in_pool w y.
Proof.
  unfold in_pool. rewrite Hh. destruct (header_at y w) as [h|]; [|done]. cbn.
  apply (splice_skeleton (hd_error l2) (last l1) y h).
Qed.

Lemma cut_accounted : accounted w' cut_layout ≡ₚ accounted w L.
Proof.
  destruct Hq as (E1 & E2 & _). unfold accounted. rewrite E1, E2, cut_chains. cbn [held waiting cut_layout].
  do 2 f_equiv. cbn. symmetry. apply Permutation_middle.
Qed.

Lemma shape_cut : (l2 = [] -> l1 = []) -> shape w' cut_layout exc.
Proof.
  intros Hend. pose proof (shape_apart _ _ _ Hs) as Ha.
  assert (forall y, y ∈ l1 ++ l2 -> y ∈ mjoin (chains L)) as Hin.
  { intros y Hy. eapply chain_in; [done|]. by apply cut_in_chain. }
  destruct Hq as (E1 & E2 & E3 & E4 & E5 & E6). split.
  - apply (sh_cap _ _ _ Hs).
  - rewrite E5, E6. apply (sh_len _ _ _ Hs).
  - rewrite cut_accounted. apply (sh_ids _ _ _ Hs).
  - rewrite E1, E2. intros y Hy. apply cut_sits; [|by apply (sh_idle _ _ _ Hs)].
    intros ?%Hin. by eapply idle_chain.
  - intros b' l l1' y l2' Hb' ->. cbn [chains cut_layout] in Hb'. destruct (decide (b' = b)) as [->|].
    + rewrite list_lookup_insert_eq in Hb' by (by eapply lookup_lt_Some). injection Hb' as E.
      by apply cut_chain_states.
    + rewrite list_lookup_insert_ne in Hb' by done. apply cut_sits; [|by eapply (sh_chain _ _ _ Hs)].
      intros Hy%cut_in_chain. assert (b' = b); [|done]. eapply chain_unique; try done.
      rewrite elem_of_app. right. by left.
  - intros b' l y h Hb' Hy Eh. destruct (cut_skeleton y h Eh) as (h0 & Eh0 & -> & _).
    cbn [chains cut_layout] in Hb'. destruct (decide (b' = b)) as [->|].
    + rewrite list_lookup_insert_eq in Hb' by (by eapply lookup_lt_Some). injection Hb' as <-.
      eapply (sh_ttl _ _ _ Hs); [done| |done]. by apply cut_in_chain.
    + rewrite list_lookup_insert_ne in Hb' by done. by eapply (sh_ttl _ _ _ Hs).
  - intros y Hy. cbn [waiting cut_layout] in Hy. destruct (sh_waiting _ _ _ Hs y Hy) as [Hsit Hp].
    assert (y ∉ l1 ++ l2) as Hy' by (intros ?%Hin; by eapply chain_waiting).
    split; [by apply cut_sits|]. unfold pinned. by rewrite cut_same.
  - intros y. rewrite cut_in_pool. intros Hp%(sh_pool _ _ _ Hs).
    rewrite cut_chains in Hp. cbn [held cut_layout]. set_solver.
  - rewrite E4, (admitted_ext w w'); [apply (sh_admitted _ _ _ Hs)|]. apply cut_in_pool.
  - rewrite E2, E3. apply (sh_spare _ _ _ Hs).
Qed.
End Cut.

(** ** Segments in hand *)

Definition upd exc x (o : option State) : Z -> option State :=
  fun y => if decide (y = x) then o else exc y.

Lemma sits_edit_ne x f w y st nx pv : y <> x -> sits (edit x f w) y st nx pv <-> sits w y st nx pv.
Proof. intros Hne. split; apply sits_ext; by rewrite header_edit, decide_False. Qed.

Lemma in_pool_edit x f w y :
  (forall h, header_at x w = Some h -> pool_from_u8 (pool (f h)) = pool_from_u8 (pool h)) ->
  in_pool (edit x f w) y = in_pool w y.
Proof.
  intros Hf. apply in_pool_ext. rewrite header_edit. case_decide; [|done]. subst.
  destruct (header_at x w) as [h|]; [|done]. unfold compose. cbn. by rewrite Hf.
Qed.

(** A segment in hand may be changed at will, but for its pool. *)
Lemma shape_edit_held x f w L exc :
  shape w L exc -> x ∈ held L ->
  (forall h, header_at x w = Some h -> pool_from_u8 (pool (f h)) = pool_from_u8 (pool h)) ->
  shape (edit x f w) L exc.
Proof.
  intros Hs Hx Hf. pose proof (shape_apart _ _ _ Hs) as Ha.
  destruct Hs. split; try done.
  - by rewrite length_edit.
  - intros y Hy. apply sits_edit_ne; [|auto]. intros ->. by apply (idle_held _ _ Ha x).
  - intros b l l1 y l2 Hb E. apply sits_edit_ne; [|eauto]. intros ->.
    apply (chain_held _ _ Ha x); [|done]. eapply chain_in; [done|]. subst. rewrite elem_of_app. right. by left.
  - intros b l y h Hb Hy. rewrite header_edit, decide_False; [eauto|]. intros ->.
    apply (chain_held _ _ Ha x); [|done]. by eapply chain_in.
  - intros y Hy. assert (y <> x) by (intros ->; by apply (held_waiting _ _ Ha x)).
    rewrite sits_edit_ne by done. unfold pinned. rewrite header_edit, decide_False by done. auto.
  - intros y. rewrite in_pool_edit by done. auto.
  - cbn. rewrite (admitted_ext w); [done|]. intros y. by apply in_pool_edit.
Qed.

(** Parts of the invariant that mention the layout but no header. *)
Lemma shape_relayout w w' L L' exc :
  shape w L exc ->
  headers w' = headers w -> datas w' = datas w -> admission_count w' = admission_count w ->
  chains L' = chains L ->
  accounted w' L' ≡ₚ accounted w L ->
  (forall x, x ∈ free_queue w' ++ spare_queue w' -> sits w x Free None None) ->
  (forall x, x ∈ waiting L' -> sits w x AwaitingRelease None None /\ pinned w x = true) ->
  (forall x, in_pool w x = Admission -> x ∈ held L -> x ∈ held L') ->
  (spare_count w' = Z.of_nat (length (spare_queue w')) /\ spare_count w' <= spare_capacity cfg < 2 ^ 32) ->
  shape w' L' exc.
Proof.
  intros Hs E1 E2 E3 Ec Hp Hi Hw Hpool Hsp.
  assert (forall x, header_at x w' = header_at x w) as Eh by (intros x; unfold header_at; by rewrite E1).
  assert (forall x, in_pool w' x = in_pool w x) as Ep by (intros x; unfold in_pool; by rewrite Eh).
  destruct Hs. split; try done.
  - by rewrite E1, E2.
  - by rewrite Hp.
  - intros x Hx. eapply sits_ext; [apply Eh|auto].
  - intros b l l1 x l2. rewrite Ec. intros Hb E. eapply sits_ext; [apply Eh|eauto].
  - intros b l x h. rewrite Ec, Eh. eauto.
  - intros x Hx. unfold pinned. rewrite Eh. destruct (Hw x Hx). split; [|done]. eapply sits_ext; [apply Eh|done].
  - intros x. rewrite Ep, Ec, elem_of_app. intros Hx. specialize (sh_pool0 x Hx).
    rewrite elem_of_app in sh_pool0. destruct sh_pool0; [by left|]. right. auto.
  - by rewrite E3, (admitted_ext w w').
Qed.

Lemma shape_push_free w L exc x r n :
  shape w L exc -> held L = x :: r -> sits w x Free None None -> in_pool w x = Main ->
  shape (set_free (free_queue w ++ [x]) n w) (with_held r L) exc.
Proof.
  intros Hs E Hx Hp. eapply shape_relayout; try done; cbn [held with_held waiting free_queue spare_queue set_free].
  - unfold accounted. cbn [held with_held chains waiting free_queue spare_queue set_free]. rewrite E.
    bring x.
  - intros y. rewrite <- app_assoc, !elem_of_app, list_elem_of_singleton. intros [Hy|[->|Hy]]; [|done|];
      apply (sh_idle _ _ _ Hs), elem_of_app; auto.
  - apply (sh_waiting _ _ _ Hs).
  - intros y Hy. rewrite E, elem_of_cons. intros [->|]; [congruence|done].
  - apply (sh_spare _ _ _ Hs).
Qed.

Lemma shape_push_spare w L exc x r :
  shape w L exc -> held L = x :: r -> sits w x Free None None -> in_pool w x = Main ->
  spare_count w < spare_capacity cfg ->
  shape (set_spare (spare_queue w ++ [x]) (u32 (spare_count w + 1)) w) (with_held r L) exc.
Proof.
  intros Hs E Hx Hp Hc. destruct (sh_spare _ _ _ Hs) as [Ec Hcap].
  eapply shape_relayout; try done; cbn [held with_held waiting free_queue spare_queue spare_count set_spare].
  - unfold accounted. cbn [held with_held chains waiting free_queue spare_queue set_spare]. rewrite E.
    bring x.
  - intros y. rewrite app_assoc, elem_of_app, list_elem_of_singleton. intros [Hy| ->]; [|done].
    by apply (sh_idle _ _ _ Hs).
  - apply (sh_waiting _ _ _ Hs).
  - intros y Hy. rewrite E, elem_of_cons. intros [->|]; [congruence|done].
  - rewrite wrap_id by (unfold fits; lia). rewrite length_app. cbn [length]. lia.
Qed.

Lemma shape_condemned w L exc x r :
  shape w L exc -> held L = x :: r -> sits w x AwaitingRelease None None -> pinned w x = true ->
  in_pool w x = Main ->
  shape w (mkLayout (chains L) r (x :: waiting L)) exc.
Proof.
  intros Hs E Hx Hpin Hp. eapply shape_relayout; try done; cbn [held waiting].
  - unfold accounted. cbn [held chains waiting]. rewrite E.
    bring x.
  - apply (sh_idle _ _ _ Hs).
  - intros y. rewrite elem_of_cons. intros [->|Hy]; [done|by apply (sh_waiting _ _ _ Hs)].
  - intros y Hy. rewrite E, elem_of_cons. intros [->|]; [congruence|done].
  - apply (sh_spare _ _ _ Hs).
Qed.

Lemma shape_pop_free w L exc x q :
  shape w L exc -> free_queue w = x :: q ->
  shape (set_free q (freed w) w) (with_held (x :: held L) L) exc.
Proof.
  intros Hs E. eapply shape_relayout; try done; cbn [held with_held waiting free_queue spare_queue set_free].
  - unfold accounted. cbn [held with_held chains waiting free_queue spare_queue set_free]. rewrite E.
    bring x.
  - intros y Hy. apply (sh_idle _ _ _ Hs). rewrite E. cbn. by right.
  - apply (sh_waiting _ _ _ Hs).
  - intros y _ Hy. by right.
  - apply (sh_spare _ _ _ Hs).
Qed.

Lemma shape_pop_spare w L exc x q :
  shape w L exc -> spare_queue w = x :: q ->
  shape (set_spare q (u32 (spare_count w - 1)) w) (with_held (x :: held L) L) exc.
Proof.
  intros Hs E. destruct (sh_spare _ _ _ Hs) as [Ec Hcap]. rewrite E in Ec. cbn [length] in Ec.
  eapply shape_relayout; try done; cbn [held with_held waiting free_queue spare_queue spare_count set_spare].
  - unfold accounted. cbn [held with_held chains waiting free_queue spare_queue set_spare]. rewrite E.
    bring x.
  - intros y Hy. apply (sh_idle _ _ _ Hs). rewrite E. rewrite elem_of_app in *. rewrite elem_of_cons. tauto.
  - apply (sh_waiting _ _ _ Hs).
  - intros y _ Hy. by right.
  - rewrite wrap_id by (unfold fits; lia). lia.
Qed.

(** ** Rebuilding one chain *)

Lemma shape_rechain w w' L L' exc exc' b l l' :
  shape w L exc -> chains L !! b = Some l ->
  chains L' = <[b := l']> (chains L) -> waiting L' = waiting L ->
  mjoin (chains L') ++ held L' ≡ₚ mjoin (chains L) ++ held L ->
  same_queues w w' ->
  (forall y, y ∉ l -> y ∉ l' -> header_at y w' = header_at y w /\ exc' y = exc y) ->
  (forall l1 y l2, l' = l1 ++ y :: l2 ->
     sits w' y (default (rest_state l2) (exc' y)) (hd_error l2) (last l1)) ->
  (forall y h, y ∈ l' -> header_at y w' = Some h -> bucket_of_ttl b (SegHeader.ttl h)) ->
  (forall y, in_pool w' y = in_pool w y) ->
  (forall y, y ∈ l' -> y ∈ l \/ y ∈ held L) ->
  shape w' L' exc'.
Proof.
  intros Hs Hb Ec Ew Hp (E1 & E2 & E3 & E4 & E5 & E6) Hout Hin Httl Hpool Hnew.
  pose proof (shape_apart _ _ _ Hs) as Ha.
  assert (forall y, y ∉ mjoin (chains L) -> y ∉ held L -> header_at y w' = header_at y w) as Hsame.
  { intros y Hc Hh. apply Hout; intros Hy; [|destruct (Hnew y Hy)]; try done;
      apply Hc; by eapply chain_in. }
  split.
  - apply (sh_cap _ _ _ Hs).
  - rewrite E5, E6. apply (sh_len _ _ _ Hs).
  - rewrite <- (sh_ids _ _ _ Hs). unfold accounted. rewrite E1, E2, Ew.
    rewrite (app_assoc (mjoin (chains L'))), Hp. by rewrite <- app_assoc.
  - rewrite E1, E2. intros y Hy. eapply sits_ext; [|by apply (sh_idle _ _ _ Hs)].
    apply Hsame; [by apply (idle_chain _ _ Ha)|by apply (idle_held _ _ Ha)].
  - intros b' k l1 y l2 Hb' E. rewrite Ec in Hb'. destruct (decide (b' = b)) as [->|].
    + rewrite list_lookup_insert_eq in Hb' by (by eapply lookup_lt_Some). simplify_eq. auto.
    + rewrite list_lookup_insert_ne in Hb' by done.
      assert (y ∈ k) as Hy by (subst k; rewrite elem_of_app; right; by left).
      destruct (Hout y) as [Eh Ee].
      * intros Hl. assert (b' = b); [|done]. by eapply chain_unique.
      * intros [Hl|Hl]%Hnew; [assert (b' = b); [|done]; by eapply chain_unique|].
        eapply chain_held; [done|by eapply chain_in|done].
      * rewrite Ee. eapply sits_ext; [done|]. by eapply (sh_chain _ _ _ Hs).
  - intros b' k y h Hb' Hy Eh. rewrite Ec in Hb'. destruct (decide (b' = b)) as [->|].
    + rewrite list_lookup_insert_eq in Hb' by (by eapply lookup_lt_Some). simplify_eq. eauto.
    + rewrite list_lookup_insert_ne in Hb' by done. destruct (Hout y) as [E _].
      * intros Hl. assert (b' = b); [|done]. by eapply chain_unique.
      * intros [Hl|Hl]%Hnew; [assert (b' = b); [|done]; by eapply chain_unique|].
        eapply chain_held; [done|by eapply chain_in|done].
      * rewrite E in Eh. by eapply (sh_ttl _ _ _ Hs).
  - intros y. rewrite Ew. intros Hy. destruct (sh_waiting _ _ _ Hs y Hy) as [Hsit Hpin].
    assert (header_at y w' = header_at y w) as E.
    { apply Hsame; intros Hy'; [by eapply chain_waiting|by eapply held_waiting]. }
    split; [by eapply sits_ext|]. unfold pinned. by rewrite E.
  - intros y. rewrite Hpool, Hp. apply (sh_pool _ _ _ Hs).
  - rewrite E4, (admitted_ext w w'); [apply (sh_admitted _ _ _ Hs)|done].
  - rewrite E2, E3. apply (sh_spare _ _ _ Hs).
Qed.

(** A claim, or its end: the segment keeps its links. *)
Lemma shape_restate w L exc b l x f st :
  shape w L exc -> chains L !! b = Some l -> x ∈ l ->
  (forall h m, header_at x w = Some h -> unpack (metadata h) = Some m ->
     unpack (metadata (f h)) = Some (relinked None None st m) /\
     SegHeader.ttl (f h) = SegHeader.ttl h /\ pool_from_u8 (pool (f h)) = pool_from_u8 (pool h)) ->
  shape (edit x f w) L (upd exc x (Some st)).
Proof.
  intros Hs Hb Hx Hf. destruct (chain_header _ _ _ _ _ _ Hs Hb Hx) as (h0 & m0 & Eh & Em).
  destruct (Hf _ _ Eh Em) as (Em' & Et & Ep).
  eapply (shape_rechain w _ L L _ _ b l l); try done.
  - by rewrite list_insert_id.
  - unfold same_queues. by rewrite length_edit.
  - intros y Hy _. assert (y <> x) by congruence. rewrite header_edit. unfold upd. by rewrite !decide_False.
  - intros l1 y l2 E. pose proof (sh_chain _ _ _ Hs _ _ _ _ _ Hb E) as Hy. unfold upd.
    case_decide as D.
    + subst y. destruct Hy as (h & m & ? & ? & ? & ? & ?). simplify_eq.
      exists (f h0), (relinked None None st m0). split; [|done].
      by rewrite header_edit, decide_True, Eh.
    + by apply sits_edit_ne.
  - intros y h Hy. rewrite header_edit. case_decide; [|by eapply (sh_ttl _ _ _ Hs)].
    subst y. rewrite Eh. intros [= <-]. rewrite Et. by eapply (sh_ttl _ _ _ Hs).
  - intros y. apply in_pool_edit. intros h E. by simplify_eq.
  - auto.
Qed.

(** A segment in its rest state is not an exception. *)
Lemma shape_rest w L exc b l1 x l2 :
  shape w L exc -> chains L !! b = Some (l1 ++ x :: l2) -> exc x = Some (rest_state l2) ->
  shape w L (upd exc x None).
Proof.
  intros Hs Hb Hx. pose proof (chain_nodup _ _ _ _ _ Hs Hb) as Hn.
  destruct Hs. split; try done. intros b' l k1 y k2 Hb' E.
  pose proof (sh_chain0 _ _ _ _ _ Hb' E) as Hy. unfold upd. case_decide; [|done]. subst y.
  assert (b' = b) as ->.
  { eapply chain_unique; [by split|done..| |]; subst; rewrite elem_of_app; right; by left. }
  assert (k1 ++ x :: k2 = l1 ++ x :: l2) as E' by congruence.
  assert (k2 = l2) as ->; [|by rewrite Hx in Hy].
  clear -E' Hn. revert k1 E'. induction l1 as [|a l1 IH]; intros [|c k1] E'; cbn in *; simplify_eq; try done.
  - exfalso. apply NoDup_cons in Hn as [Hn _]. apply Hn. rewrite elem_of_app. right. by left.
  - exfalso. apply NoDup_cons in Hn as [Hn _]. apply Hn. rewrite elem_of_app. right. by left.
  - apply NoDup_cons in Hn as [_ Hn]. eauto.
Qed.

(** ** Linking a segment in hand *)

(** What putting [x] between two segments does to the header of [y]. *)
Definition attach x (nx pv : option Z) (y : Z) (h : SegmentHeader) : SegmentHeader :=
  if decide (pv = Some y) then relink_with (Some (Some x)) None h
  else if decide (nx = Some y) then relink_with None (Some (Some x)) h else h.

Lemma attach_skeleton x nx pv y h :
  (skeleton (attach x nx pv y h)).1.1.2 = (skeleton h).1.1.2 /\
  (skeleton (attach x nx pv y h)).1.2 = (skeleton h).1.2 /\
  (skeleton (attach x nx pv y h)).2 = (skeleton h).2.
Proof. unfold attach. repeat case_decide; try apply relink_skeleton; done. Qed.

(** Where an element of a chain with one more segment is. *)
Lemma split_insert l1 x l2 k1 y k2 :
  l1 ++ x :: l2 = k1 ++ y :: k2 ->
  (exists k, l1 = k1 ++ y :: k /\ k2 = k ++ x :: l2) \/
  (k1 = l1 /\ y = x /\ k2 = l2) \/
  (exists k, l2 = k ++ y :: k2 /\ k1 = l1 ++ x :: k).
Proof.
  intros (k & [[-> E]|[-> E]])%app_eq_app.
  - destruct k as [|z k]; cbn in E; simplify_eq.
    + right. left. by rewrite app_nil_r.
    + left. by exists k.
  - destruct k as [|z k]; cbn in E; simplify_eq.
    + right. left. by rewrite app_nil_r.
    + right. right. exists k. done.
Qed.

Lemma nodup_mid {A} (l1 l2 : list A) (y : A) : NoDup (l1 ++ y :: l2) -> y ∉ l2.
Proof. rewrite NoDup_app, NoDup_cons. tauto. Qed.

Section Link.
Context (w w' : World H) (L : Layout) (exc : Z -> option State) (b : nat) (l1 l2 r : list Z) (x a : Z) (st : State).
Context (Hs : shape w L exc) (Hb : chains L !! b = Some (l1 ++ a :: l2)) (Hheld : held L = x :: r).
Context (Hq : same_queues w w').
Context (Hx : sits w' x st (Some a) (last l1)).
Context (Hxt : forall h, header_at x w' = Some h -> bucket_of_ttl b (SegHeader.ttl h)).
Context (Hxp : in_pool w' x = in_pool w x).
Context (Hh : forall y, y <> x -> header_at y w' = attach x (Some a) (last l1) y <$> header_at y w).

Definition link_layout : Layout :=
  mkLayout (<[b := l1 ++ x :: a :: l2]> (chains L)) r (waiting L).

Lemma link_fresh : x ∉ l1 ++ a :: l2.
Proof.
  intros Hin. eapply (chain_held _ _ (shape_apart _ _ _ Hs) x); [by eapply chain_in|].
  rewrite Hheld. by left.
Qed.

Lemma link_sits k1 y k2 :
  l1 ++ x :: a :: l2 = k1 ++ y :: k2 ->
  sits w' y (default (rest_state k2) (upd exc x (Some st) y)) (hd_error k2) (last k1).
Proof.
  intros E. pose proof link_fresh as Hf. pose proof (chain_nodup _ _ _ _ _ Hs Hb) as Hn.
  assert (1 <= x <= cap cfg) as Hr.
  { eapply accounted_range; [done|]. unfold accounted. rewrite !elem_of_app, Hheld. right. right. right. left. by left. }
  assert (forall o : option Z, Some (Some x) = Some o -> link_ok o) as Hok.
  { intros o [= <-]. eapply link_ok_in; [done|]. by intros z [= <-]. }
  destruct (split_insert _ _ _ _ _ _ E) as [(k & E1 & ->)|[(-> & -> & ->)|(k & E2 & ->)]].
  - assert (y <> x) as Hyx by (intros ->; apply Hf; rewrite E1, !elem_of_app; left; right; by left).
    pose proof (sh_chain _ _ _ Hs b _ k1 y (k ++ a :: l2) Hb ltac:(by rewrite E1, <- app_assoc)) as Hy.
    unfold upd. rewrite decide_False by done.
    assert (rest_state (k ++ x :: a :: l2) = rest_state (k ++ a :: l2)) as -> by by destruct k.
    destruct k as [|z k].
    + refine (sits_relink w w' y _ _ _ (Some (Some x)) None Hy _ Hok _); [|done].
      rewrite Hh by done. destruct (header_at y w) as [h|]; [|done]. cbn. unfold attach.
      by rewrite decide_True by (rewrite E1; apply last_snoc).
    + eapply sits_ext; [|exact Hy]. rewrite Hh by done.
      destruct (header_at y w) as [h|]; [|done]. cbn. unfold attach.
      assert (y ∉ (z :: k) ++ a :: l2) as Hn'.
      { eapply nodup_mid. rewrite E1 in Hn. by rewrite <- app_assoc in Hn. }
      rewrite !decide_False; [done| |].
      * intros [= ->]. apply Hn'. rewrite elem_of_app. right. by left.
      * rewrite E1, last_app_cons, last_cons_cons. intros El%last_in.
        apply Hn'. rewrite elem_of_app. by left.
  - unfold upd. by rewrite decide_True.
  - destruct k as [|z k]; cbn in E2; simplify_eq.
    + assert (y <> x) as Hyx by (intros ->; apply Hf; rewrite elem_of_app; right; by left).
      pose proof (sh_chain _ _ _ Hs b _ l1 y k2 Hb eq_refl) as Hy.
      unfold upd. rewrite decide_False, last_snoc by done.
      refine (sits_relink w w' y _ _ _ None (Some (Some x)) Hy _ _ Hok); [|done].
      rewrite Hh by done. destruct (header_at y w) as [h|]; [|done]. cbn. unfold attach.
      rewrite decide_False, decide_True; [done..|]. intros El%last_in.
      rewrite NoDup_app in Hn. destruct Hn as (_ & Hd & _). apply (Hd y El). by left.
    + rename z into c.
      assert (y <> x) as Hyx by (intros ->; apply Hf; rewrite elem_of_app, elem_of_cons, elem_of_app; right; right; right; by left).
      pose proof (sh_chain _ _ _ Hs b _ (l1 ++ c :: k) y k2 Hb ltac:(by rewrite <- app_assoc)) as Hy.
      assert (last (l1 ++ x :: c :: k) = last (l1 ++ c :: k)) as -> by by rewrite !last_app_cons, last_cons_cons.
      unfold upd. rewrite decide_False by done.
      eapply sits_ext; [|exact Hy]. rewrite Hh by done. destruct (header_at y w) as [h|]; [|done].
      cbn. unfold attach. rewrite !decide_False; [done| |].
      * intros [= ->]. rewrite NoDup_app, NoDup_cons in Hn. destruct Hn as (_ & _ & Hn & _). apply Hn.
        rewrite elem_of_app. right. by left.
      * intros El%last_in. rewrite NoDup_app in Hn. destruct Hn as (_ & Hd & _). apply (Hd y El).
        rewrite elem_of_cons, elem_of_app. right. right. by left.
Qed.

Lemma shape_link : shape w' link_layout (upd exc x (Some st)).
Proof.
  pose proof link_fresh as Hf.
  eapply (shape_rechain w w' L link_layout exc _ b _ (l1 ++ x :: a :: l2)); try done.
  - cbn [chains held link_layout]. rewrite Hheld.
    assert (mjoin (chains link_layout) ≡ₚ x :: mjoin (chains L)) as E.
    { eapply join_insert_more; [done|]. by rewrite Permutation_middle. }
    cbn [chains link_layout] in E. rewrite E. bring x.
  - intros y Hy Hy'. assert (y <> x) as Hyx.
    { intros ->. apply Hy'. rewrite elem_of_app. right. by left. }
    split; [|unfold upd; by rewrite decide_False].
    rewrite Hh by done. destruct (header_at y w) as [h|]; [|done]. cbn. unfold attach.
    rewrite !decide_False; [done| |].
    + intros [= ->]. apply Hy. rewrite elem_of_app. right. by left.
    + intros El%last_in. apply Hy. rewrite elem_of_app. by left.
  - apply link_sits.
  - intros y h Hy Eh. destruct (decide (y = x)) as [->|]; [auto|]. rewrite Hh in Eh by done.
    destruct (header_at y w) as [h0|] eqn:E0; [|done]. injection Eh as <-.
    destruct (attach_skeleton x (Some a) (last l1) y h0) as (Et & _). unfold skeleton in Et. cbn in Et. rewrite Et.
    eapply (sh_ttl _ _ _ Hs); [done| |done]. rewrite elem_of_app, !elem_of_cons in Hy.
    rewrite elem_of_app, elem_of_cons. naive_solver.
  - intros y. destruct (decide (y = x)) as [->|]; [done|]. unfold in_pool. rewrite Hh by done.
    destruct (header_at y w) as [h0|]; [|done]. cbn. apply (attach_skeleton x (Some a) (last l1) y h0).
  - intros y. rewrite elem_of_app, !elem_of_cons, elem_of_app, elem_of_cons, Hheld, elem_of_cons. tauto.
Qed.
End Link.

(** The seal of a tail: with its successor in place it is not written to any more. *)
Definition sealed_before x (h : SegmentHeader) : SegmentHeader :=
  match unpack (metadata h) with
  | Some m => with_meta (relinked (Some (Some x)) None Sealed m) h
  | None => h
  end.

Section Append.
Context (w w' : World H) (L : Layout) (exc : Z -> option State) (b : nat) (l r : list Z) (x : Z).
Context (Hs : shape w L exc) (Hb : chains L !! b = Some l) (Hheld : held L = x :: r).
Context (Hq : same_queues w w').
Context (Hexc : forall y, last l = Some y -> exc y = None).
Context (Hx : sits w' x Live None (last l)).
Context (Hxt : forall h, header_at x w' = Some h -> bucket_of_ttl b (SegHeader.ttl h)).
Context (Hxp : in_pool w' x = in_pool w x).
Context (Hh : forall y, y <> x ->
  header_at y w' = (if decide (last l = Some y) then sealed_before x else fun h => h) <$> header_at y w).

Lemma append_skeleton y h :
  y <> x -> header_at y w' = Some h ->
  exists h0, header_at y w = Some h0 /\ SegHeader.ttl h = SegHeader.ttl h0 /\
    pool_from_u8 (pool h) = pool_from_u8 (pool h0).
Proof.
  intros Hne. rewrite Hh by done. destruct (header_at y w) as [h0|]; [|done]. intros [= <-].
  exists h0. split; [done|]. case_decide; [|done]. unfold sealed_before. by destruct (unpack _).
Qed.

Lemma append_fresh : x ∉ l.
Proof.
  intros Hin. eapply (chain_held _ _ (shape_apart _ _ _ Hs) x); [by eapply chain_in|].
  rewrite Hheld. by left.
Qed.

Lemma append_sits k1 y k2 :
  l ++ [x] = k1 ++ y :: k2 ->
  sits w' y (default (rest_state k2) (upd exc x None y)) (hd_error k2) (last k1).
Proof.
  intros E. pose proof append_fresh as Hf. pose proof (chain_nodup _ _ _ _ _ Hs Hb) as Hn.
  destruct (split_insert _ _ _ _ _ _ E) as [(k & E1 & ->)|[(-> & -> & ->)|(k & E2 & ->)]].
  - assert (y <> x) as Hyx by (intros ->; apply Hf; rewrite E1, elem_of_app; right; by left).
    unfold upd. rewrite decide_False by done.
    pose proof (sh_chain _ _ _ Hs b l k1 y k Hb E1) as Hy. specialize (Hh y Hyx).
    destruct k as [|z k].
    + assert (last l = Some y) as El by (rewrite E1; apply last_snoc).
      rewrite decide_True in Hh by done. rewrite (Hexc _ El) in *. cbn in Hy |- *.
      destruct Hy as (h & m & Eh & Em & Est & Enx & Epv). rewrite Eh in Hh.
      eexists _, (relinked (Some (Some x)) None Sealed m). split; [exact Hh|]. cbn. split; [|done].
      unfold sealed_before. rewrite Em. apply unpack_with_meta, relinked_ok; [by eapply unpack_ok| |done].
      intros o [= <-]. eapply link_ok_in; [done|]. intros z [= <-]. eapply accounted_range; [done|].
      unfold accounted. rewrite !elem_of_app, Hheld. right. right. right. left. by left.
    + rewrite decide_False in Hh.
      * eapply sits_ext; [|exact Hy]. rewrite Hh. by destruct (header_at y w).
      * rewrite E1, last_app_cons, last_cons_cons. intros El%last_in.
        rewrite E1 in Hn. by apply nodup_mid in Hn.
  - unfold upd. by rewrite decide_True.
  - by destruct k.
Qed.

Lemma shape_append : shape w' (mkLayout (<[b := l ++ [x]]> (chains L)) r (waiting L)) (upd exc x None).
Proof.
  pose proof append_fresh as Hf.
  eapply (shape_rechain w w' L _ exc _ b _ (l ++ [x])); try done.
  - cbn [chains held]. rewrite Hheld.
    rewrite (join_insert_more (chains L) b l (l ++ [x]) x Hb) by (by rewrite Permutation_app_comm). bring x.
  - intros y Hy Hy'. assert (y <> x) as Hyx.
    { intros ->. apply Hy'. rewrite elem_of_app. right. by left. }
    split; [|unfold upd; by rewrite decide_False].
    rewrite Hh by done. rewrite decide_False; [by destruct (header_at y w)|]. by intros El%last_in.
  - apply append_sits.
  - intros y h Hy Eh. destruct (decide (y = x)) as [->|Hne]; [auto|].
    destruct (append_skeleton y h Hne Eh) as (h0 & E0 & -> & _).
    eapply (sh_ttl _ _ _ Hs); [done| |done]. rewrite elem_of_app, list_elem_of_singleton in Hy. tauto.
  - intros y. destruct (decide (y = x)) as [->|]; [done|]. unfold in_pool.
    destruct (header_at y w') as [h|] eqn:Eh.
    + destruct (append_skeleton y h) as (h0 & -> & _ & E); [done..|]. cbn. done.
    + rewrite Hh in Eh by done. by destruct (header_at y w).
  - intros y. rewrite elem_of_app, list_elem_of_singleton, Hheld, elem_of_cons. tauto.
Qed.
End Append.

(** ** Leaving the admission pool *)

Lemma filter_drop_one {A} `{EqDecision A} (p q : A -> bool) (l : list A) (a : A) :
  NoDup l -> a ∈ l -> p a = true -> q a = false -> (forall b, b <> a -> q b = p b) ->
  length (List.filter p l) = S (length (List.filter q l)).
Proof.
  intros Hn Ha Hp Hq Hpq. induction l as [|b l IH]; [by apply not_elem_of_nil in Ha|].
  apply NoDup_cons in Hn as [Hb Hn]. cbn. destruct (decide (b = a)) as [->|Hne].
  - rewrite Hp, Hq. cbn. f_equal. f_equal. apply List.filter_ext_in. intros c Hc. symmetry. apply Hpq.
    intros ->. apply Hb. by apply list_elem_of_In.
  - rewrite Hpq by done. apply elem_of_cons in Ha as [->|Ha]; [done|].
    destruct (p b); cbn; by rewrite IH.
Qed.

Definition out_of_pool x w : World H :=
  edit x (with_pool (pool_as_u8 Main))
    (if bool_decide (in_pool w x = Admission) then set_admission_count (u32 (admission_count w - 1)) w else w).

Lemma header_out_of_pool x w y :
  header_at y (out_of_pool x w) = if decide (y = x) then with_pool (pool_as_u8 Main) <$> header_at y w else header_at y w.
Proof. unfold out_of_pool. rewrite header_edit. by case_bool_decide. Qed.

Lemma in_pool_out x w y :
  in_pool (out_of_pool x w) y = if decide (y = x) then Main else in_pool w y.
Proof.
  unfold in_pool. rewrite header_out_of_pool. case_decide; [|done]. by destruct (header_at y w).
Qed.

Lemma admitted_out x w L exc :
  shape w L exc -> in_pool w x = Admission ->
  Z.of_nat (length (admitted w)) = Z.of_nat (length (admitted (out_of_pool x w))) + 1 /\
  1 <= x <= cap cfg.
Proof.
  intros Hs Hx. assert (1 <= x <= cap cfg) as Hr.
  { pose proof (sh_pool _ _ _ Hs x Hx) as Hin. eapply accounted_range; [done|].
    unfold accounted. rewrite elem_of_app in Hin. rewrite !elem_of_app. tauto. }
  split; [|done]. unfold admitted.
  rewrite (filter_drop_one _ (fun y => bool_decide (in_pool (out_of_pool x w) y = Admission)) _ x); [lia|..].
  - apply NoDup_seqZ.
  - apply in_ids. lia.
  - by apply bool_decide_eq_true_2.
  - apply bool_decide_eq_false_2. rewrite in_pool_out. by rewrite decide_True.
  - intros y Hy. apply bool_decide_ext. by rewrite in_pool_out, decide_False.
Qed.

Lemma shape_out_of_pool x w L exc :
  shape w L exc -> shape (out_of_pool x w) L exc /\ (in_pool w x = Admission -> 0 < admission_count w).
Proof.
  intros Hs. split.
  2:{ intros Hx. destruct (admitted_out _ _ _ _ Hs Hx). rewrite (sh_admitted _ _ _ Hs). lia. }
  assert (forall y st nx pv, sits w y st nx pv -> sits (out_of_pool x w) y st nx pv) as Hsits.
  { intros y st nx pv (h & m & Eh & Em & ?). unfold sits. rewrite header_out_of_pool. case_decide; [|by exists h, m].
    exists (with_pool (pool_as_u8 Main) h), m. rewrite Eh. done. }
  assert (forall y h, header_at y (out_of_pool x w) = Some h ->
    exists h0, header_at y w = Some h0 /\ SegHeader.ttl h = SegHeader.ttl h0 /\ ref_count h = ref_count h0) as Hold.
  { intros y h. rewrite header_out_of_pool. case_decide; [|eauto].
    destruct (header_at y w) as [h0|]; [|done]. intros [= <-]. by exists h0. }
  assert (free_queue (out_of_pool x w) = free_queue w /\ spare_queue (out_of_pool x w) = spare_queue w /\
    spare_count (out_of_pool x w) = spare_count w /\ datas (out_of_pool x w) = datas w) as (E1 & E2 & E3 & E4).
  { unfold out_of_pool. by case_bool_decide. }
  pose proof Hs as Hs0. destruct Hs. split; try done.
  - rewrite E4. split; [|apply sh_len0]. unfold out_of_pool. rewrite length_edit. case_bool_decide; apply sh_len0.
  - unfold accounted. by rewrite E1, E2.
  - rewrite E1, E2. auto.
  - intros b l l1 y l2 Hb E. eauto.
  - intros b l y h Hb Hy (h0 & ? & -> & _)%Hold. eauto.
  - intros y Hy. destruct (sh_waiting0 y Hy) as [? Hp]. split; [auto|]. unfold pinned in *.
    destruct (header_at y (out_of_pool x w)) as [h|] eqn:Eh.
    + destruct (Hold _ _ Eh) as (h0 & E & _ & ->). by rewrite E in Hp.
    + rewrite header_out_of_pool in Eh. case_decide; destruct (header_at y w); done.
  - intros y. rewrite in_pool_out. case_decide; [done|auto].
  - destruct (decide (in_pool w x = Admission)) as [Hx|Hx].
    + destruct (admitted_out _ _ _ _ Hs0 Hx) as [E Hr].
      assert (admission_count (out_of_pool x w) = u32 (admission_count w - 1)) as ->.
      { unfold out_of_pool. by rewrite bool_decide_eq_true_2. }
      rewrite sh_admitted0, E.
      assert (length (admitted w) <= Z.to_nat (cap cfg))%nat as Hle.
      { unfold admitted. rewrite <- (length_seqZ 1 (cap cfg)). apply List.filter_length_le. }
      change Location.MAX_SEGMENTS with 262142 in *.
      rewrite Z.add_simpl_r. apply wrap_id. unfold fits. lia.
    + assert (admission_count (out_of_pool x w) = admission_count w) as ->.
      { unfold out_of_pool. by rewrite bool_decide_eq_false_2. }
      rewrite sh_admitted0. do 2 f_equal. symmetry. apply admitted_ext. intros y.
      rewrite in_pool_out. case_decide; [|done].
      subst. by destruct (in_pool w x).
  - by rewrite E2, E3.
Qed.
End Shape.
