(* ===== verification/HeapContents.v ===== *)
(** * The contents of the heap

    [contents w es]: segment [x] holds the items [es x], its counters are those
    of the items that are published, and everything the hashtable publishes is
    an item of the present incarnation of some segment. The counters are exact:
    run by one thread, no unlink is left unaccounted. *)
From S2P Require Import Prelude Packing Atomics HashIface KvItem KvItemSpec SegState SegHeader SegHeaderSpec Segment SegmentSpec.
From S2P Require Import Segments HeapRules HeapShape.

Section Contents.
Context (integrity debug_assertions : bool).
Context {H : Type} `{LH : LawfulHashtable H} (cfg : Config).
Implicit Types (w : World H) (t : H) (hd : SegmentHeader) (x : Z) (es : Z -> list Entry).

Abbreviation first := (first_offset integrity).

(** The locations of the incarnation of the segment with header [hd]. *)
Definition here_hd hd (l : Z) : bool := here (mkSegment hd []) l.

(** The parts of a header the items depend on. *)
Definition counters hd : Z * Z * Z * Z * Z * Z * Z :=
  (id hd, generation hd, write_offset hd, live_items hd, live_bytes hd, dead_items hd, dead_bytes hd).

Lemma here_hd_counters hd hd' l : counters hd' = counters hd -> here_hd hd' l = here_hd hd l.
Proof. destruct hd, hd'. unfold counters. cbn. intros. by simplify_eq. Qed.

Lemma seg_ok_counters t hd hd' d (es : list Entry) di db :
  counters hd' = counters hd ->
  seg_ok integrity t (mkSegment hd d) es di db -> seg_ok integrity t (mkSegment hd' d) es di db.
Proof.
  destruct hd, hd'. unfold counters. cbn. intros E Hs. simplify_eq. destruct Hs. split; done.
Qed.

(** *** Segments without items *)

Definition no_items hd : Prop :=
  write_offset hd = first /\ live_items hd = 0 /\ live_bytes hd = first /\
  i32_range (dead_items hd) /\ i32_range (dead_bytes hd).

Lemma seg_ok_no_items t s : seg_ok integrity t s [] 0 0 -> no_items (header s).
Proof.
  intros Hs. destruct (ok_end _ _ _ _ _ _ Hs) as [E _], (ok_items _ _ _ _ _ _ Hs) as [E1 _],
    (ok_size _ _ _ _ _ _ Hs) as [E2 _], (ok_dead _ _ _ _ _ _ Hs).
  unfold end_of, live_count, live_size in *. cbn [places total] in *.
  split_and!; try done; lia.
Qed.

(** Another header over the same bytes, when nothing is published here. *)
Lemma seg_ok_restart t t' hd hd' d :
  seg_ok integrity t (mkSegment hd d) [] 0 0 -> no_items hd' -> id hd' = id hd -> fits 16 (generation hd') ->
  (forall k l, here_hd hd' l = true -> get_item_frequency t' k l = None) ->
  seg_ok integrity t' (mkSegment hd' d) [] 0 0.
Proof.
  intros [X1 X2 X3 X4 X5 X6 X7 X8 X9 X10 X11 X12] (N1 & N2 & N3 & N4 & N5) Ei Eg Hn. cbn in *.
  split; cbn; try done.
  - by rewrite Ei.
  - rewrite N1. unfold end_of in *. cbn [total] in *. lia.
  - intros _. specialize (X8 eq_refl). cbv zeta in X8. unfold item_at in X8. cbn [data] in X8.
    unfold item_at. cbn [data]. destruct (klen integrity (drop (Z.to_nat first) d) =? 0); done.
  - intros k l f Hf Hl. unfold here_hd, here in *. cbn [header] in *. rewrite Hn in Hf; done.
  - lia.
Qed.

(** What [clear] leaves. *)
Lemma seg_ok_cleared t t' s s' (es : list Entry) :
  seg_ok integrity t s es 0 0 -> data s' = data s -> id (header s') = id (header s) ->
  generation (header s') = generation (header s) ->
  no_items (header s') ->
  (forall k l, get_item_frequency t' k l = if here s l then None else get_item_frequency t k l) ->
  seg_ok integrity t' s' [] 0 0.
Proof.
  intros Hs Ed Ei Eg (N1 & N2 & N3 & N4 & N5) Hg.
  assert (forall e l, es = e :: l -> reads integrity s (first, e)) as Hfirst.
  { intros e l ->. eapply place_reads; [done|]. by left. }
  pose proof (ok_residue _ _ _ _ _ _ Hs) as Hres.
  destruct Hs as [X1 X2 X3 X4 X5 X6 X7 X8 X9 X10 X11 X12].
  split; rewrite ?Ed, ?Ei, ?Eg; try done.
  - unfold check_magic, magic in *. by rewrite Ed.
  - rewrite N1. unfold end_of. cbn [total]. split; [lia|].
    assert (0 <= ITEM_HDR_SIZE integrity) by (unfold ITEM_HDR_SIZE; destruct integrity; lia). lia.
  - intros _. unfold item_at. rewrite Ed. destruct es as [|e l].
    + specialize (Hres eq_refl). cbv zeta in Hres. unfold item_at in Hres.
      destruct (klen integrity (drop (Z.to_nat first) (data s)) =? 0); done.
    + destruct (Hfirst e l eq_refl) as [_ R2 _ R4 _ _ _]. cbn [fst] in R2, R4. unfold item_at in R2, R4.
      by rewrite R2.
  - intros k l f Hf Hl. rewrite Hg in Hf. unfold here in Hf, Hl. rewrite Ei, Eg in Hl. by rewrite Hl in Hf.
  - unfold live_size. cbn [places total]. lia.
Qed.

(** ** The whole heap *)

Definition segment_at w x : option Segment :=
  h ← header_at x w; d ← datas w !! idx x; Some (mkSegment h d).

Definition holds_items w x (es : list Entry) : Prop :=
  exists h d, header_at x w = Some h /\ datas w !! idx x = Some d /\
    id h = x /\ blen d = segment_size cfg /\
    seg_ok integrity (hashtable w) (mkSegment h d) es 0 0.

Record contents w es : Prop := {
  c_index : ht_inv (hashtable w);
  c_items x : 1 <= x <= cap cfg -> holds_items w x (es x);
  c_covered k l f : get_item_frequency (hashtable w) k l = Some f ->
    exists x h, 1 <= x <= cap cfg /\ header_at x w = Some h /\ here_hd h l = true
}.

Definition upd_es x (e : list Entry) es : Z -> list Entry := fun y => if decide (y = x) then e else es y.

Lemma here_id hd l : here_hd hd l = true -> (Location.unpack_location l).1 = id hd.
Proof. unfold here_hd, here. cbn [header]. by intros [?%Z.eqb_eq _]%andb_true_iff. Qed.

(** Nothing is published in a segment without items, whatever its generation. *)
Lemma nothing_here w es x k l :
  contents w es -> 1 <= x <= cap cfg -> es x = [] -> (Location.unpack_location l).1 = x ->
  get_item_frequency (hashtable w) k l = None.
Proof.
  intros Hc Hx E El. destruct (get_item_frequency _ _ _) as [f|] eqn:Ef; [|done]. exfalso.
  destruct (c_covered _ _ Hc _ _ _ Ef) as (y & h & Hy & Eh & Hh).
  destruct (c_items _ _ Hc y Hy) as (h' & d & Eh' & _ & Ei & _ & Hs). simplify_eq.
  pose proof (here_id _ _ Hh) as El'. rewrite El' in E.
  destruct (ok_published _ _ _ _ _ _ Hs _ _ _ Ef Hh) as (p & Hp & _). rewrite E in Hp.
  by apply not_elem_of_nil in Hp.
Qed.

Lemma contents_ext w w' es :
  contents w es -> hashtable w' = hashtable w -> datas w' = datas w ->
  (forall x, header_at x w' = header_at x w) -> contents w' es.
Proof.
  intros [C1 C2 C3] E1 E2 E3. split.
  - by rewrite E1.
  - intros x Hx. destruct (C2 x Hx) as (h & d & ? & ? & ? & ? & ?). exists h, d.
    by rewrite E1, E2, E3.
  - intros k l f. rewrite E1. intros Hf. destruct (C3 _ _ _ Hf) as (x & h & ? & ? & ?).
    exists x, h. by rewrite E3.
Qed.

(** Changes of headers that the items do not depend on. *)
Lemma contents_headers w w' es :
  contents w es -> hashtable w' = hashtable w -> datas w' = datas w ->
  (forall x, counters <$> header_at x w' = counters <$> header_at x w) -> contents w' es.
Proof.
  intros [C1 C2 C3] E1 E2 E3.
  assert (forall x h, header_at x w = Some h -> exists h', header_at x w' = Some h' /\ counters h' = counters h) as Hx.
  { intros x h E. specialize (E3 x). rewrite E in E3. destruct (header_at x w'); [|done].
    apply (inj Some) in E3. eauto. }
  split.
  - by rewrite E1.
  - intros x Hr. destruct (C2 x Hr) as (h & d & Eh & Ed & Ei & ? & Hs).
    destruct (Hx _ _ Eh) as (h' & Eh' & Ec). exists h', d. rewrite E1, E2.
    split_and!; try done; [unfold counters in Ec; congruence|by eapply seg_ok_counters].
  - intros k l f. rewrite E1. intros Hf. destruct (C3 _ _ _ Hf) as (x & h & Hr & Eh & Hl).
    destruct (Hx _ _ Eh) as (h' & Eh' & Ec). exists x, h'. split; [done|]. split; [done|].
    by rewrite (here_hd_counters _ _ _ Ec).
Qed.

Lemma contents_edit w es x f :
  contents w es -> (forall h, header_at x w = Some h -> counters (f h) = counters h) ->
  contents (edit x f w) es.
Proof.
  intros Hc Hf. eapply contents_headers; try done. intros y. rewrite header_edit. case_decide; [|done].
  subst. destruct (header_at x w) as [h|]; [|done]. cbn. by rewrite Hf.
Qed.

(** A segment without items may start over under another generation. *)
Lemma contents_restart w es x f :
  contents w es -> 1 <= x <= cap cfg -> es x = [] ->
  (forall h, header_at x w = Some h -> no_items h -> fits 16 (generation h) ->
     id (f h) = id h /\ no_items (f h) /\ fits 16 (generation (f h))) ->
  contents (edit x f w) es.
Proof.
  intros Hc Hx E Hf. pose proof Hc as [C1 C2 C3]. split; [done| |].
  - intros y Hy. destruct (decide (y = x)) as [->|Hne].
    + destruct (C2 x Hy) as (h & d & Eh & Ed & Ei & Hd & Hs). rewrite E in *.
      pose proof (ok_generation _ _ _ _ _ _ Hs) as Hg.
      destruct (Hf h Eh (seg_ok_no_items _ _ Hs) Hg) as (F1 & F2 & F3).
      exists (f h), d. rewrite header_edit, decide_True, Eh by done.
      split; [done|]. split; [done|]. split; [congruence|]. split; [done|].
      eapply seg_ok_restart; try done. intros k l Hl.
      refine (nothing_here w es x k l Hc Hx E _). rewrite (here_id _ _ Hl). congruence.
    + destruct (C2 y Hy) as (h & d & Eh & ?). exists h, d. by rewrite header_edit, decide_False.
  - intros k l fr Hf'. destruct (C3 _ _ _ Hf') as (y & h & Hy & Eh & Hl).
    assert (y <> x).
    { intros ->. destruct (C2 x Hx) as (h' & d & Eh' & _ & Ei & _). rewrite Eh in Eh'. injection Eh' as <-.
      pose proof (nothing_here w es x k l Hc Hx E) as Hn. rewrite (here_id _ _ Hl) in Hn.
      change (hashtable (edit x f w)) with (hashtable w) in Hf'. rewrite Hn in Hf'; done. }
    exists y, h. rewrite header_edit, decide_False by done. done.
Qed.

(** ** Clearing a claimed segment *)

(** What [clear] leaves of the header. *)
Definition cleared_header hd hd' : Prop :=
  skeleton hd' = skeleton hd /\ id hd' = id hd /\ generation hd' = generation hd /\
  (active_writers hd', active_removers hd', ref_count hd', create_at hd', merge_at hd') =
  (active_writers hd, active_removers hd, ref_count hd, create_at hd, merge_at hd) /\ no_items hd'.

Lemma view_some w x (es : list Entry) :
  holds_items w x es -> 1 <= x ->
  exists h d, header_at x w = Some h /\ datas w !! idx x = Some d /\ id h = x /\
    seg_ok integrity (hashtable w) (mkSegment h d) es 0 0 /\
    view integrity x w = Some (Some (mkSegment h d), w).
Proof.
  intros (h & d & Eh & Ed & Ei & _ & Hs) Hx. exists h, d. do 4 (split; [done|]).
  unfold view. unfold header_at in Eh. destruct (x <=? 0); [done|]. rewrite Eh, Ed.
  pose proof (ok_magic _ _ _ _ _ _ Hs) as ->. done.
Qed.

Lemma put_back_edit w x h d s :
  header_at x w = Some h -> datas w !! idx x = Some d -> data s = d ->
  set_datas (<[idx x := data s]> (datas w)) (set_headers (<[idx x := header s]> (headers w)) w) =
  edit x (fun _ => header s) w.
Proof.
  intros Eh Ed <-. rewrite <- (put_edit x (fun _ => header s) h w Eh).
  unfold put, set_datas, set_headers. cbn. by rewrite (list_insert_id (datas w)) by done.
Qed.

Lemma counters_only_rest hd hd1 v :
  counters_only hd hd1 ->
  let hd' := with_write_offset v hd1 in
  skeleton hd' = skeleton hd /\ id hd' = id hd /\ generation hd' = generation hd /\
  (active_writers hd', active_removers hd', ref_count hd', create_at hd', merge_at hd') =
  (active_writers hd, active_removers hd, ref_count hd, create_at hd, merge_at hd).
Proof.
  unfold counters_only. generalize (live_items hd1) (live_bytes hd1) (dead_items hd1) (dead_bytes hd1).
  intros ? ? ? ? ->. done.
Qed.

Lemma wp_clear_in_place w es x m hd Q :
  contents w es -> 1 <= x <= cap cfg -> header_at x w = Some hd ->
  unpack (metadata hd) = Some m -> state m = Draining ->
  (forall hd' t', cleared_header hd hd' ->
    (forall k l, get_item_frequency t' k l =
       if here_hd hd l then None else get_item_frequency (hashtable w) k l) ->
    let w' := set_hashtable t' (edit x (fun _ => hd') w) in
    contents w' (upd_es x [] es) -> Q tt w') ->
  wp (clear_in_place integrity debug_assertions x) Q w.
Proof.
  intros Hc Hx Eh Em Est HQ.
  destruct (view_some _ _ _ (c_items _ _ Hc x Hx) ltac:(lia)) as (h & d & Eh' & Ed & Ei & Hs & Ev).
  rewrite Eh in Eh'. injection Eh' as <-.
  destruct (clear_effect integrity debug_assertions (hashtable w) (mkSegment hd d) (es x) 0 0 Hs (c_index _ _ Hc))
    as (s' & t' & Ecl & Hi & Hg & Hd & Hli & Hlb & Hwo & Hdc & hd' & Hco & Hhd).
  { exists m. done. }
  unfold clear_in_place. apply wp_bind. eapply wp_intro; [exact Ev|].
  apply wp_bind, (wp_lift _ _ _ _ eq_refl). apply wp_bind, wp_gets.
  apply wp_bind. eapply wp_lift; [exact Ecl|]. cbv beta iota.
  apply wp_bind, wp_modify. unfold put_hashtable. apply wp_modify.
  rewrite (put_back_edit w x hd d s') by done.
  assert (cleared_header hd (header s')) as Hch.
  { destruct (counters_only_rest _ _ (live_bytes hd') Hco) as (? & ? & ? & ?). rewrite <- Hhd in *.
    do 4 (split; [done|]). unfold no_items. rewrite Hli, Hlb, Hwo, Z.add_0_r. do 3 (split; [done|]).
    destruct Hdc as [-> ->]. split; apply i32_in_range. }
  apply HQ; [done|exact Hg|]. split.
  - exact Hi.
  - intros y Hy. unfold upd_es. case_decide as D.
    + subst y. exists (header s'), d. unfold holds_items.
      change (header_at x (set_hashtable t' (edit x (λ _, header s') w))) with (header_at x (edit x (λ _, header s') w)).
      rewrite header_edit, decide_True, Eh by done. split; [done|]. split; [done|].
      destruct Hch as (_ & Ei' & Eg' & _ & Hn).
      destruct (c_items _ _ Hc x Hx) as (? & ? & ? & ? & ? & ? & _). simplify_eq.
      split; [by rewrite Ei'|]. split; [done|]. 
      eapply seg_ok_cleared; [exact Hs|..]; done.
    + destruct (c_items _ _ Hc y Hy) as (h & d' & Eh' & Ed' & Ei' & Hb' & Hs').
      exists h, d'.
      change (header_at y (set_hashtable t' (edit x (λ _, header s') w))) with (header_at y (edit x (λ _, header s') w)).
      rewrite header_edit, decide_False by done. do 4 (split; [done|]).
      eapply seg_ok_elsewhere; [exact Hs'|]. intros k l Hl. cbn. rewrite Hg.
      assert (here (mkSegment hd d) l = false) as ->; [|done].
      apply not_true_is_false. intros Hl'. apply D.
      pose proof (here_id _ _ Hl) as E1. pose proof (here_id _ _ Hl') as E2. cbn in E1, E2. congruence.
  - intros k l f. cbn. rewrite Hg. destruct (here (mkSegment hd d) l) eqn:El; [done|]. intros Hf.
    destruct (c_covered _ _ Hc _ _ _ Hf) as (y & h & Hy & Eh' & Hl). exists y.
    assert (y <> x) as Hne. { intros ->. rewrite Eh in Eh'. injection Eh' as <-. assert (true = false); [rewrite <- Hl; exact El|done]. }
    exists h.
    change (header_at y (set_hashtable t' (edit x (λ _, header s') w))) with (header_at y (edit x (λ _, header s') w)).
    by rewrite header_edit, decide_False.
Qed.
End Contents.
