(* ===== verification/HeapDrain.v ===== *)
(** * Draining segments

    What the operations that take a segment out of its chain do to the heap:
    [unlink], [recycle], [condemn], [finalize_drained], [clear_segment], the
    dropping policies of [evict], and [drain_chain] with expiry. *)
From S2P Require Import Prelude Packing Atomics HashIface TtlBuckets Eviction KvItem KvItemSpec SegState SegHeader SegHeaderSpec.
From S2P Require Import Segment SegmentSpec Segments HeapRules HeapShape HeapContents.

(** ** Frames *)

(** A header without its word. *)
Definition erase (h : SegmentHeader) : SegmentHeader := with_metadata 0 h.

Definition pins (h : SegmentHeader) : Z * Z * Z := (ref_count h, active_writers h, active_removers h).

Section Frames.
Context {H : Type}.
Implicit Types (w : World H) (x : Z).

(** Only header words differ. *)
Definition only_links w w' : Prop :=
  (exists hs, w' = set_headers hs w /\ length hs = length (headers w)) /\
  forall y, erase <$> header_at y w' = erase <$> header_at y w.

(** The headers but for that of [x], their words apart, and what the segments
    share but for the queues and the hashtable. *)
Record calm x w w' : Prop := {
  calm_header y : y <> x -> erase <$> header_at y w' = erase <$> header_at y w;
  calm_pins y : pins <$> header_at y w' = pins <$> header_at y w;
  calm_rest : buckets w' = buckets w /\ evict w' = evict w /\ last_expired w' = last_expired w /\
    evicts_started w' = evicts_started w /\ evicts_finished w' = evicts_finished w
}.

#[export] Instance calm_preorder x : PreOrder (calm x).
Proof.
  split; [by split|]. intros w1 w2 w3 [A1 A2 A3] [B1 B2 B3]. split.
  - intros y Hy. by rewrite B1, A1.
  - intros y. by rewrite B2, A2.
  - naive_solver congruence.
Qed.

Lemma erase_pins h h' : erase h' = erase h -> pins h' = pins h.
Proof. intros E. change (pins (erase h') = pins (erase h)). by rewrite E. Qed.

Lemma only_links_calm x w w' : only_links w w' -> calm x w w'.
Proof.
  intros [(hs & -> & _) E]. split; [auto| |done].
  intros y. specialize (E y). destruct (header_at y (set_headers hs w)), (header_at y w); try done.
  apply (inj Some) in E. cbn. f_equal. by apply erase_pins.
Qed.

Lemma unpinned_calm x w w' : calm x w w' -> unpinned w -> unpinned w'.
Proof.
  intros [_ E _] Hu y h Eh. specialize (E y). rewrite Eh in E.
  destruct (header_at y w) as [h0|] eqn:E0; [|done]. apply (inj Some) in E.
  destruct (Hu y h0 E0). unfold pins in E. by injection E as _ -> ->.
Qed.

Lemma pinned_calm x w w' y : calm x w w' -> pinned w' y = pinned w y.
Proof.
  intros [_ E _]. specialize (E y). unfold pinned.
  destruct (header_at y w'), (header_at y w); try done.
  apply (inj Some) in E. unfold pins in E. by injection E as -> _ _.
Qed.

Lemma erase_relink nx pv h : erase (relink_with nx pv h) = erase h.
Proof. unfold relink_with. by destruct (unpack _). Qed.

Lemma only_links_edit x f w :
  (forall h, header_at x w = Some h -> erase (f h) = erase h) -> only_links w (edit x f w).
Proof.
  intros Hf. split.
  - eexists. split; [done|]. destruct (x <=? 0); [done|]. apply length_alter.
  - intros y. rewrite header_edit. case_decide; [|done]. subst.
    destruct (header_at x w) as [h|]; [|done]. cbn. by rewrite Hf.
Qed.

#[export] Instance only_links_trans : Transitive only_links.
Proof.
  intros w1 w2 w3 [(hs & -> & L1) E1] [(hs' & -> & L2) E2]. split.
  - exists hs'. split; [done|]. rewrite L2. done.
  - intros y. by rewrite E2, E1.
Qed.

Lemma only_links_queues w w' : only_links w w' -> same_queues w w'.
Proof. intros [(hs & -> & E) _]. by unfold same_queues. Qed.

Lemma only_links_edit_opt o nx pv w : only_links w (edit_opt o (relink_with nx pv) w).
Proof.
  destruct o as [x|]; cbn [edit_opt].
  - apply only_links_edit. intros h _. apply erase_relink.
  - split; [|done]. exists (headers w). by destruct w.
Qed.
End Frames.

Section Drain.
Context (integrity debug_assertions : bool).
Context {H : Type} `{LH : LawfulHashtable H} (cfg : Config).
Implicit Types (w : World H) (x : Z) (L : Layout) (exc : Z -> option State) (es : Z -> list Entry).

Abbreviation shape := (shape cfg).
Abbreviation contents := (contents integrity cfg).

Lemma only_links_contents w w' es : only_links w w' -> contents w es -> contents w' es.
Proof.
  intros [(hs & -> & _) E] Hc. eapply contents_headers; try done. intros y. specialize (E y).
  destruct (header_at y (set_headers hs w)) as [h'|], (header_at y w) as [h|]; try done.
  apply (inj Some) in E. cbn. f_equal. change (counters (erase h') = counters (erase h)). by rewrite E.
Qed.

(** ** [unlink] *)

Lemma wp_edit_links w x nx pv h m (Q : unit -> World H -> Prop) :
  header_at x w = Some h -> unpack (metadata h) = Some m ->
  Q tt (edit_opt (Some x) (relink_with nx pv) w) -> wp (on x (update_links nx pv)) Q w.
Proof. intros. by eapply wp_update_links. Qed.

Lemma wp_set_prev_seg w x o h m (Q : unit -> World H -> Prop) :
  header_at x w = Some h -> unpack (metadata h) = Some m ->
  Q tt (edit_opt (Some x) (relink_with None (Some o)) w) -> wp (on x (set_prev_seg o)) Q w.
Proof. exact (wp_edit_links w x None (Some o) h m Q). Qed.

Lemma wp_set_next_seg w x o h m (Q : unit -> World H -> Prop) :
  header_at x w = Some h -> unpack (metadata h) = Some m ->
  Q tt (edit_opt (Some x) (relink_with (Some o) None) w) -> wp (on x (set_next_seg o)) Q w.
Proof. exact (wp_edit_links w x (Some o) None h m Q). Qed.

Lemma wp_next_seg w x h m (Q : option Z -> World H -> Prop) :
  header_at x w = Some h -> unpack (metadata h) = Some m -> Q (next m) w -> wp (on x next_seg) Q w.
Proof. intros. eapply wp_look; [done|by apply run_next_seg|done]. Qed.

Lemma wp_prev_seg w x h m (Q : option Z -> World H -> Prop) :
  header_at x w = Some h -> unpack (metadata h) = Some m -> Q (prev m) w -> wp (on x prev_seg) Q w.
Proof. intros. eapply wp_look; [done|by apply run_prev_seg|done]. Qed.

(** A segment of a chain and its neighbours. *)
Section Neighbours.
Context (w : World H) (L : Layout) (exc : Z -> option State) (b : nat) (l1 l2 : list Z) (x : Z).
Context (Hs : shape w L exc) (Hb : chains L !! b = Some (l1 ++ x :: l2)).

Lemma neighbours_distinct :
  hd_error l2 <> Some x /\ last l1 <> Some x /\
  forall y, hd_error l2 = Some y -> last l1 <> Some y.
Proof.
  pose proof (chain_nodup _ _ _ _ _ _ Hs Hb) as Hn. rewrite NoDup_app, NoDup_cons in Hn.
  destruct Hn as (_ & Hd & Hx & _). split; [by intros ?%head_in|]. split.
  - intros E%last_in. apply (Hd x E). by left.
  - intros y E%head_in E'%last_in. apply (Hd y E'). by right.
Qed.

Lemma neighbour_header y :
  hd_error l2 = Some y \/ last l1 = Some y ->
  exists h m, header_at y w = Some h /\ unpack (metadata h) = Some m.
Proof.
  intros Hy. eapply chain_header; [done|done|].
  rewrite elem_of_app, elem_of_cons. destruct Hy as [?%head_in|?%last_in]; auto.
Qed.

(** The two relinks in either order. *)
Definition spliced : World H :=
  edit_opt (last l1) (relink_with (Some (hd_error l2)) None)
    (edit_opt (hd_error l2) (relink_with None (Some (last l1))) w).

Definition spliced' : World H :=
  edit_opt (hd_error l2) (relink_with None (Some (last l1)))
    (edit_opt (last l1) (relink_with (Some (hd_error l2)) None) w).

Lemma header_spliced y :
  header_at y spliced = splice (hd_error l2) (last l1) y <$> header_at y w /\
  header_at y spliced' = splice (hd_error l2) (last l1) y <$> header_at y w.
Proof.
  destruct neighbours_distinct as (_ & _ & Hd). specialize (Hd y).
  unfold spliced, spliced'. rewrite !header_edit_opt. unfold splice.
  repeat case_decide; try (exfalso; by apply Hd); split; try done; by destruct (header_at y w).
Qed.

Lemma spliced_links : only_links w spliced /\ only_links w spliced'.
Proof. split; eapply transitivity; apply only_links_edit_opt. Qed.

Lemma wp_unlink (Q : unit -> World H -> Prop) : Q tt spliced -> wp (unlink x) Q w.
Proof.
  intros HQ. destruct neighbours_distinct as (Hx1 & Hx2 & Hd).
  destruct (sh_chain _ _ _ _ Hs _ _ _ _ _ Hb eq_refl) as (h & m & Eh & Em & _ & Enx & Epv).
  unfold unlink. apply wp_bind. eapply wp_next_seg; [done..|]. rewrite Enx.
  assert (forall w1, header_at x w1 = Some h ->
    (forall p, last l1 = Some p -> exists hp mp, header_at p w1 = Some hp /\ unpack (metadata hp) = Some mp) ->
    Q tt (edit_opt (last l1) (relink_with (Some (hd_error l2)) None) w1) ->
    wp (prev ← on x prev_seg;
        match prev with
        | Some p => next ← on x next_seg; on p (set_next_seg next)
        | None => mret tt
        end) Q w1) as Hrest.
  { intros w1 Eh1 Hp HQ1. apply wp_bind. eapply wp_prev_seg; [done..|]. rewrite Epv.
    destruct (last l1) as [p|] eqn:El; [|exact HQ1].
    apply wp_bind. eapply wp_next_seg; [done..|]. rewrite Enx.
    destruct (Hp p eq_refl) as (hp & mp & Ehp & Emp). exact (wp_set_next_seg _ _ _ _ _ _ Ehp Emp HQ1). }
  apply wp_bind. unfold spliced in HQ. destruct (hd_error l2) as [n|] eqn:En.
  - apply wp_bind. eapply wp_prev_seg; [done..|]. rewrite Epv.
    destruct (neighbour_header n ltac:(auto)) as (hn & mn & Ehn & Emn).
    eapply wp_set_prev_seg; [exact Ehn|exact Emn|]. apply Hrest; [|intros p Ep|exact HQ].
    + rewrite header_edit_opt, decide_False; done.
    + destruct (neighbour_header p ltac:(auto)) as (hp & mp & Ehp & Emp). exists hp, mp.
      rewrite header_edit_opt, decide_False; [done|]. intros [= ->]. by apply (Hd p).
  - apply wp_ret. apply Hrest; [done| |exact HQ]. intros p Ep. apply neighbour_header. auto.
Qed.
End Neighbours.

(** ** Back to a queue *)

Definition back_in_queue x w : World H :=
  if spare_capacity cfg <=? spare_count w then set_free (free_queue w ++ [x]) (u64 (freed w + 1)) w
  else set_spare (spare_queue w ++ [x]) (u32 (spare_count w + 1)) w.

Lemma wp_return_segment w x (Q : unit -> World H -> Prop) :
  Q tt (back_in_queue x w) -> wp (return_segment cfg x) Q w.
Proof.
  intros HQ. unfold return_segment. apply wp_bind, wp_gets. unfold back_in_queue in HQ.
  destruct (spare_capacity cfg <=? spare_count w); by apply wp_modify.
Qed.

Lemma shape_back w L exc x r :
  shape w L exc -> held L = x :: r -> sits w x Free None None -> in_pool w x = Main ->
  shape (back_in_queue x w) (with_held r L) exc.
Proof.
  intros. unfold back_in_queue. destruct (Z.leb_spec (spare_capacity cfg) (spare_count w)).
  - by apply shape_push_free.
  - by apply shape_push_spare.
Qed.

Lemma header_back x w y : header_at y (back_in_queue x w) = header_at y w.
Proof. unfold back_in_queue. by destruct (_ <=? _). Qed.

(** With the spares complete, the segments [xs] go to the end of the free queue,
    and each is counted. *)
Definition stocked (xs : list Z) w w' : Prop :=
  spare_capacity cfg <= spare_count w ->
  free_queue w' = free_queue w ++ xs /\ freed w' = Nat.iter (length xs) (fun f => u64 (f + 1)) (freed w) /\
  spare_queue w' = spare_queue w /\ spare_count w' = spare_count w.

Lemma stocked_refl w : stocked [] w w.
Proof. intros _. by rewrite app_nil_r. Qed.

Lemma stocked_trans xs ys w w1 w2 : stocked xs w w1 -> stocked ys w1 w2 -> stocked (xs ++ ys) w w2.
Proof.
  intros H1 H2 Hs. destruct (H1 Hs) as (A1 & A2 & A3 & A4). destruct H2 as (B1 & B2 & B3 & B4); [lia|].
  rewrite B1, B2, B3, B4, A1, A2, A3, A4, app_assoc, length_app. split; [done|]. split; [|done].
  rewrite Nat.add_comm. symmetry. apply Nat.iter_add.
Qed.

Lemma freed_iter n f : Nat.iter n (fun f => u64 (f + 1)) f = if (n =? 0)%nat then f else u64 (f + Z.of_nat n).
Proof.
  induction n as [|n IH]; [done|]. cbn [Nat.iter nat_rect Nat.eqb]. unfold Nat.iter in IH. rewrite IH.
  destruct n as [|n]; cbn [Nat.eqb]; [done|]. rewrite wrap_add_l. f_equal. lia.
Qed.

(** Something was freed: the counter tells. *)
Lemma stocked_counts xs w w' :
  stocked xs w w' -> spare_capacity cfg <= spare_count w -> xs <> [] -> Z.of_nat (length xs) < 2 ^ 64 ->
  freed w' <> freed w /\ free_queue w' <> [].
Proof.
  intros Hk Hs Hx Hl. destruct (Hk Hs) as (E1 & E2 & _). split.
  - rewrite E2, freed_iter. destruct xs as [|x xs]; [done|]. cbn [length Nat.eqb] in *.
    unfold wrap. pow2. intros E. dm.
  - rewrite E1. by destruct (free_queue w), xs.
Qed.

Lemma queues_back x w :
  free_queue (back_in_queue x w) ++ spare_queue (back_in_queue x w) ≡ₚ x :: free_queue w ++ spare_queue w /\
  stocked [x] w (back_in_queue x w).
Proof.
  unfold stocked, back_in_queue. destruct (Z.leb_spec (spare_capacity cfg) (spare_count w)); cbn;
    (split; [bring x|done || lia]).
Qed.

Lemma calm_back x w : calm x w (back_in_queue x w).
Proof.
  split; [intros y _; by rewrite header_back|intros y; by rewrite header_back|].
  unfold back_in_queue. by destruct (_ <=? _).
Qed.

Lemma contents_back x w es : contents w es -> contents (back_in_queue x w) es.
Proof.
  intros Hc. eapply contents_ext; [done|..].
  - unfold back_in_queue. by destruct (_ <=? _).
  - unfold back_in_queue. by destruct (_ <=? _).
  - apply header_back.
Qed.

(** ** Edits of the segment in hand *)

Lemma calm_edit x f w :
  (forall h, header_at x w = Some h -> pins (f h) = pins h) -> calm x w (edit x f w).
Proof.
  intros Hf. split; [|intros y|done].
  - intros y Hy. by rewrite header_edit, decide_False.
  - rewrite header_edit. case_decide; [|done]. subst. destruct (header_at x w) as [h|]; [|done].
    cbn. by rewrite Hf.
Qed.

Lemma calm_out_of_pool x w : calm x w (out_of_pool x w).
Proof.
  unfold out_of_pool. split; [|intros y|].
  - intros y Hy. rewrite header_edit, decide_False by done. by case_bool_decide.
  - rewrite header_edit. case_bool_decide; case_decide; subst; try done;
      change (header_at x (set_admission_count (u32 (admission_count w - 1)) w)) with (header_at x w);
      by destruct (header_at x w).
  - by case_bool_decide.
Qed.

Lemma contents_out_of_pool x w es : contents w es -> contents (out_of_pool x w) es.
Proof.
  intros Hc. eapply contents_headers; [done|..].
  - unfold out_of_pool. by case_bool_decide.
  - unfold out_of_pool. by case_bool_decide.
  - intros y. rewrite header_out_of_pool. case_decide; [|done]. by destruct (header_at y w).
Qed.

Lemma wp_leave_pool w L exc x h (Q : unit -> World H -> Prop) :
  shape w L exc -> header_at x w = Some h -> Q tt (out_of_pool x w) ->
  wp (leave_pool debug_assertions x) Q w.
Proof.
  intros Hs Eh HQ. destruct (shape_out_of_pool cfg x w L exc Hs) as [_ Hpos].
  unfold leave_pool. apply wp_bind. eapply wp_look; [done|apply run_read_pool|].
  assert (in_pool w x = pool_from_u8 (pool h)) as Ep by (unfold in_pool; by rewrite Eh).
  unfold out_of_pool in HQ. rewrite Ep in *. apply wp_bind. case_bool_decide as Ead.
  - apply wp_bind, wp_gets. apply wp_bind, wp_modify. apply wp_debug_check; [apply Z.ltb_lt; auto|].
    eapply wp_edit; [exact Eh|apply run_store|exact HQ].
  - apply wp_ret. eapply wp_edit; [exact Eh|apply run_store|exact HQ].
Qed.

(** ** [recycle] *)

Definition freed_header (tg : Z) (h : SegmentHeader) : SegmentHeader :=
  bumped (clear_links Free tg h).

Lemma no_items_reset h : no_items integrity (reset integrity h).
Proof. unfold no_items, i32_range. pow2. cbn. unfold initial_offset, first_offset. lia. Qed.

Section Recycle.
Context (w : World H) (L : Layout) (exc : Z -> option State) (es : Z -> list Entry).
Context (b : nat) (l1 l2 : list Z) (x : Z) (h : SegmentHeader) (m : Metadata).
Context (Hs : shape w L exc) (Hc : contents w es).
Context (Hb : chains L !! b = Some (l1 ++ x :: l2)) (Hend : l2 = [] -> l1 = []).
Context (Hx : exc x = Some Draining) (Hes : es x = []).
Context (Eh : header_at x w = Some h) (Em : unpack (metadata h) = Some m).

Lemma recycle_range : 1 <= x <= cap cfg.
Proof. by eapply header_range. Qed.

Lemma recycle_state : state m = Draining.
Proof.
  destruct (sh_chain _ _ _ _ Hs _ _ _ _ _ Hb eq_refl) as (h' & m' & ? & ? & Est & _). simplify_eq.
  by rewrite Est, Hx.
Qed.

Let w1 : World H := spliced w l1 l2.
Let w2 : World H := out_of_pool x w1.
Let w3 : World H := edit x (freed_header (tag m) ∘ reset integrity) w2.

Lemma recycle_cut : shape w1 (cut_layout L b l1 l2 x) exc /\ header_at x w1 = Some h.
Proof.
  destruct (neighbours_distinct w L exc b l1 l2 x Hs Hb) as (? & ? & _). split.
  - eapply shape_cut; [done|done|apply only_links_queues, (proj1 (spliced_links w l1 l2))| |done].
    intros y. by eapply header_spliced.
  - unfold w1. rewrite (proj1 (header_spliced w L exc b l1 l2 x Hs Hb x)), Eh. cbn. by rewrite splice_other.
Qed.

Lemma recycle_header : header_at x w2 = Some (with_pool (pool_as_u8 Main) h).
Proof. unfold w2. rewrite header_out_of_pool, decide_True by done. by rewrite (proj2 recycle_cut). Qed.

Lemma recycle_shape : shape w3 (cut_layout L b l1 l2 x) exc /\ sits w3 x Free None None /\ in_pool w3 x = Main.
Proof.
  destruct recycle_cut as [Hs1 _]. destruct (shape_out_of_pool _ x _ _ _ Hs1) as [Hs2 _].
  split; [|split].
  - apply shape_edit_held; [done|by left|]. intros h' _. done.
  - exists (freed_header (tag m) (reset integrity (with_pool (pool_as_u8 Main) h))), (mkMeta None None Free (tag m)).
    unfold w3. rewrite header_edit, decide_True, recycle_header by done. split; [done|]. split; [|done].
    cbn. apply unpack_pack_aux. destruct (unpack_ok _ _ Em) as (_ & _ & ?). by split.
  - unfold w3. rewrite in_pool_edit by done. unfold w2. rewrite in_pool_out. by rewrite decide_True.
Qed.

Lemma recycle_contents : contents w3 es.
Proof.
  apply contents_restart; [|apply recycle_range|done|].
  - apply contents_out_of_pool. eapply only_links_contents; [apply (proj1 (spliced_links w l1 l2))|done].
  - intros h' _ Hn Hg. split; [done|]. split; [apply no_items_reset|]. cbn. apply wrap_fits. lia.
Qed.

Lemma recycle_calm : calm x w w3.
Proof.
  etransitivity; [apply only_links_calm, (proj1 (spliced_links w l1 l2))|].
  etransitivity; [apply calm_out_of_pool|]. by apply calm_edit.
Qed.

Lemma recycle_hashtable : hashtable w3 = hashtable w.
Proof.
  change (hashtable w2 = hashtable w). unfold w2, out_of_pool. by case_bool_decide; unfold w1, spliced; destruct (last l1), (hd_error l2).
Qed.

Lemma wp_recycle (Q : unit -> World H -> Prop) :
  (forall w', shape w' (with_chain b (l1 ++ l2) L) exc -> contents w' es -> calm x w w' ->
     hashtable w' = hashtable w ->
     free_queue w' ++ spare_queue w' ≡ₚ x :: free_queue w ++ spare_queue w ->
     stocked [x] w w' -> Q tt w') ->
  wp (recycle integrity debug_assertions cfg x) Q w.
Proof.
  intros HQ. destruct recycle_cut as [Hs1 Eh1]. destruct recycle_shape as (Hs3 & Hsit & Hpool).
  pose proof recycle_state as Est.
  unfold recycle. apply wp_bind. eapply wp_unlink; [done..|].
  apply wp_bind. eapply wp_leave_pool; [exact Hs1|exact Eh1|].
  apply wp_bind. eapply wp_edit; [apply recycle_header|apply run_reset_write_stats|].
  apply wp_bind. eapply (wp_edit x _ (reset integrity (with_pool (pool_as_u8 Main) h)) _ (freed_header (tag m))).
  { rewrite header_edit, decide_True by done. change (out_of_pool x (spliced w l1 l2)) with w2. by rewrite recycle_header. }
  { by apply run_try_release_drained. }
  apply wp_bind, wp_debug_check; [done|].
  apply wp_return_segment.
  rewrite edit_edit. change (edit x _ (out_of_pool x (spliced w l1 l2))) with w3.
  assert (free_queue w3 = free_queue w /\ spare_queue w3 = spare_queue w /\ spare_count w3 = spare_count w /\ freed w3 = freed w)
    as (F1 & F2 & F3 & F4).
  { change (free_queue w2 = free_queue w /\ spare_queue w2 = spare_queue w /\ spare_count w2 = spare_count w /\ freed w2 = freed w).
    unfold w2, out_of_pool, w1, spliced. by case_bool_decide; destruct (last l1), (hd_error l2). }
  apply HQ.
  - by apply (shape_back w3 (cut_layout L b l1 l2 x) exc x (held L)).
  - apply contents_back, recycle_contents.
  - etransitivity; [apply recycle_calm|apply calm_back].
  - rewrite <- recycle_hashtable. unfold back_in_queue. by destruct (_ <=? _).
  - destruct (queues_back x w3) as [E _]. by rewrite F1, F2 in E.
  - destruct (queues_back x w3) as [_ E]. unfold stocked in *. by rewrite F1, F2, F3, F4 in E.
Qed.
End Recycle.

(** ** [condemn], of a segment with readers *)

Definition condemned_header (h : SegmentHeader) : SegmentHeader :=
  clear_links AwaitingRelease (u8 (Z.land (generation h) 0xFF)) h.

Section Condemn.
Context (w : World H) (L : Layout) (exc : Z -> option State) (es : Z -> list Entry).
Context (b : nat) (l1 l2 : list Z) (x : Z) (h : SegmentHeader) (m : Metadata).
Context (Hs : shape w L exc) (Hc : contents w es).
Context (Hb : chains L !! b = Some (l1 ++ x :: l2)) (Hend : l2 = [] -> l1 = []).
Context (Hx : exc x = Some Draining).
Context (Eh : header_at x w = Some h) (Em : unpack (metadata h) = Some m).
Context (Hpin : (ref_count h =? 0) = false).

Let w2 : World H := out_of_pool x w.
Let w3 : World H := edit x condemned_header w2.
Let w4 : World H := spliced' w3 l1 l2.
(** The same, spliced before the word changes. *)
Let v : World H := edit x condemned_header (spliced' w2 l1 l2).

Lemma condemn_distinct :
  hd_error l2 <> Some x /\ last l1 <> Some x /\ forall y, hd_error l2 = Some y -> last l1 <> Some y.
Proof. exact (neighbours_distinct w L exc b l1 l2 x Hs Hb). Qed.

Lemma condemn_shape2 : shape w2 L exc.
Proof. by apply shape_out_of_pool. Qed.

Lemma condemn_cut : shape (spliced' w2 l1 l2) (cut_layout L b l1 l2 x) exc.
Proof.
  eapply shape_cut; [apply condemn_shape2|done|apply only_links_queues, (proj2 (spliced_links w2 l1 l2))| |done].
  intros y. eapply header_spliced; [apply condemn_shape2|done].
Qed.

Lemma condemn_header : header_at x w2 = Some (with_pool (pool_as_u8 Main) h).
Proof. unfold w2. by rewrite header_out_of_pool, decide_True, Eh. Qed.

Lemma condemn_header_v : header_at x v = Some (condemned_header (with_pool (pool_as_u8 Main) h)).
Proof.
  destruct condemn_distinct as (? & ? & _). unfold v. rewrite header_edit, decide_True by done.
  unfold spliced'. rewrite !header_edit_opt, !decide_False by done. by rewrite condemn_header.
Qed.

Lemma condemn_same y : header_at y w4 = header_at y v.
Proof.
  destruct condemn_distinct as (D1 & D2 & _). unfold w4, v, w3, spliced'.
  rewrite !header_edit_opt, !header_edit, !header_edit_opt.
  repeat case_decide; subst; done.
Qed.

Lemma condemn_shape : shape w4 (mkLayout (<[b := l1 ++ l2]> (chains L)) (held L) (x :: waiting L)) exc.
Proof.
  eapply (shape_ext _ v).
  - refine (shape_condemned cfg v (cut_layout L b l1 l2 x) exc x (held L) _ eq_refl _ _ _).
    + apply shape_edit_held; [apply condemn_cut|by left|done].
    + eexists _, (mkMeta None None AwaitingRelease _). split; [apply condemn_header_v|]. split; [|done].
      cbn. apply unpack_pack_aux. split; [done|]. split; [done|]. cbn. apply wrap_fits. lia.
    + unfold pinned. rewrite condemn_header_v. cbn. by rewrite Hpin.
    + unfold in_pool. by rewrite condemn_header_v.
  - unfold same_queues, v, w4, w3, spliced', edit_opt, edit. by destruct (hd_error l2), (last l1); cbn;
      repeat case_bool; rewrite ?length_alter.
  - intros y. by rewrite condemn_same.
Qed.

Lemma condemn_calm : calm x w w4.
Proof.
  etransitivity; [apply calm_out_of_pool|]. etransitivity; [by apply (calm_edit x condemned_header w2)|].
  apply only_links_calm, (proj2 (spliced_links w3 l1 l2)).
Qed.

Lemma condemn_contents : contents w4 es.
Proof.
  eapply only_links_contents; [apply (proj2 (spliced_links w3 l1 l2))|].
  apply contents_edit; [|done]. by apply contents_out_of_pool.
Qed.

Lemma wp_condemn (Q : ClearOutcome -> World H -> Prop) :
  (forall w', shape w' (mkLayout (<[b := l1 ++ l2]> (chains L)) (held L) (x :: waiting L)) exc ->
     contents w' es -> calm x w w' -> hashtable w' = hashtable w ->
     free_queue w' = free_queue w /\ spare_queue w' = spare_queue w -> stocked [] w w' ->
     Q Deferred w') ->
  wp (condemn integrity debug_assertions cfg x (hd_error l2) (last l1)) Q w.
Proof.
  intros HQ. destruct condemn_distinct as (D1 & D2 & D3).
  assert (state m = Draining) as Est by (by eapply recycle_state).
  assert (header_at x w3 = Some (condemned_header (with_pool (pool_as_u8 Main) h))) as Eh3.
  { unfold w3. by rewrite header_edit, decide_True, condemn_header. }
  assert (forall y, hd_error l2 = Some y \/ last l1 = Some y ->
    exists hy my, header_at y w3 = Some hy /\ unpack (metadata hy) = Some my) as Hnb.
  { intros y Hy. destruct (neighbour_header w2 L exc b l1 l2 x condemn_shape2 Hb y Hy) as (hy & my & Ey & Emy).
    exists hy, my. unfold w3. rewrite header_edit, decide_False; [done|]. intros ->. by destruct Hy. }
  unfold condemn. apply wp_bind. eapply wp_leave_pool; [done..|].
  apply wp_bind. eapply (wp_edit x _ _ _ condemned_header); [apply condemn_header|exact (run_cas_condemn (with_pool (pool_as_u8 Main) h) m Em Est)|].
  change (edit x condemned_header (out_of_pool x w)) with w3.
  apply wp_bind, wp_debug_check; [done|]. apply wp_bind.
  assert (forall w5, header_at x w5 = Some (condemned_header (with_pool (pool_as_u8 Main) h)) ->
    (forall n, hd_error l2 = Some n -> exists hy my, header_at n w5 = Some hy /\ unpack (metadata hy) = Some my) ->
    wp (match hd_error l2 with
        | Some n => on n (update_links None (Some (last l1)))
        | None => mret tt
        end) (fun _ w' => w' = edit_opt (hd_error l2) (relink_with None (Some (last l1))) w5) w5) as Hnext.
  { intros w5 Eh5 Hn. destruct (hd_error l2) as [n|]; [|done].
    destruct (Hn n eq_refl) as (hn & mn & Ehn & Emn). by eapply (wp_edit_links w5 n None _ hn mn). }
  assert (forall w5, w5 = edit_opt (last l1) (relink_with (Some (hd_error l2)) None) w3 ->
    wp (_ ← (match hd_error l2 with
             | Some n => on n (update_links None (Some (last l1)))
             | None => mret tt
             end);
        refs ← on x read_ref_count;
        released ← (if refs =? 0 then on x try_release_condemned else mret false);
        if released : bool then
          _ ← on x (reset_write_stats integrity);
          _ ← return_segment cfg x;
          mret Freed
        else mret Deferred) Q w5) as Hrest.
  { intros w5 ->. apply wp_bind. eapply wp_mono; [apply Hnext|].
    - by rewrite header_edit_opt, decide_False.
    - intros n En. destruct (Hnb n ltac:(auto)) as (hn & mn & Ehn & Emn). exists hn, mn.
      rewrite header_edit_opt, decide_False; [done|]. by apply D3.
    - intros _ w5 ->. change (edit_opt _ _ (edit_opt _ _ w3)) with w4.
      apply wp_bind. eapply wp_look; [rewrite condemn_same; apply condemn_header_v|apply run_load|].
      cbn [ref_count condemned_header clear_links with_metadata with_pool]. rewrite Hpin.
      apply wp_bind, wp_ret, wp_ret.
      apply HQ; [apply condemn_shape|apply condemn_contents|apply condemn_calm|..];
        unfold stocked, w4, w3, w2, spliced', out_of_pool; rewrite ?app_nil_r; by case_bool_decide; destruct (hd_error l2), (last l1). }
  destruct (last l1) as [p|] eqn:El.
  - destruct (Hnb p ltac:(auto)) as (hp & mp & Ehp & Emp).
    exact (wp_edit_links w3 p (Some (hd_error l2)) None hp mp _ Ehp Emp (Hrest _ eq_refl)).
  - apply wp_ret. exact (Hrest w3 eq_refl).
Qed.
End Condemn.
End Drain.
