(* ===== verification/HeapClear.v ===== *)
(** * Taking whole segments out of the cache

    [finalize_drained] and [clear_segment] on the whole heap, and [drain_chain],
    by which buckets expire and are cleared. [at_rest] is the state between
    operations; [swept xs] is what is left when the segments [xs] are gone. *)
From S2P Require Import Prelude Packing Atomics HashIface TtlBuckets Eviction KvItem KvItemSpec SegState SegHeader SegHeaderSpec.
From S2P Require Import Segment SegmentSpec Segments HeapRules HeapShape HeapContents HeapDrain.

Section Clear.
Context (integrity debug_assertions : bool).
Context {H : Type} `{LH : LawfulHashtable H} (cfg : Config).
Implicit Types (w : World H) (x : Z) (L : Layout) (exc : Z -> option State) (es : Z -> list Entry).

Abbreviation shape := (shape cfg).
Abbreviation contents := (contents integrity cfg).

(** ** Exceptions *)

Lemma shape_exc w L exc exc' :
  shape w L exc -> (forall x, x ∈ mjoin (chains L) -> exc' x = exc x) -> shape w L exc'.
Proof.
  intros Hs E. destruct Hs. split; try done. intros b l l1 x l2 Hb El. rewrite E; [eauto|].
  eapply chain_in; [done|]. subst. rewrite elem_of_app. right. by left.
Qed.

(** ** Segments out of service *)

Definition in_segment x w (l : Z) : bool :=
  match header_at x w with
  | Some h => here_hd h l
  | None => false
  end.

Lemma in_segment_erase x w w' l :
  erase <$> header_at x w' = erase <$> header_at x w -> in_segment x w' l = in_segment x w l.
Proof.
  unfold in_segment. destruct (header_at x w') as [h'|], (header_at x w) as [h|]; try done.
  cbn. intros E%(inj Some). apply here_hd_counters. change (counters (erase h') = counters (erase h)). by rewrite E.
Qed.

Definition layout_after (o : ClearOutcome) b l x L : Layout :=
  match o with
  | Freed => with_chain b l L
  | Deferred => mkLayout (<[b := l]> (chains L)) (held L) (x :: waiting L)
  end.

(** Segment [x], in hand and without items, is freed, or left to its readers. *)
Record let_go (o : ClearOutcome) b l x w w' L exc es : Prop := {
  lg_shape : shape w' (layout_after o b l x L) exc;
  lg_contents : contents w' es;
  lg_calm : calm x w w';
  lg_index : hashtable w' = hashtable w;
  lg_outcome : o = if pinned w x then Deferred else Freed;
  lg_queues : free_queue w' ++ spare_queue w' ≡ₚ
    match o with Freed => [x] | Deferred => [] end ++ free_queue w ++ spare_queue w;
  lg_free : stocked cfg (match o with Freed => [x] | Deferred => [] end) w w'
}.

Section LetGo.
Context (w : World H) (L : Layout) (exc : Z -> option State) (es : Z -> list Entry).
Context (b : nat) (l1 l2 : list Z) (x : Z) (h : SegmentHeader) (m : Metadata).
Context (Hs : shape w L exc) (Hc : contents w es).
Context (Hb : chains L !! b = Some (l1 ++ x :: l2)) (Hend : l2 = [] -> l1 = []).
Context (Hx : exc x = Some Draining) (Hes : es x = []).
Context (Eh : header_at x w = Some h) (Em : unpack (metadata h) = Some m).

Lemma pinned_header : pinned w x = negb (ref_count h =? 0).
Proof. unfold pinned. by rewrite Eh. Qed.

Lemma wp_recycle_lg Q :
  (ref_count h =? 0) = true ->
  (forall w', let_go Freed b (l1 ++ l2) x w w' L exc es -> Q tt w') ->
  wp (recycle integrity debug_assertions cfg x) Q w.
Proof.
  intros Hp HQ. refine (wp_recycle integrity debug_assertions cfg w L exc es b l1 l2 x h m Hs Hc Hb Hend Hx Hes Eh Em Q _).
  intros w' H1 H2 H3 H4 H5 H6. apply HQ. split; try done. by rewrite pinned_header, Hp.
Qed.

Lemma wp_condemn_lg Q :
  (ref_count h =? 0) = false ->
  (forall w', let_go Deferred b (l1 ++ l2) x w w' L exc es -> Q Deferred w') ->
  wp (condemn integrity debug_assertions cfg x (hd_error l2) (last l1)) Q w.
Proof.
  intros Hp HQ. refine (wp_condemn integrity debug_assertions cfg w L exc es b l1 l2 x h m Hs Hc Hb Hend Hx Eh Em Hp Q _).
  intros w' H1 H2 H3 H4 [H5 H6] H7. apply HQ. split; try done; [by rewrite pinned_header, Hp|by rewrite H5, H6].
Qed.

Lemma wp_let_go {A} (k : ClearOutcome -> A) (Q : A -> World H -> Prop) :
  (forall o w', let_go o b (l1 ++ l2) x w w' L exc es -> Q (k o) w') ->
  wp (refs ← on x read_ref_count;
      if refs =? 0 then _ ← recycle integrity debug_assertions cfg x; mret (k Freed)
      else o ← condemn integrity debug_assertions cfg x (hd_error l2) (last l1); mret (k o)) Q w.
Proof.
  intros HQ. apply wp_bind. eapply wp_look; [exact Eh|apply run_load|].
  destruct (ref_count h =? 0) eqn:Hp; apply wp_bind.
  - apply wp_recycle_lg; [done|]. intros w' Hl. apply wp_ret. auto.
  - apply wp_condemn_lg; [done|]. intros w' Hl. apply wp_ret. auto.
Qed.
End LetGo.

(** Segment [x] is emptied, and let go. *)
Record drained (o : ClearOutcome) b l x w w' L exc es : Prop := {
  dn_shape : shape w' (layout_after o b l x L) exc;
  dn_contents : contents w' (upd_es x [] es);
  dn_calm : calm x w w';
  dn_index k a : get_item_frequency (hashtable w') k a =
    if in_segment x w a then None else get_item_frequency (hashtable w) k a;
  dn_outcome : o = if pinned w x then Deferred else Freed;
  dn_queues : free_queue w' ++ spare_queue w' ≡ₚ
    match o with Freed => [x] | Deferred => [] end ++ free_queue w ++ spare_queue w;
  dn_free : stocked cfg (match o with Freed => [x] | Deferred => [] end) w w'
}.

Definition cleared x hd' t' w : World H := set_hashtable t' (edit x (fun _ => hd') w).

Section Cleared.
Context (w : World H) (L : Layout) (exc : Z -> option State) (es : Z -> list Entry) (x : Z).
Context (h hd' : SegmentHeader) (t' : H) (Eh : header_at x w = Some h) (Hcl : cleared_header integrity h hd').
Context (Hg : forall k l, get_item_frequency t' k l =
  if here_hd h l then None else get_item_frequency (hashtable w) k l).

Lemma header_cleared y : header_at y (cleared x hd' t' w) = if decide (y = x) then Some hd' else header_at y w.
Proof.
  change (header_at y (edit x (fun _ => hd') w) = if decide (y = x) then Some hd' else header_at y w).
  rewrite header_edit. case_decide; [|done]. subst. by rewrite Eh.
Qed.

Lemma cleared_shape : shape w L exc -> shape (cleared x hd' t' w) L exc.
Proof.
  intros Hs. eapply shape_ext; [done| |].
  - unfold same_queues. repeat (split; [done|]). split; [apply (length_edit x (fun _ => hd') w)|done].
  - intros y. rewrite header_cleared. case_decide; [|done]. subst. rewrite Eh. cbn. f_equal. apply Hcl.
Qed.

Lemma cleared_calm : calm x w (cleared x hd' t' w).
Proof.
  destruct Hcl as (_ & _ & _ & E & _). split; [| |done]; intros y; rewrite header_cleared.
  - intros Hy. by rewrite decide_False.
  - case_decide; [|done]. subst. rewrite Eh. cbn. f_equal. unfold pins. congruence.
Qed.

Lemma cleared_pinned : pinned (cleared x hd' t' w) x = pinned w x.
Proof. apply (pinned_calm x w _ x), cleared_calm. Qed.

Lemma drained_let_go o b l w' :
  let_go o b l x (cleared x hd' t' w) w' L exc (upd_es x [] es) -> drained o b l x w w' L exc es.
Proof.
  intros [H1 H2 H3 H4 H5 H6 H7]. split; try done.
  - etransitivity; [apply cleared_calm|done].
  - intros k a. rewrite H4. cbn. rewrite Hg. unfold in_segment. by rewrite Eh.
  - by rewrite H5, cleared_pinned.
Qed.
End Cleared.

Section Finalize.
Context (w : World H) (L : Layout) (exc : Z -> option State) (es : Z -> list Entry).
Context (b : nat) (l1 l2 : list Z) (x : Z).
Context (Hs : shape w L exc) (Hc : contents w es).
Context (Hb : chains L !! b = Some (l1 ++ x :: l2)) (Hend : l2 = [] -> l1 = []).
Context (Hx : exc x = Some Draining).

(** [clear_in_place] and the end of the segment's service, with the buckets
    [bs] written in between. *)
Lemma wp_clear_then {A} (k : ClearOutcome -> A) (p : @M H unit) (bs : list TtlBucket) (Q : A -> World H -> Prop) :
  (forall h hd' t' (Q' : unit -> World H -> Prop), header_at x w = Some h ->
     Q' tt (cleared x hd' t' (set_buckets bs w)) -> wp p Q' (cleared x hd' t' w)) ->
  (forall o w', drained o b (l1 ++ l2) x (set_buckets bs w) w' L exc es -> Q (k o) w') ->
  wp (_ ← clear_in_place integrity debug_assertions x;
      _ ← p;
      refs ← on x read_ref_count;
      if refs =? 0 then _ ← recycle integrity debug_assertions cfg x; mret (k Freed)
      else o ← condemn integrity debug_assertions cfg x (hd_error l2) (last l1); mret (k o)) Q w.
Proof.
  intros Hp HQ. destruct (sh_chain _ _ _ _ Hs _ _ _ _ _ Hb eq_refl) as (h & m & Eh & Em & Est & _).
  rewrite Hx in Est. cbn in Est. apply wp_bind.
  eapply wp_clear_in_place; [done|by eapply header_range|done..|].
  intros hd' t' Hcl Hg w1 Hc1. apply wp_bind. apply (Hp h); [done|].
  assert (shape (set_buckets bs w) L exc) as Hsb by (by eapply shape_ext).
  destruct Hcl as (Esk & Hcl). pose proof (conj Esk Hcl) as Hcl'.
  eapply wp_let_go with (h := hd') (m := m) (L := L) (exc := exc) (es := upd_es x [] es); try done.
  - apply (cleared_shape _ L exc x h); done.
  - by eapply contents_ext.
  - unfold upd_es. by rewrite decide_True.
  - rewrite (header_cleared _ x h) by done. by rewrite decide_True.
  - unfold skeleton in Esk. assert (metadata hd' = metadata h) as -> by congruence. done.
  - intros o w' Hl. apply HQ. by eapply (drained_let_go (set_buckets bs w) L exc es x h).
Qed.

Lemma wp_finalize_drained (Q : ClearOutcome -> World H -> Prop) :
  (forall o w', drained o b (l1 ++ l2) x w w' L exc es -> Q o w') ->
  wp (finalize_drained integrity debug_assertions cfg x) Q w.
Proof.
  intros HQ. destruct (sh_chain _ _ _ _ Hs _ _ _ _ _ Hb eq_refl) as (h & m & Eh & Em & _ & Enx & Epv).
  unfold finalize_drained. apply wp_bind. eapply wp_next_seg; [done..|]. apply wp_bind. eapply wp_prev_seg; [done..|].
  rewrite Enx, Epv.
  assert (set_buckets (buckets w) w = w) as Ew by by destruct w.
  assert (forall o w', drained o b (l1 ++ l2) x (set_buckets (buckets w) w) w' L exc es -> Q o w') as HQ'.
  { rewrite Ew. exact HQ. }
  apply wp_bind. eapply wp_mono.
  { eapply wp_unbind, (wp_clear_then (fun o => o) (mret tt) (buckets w) Q); [|exact HQ'].
    intros ? ? ? Q' _. rewrite Ew. apply wp_ret. }
  cbv beta. intros _ w1 Hw%wp_unbind%wp_unbind. apply wp_bind. eapply wp_mono; [exact Hw|].
  cbv beta. intros refs w2 Hr. destruct (refs =? 0); [done|by apply wp_ret_r].
Qed.
End Finalize.

(** ** Claims *)

(** The state changes, the links do not. *)
Definition restate (st : State) (h : SegmentHeader) : SegmentHeader :=
  match unpack (metadata h) with
  | Some m => with_meta (relinked None None st m) h
  | None => h
  end.

Lemma erase_restate st h : erase (restate st h) = erase h.
Proof. unfold restate. by destruct (unpack _). Qed.

Lemma only_links_restate x st w : only_links w (edit x (restate st) w).
Proof. apply only_links_edit. intros h _. apply erase_restate. Qed.

Lemma unpack_restate st h m :
  unpack (metadata h) = Some m -> unpack (metadata (restate st h)) = Some (relinked None None st m).
Proof.
  intros Em. unfold restate. rewrite Em. apply unpack_with_meta, relinked_ok; try done. by eapply unpack_ok.
Qed.

Lemma run_claim e st h m :
  unpack (metadata h) = Some m -> state m = e ->
  run (cas_metadata e st None None) h = Some (true, restate st h).
Proof. intros Em Es. rewrite (run_cas_metadata _ _ _ _ h m Em), decide_True by done. unfold restate. by rewrite Em. Qed.

Lemma run_unclaimed e st h m :
  unpack (metadata h) = Some m -> state m <> e -> run (cas_metadata e st None None) h = Some (false, h).
Proof. intros Em Es. by rewrite (run_cas_metadata _ _ _ _ h m Em), decide_False by done. Qed.

Lemma wp_claim w x e st h m (Q : bool -> World H -> Prop) :
  header_at x w = Some h -> unpack (metadata h) = Some m -> state m = e ->
  Q true (edit x (restate st) w) -> wp (on x (cas_metadata e st None None)) Q w.
Proof. intros Eh Em Es. apply (wp_edit x _ _ _ (restate st) Q w Eh), (run_claim e st h m Em Es). Qed.

Lemma wp_unclaimed w x e st h m (Q : bool -> World H -> Prop) :
  header_at x w = Some h -> unpack (metadata h) = Some m -> state m <> e ->
  Q false w -> wp (on x (cas_metadata e st None None)) Q w.
Proof. intros Eh Em Es. exact (wp_look x _ h _ Q w Eh (run_unclaimed e st h m Em Es)). Qed.

Lemma wp_wait_pins w x h (Q : unit -> World H -> Prop) :
  unpinned w -> header_at x w = Some h -> Q tt w -> wp (wait_pins x) Q w.
Proof.
  intros Hu Eh HQ. destruct (Hu _ _ Eh) as [Ew Er]. unfold wait_pins.
  apply wp_bind. eapply wp_look; [done|apply run_load|]. apply wp_bind, wp_check; [by apply Z.eqb_eq|].
  apply wp_bind. eapply wp_look; [done|apply run_load|]. apply wp_check; [by apply Z.eqb_eq|done].
Qed.

Section Claim.
Context (w : World H) (L : Layout) (exc : Z -> option State) (es : Z -> list Entry).
Context (b : nat) (l1 l2 : list Z) (x : Z).
Context (Hs : shape w L exc) (Hc : contents w es) (Hu : unpinned w).
Context (Hb : chains L !! b = Some (l1 ++ x :: l2)).

Let w1 : World H := edit x (restate Draining) w.

Lemma claim_frame : shape w1 L (upd exc x (Some Draining)) /\ contents w1 es /\ unpinned w1 /\ only_links w w1.
Proof.
  assert (only_links w w1) as Ho by apply only_links_restate. split; [|split; [|split]].
  - eapply shape_restate; [done|exact Hb|rewrite elem_of_app; right; by left|]. intros h m _ Em.
    split; [by apply unpack_restate|]. unfold restate. by rewrite Em.
  - by eapply only_links_contents.
  - eapply unpinned_calm; [by apply (only_links_calm x)|done].
  - done.
Qed.

Lemma claim_header h : header_at x w = Some h -> header_at x w1 = Some (restate Draining h).
Proof. intros Eh. unfold w1. by rewrite header_edit, decide_True, Eh. Qed.

Lemma drained_only_links w0 o w' :
  only_links w w0 -> drained o b (l1 ++ l2) x w0 w' L (upd exc x (Some Draining)) es -> exc x = None ->
  drained o b (l1 ++ l2) x w w' L exc es.
Proof.
  intros Ho [H1 H2 H3 H4 H5 H6 H7] Hx. pose proof (only_links_queues _ _ Ho) as (Q1 & Q2 & Q3 & _).
  pose proof (only_links_calm x _ _ Ho) as Hcalm.
  destruct Ho as [(hs & E & _) He]. assert (hashtable w0 = hashtable w /\ freed w0 = freed w) as [Et Ef] by by rewrite E.
  split; try done.
  - eapply shape_exc; [done|]. intros y Hy. unfold upd. case_decide; [|done]. subst y. exfalso.
    pose proof (chains_nodup _ _ _ _ Hs) as Hn.
    assert (mjoin (chains L) ≡ₚ x :: mjoin (<[b:=l1 ++ l2]> (chains L))) as Ej.
    { eapply join_insert; [done|]. by rewrite Permutation_middle. }
    rewrite Ej in Hn. apply NoDup_cons in Hn as [Hn _]. apply Hn. by destruct o.
  - by etransitivity.
  - intros k a. rewrite H4, Et, (in_segment_erase x w w0); done.
  - by rewrite H5, (pinned_calm _ _ _ _ Hcalm).
  - by rewrite <- Q1, <- Q2.
  - unfold stocked in *. by rewrite <- Q1, <- Q2, <- Q3, <- Ef.
Qed.

(** [clear_segment] of a sealed segment with a successor. *)
Lemma wp_clear_segment (Q : option ClearOutcome -> World H -> Prop) :
  exc x = None -> l2 <> [] ->
  (forall o w', drained o b (l1 ++ l2) x w w' L exc es -> Q (Some o) w') ->
  wp (clear_segment integrity debug_assertions cfg x) Q w.
Proof.
  intros Hx Hl2 HQ. destruct (sh_chain _ _ _ _ Hs _ _ _ _ _ Hb eq_refl) as (h & m & Eh & Em & Est & _).
  rewrite Hx in Est. assert (state m = Sealed) as Est' by by destruct l2.
  destruct claim_frame as (Hs1 & Hc1 & Hu1 & Ho).
  unfold clear_segment. apply wp_bind. unfold claim_for_drain. apply wp_bind.
  eapply wp_claim; [done..|].
  apply wp_bind. eapply wp_wait_pins; [exact Hu1|by apply claim_header|]. apply wp_ret. apply wp_bind.
  eapply (wp_finalize_drained w1 L (upd exc x (Some Draining)) es b l1 l2 x); try done.
  - unfold upd. by rewrite decide_True.
  - intros o w' Hd. apply wp_ret. apply HQ. by eapply drained_only_links.
Qed.
End Claim.

(** A segment that is not sealed is left alone. *)
Lemma wp_clear_unsealed w x h m (Q : option ClearOutcome -> World H -> Prop) :
  header_at x w = Some h -> unpack (metadata h) = Some m -> state m <> Sealed -> Q None w ->
  wp (clear_segment integrity debug_assertions cfg x) Q w.
Proof.
  intros Eh Em Est HQ. unfold clear_segment, claim_for_drain. do 2 apply wp_bind.
  eapply wp_unclaimed; [done..|]. by do 2 apply wp_ret.
Qed.
(** ** Between operations *)

Record at_rest w L es : Prop := {
  ar_shape : shape w L (fun _ => None);
  ar_held : held L = [];
  ar_contents : contents w es;
  ar_anchored : anchored w (chains L);
  ar_idle x : x ∉ mjoin (chains L) -> es x = [];
  ar_unpinned : unpinned w
}.

Definition gone xs w (a : Z) : bool := existsb (fun x => in_segment x w a) xs.

(** The segments [xs] are out of their chains: freed, or waiting for readers. *)
Record swept xs w w' L L' es es' : Prop := {
  sw_chains : mjoin (chains L) ≡ₚ xs ++ mjoin (chains L');
  sw_waiting : waiting L' ≡ₚ List.filter (pinned w) xs ++ waiting L;
  sw_queues : free_queue w' ++ spare_queue w' ≡ₚ
    List.filter (fun x => negb (pinned w x)) xs ++ free_queue w ++ spare_queue w;
  sw_items y : es' y = if decide (y ∈ xs) then [] else es y;
  sw_index k a : get_item_frequency (hashtable w') k a =
    if gone xs w a then None else get_item_frequency (hashtable w) k a;
  sw_headers y : y ∉ xs -> erase <$> header_at y w' = erase <$> header_at y w;
  sw_pins y : pins <$> header_at y w' = pins <$> header_at y w;
  sw_free : stocked cfg (List.filter (fun x => negb (pinned w x)) xs) w w'
}.

Lemma swept_refl w L es : swept [] w w L L es es.
Proof. split; try done. apply stocked_refl. Qed.

Lemma pinned_pins w w' x : pins <$> header_at x w' = pins <$> header_at x w -> pinned w' x = pinned w x.
Proof.
  unfold pinned. destruct (header_at x w'), (header_at x w); try done.
  intros E%(inj Some). unfold pins in E. by injection E as -> _ _.
Qed.

Lemma unpinned_pins w w' :
  (forall y, pins <$> header_at y w' = pins <$> header_at y w) -> unpinned w -> unpinned w'.
Proof.
  intros E Hu y h Eh. specialize (E y). rewrite Eh in E.
  destruct (header_at y w) as [h0|] eqn:E0; [|done]. apply (inj Some) in E.
  destruct (Hu y h0 E0). unfold pins in E. by injection E as _ -> ->.
Qed.

Lemma gone_app xs ys w a : gone (xs ++ ys) w a = gone xs w a || gone ys w a.
Proof. unfold gone. by rewrite existsb_app. Qed.

Lemma existsb_ext_in {A} (f g : A -> bool) (l : list A) : (forall a, a ∈ l -> f a = g a) -> existsb f l = existsb g l.
Proof.
  induction l as [|a l IH]; intros E; [done|]. cbn. rewrite (E a) by by left.
  rewrite IH; [done|]. intros b Hb. apply E. by right.
Qed.

Lemma swept_trans xs ys w w1 w2 L L1 L2 es es1 es2 :
  NoDup (mjoin (chains L)) ->
  swept xs w w1 L L1 es es1 -> swept ys w1 w2 L1 L2 es1 es2 -> swept (xs ++ ys) w w2 L L2 es es2.
Proof.
  intros Hn [A1 A2 A3 A4 A5 A6 A7 A8] [B1 B2 B3 B4 B5 B6 B7 B8].
  assert (forall x, pinned w1 x = pinned w x) as Ep by (intros x; by apply pinned_pins).
  assert (forall x, x ∈ ys -> x ∉ xs) as Hd.
  { rewrite A1, B1 in Hn. apply NoDup_app in Hn as (_ & Hn & _). intros x Hy Hx. apply (Hn x Hx).
    rewrite elem_of_app. by left. }
  split.
  - by rewrite A1, B1, <- app_assoc.
  - rewrite B2, A2. rewrite List.filter_app. rewrite (List.filter_ext _ _ Ep).
    rewrite !app_assoc. f_equiv. apply Permutation_app_comm.
  - rewrite B3, A3. rewrite List.filter_app.
    rewrite (List.filter_ext (fun x => negb (pinned w1 x)) (fun x => negb (pinned w x))) by (intros x; by rewrite Ep).
    rewrite !app_assoc. do 2 f_equiv. apply Permutation_app_comm.
  - intros y. rewrite B4, A4. repeat case_decide; try done; exfalso; set_solver.
  - intros k a. rewrite B5, A5, gone_app.
    assert (gone ys w1 a = gone ys w a) as ->; [|by destruct (gone xs w a), (gone ys w a)].
    apply existsb_ext_in. intros x Hx. apply in_segment_erase, A6. auto.
  - intros y Hy. rewrite B6, A6; set_solver.
  - intros y. by rewrite B7, A7.
  - rewrite List.filter_app. eapply stocked_trans; [exact A8|].
    by rewrite (List.filter_ext _ (fun x => negb (pinned w1 x))) by (intros x; by rewrite Ep).
Qed.

Lemma calm_headers x w w' y : calm x w w' -> y <> x -> erase <$> header_at y w' = erase <$> header_at y w.
Proof. intros [E _ _]. apply E. Qed.

Lemma swept_drained o b l1 l2 x w w' L exc es :
  chains L !! b = Some (l1 ++ x :: l2) -> drained o b (l1 ++ l2) x w w' L exc es ->
  swept [x] w w' L (layout_after o b (l1 ++ l2) x L) es (upd_es x [] es).
Proof.
  intros Hb [H1 H2 H3 H4 H5 H6 H7]. split.
  - assert (mjoin (chains L) ≡ₚ x :: mjoin (<[b:=l1 ++ l2]> (chains L))) as Ej.
    { eapply join_insert; [done|]. by rewrite Permutation_middle. }
    rewrite Ej. by destruct o.
  - subst o. cbn. by destruct (pinned w x).
  - rewrite H6. subst o. cbn. by destruct (pinned w x).
  - intros y. unfold upd_es. repeat case_decide; set_solver.
  - intros k a. rewrite H4. unfold gone. cbn. by rewrite orb_false_r.
  - intros y Hy. eapply calm_headers; [done|]. set_solver.
  - intros y. apply H3.
  - subst o. cbn. by destruct (pinned w x).
Qed.

(** The bucket of the chain follows. *)
Lemma anchored_chain w w' cs b l l' t t' :
  anchored w cs -> cs !! b = Some l -> buckets w !! b = Some t -> buckets w' = <[b := t']> (buckets w) ->
  head t' = or_zero (hd_error l') -> tail t' = or_zero (last l') -> TtlBuckets.ttl t' = TtlBuckets.ttl t ->
  anchored w' (<[b := l']> cs).
Proof.
  intros [[A1 A2] A3] Hb Ht E H1 H2 H3. split.
  - rewrite E, !length_insert. done.
  - intros c k. destruct (decide (c = b)) as [->|].
    + rewrite list_lookup_insert_eq by (by eapply lookup_lt_Some). intros [= <-]. exists t'.
      destruct (A3 b l Hb) as (t0 & Et & _ & _ & E0). rewrite Ht in Et. injection Et as <-.
      rewrite E, list_lookup_insert_eq by (by eapply lookup_lt_Some). split_and!; try done. congruence.
    + rewrite list_lookup_insert_ne by done. intros Hc. rewrite E, list_lookup_insert_ne by done. by apply A3.
Qed.

Lemma anchored_ext w w' cs : anchored w cs -> buckets w' = buckets w -> anchored w' cs.
Proof. intros [A1 A2] E. split; by rewrite E. Qed.

Lemma chains_after o b l x L : chains (layout_after o b l x L) = <[b := l]> (chains L).
Proof. by destruct o. Qed.

Lemma held_after o b l x L : held (layout_after o b l x L) = held L.
Proof. by destruct o. Qed.
End Clear.
