(* ===== verification/HeapItems.v ===== *)
(** * Items written, linked and unlinked

    What the writes of the cache do to the contents of the heap: one segment
    changes, in its counters, its bytes and what is published in it. An item
    is appended and published, unlinked and taken out of the counters, or
    rewritten where it lies. *)
From S2P Require Import Prelude Packing Atomics HashIface TtlBuckets KvItem KvItemSpec SegState SegHeader SegHeaderSpec Segment SegmentSpec.
From S2P Require Import Segments HeapRules HeapShape HeapContents HeapDrain HeapClear.

Section Items.
Context (integrity : bool).
Context {H : Type} `{LH : LawfulHashtable H} (cfg : Config).
Implicit Types (w : World H) (x y : Z) (L : Layout) (es : Z -> list Entry) (e : Entry).

Abbreviation contents := (contents integrity cfg).
Abbreviation at_rest := (at_rest integrity cfg).
Abbreviation first := (first_offset integrity).
Abbreviation size_of := (entry_size integrity).

(** The same entries are published, whatever their frequencies. *)
Lemma contents_domain w t es :
  contents w es -> ht_inv t ->
  (forall k l, is_Some (get_item_frequency t k l) <-> is_Some (get_item_frequency (hashtable w) k l)) ->
  contents (set_hashtable t w) es.
Proof.
  intros [C1 C2 C3] Ht Hd. split; [done| |].
  - intros x Hx. destruct (C2 x Hx) as (h & d & ? & ? & ? & ? & Hs). exists h, d.
    split; [done|]. split; [done|]. split; [done|]. split; [done|].
    eapply seg_ok_domain; [exact Hs|]. intros k l _. apply Hd.
  - intros k l f Hf. destruct (proj1 (Hd k l) (mk_is_Some _ _ Hf)) as [f' Hf']. by eapply C3.
Qed.

(** Segment [x] changes, and the others see nothing of it. *)
Record touches x w w' : Prop := {
  to_header y : y <> x -> header_at y w' = header_at y w;
  to_data y : y <> x -> 1 <= y -> datas w' !! idx y = datas w !! idx y;
  to_index k l : (Location.unpack_location l).1 <> x ->
    is_Some (get_item_frequency (hashtable w') k l) <-> is_Some (get_item_frequency (hashtable w) k l);
  to_inv : ht_inv (hashtable w')
}.

Lemma contents_touched x w w' es (es' : list Entry) hd hd' :
  contents w es -> 1 <= x <= cap cfg -> touches x w w' ->
  header_at x w = Some hd -> header_at x w' = Some hd' -> (forall l, here_hd hd' l = here_hd hd l) ->
  (forall k l, (Location.unpack_location l).1 = x -> is_Some (get_item_frequency (hashtable w') k l) ->
     is_Some (get_item_frequency (hashtable w) k l) \/ here_hd hd l = true) ->
  holds_items integrity cfg w' x es' -> contents w' (upd_es x es' es).
Proof.
  intros [C1 C2 C3] Hx [T1 T2 T3 T4] Eh Eh' Hh Hp Hit. split; [done| |].
  - intros y Hy. unfold upd_es. case_decide as D; [by subst|].
    destruct (C2 y Hy) as (h & d & E1 & E2 & E3 & E4 & Hs). exists h, d.
    rewrite T1, T2 by (done || lia). split; [done|]. split; [done|]. split; [done|]. split; [done|].
    eapply seg_ok_domain; [exact Hs|]. intros k l Hl. apply T3. pose proof (here_id _ _ Hl) as E.
    cbn [header] in E. congruence.
  - intros k l f Hf. destruct (decide ((Location.unpack_location l).1 = x)) as [El|El].
    + exists x, hd'. split; [done|]. split; [done|]. rewrite Hh.
      destruct (Hp k l El (mk_is_Some _ _ Hf)) as [[f' Hf']|]; [|done].
      destruct (C3 _ _ _ Hf') as (y & h & Hy & Ey & Hl).
      destruct (C2 y Hy) as (h' & d & Eh2 & _ & Ei & _). simplify_eq. pose proof (here_id _ _ Hl) as E.
      rewrite E in *. by simplify_eq.
    + destruct (proj1 (T3 k l El) (mk_is_Some _ _ Hf)) as [f' Hf'].
      destruct (C3 _ _ _ Hf') as (y & h & Hy & Ey & Hl). exists y, h. split; [done|]. split; [|done].
      rewrite T1; [done|]. destruct (C2 y Hy) as (h' & d & Eh2 & _ & Ei & _). simplify_eq.
      pose proof (here_id _ _ Hl). congruence.
Qed.

Lemma here_same hd hd' l : id hd' = id hd -> generation hd' = generation hd -> here_hd hd' l = here_hd hd l.
Proof. unfold here_hd, here. cbn [header]. by intros -> ->. Qed.

(** The counters of one segment, changed by an item of [n] bytes that comes or goes. *)
Definition counted (hd hd' : SegmentHeader) (items n grown : Z) : Prop :=
  id hd' = id hd /\ generation hd' = generation hd /\ write_offset hd' = write_offset hd + grown /\
  live_items hd' = live_items hd + items /\ live_bytes hd' = live_bytes hd + n /\
  i32_range (dead_items hd') /\ i32_range (dead_bytes hd').

Lemma contents_unlinked x w w' es hd hd' d off e :
  contents w es -> 1 <= x <= cap cfg -> header_at x w = Some hd -> header_at x w' = Some hd' ->
  datas w !! idx x = Some d -> datas w' !! idx x = Some d ->
  (forall y, y <> x -> header_at y w' = header_at y w) ->
  (forall y, y <> x -> 1 <= y -> datas w' !! idx y = datas w !! idx y) ->
  (off, e) ∈ places integrity first (es x) ->
  let a := Location.pack_location x (generation hd) off in
  is_Some (get_item_frequency (hashtable w) (e_key e) a) ->
  ht_inv (hashtable w') ->
  (forall k l, get_item_frequency (hashtable w') k l = if l =? a then None else get_item_frequency (hashtable w) k l) ->
  counted hd hd' (-1) (- size_of e) 0 ->
  contents w' es.
Proof.
  intros Hc Hx Eh Eh' Ed Ed' Hhd Hda Hpl a Hpub Hi Hg (K1 & K2 & K3 & K4 & K5 & K6 & K7).
  destruct (c_items _ _ _ _ Hc x Hx) as (h0 & d0 & ? & ? & Ei & Hb & Hs). simplify_eq.
  assert (Location.issuable (id hd) (generation hd) off) as Hiss by exact (place_issuable _ _ _ _ _ _ _ Hs Hpl).
  assert ((Location.unpack_location a).1 = id hd) as Ea.
  { unfold a. by destruct (Location.pack_unpack_location _ _ _ Hiss) as (-> & _). }
  assert (contents w' (upd_es (id hd) (es (id hd)) es)) as Hc'.
  { eapply (contents_touched (id hd) w w' es); try done.
    - split; [done|done| |done]. intros k l Hl. rewrite Hg.
      destruct (Z.eqb_spec l a) as [->|]; [by rewrite Ea in Hl|done].
    - intros l. by apply here_same.
    - intros k l _. rewrite Hg. destruct (l =? a); [by intros [? [=]]|by left].
    - exists hd', d. split; [done|]. split; [done|]. split; [done|]. split; [done|].
      eapply (seg_ok_unlinked integrity (hashtable w) (hashtable w') (mkSegment hd d) hd' _ 0 0 (off, e) Hs Hpl).
      + by apply live_some.
      + intros k l _. exact (Hg k l).
      + by split.
      + cbn [header]. lia.
      + cbn [header]. lia.
      + cbn [header snd]. lia.
      + done.
      + done. }
  destruct Hc' as [D1 D2 D3]. split; [done| |done]. intros y Hy. specialize (D2 y Hy). unfold upd_es in D2.
  case_decide; [by subst|done].
Qed.

Lemma contents_appended (pub : bool) x w w' es hd hd' d d' e :
  contents w es -> 1 <= x <= cap cfg -> header_at x w = Some hd -> header_at x w' = Some hd' ->
  datas w !! idx x = Some d -> datas w' !! idx x = Some d' ->
  (forall y, y <> x -> header_at y w' = header_at y w) ->
  (forall y, y <> x -> 1 <= y -> datas w' !! idx y = datas w !! idx y) ->
  entry_ok e -> (pub = true -> e_deleted e = false) ->
  let off := end_of integrity (es x) in
  let a := Location.pack_location x (generation hd) off in
  outside off (size_of e) d d' -> stored integrity e (drop (Z.to_nat off) d') -> Forall is_byte d' ->
  off + size_of e <= segment_size cfg ->
  ht_inv (hashtable w') -> (is_Some (get_item_frequency (hashtable w') (e_key e) a) <-> pub = true) ->
  (forall k, is_Some (get_item_frequency (hashtable w') k a) -> pub = true) ->
  (forall k l, l <> a ->
     is_Some (get_item_frequency (hashtable w') k l) <-> is_Some (get_item_frequency (hashtable w) k l)) ->
  counted hd hd' (Z.b2z pub) (Z.b2z pub * size_of e) (size_of e) ->
  contents w' (upd_es x (es x ++ [e]) es).
Proof.
  intros Hc Hx Eh Eh' Ed Ed' Hhd Hda He Hnd off a Hout Hst Hby Hfit Hi Hnew Hall Hg (K1 & K2 & K3 & K4 & K5 & K6 & K7).
  destruct (c_items _ _ _ _ Hc x Hx) as (h0 & d0 & ? & ? & Ei & Hb & Hs). simplify_eq.
  destruct (ok_end _ _ _ _ _ _ Hs) as [Hwo _]. cbn [header] in Hwo.
  pose proof (entry_size_bound integrity e) as (_ & _ & ? & _).
  assert (Location.issuable (id hd) (generation hd) off) as Hiss.
  { eapply (end_issuable integrity (hashtable w) (mkSegment hd d) (es (id hd))); [exact Hs|]. cbn [data]. fold off. lia. }
  destruct (Location.pack_unpack_location _ _ _ Hiss) as (Ea & _). fold a in Ea.
  eapply (contents_touched (id hd) w w' es); try done.
  - split; [done|done| |done]. intros k l Hl. apply Hg. intros ->. by rewrite Ea in Hl.
  - intros l. by apply here_same.
  - intros k l _ Hl. destruct (decide (l = a)) as [->|Hne].
    + right. by eapply (issuable_here (mkSegment hd d)).
    + left. by apply Hg.
  - exists hd', d'. split; [done|]. split; [done|]. split; [done|]. split; [by rewrite (proj1 Hout)|].
    eapply (seg_ok_appended integrity pub (hashtable w) (hashtable w') (mkSegment hd d)); try done.
    + cbn [data]. by rewrite Hb.
    + intros k l _ Hne. by apply Hg.
    + cbn [header]. fold off. lia.
Qed.

Lemma contents_rewritten x w w' es hd d d' (es1 es2 : list Entry) e e' :
  contents w es -> 1 <= x <= cap cfg -> header_at x w = Some hd -> es x = es1 ++ e :: es2 ->
  datas w !! idx x = Some d -> datas w' !! idx x = Some d' ->
  (forall y, header_at y w' = header_at y w) ->
  (forall y, y <> x -> 1 <= y -> datas w' !! idx y = datas w !! idx y) ->
  hashtable w' = hashtable w ->
  entry_ok e' -> e_key e' = e_key e -> size_of e' = size_of e ->
  let off := end_of integrity es1 in
  outside off (size_of e) d d' -> stored integrity e' (drop (Z.to_nat off) d') -> Forall is_byte d' ->
  (e_deleted e' = false \/ unpublished (hashtable w) (Location.pack_location x (generation hd) off)) ->
  contents w' (upd_es x (es1 ++ e' :: es2) es).
Proof.
  intros Hc Hx Eh Ees Ed Ed' Hhd Hda Ht He Ek En off Hout Hst Hby Hdel.
  destruct (c_items _ _ _ _ Hc x Hx) as (h0 & d0 & ? & ? & Ei & Hb & Hs). simplify_eq. rewrite Ees in Hs.
  eapply (contents_touched (id hd) w w' es); try done.
  - split; [done|done| |]; rewrite Ht; [done|apply Hc].
  - by rewrite Hhd.
  - intros k l _. rewrite Ht. by left.
  - exists hd, d'. rewrite Hhd, Ht. split; [done|]. split; [done|]. split; [done|]. split; [by rewrite (proj1 Hout)|].
    by eapply (seg_ok_rewritten integrity _ (mkSegment hd d)).
Qed.

(** ** The heap around a change of one segment of a chain *)

Lemma at_rest_touched x w w' L es (es' : list Entry) :
  at_rest w L es -> x ∈ mjoin (chains L) -> contents w' (upd_es x es' es) ->
  same_queues w w' -> buckets w' = buckets w ->
  (forall y, skeleton <$> header_at y w' = skeleton <$> header_at y w) -> unpinned w' ->
  at_rest w' L (upd_es x es' es).
Proof.
  intros [A1 A2 A3 A4 A5 A6] Hx Hc Hq Hb Hs Hu. split; try done.
  - by eapply shape_ext.
  - by eapply anchored_ext.
  - intros y Hy. unfold upd_es. case_decide; [by subst|auto].
Qed.

Lemma upd_es_same x es y : upd_es x (es x) es y = es y.
Proof. unfold upd_es. by case_decide; subst. Qed.

(** Items are read by the segment, so equal families are as good as the same. *)
Lemma contents_es w es es' : (forall y, es' y = es y) -> contents w es -> contents w es'.
Proof. intros E [C1 C2 C3]. split; [done| |done]. intros y Hy. rewrite E. auto. Qed.

Lemma at_rest_es w L es es' : (forall y, es' y = es y) -> at_rest w L es -> at_rest w L es'.
Proof.
  intros E [A1 A2 A3 A4 A5 A6]. split; try done; [by eapply contents_es|].
  intros y Hy. rewrite E. auto.
Qed.
End Items.
