(* ===== verification/HeapEvict.v ===== *)
(** * Eviction and expiry on the heap

    The dropping policies of [evict], [drain_chain], [expire] and [clear], each
    from a heap at rest to a heap at rest. *)
From S2P Require Import Prelude Packing Atomics HashIface TtlBuckets Eviction EvictionSpec KvItem KvItemSpec SegState SegHeader SegHeaderSpec.
From S2P Require Import Segment SegmentSpec Segments HeapRules HeapShape HeapContents HeapDrain HeapClear.

Section Evict.
Context (integrity debug_assertions : bool).
Context {H : Type} `{LH : LawfulHashtable H} (cfg : Config) (now : Z).
Implicit Types (w : World H) (x : Z) (L : Layout) (exc : Z -> option State) (es : Z -> list Entry).

Abbreviation shape := (shape cfg).
Abbreviation contents := (contents integrity cfg).
Abbreviation at_rest := (at_rest integrity cfg).
Abbreviation drained := (drained integrity cfg).
Abbreviation swept := (swept cfg).

(** What an operation on the chains does not write. *)
Definition aside w : Eviction.Eviction * Z * Z * Z := (evict w, last_expired w, evicts_started w, evicts_finished w).

Lemma calm_aside x w w' : calm x w w' -> aside w' = aside w.
Proof. intros [_ _ (_ & E1 & E2 & E3 & E4)]. unfold aside. congruence. Qed.

(** ** A sealed segment is in the chain of its bucket *)

Lemma placed w L es x h m :
  at_rest w L es -> header_at x w = Some h -> unpack (metadata h) = Some m ->
  (state m = Free /\ x ∈ free_queue w ++ spare_queue w) \/
  (state m = AwaitingRelease /\ x ∈ waiting L) \/
  (exists b l1 l2, chains L !! b = Some (l1 ++ x :: l2) /\ state m = rest_state l2 /\
     next m = hd_error l2 /\ prev m = last l1 /\ bucket_of_ttl b (SegHeader.ttl h)).
Proof.
  intros Hr Eh Em. pose proof (ar_shape _ _ _ _ _ Hr) as Hs.
  assert (x ∈ accounted w L) as Hx.
  { rewrite (sh_ids _ _ _ _ Hs), in_ids. pose proof (header_range _ _ _ _ _ _ Hs Eh). lia. }
  unfold accounted in Hx. rewrite app_assoc, !(elem_of_app _ _ x), (ar_held _ _ _ _ _ Hr) in Hx.
  rewrite <- elem_of_app in Hx. destruct Hx as [Hx|[Hx|[Hx|Hx]]].
  - left. split; [|done]. destruct (sh_idle _ _ _ _ Hs x Hx) as (? & ? & ? & ? & ? & _). by simplify_eq.
  - right. right. apply list_elem_of_join in Hx as (l & Hx & [b Hb]%list_elem_of_lookup).
    pose proof Hx as (l1 & l2 & ->)%list_elem_of_split. exists b, l1, l2.
    destruct (sh_chain _ _ _ _ Hs _ _ _ _ _ Hb eq_refl) as (? & ? & ? & ? & ? & ? & ?). simplify_eq.
    do 4 (split; [done|]). by eapply (sh_ttl _ _ _ _ Hs).
  - by apply not_elem_of_nil in Hx.
  - right. left. split; [|done]. destruct (sh_waiting _ _ _ _ Hs x Hx) as [(? & ? & ? & ? & ? & _) _]. by simplify_eq.
Qed.

Lemma sealed_chained w L es x h m :
  at_rest w L es -> header_at x w = Some h -> unpack (metadata h) = Some m -> state m = Sealed ->
  exists b l1 l2, chains L !! b = Some (l1 ++ x :: l2) /\ l2 <> [] /\
     next m = hd_error l2 /\ prev m = last l1 /\ bucket_of_ttl b (SegHeader.ttl h).
Proof.
  intros Hr Eh Em Es. destruct (placed _ _ _ _ _ _ Hr Eh Em) as [[E _]|[[E _]|(b & l1 & l2 & ? & E & ? & ? & ?)]];
    [congruence..|]. exists b, l1, l2. split; [done|]. split; [|done]. intros ->. cbn in E. congruence.
Qed.

Lemma bucket_found w L es b l :
  at_rest w L es -> chains L !! b = Some l -> exists t, buckets w !! b = Some t /\
    TtlBuckets.head t = or_zero (hd_error l) /\ TtlBuckets.tail t = or_zero (last l) /\ TtlBuckets.ttl t = floor (Z.of_nat b).
Proof. intros Hr Hb. by apply (an_bucket _ _ (ar_anchored _ _ _ _ _ Hr)). Qed.

Lemma holds_its_ttl b t secs :
  TtlBuckets.ttl t = floor (Z.of_nat b) -> bucket_of_ttl b secs -> holds_ttl t secs = true.
Proof.
  intros E (Hb & -> & _). unfold holds_ttl. rewrite E. apply Z.eqb_eq.
  symmetry. apply wrap_id, bucket_ttl_fits. lia.
Qed.

Lemma wp_is_sealed_member w L es x h m b l1 l2 (Q : bool -> World H -> Prop) :
  at_rest w L es -> header_at x w = Some h -> unpack (metadata h) = Some m ->
  chains L !! b = Some (l1 ++ x :: l2) -> bucket_of_ttl b (SegHeader.ttl h) ->
  Q (bool_decide (state m = Sealed)) w -> wp (is_sealed_member x b) Q w.
Proof.
  intros Hr Eh Em Hb Ht HQ. destruct (bucket_found _ _ _ _ _ Hr Hb) as (t & Et & _ & _ & Ett).
  unfold is_sealed_member. apply wp_bind. eapply wp_look; [exact Eh|by apply run_read_state|].
  apply wp_bind. eapply wp_field; [exact Eh|]. apply wp_bind. eapply wp_bucket_field; [exact Et|].
  apply wp_ret. by rewrite (holds_its_ttl b t), andb_true_r.
Qed.

Lemma wp_lock_sealed w L es x h m b l1 l2 (Q : option nat -> World H -> Prop) :
  at_rest w L es -> header_at x w = Some h -> unpack (metadata h) = Some m ->
  chains L !! b = Some (l1 ++ x :: l2) -> bucket_of_ttl b (SegHeader.ttl h) ->
  Q (if bool_decide (state m = Sealed) then Some b else None) w -> wp (lock_sealed_in_bucket x) Q w.
Proof.
  intros Hr Eh Em Hb Ht HQ. unfold lock_sealed_in_bucket. apply wp_bind. eapply wp_field; [exact Eh|].
  destruct Ht as (? & ? & Ei). rewrite Ei, Nat2Z.id. apply wp_bind.
  eapply wp_is_sealed_member; [done..|]. by apply wp_ret.
Qed.

(** ** A segment is cleared where it is *)

(** The heap after segment [x] of bucket [b] is gone. *)
Record removed (o : ClearOutcome) b l1 l2 x w w' L es : Prop := {
  rm_rest : at_rest w' (layout_after o b (l1 ++ l2) x L) (upd_es x [] es);
  rm_swept : swept [x] w w' L (layout_after o b (l1 ++ l2) x L) es (upd_es x [] es);
  rm_aside : aside w' = aside w;
  rm_outcome : o = if pinned w x then Deferred else Freed;
  rm_free : stocked cfg (match o with Freed => [x] | Deferred => [] end) w w'
}.

Section Removal.
Context (w : World H) (L : Layout) (es : Z -> list Entry) (b : nat) (l1 l2 : list Z) (x : Z).
Context (Hr : at_rest w L es) (Hb : chains L !! b = Some (l1 ++ x :: l2)).

(** The end of a removal, whatever was written to the bucket before or after. *)
Lemma removed_drained o bs w1 w' t t' :
  drained o b (l1 ++ l2) x (set_buckets bs w) w1 L (fun _ => None) es ->
  w' = set_buckets (<[b := t']> (buckets w)) w1 ->
  buckets w !! b = Some t -> TtlBuckets.ttl t' = TtlBuckets.ttl t ->
  TtlBuckets.head t' = or_zero (hd_error (l1 ++ l2)) -> TtlBuckets.tail t' = or_zero (last (l1 ++ l2)) ->
  removed o b l1 l2 x w w' L es.
Proof.
  intros Hd -> Ht E1 E2 E3. pose proof Hd as [H1 H2 H3 H4 H5 H6 H7].
  split; [split| | |done|done].
  - by eapply shape_ext.
  - by rewrite held_after, (ar_held _ _ _ _ _ Hr).
  - by eapply contents_ext.
  - rewrite chains_after. eapply anchored_chain; [apply (ar_anchored _ _ _ _ _ Hr)|done|done|done|done..].
  - rewrite chains_after. intros y Hy. unfold upd_es. case_decide; [done|].
    apply (ar_idle _ _ _ _ _ Hr). intros Hin. apply Hy.
    rewrite (join_insert (chains L) b _ (l1 ++ l2) x Hb), elem_of_cons in Hin by by rewrite Permutation_middle.
    by destruct Hin.
  - intros y h Eh. eapply (unpinned_calm x (set_buckets bs w) w1); [done|apply (ar_unpinned _ _ _ _ _ Hr)|exact Eh].
  - destruct (swept_drained integrity cfg o b l1 l2 x (set_buckets bs w) w1 L _ es Hb Hd) as [S1 S2 S3 S4 S5 S6 S7 S8].
    by split.
  - apply (calm_aside x (set_buckets bs w) w1 H3).
Qed.

(** [clear_segment], and the chain's head made to follow. *)
Lemma wp_clear_and_advance (Q : option ClearOutcome -> World H -> Prop) :
  l2 <> [] ->
  (forall o w', removed o b l1 l2 x w w' L es -> Q (Some o) w') ->
  wp (o ← clear_segment integrity debug_assertions cfg x;
      match o with
      | Some o => _ ← advance_head b (last l1) (hd_error l2); mret (Some o)
      | None => mret None
      end) Q w.
Proof.
  intros Hl2 HQ. destruct (bucket_found _ _ _ _ _ Hr Hb) as (t & Et & Eth & Ett & _). apply wp_bind.
  eapply (wp_clear_segment integrity debug_assertions cfg w L (fun _ => None) es b l1 l2 x);
    [apply Hr|apply Hr|apply Hr|done|done|done|].
  intros o w' Hd. assert (buckets w' = buckets w) as Eb by apply (dn_calm _ _ _ _ _ _ _ _ _ _ _ Hd).
  assert (set_buckets (buckets w) w = w) as Ew by by destruct w.
  assert (last (l1 ++ l2) = last (l1 ++ x :: l2)) as El.
  { destruct l2 as [|y l2']; [done|]. by rewrite !last_app_cons, last_cons_cons. }
  apply wp_bind. unfold advance_head. destruct (last l1) as [p|] eqn:E1.
  - apply wp_ret, wp_ret, HQ. eapply (removed_drained o (buckets w) w' w' t t); try done.
    + by rewrite Ew.
    + rewrite list_insert_id by done. rewrite <- Eb. by destruct w'.
    + rewrite Eth. by destruct l1.
    + by rewrite Ett, El.
  - eapply wp_set_bucket; [by rewrite Eb|]. apply wp_ret, HQ.
    eapply (removed_drained o (buckets w) w' _ t (with_head (hd_error l2) t)); try done.
    + by rewrite Ew.
    + by rewrite Eb.
    + apply last_None in E1. by rewrite E1.
    + cbn [TtlBuckets.tail with_head]. by rewrite Ett, El.
Qed.
End Removal.
(** ** The dropping policies *)

(** Changes of what the heap does not look at. *)
Lemma at_rest_ext w w' L es :
  at_rest w L es -> headers w' = headers w -> datas w' = datas w -> buckets w' = buckets w ->
  hashtable w' = hashtable w -> free_queue w' = free_queue w -> spare_queue w' = spare_queue w ->
  spare_count w' = spare_count w -> admission_count w' = admission_count w -> at_rest w' L es.
Proof.
  intros [A1 A2 A3 A4 A6 A5] E1 E2 E3 E4 E5 E6 E7 E8.
  assert (forall x, header_at x w' = header_at x w) as Eh by (intros x; unfold header_at; by rewrite E1).
  split; [|done| | |done|].
  - eapply shape_ext; [done| |intros x; by rewrite Eh].
    unfold same_queues. by rewrite E1, E2, E5, E6, E7, E8.
  - by eapply contents_ext.
  - by eapply anchored_ext.
  - intros x h. rewrite Eh. apply A5.
Qed.

Definition ranking_ok w : Prop := length (ranked_segs (evict w)) = Z.to_nat (cap cfg).

Lemma header_of_at w x : header_of (headers w) x = header_at x w.
Proof. unfold header_of, Eviction.header, header_at, idx. by destruct (Z.ltb_spec (x - 1) 0), (Z.leb_spec x 0); try lia. Qed.

Lemma selected w L es :
  at_rest w L es -> ranking_ok w ->
  exists r e, Eviction.least_valuable_seg (headers w) (map TtlBuckets.head (buckets w)) now (evict w) = Some (r, e) /\
    length (ranked_segs e) = Z.to_nat (cap cfg) /\ Eviction.policy e = Eviction.policy (evict w) /\
    forall x, r = Some x -> exists h m, header_at x w = Some h /\ unpack (metadata h) = Some m /\
      state m = Sealed /\ ref_count h = 0.
Proof.
  intros Hr Hk. pose proof (ar_shape _ _ _ _ _ Hr) as Hs. destruct (sh_len _ _ _ _ Hs) as [El _].
  pose proof (sh_cap _ _ _ _ Hs) as Hcap. unfold ranking_ok in Hk.
  destruct (select_evictable (headers w) (map TtlBuckets.head (buckets w)) now (evict w)) as (r & e & E & Hsel).
  { intros E. rewrite E in El. cbn in El. lia. }
  { intros E. rewrite E in Hk. cbn in Hk. lia. }
  destruct (least_valuable_keeps _ _ _ _ _ _ E) as [E1 E2].
  exists r, e. split; [done|]. split; [congruence|]. split; [done|].
  intros x ->. destruct (Hsel x eq_refl) as (h & m & Eh & Em & Es & Ec).
  exists h, m. by rewrite <- header_of_at.
Qed.

Definition selection w : option (option Z * Eviction.Eviction) :=
  Eviction.least_valuable_seg (headers w) (map TtlBuckets.head (buckets w)) now (evict w).

(** One eviction by a policy that drops segments. *)
Definition evicted (r : unit + SegmentsError) w w' L es : Prop :=
  match r with
  | inl _ => exists b l1 l2 x, chains L !! b = Some (l1 ++ x :: l2) /\ l2 <> [] /\ pinned w x = false /\
      selection w = Some (Some x, evict w') /\
      removed Freed b l1 l2 x (set_evict (evict w') w) w' L es
  | inr e => e = NoEvictableSegments /\ selection w = Some (None, evict w') /\ w' = set_evict (evict w') w
  end.

Lemma wp_evict_dropping w L es (Q : unit + SegmentsError -> World H -> Prop) :
  at_rest w L es -> ranking_ok w ->
  (forall r w', ranking_ok w' -> Eviction.policy (evict w') = Eviction.policy (evict w) ->
     evicted r w w' L es -> Q r w') ->
  wp (evict_dropping integrity debug_assertions cfg now) Q w.
Proof.
  intros Hr Hk HQ. destruct (selected w L es Hr Hk) as (r & e & Esel & Hke & Hpe & Hx).
  unfold evict_dropping. apply wp_bind. unfold least_valuable.
  eapply wp_intro; [by rewrite Esel|]. destruct r as [x|].
  2:{ by apply wp_ret, HQ. }
  destruct (Hx x eq_refl) as (h & m & Eh & Em & Est & Erc).
  destruct (sealed_chained _ _ _ _ _ _ Hr Eh Em Est) as (b & l1 & l2 & Hb & Hl2 & Enx & Epv & Ht).
  set (w0 := set_evict e w). assert (at_rest w0 L es) as Hr0 by (by eapply at_rest_ext).
  apply wp_bind. eapply wp_lock_sealed; [exact Hr0|exact Eh|exact Em|done|done|].
  rewrite bool_decide_eq_true_2 by done.
  apply wp_bind. eapply (wp_next_seg w0); [exact Eh|done|]. apply wp_bind. eapply (wp_prev_seg w0); [exact Eh|done|].
  rewrite Enx, Epv. apply wp_bind. eapply wp_mono.
  { eapply wp_unbind, (wp_clear_and_advance w0 L es b l1 l2 x Hr0 Hb (fun o w' =>
      exists o', o = Some o' /\ removed o' b l1 l2 x w0 w' L es)); [done|]. intros o w' Hrm. by exists o. }
  cbv beta. intros [o|] w1 Hw; [|by destruct Hw as (? & ? & _)].
  apply wp_bind. eapply wp_mono; [eapply wp_unbind; exact Hw|]. cbv beta. intros _ w' (o' & [= <-] & Hrm).
  assert (evict w' = e) as Ee.
  { pose proof (rm_aside _ _ _ _ _ _ _ _ _ Hrm) as Ea. unfold aside in Ea. by injection Ea. }
  assert (pinned w x = false) as Hp by (unfold pinned; by rewrite Eh, Erc).
  assert (o = Freed) as ->.
  { rewrite (rm_outcome _ _ _ _ _ _ _ _ _ Hrm). change (pinned w0 x) with (pinned w x). by rewrite Hp. }
  apply wp_ret, HQ.
  - unfold ranking_ok. by rewrite Ee.
  - by rewrite Ee.
  - exists b, l1, l2, x. rewrite Ee. done.
Qed.

(** ** [drain_chain] *)

Definition cut_bucket x (nx pv : option Z) (t : TtlBucket) : TtlBucket :=
  let t := if TtlBuckets.head t =? x then with_head nx t else t in
  if TtlBuckets.tail t =? x then with_tail pv t else t.

Definition service_count (o : ClearOutcome) : Z :=
  match o with
  | Freed => 1
  | Deferred => 0
  end.

Section DrainHead.
Context (w : World H) (L : Layout) (es : Z -> list Entry) (b : nat) (l2 : list Z) (x : Z).
Context (Hr : at_rest w L es) (Hb : chains L !! b = Some (x :: l2)).

Let w1 : World H := edit x (restate Draining) w.

Lemma drain_claim : exists h m, header_at x w = Some h /\ unpack (metadata h) = Some m /\
  state m = rest_state l2 /\ next m = hd_error l2 /\ prev m = None.
Proof.
  destruct (sh_chain _ _ _ _ (ar_shape _ _ _ _ _ Hr) b _ [] x l2 Hb eq_refl) as (h & m & ? & ? & ? & ? & ?).
  by exists h, m.
Qed.

Lemma wp_cut_bucket w' t (Q : unit -> World H -> Prop) nx pv :
  buckets w' !! b = Some t -> Q tt (set_buckets (<[b := cut_bucket x nx pv t]> (buckets w')) w') ->
  wp (h ← bucket_field b TtlBuckets.head;
      _ ← (if h =? x then set_bucket b (with_head nx) else mret tt);
      t ← bucket_field b TtlBuckets.tail;
      if t =? x then set_bucket b (with_tail pv) else mret tt) Q w'.
Proof.
  intros Et HQ. apply wp_bind. eapply wp_bucket_field; [exact Et|]. apply wp_bind.
  assert (forall t1 w2, buckets w2 !! b = Some t1 ->
    Q tt (set_buckets (<[b := if TtlBuckets.tail t1 =? x then with_tail pv t1 else t1]> (buckets w2)) w2) ->
    wp (t ← bucket_field b TtlBuckets.tail;
        if t =? x then set_bucket b (with_tail pv) else mret tt) Q w2) as Htail.
  { intros t1 w2 Et1 HQ1. apply wp_bind. eapply wp_bucket_field; [exact Et1|].
    destruct (TtlBuckets.tail t1 =? x); [by eapply wp_set_bucket|]. apply wp_ret.
    rewrite list_insert_id in HQ1 by done. by destruct w2. }
  unfold cut_bucket in HQ. destruct (TtlBuckets.head t =? x).
  - eapply wp_set_bucket; [exact Et|]. eapply Htail.
    + cbn. by rewrite list_lookup_insert_eq by (by eapply lookup_lt_Some).
    + cbn [buckets set_buckets]. by rewrite list_insert_insert_eq.
  - apply wp_ret. by eapply Htail.
Qed.

Lemma cut_bucket_ends t :
  TtlBuckets.head t = or_zero (hd_error (x :: l2)) -> TtlBuckets.tail t = or_zero (last (x :: l2)) ->
  TtlBuckets.head (cut_bucket x (hd_error l2) None t) = or_zero (hd_error l2) /\
  TtlBuckets.tail (cut_bucket x (hd_error l2) None t) = or_zero (last l2) /\
  TtlBuckets.ttl (cut_bucket x (hd_error l2) None t) = TtlBuckets.ttl t.
Proof.
  intros Eh Et. pose proof (chain_nodup _ _ _ _ _ _ (ar_shape _ _ _ _ _ Hr) Hb) as [Hn _]%NoDup_cons.
  unfold cut_bucket. cbn in Eh. rewrite Eh, Z.eqb_refl. cbn [TtlBuckets.tail with_head]. rewrite Et.
  destruct l2 as [|y l3]; [cbn; by rewrite Z.eqb_refl|]. rewrite last_cons_cons.
  destruct (last (y :: l3)) as [z|] eqn:El; [|by apply last_None in El].
  change (or_zero (Some z)) with z.
  destruct (Z.eqb_spec z x) as [->|]; [|by cbn [TtlBuckets.tail with_head]; rewrite Et, last_cons_cons, El].
  exfalso. by apply Hn, last_in.
Qed.

Lemma wp_drain_one (Q : Z -> World H -> Prop) :
  (forall o w', removed o b [] l2 x w w' L es -> Q (service_count o) w') ->
  wp (drain_one integrity debug_assertions cfg b x (hd_error l2) None) Q w1.
Proof.
  intros HQ. destruct drain_claim as (h & m & Eh & Em & _).
  destruct (claim_frame integrity cfg w L (fun _ => None) es b [] l2 x) as (Hs1 & Hc1 & Hu1 & Ho); [apply Hr..|done|].
  fold w1 in Hs1, Hc1, Hu1, Ho.
  destruct (bucket_found _ _ _ _ _ Hr Hb) as (t & Et & Eth & Ett & _).
  destruct (cut_bucket_ends t Eth Ett) as (C1 & C2 & C3).
  set (bs := <[b := cut_bucket x (hd_error l2) None t]> (buckets w)).
  unfold drain_one. apply wp_bind. eapply wp_wait_pins; [exact Hu1|by eapply claim_header|].
  apply wp_bind. eapply wp_mono.
  { eapply wp_unbind. eapply (wp_clear_then integrity debug_assertions cfg w1 L _ es b [] l2 x Hs1 Hc1 Hb)
      with (bs := bs) (k := service_count) (Q := Q)
           (p := h ← bucket_field b TtlBuckets.head;
                 _ ← (if h =? x then set_bucket b (with_head (hd_error l2)) else mret tt);
                 t ← bucket_field b TtlBuckets.tail;
                 if t =? x then set_bucket b (with_tail None) else mret tt).
    - done.
    - unfold upd. by rewrite decide_True.
    - intros h0 hd' t' Q' _ HQ'. eapply wp_cut_bucket; [exact Et|exact HQ'].
    - intros o w' Hd. apply HQ.
      assert (drained o b ([] ++ l2) x (set_buckets bs w) w' L (fun _ => None) es) as Hd'.
      { eapply drained_only_links; [|exact Hb| |exact Hd|done].
        - eapply shape_ext; [apply Hr|done|done].
        - apply (only_links_restate x Draining (set_buckets bs w)). }
      eapply (removed_drained w L es b [] l2 x Hr Hb o bs w' w' t (cut_bucket x (hd_error l2) None t)); try done.
      assert (buckets w' = bs) as Eb by apply (dn_calm _ _ _ _ _ _ _ _ _ _ _ Hd').
      fold bs. rewrite <- Eb. by destruct w'. }
  cbv beta. intros _ w2 Hw%wp_unbind%wp_unbind. apply wp_bind. eapply wp_mono; [exact Hw|].
  cbv beta. intros hh w3 Hw3%wp_unbind. apply wp_bind. eapply wp_mono; [exact Hw3|].
  cbv beta. intros _ w4 Hw4%wp_unbind. apply wp_bind. eapply wp_mono; [exact Hw4|].
  cbv beta. intros tt' w5 Hw5. apply wp_bind. eapply wp_mono; [exact Hw5|]. done.
Qed.
End DrainHead.

(** Whether the time of segment [x] is over. *)
Definition over w x : bool :=
  match header_at x w with
  | Some h => negb (now <? create_at h + SegHeader.ttl h)
  | None => false
  end.

Lemma over_erase w w' x : erase <$> header_at x w' = erase <$> header_at x w -> over w' x = over w x.
Proof.
  unfold over. destruct (header_at x w') as [h'|], (header_at x w) as [h|]; try done.
  intros E%(inj Some). change (negb (now <? create_at (erase h') + SegHeader.ttl (erase h')) =
    negb (now <? create_at (erase h) + SegHeader.ttl (erase h))). by rewrite E.
Qed.

(** Where a walk that drains stops. *)
Definition drained_to (expire : bool) w (xs rest : list Z) : Prop :=
  if expire then Forall (fun x => over w x = true) xs /\
    forall y, hd_error rest = Some y -> over w y = false
  else rest = [].

Definition freed_of w (xs : list Z) : Z := Z.of_nat (length (List.filter (fun x => negb (pinned w x)) xs)).

(** The heap after the segments [xs] at the head of bucket [b] are drained. *)
Record drained_chain (expire : bool) b xs rest w w' L L' es es' : Prop := {
  dc_rest : at_rest w' L' es';
  dc_swept : swept xs w w' L L' es es';
  dc_chains : chains L' = <[b := rest]> (chains L);
  dc_aside : aside w' = aside w;
  dc_stop : drained_to expire w xs rest
}.

Lemma swept_expire xs w w' L L' es es' y : swept xs w w' L L' es es' -> y ∉ xs -> over w' y = over w y.
Proof. intros Hs Hy. by apply over_erase, (sw_headers _ _ _ _ _ _ _ _ Hs). Qed.

Lemma swept_more xs w w' L L' es es' y : swept xs w w' L L' es es' -> pinned w' y = pinned w y.
Proof. intros Hs. by apply pinned_pins, (sw_pins _ _ _ _ _ _ _ _ Hs). Qed.

Lemma freed_of_cons w w1 x o xs :
  o = (if pinned w x then Deferred else Freed) -> (forall y, pinned w1 y = pinned w y) ->
  service_count o + freed_of w1 xs = freed_of w (x :: xs).
Proof.
  intros -> E. unfold freed_of. rewrite (List.filter_ext (fun y => negb (pinned w1 y)) (fun y => negb (pinned w y))).
  - cbn. destruct (pinned w x); cbn; lia.
  - intros y. by rewrite E.
Qed.

Lemma wp_view_some w L es x h (Q : option Segment -> World H -> Prop) :
  at_rest w L es -> header_at x w = Some h -> (forall s, Q (Some s) w) -> wp (view integrity x) Q w.
Proof.
  intros Hr Eh HQ. pose proof (header_range _ _ _ _ _ _ (ar_shape _ _ _ _ _ Hr) Eh) as Hx.
  destruct (view_some integrity cfg w x _ (c_items _ _ _ _ (ar_contents _ _ _ _ _ Hr) x Hx) ltac:(lia))
    as (h' & d & _ & _ & _ & _ & Ev).
  eapply wp_intro; [exact Ev|]. apply HQ.
Qed.

(** The claim of either state a chained segment rests in. *)
Lemma wp_claim_resting w x h m (Q : bool -> World H -> Prop) :
  header_at x w = Some h -> unpack (metadata h) = Some m -> state m = Sealed \/ state m = Live ->
  Q true (edit x (restate Draining) w) ->
  wp (sealed ← on x (cas_metadata Sealed Draining None None);
      if sealed : bool then mret true else on x (cas_metadata Live Draining None None)) Q w.
Proof.
  intros Eh Em Est HQ. apply wp_bind. destruct (decide (state m = Sealed)) as [Es|Es].
  - eapply wp_claim; [done..|]. by apply wp_ret.
  - eapply wp_unclaimed; [done..|]. eapply wp_claim; [done..| |done]. by destruct Est.
Qed.

Lemma wp_drain_from expire b l fuel freed w L es (Q : Z -> World H -> Prop) :
  at_rest w L es -> chains L !! b = Some l -> (length l < fuel)%nat ->
  (forall xs rest w' L' es', l = xs ++ rest -> drained_chain expire b xs rest w w' L L' es es' ->
     Q (freed + freed_of w xs) w') ->
  wp (drain_from integrity debug_assertions cfg now fuel b expire freed (hd_error l)) Q w.
Proof.
  revert l freed w L es Q. induction fuel as [|fuel IH]; intros l freed w L es Q Hr Hb Hf HQ; [lia|].
  destruct l as [|x l2]; cbn [drain_from hd_error].
  { apply wp_ret. rewrite <- (Z.add_0_r freed). apply (HQ [] [] w L es); [done|].
    split; [done|apply (swept_refl cfg)|by rewrite list_insert_id|done|by destruct expire]. }
  destruct (drain_claim w L es b l2 x Hr Hb) as (h & m & Eh & Em & Est & Enx & Epv).
  apply wp_bind. eapply wp_view_some; [done..|]. intros s. apply wp_bind, (wp_lift _ _ _ _ eq_refl).
  apply wp_bind.
  assert (forall Q' : bool -> World H -> Prop, Q' (if expire then over w x else true) w ->
    wp (if expire then expired now x else mret true) Q' w) as Hgo.
  { intros Q' HQ'. destruct expire; [|by apply wp_ret]. unfold expired. apply wp_bind. eapply wp_field; [exact Eh|].
    apply wp_bind. eapply wp_field; [exact Eh|]. apply wp_ret. unfold over in HQ'. by rewrite Eh in HQ'. }
  apply Hgo. destruct (if expire then over w x else true) eqn:Ego; cbn [negb].
  2:{ apply wp_ret. rewrite <- (Z.add_0_r freed).
      apply (HQ [] (x :: l2) w L es); [done|].
      split; [done|apply (swept_refl cfg)|by rewrite list_insert_id|done|].
      destruct expire; [|done]. split; [done|]. by intros y [= <-]. }
  apply wp_bind. eapply wp_next_seg; [done..|]. apply wp_bind. eapply wp_prev_seg; [done..|]. rewrite Enx, Epv.
  apply wp_bind. eapply wp_mono.
  { eapply wp_unbind, (wp_claim_resting w x h m (fun a w' => a = true /\ w' = edit x (restate Draining) w)); try done.
    rewrite Est. destruct l2; cbn; auto. }
  cbv beta. intros sealed w0 Hw. apply wp_bind. eapply wp_mono; [exact Hw|]. cbv beta. intros ? ? [-> ->].
  apply wp_bind, wp_debug_check; [done|]. cbn [negb].
  apply wp_bind. eapply (wp_drain_one w L es b l2 x Hr Hb). intros o w1 Hrm.
  destruct Hrm as [R1 R2 R3 R4 _]. pose proof (chains_after o b ([] ++ l2) x L) as Ec.
  assert (chains (layout_after o b ([] ++ l2) x L) !! b = Some l2) as Hb1.
  { rewrite Ec. apply list_lookup_insert_eq. by eapply lookup_lt_Some. }
  refine (IH l2 _ w1 _ _ _ R1 Hb1 _ _); [cbn in Hf; lia|].
  intros xs rest w' L' es' -> [D1 D2 D3 D4 D5].
  rewrite <- Z.add_assoc, (freed_of_cons w w1 x o xs R4) by (intros y; by eapply swept_more).
  apply (HQ (x :: xs) rest w' L' es'); [done|]. split; [done| | | |].
  - eapply (swept_trans cfg [x] xs); [by eapply chains_nodup; apply Hr|done|done].
  - by rewrite D3, Ec, list_insert_insert_eq.
  - by rewrite D4.
  - pose proof (chain_nodup _ _ _ _ _ _ (ar_shape _ _ _ _ _ Hr) Hb) as [Hn _]%NoDup_cons.
    assert (forall y, y ∈ xs ++ rest -> over w1 y = over w y) as Ee.
    { intros y Hy. eapply swept_expire; [done|]. set_solver. }
    destruct expire; [|done]. destruct D5 as [F1 F2]. split.
    + constructor; [done|]. rewrite Forall_forall in F1 |- *. intros y Hy. rewrite <- Ee; [auto|set_solver].
    + intros y Hy. rewrite <- Ee; [auto|]. apply head_in in Hy. set_solver.
Qed.

Lemma wp_drain_chain expire b l w L es (Q : Z -> World H -> Prop) :
  at_rest w L es -> chains L !! b = Some l ->
  (forall xs rest w' L' es', l = xs ++ rest -> drained_chain expire b xs rest w w' L L' es es' ->
     Q (freed_of w xs) w') ->
  wp (drain_chain integrity debug_assertions cfg now b expire) Q w.
Proof.
  intros Hr Hb HQ. destruct (bucket_found _ _ _ _ _ Hr Hb) as (t & Et & Eth & _).
  pose proof (ar_shape _ _ _ _ _ Hr) as Hs.
  assert (forall y, y ∈ l -> 1 <= y <= cap cfg) as Hl.
  { intros y Hy. eapply accounted_range; [done|]. by eapply chained_accounted. }
  unfold drain_chain. apply wp_bind. eapply wp_bucket_field; [exact Et|]. rewrite Eth.
  assert (nonzero (or_zero (hd_error l)) = hd_error l) as ->.
  { destruct l as [|y l']; [done|]. cbn. unfold nonzero.
    rewrite (proj2 (Z.eqb_neq y 0)); [done|]. pose proof (Hl y ltac:(by left)). lia. }
  eapply wp_drain_from; [done..| |exact HQ]. unfold chain_fuel.
  pose proof (chain_nodup _ _ _ _ _ _ Hs Hb) as Hn.
  assert (length l <= length (ids (cap cfg)))%nat as Hlen.
  { apply submseteq_length, NoDup_submseteq; [done|]. intros y Hy%Hl. apply in_ids. lia. }
  unfold ids in Hlen. rewrite length_seqZ in Hlen. lia.
Qed.

(** ** [expire] and [clear] *)

(** The heap after the buckets [bs] are drained, of the segments [xs]. *)
Record drained_buckets (expire : bool) (bs : list nat) xs w w' L L' es es' : Prop := {
  db_rest : at_rest w' L' es';
  db_swept : swept xs w w' L L' es es';
  db_chain c l : chains L !! c = Some l -> c ∈ bs ->
    exists ys rest, l = ys ++ rest /\ chains L' !! c = Some rest /\ drained_to expire w ys rest;
  db_other c : c ∉ bs -> chains L' !! c = chains L !! c;
  db_aside : aside w' = aside w
}.

Lemma drained_to_ext expire w w' xs rest :
  (forall y, y ∈ xs ++ rest -> over w' y = over w y) -> drained_to expire w' xs rest -> drained_to expire w xs rest.
Proof.
  intros E. destruct expire; [|done]. intros [F1 F2]. split.
  - rewrite Forall_forall in F1 |- *. intros y Hy. rewrite <- E; [auto|set_solver].
  - intros y Hy. rewrite <- E; [auto|]. apply head_in in Hy. set_solver.
Qed.

Lemma freed_of_app w xs ys : freed_of w (xs ++ ys) = freed_of w xs + freed_of w ys.
Proof. unfold freed_of. rewrite List.filter_app, length_app. lia. Qed.

Lemma freed_of_pins w w' xs : (forall y, pinned w' y = pinned w y) -> freed_of w' xs = freed_of w xs.
Proof. intros E. unfold freed_of. do 2 f_equal. apply List.filter_ext. intros y. by rewrite E. Qed.

Lemma wp_drain_buckets expire bs w L es (Q : Z -> World H -> Prop) :
  at_rest w L es -> NoDup bs -> (forall b, b ∈ bs -> (b < length (chains L))%nat) ->
  (forall xs w' L' es', drained_buckets expire bs xs w w' L L' es es' -> Q (freed_of w xs) w') ->
  wp (drain_buckets integrity debug_assertions cfg now expire bs) Q w.
Proof.
  revert w L es Q. induction bs as [|b bs IH]; intros w L es Q Hr Hn Hlt HQ; cbn [drain_buckets].
  { apply wp_ret. apply (HQ [] w L es). split; [done|apply (swept_refl cfg)| |done|done]. by intros ? ? _ ?%not_elem_of_nil. }
  apply NoDup_cons in Hn as [Hb0 Hn].
  destruct (lookup_lt_is_Some_2 (chains L) b) as [l Hb]; [apply Hlt; by left|].
  apply wp_bind. eapply wp_drain_chain; [done..|]. intros xs rest w1 L1 es1 -> [D1 D2 D3 D4 D5].
  assert (forall c, c <> b -> chains L1 !! c = chains L !! c) as Eo.
  { intros c Hc. by rewrite D3, list_lookup_insert_ne. }
  apply wp_bind. eapply IH; [exact D1|done|..].
  { intros c Hc. rewrite D3, length_insert. apply Hlt. by right. }
  intros ys w2 L2 es2 [B1 B2 B3 B4 B5]. apply wp_ret.
  rewrite (freed_of_pins w w1) by (intros y; by eapply swept_more). rewrite <- freed_of_app.
  apply (HQ (xs ++ ys) w2 L2 es2). split; [done| | | |].
  - eapply swept_trans; [by eapply chains_nodup; apply Hr|done|done].
  - intros c l Hc [->|Hin]%elem_of_cons.
    + rewrite Hb in Hc. injection Hc as <-. exists xs, rest. split; [done|]. split; [|done].
      rewrite B4 by done. rewrite D3. apply list_lookup_insert_eq. by eapply lookup_lt_Some.
    + assert (c <> b) as Hcb by congruence.
      destruct (B3 c l) as (zs & rest' & -> & ? & Hd); [by rewrite Eo|done|].
      exists zs, rest'. split; [done|]. split; [done|]. eapply drained_to_ext; [|exact Hd].
      intros y Hy. eapply swept_expire; [done|]. intros Hyx. apply Hcb.
      eapply (chain_unique _ _ _ _ _ _ _ _ y (ar_shape _ _ _ _ _ Hr) Hc Hb); [done|].
      rewrite elem_of_app. by left.
  - intros c Hc. rewrite B4, Eo; [done| |]; intros E; apply Hc; [subst; by left|by right].
  - by rewrite B5.
Qed.

Lemma wp_expire w L es (Q : Z -> World H -> Prop) :
  at_rest w L es ->
  (last_expired w = now -> Q 0 (set_last_expired now w)) ->
  (forall xs w' L' es', last_expired w <> now ->
     drained_buckets true (seq 0 (length (buckets w))) xs (set_last_expired now w) w' L L' es es' ->
     Q (freed_of w xs) w') ->
  wp (expire integrity debug_assertions cfg now) Q w.
Proof.
  intros Hr H0 H1. unfold expire. apply wp_bind, wp_gets, wp_bind, wp_modify.
  assert (at_rest (set_last_expired now w) L es) as Hr0 by (by eapply at_rest_ext).
  destruct (Z.eqb_spec (last_expired w) now) as [E|E]; [by apply wp_ret, H0|].
  apply wp_bind. unfold all_buckets. apply wp_gets.
  destruct (an_len _ _ (ar_anchored _ _ _ _ _ Hr)) as [Eb Ec].
  eapply wp_drain_buckets; [exact Hr0|apply NoDup_seq| |].
  - intros c Hc%elem_of_seq. cbn [buckets set_last_expired] in Hc. lia.
  - intros xs w' L' es' Hd. by eapply H1.
Qed.

(** ** [evict], by the policies that drop segments *)

Definition drops : bool :=
  match Segments.policy cfg with
  | Eviction.Merge _ _ _ | S3Fifo _ => false
  | _ => true
  end.

(** The policy in charge finds no segment to drop, in the heap it leaves. *)
Definition at_loss w : Prop :=
  Segments.policy cfg = PolicyNone \/
  exists e, Eviction.policy e = Eviction.policy (evict w) /\
    Eviction.least_valuable_seg (headers w) (map TtlBuckets.head (buckets w)) now e = Some (None, evict w).

(** The evictions that start and end. *)
Definition evictions w : Z * Z := (evicts_started w, evicts_finished w).

Record evicts (r : unit + SegmentsError) xs w w' L L' es es' : Prop := {
  ev_rest : at_rest w' L' es';
  ev_swept : swept xs w w' L L' es es';
  ev_ranking : ranking_ok w';
  ev_freed : match r with
             | inl _ => List.filter (fun x => negb (pinned w x)) xs <> []
             | inr _ => List.filter (fun x => negb (pinned w x)) xs = [] /\ at_loss w'
             end;
  ev_policy : Eviction.policy (evict w') = Eviction.policy (evict w);
  ev_evictions : evictions w' = (u64 (evicts_started w + 1), u64 (evicts_finished w + 1))
}.

(** What neither the heap nor the chains depend on. *)
Lemma swept_ext xs w1 w w1' w' L L' es es' :
  (forall y, header_at y w = header_at y w1) -> hashtable w = hashtable w1 -> free_queue w = free_queue w1 ->
  spare_queue w = spare_queue w1 -> spare_count w = spare_count w1 -> freed w = freed w1 ->
  (forall y, header_at y w' = header_at y w1') -> hashtable w' = hashtable w1' -> free_queue w' = free_queue w1' ->
  spare_queue w' = spare_queue w1' -> spare_count w' = spare_count w1' -> freed w' = freed w1' ->
  swept xs w1 w1' L L' es es' -> swept xs w w' L L' es es'.
Proof.
  intros E1 E2 E3 E4 E5 E6 F1 F2 F3 F4 F5 F6 [S1 S2 S3 S4 S5 S6 S7 S8].
  assert (forall y, pinned w y = pinned w1 y) as Ep by (intros y; unfold pinned; by rewrite E1).
  assert (forall y l, in_segment y w l = in_segment y w1 l) as Ei by (intros y l; unfold in_segment; by rewrite E1).
  split; try done.
  - by rewrite (List.filter_ext _ _ Ep).
  - rewrite (List.filter_ext _ (fun x => negb (pinned w1 x))) by (intros y; by rewrite Ep). by rewrite E3, E4, F3, F4.
  - intros k a. rewrite F2, S5, E2. unfold gone. by rewrite (existsb_ext_in (fun x => in_segment x w a) (fun x => in_segment x w1 a)) by auto.
  - intros y Hy. rewrite E1, F1. auto.
  - intros y. rewrite E1, F1. auto.
  - rewrite (List.filter_ext _ (fun x => negb (pinned w1 x))) by (intros y; by rewrite Ep).
    unfold stocked in *. by rewrite E3, E4, E5, E6, F3, F4, F5, F6.
Qed.

Lemma wp_evict_policy (hash_key : bytes -> Z) w L es (Q : unit + SegmentsError -> World H -> Prop) :
  drops = true -> at_rest w L es -> ranking_ok w ->
  (forall r xs w' L' es', at_rest w' L' es' -> swept xs w w' L L' es es' -> ranking_ok w' ->
     evictions w' = evictions w -> Eviction.policy (evict w') = Eviction.policy (evict w) ->
     match r with
     | inl _ => List.filter (fun x => negb (pinned w x)) xs <> []
     | inr _ => List.filter (fun x => negb (pinned w x)) xs = [] /\ at_loss w'
     end -> Q r w') ->
  wp (evict_policy integrity debug_assertions hash_key cfg now) Q w.
Proof.
  intros Hd Hr Hk HQ.
  assert (wp (evict_dropping integrity debug_assertions cfg now) Q w) as Hdrop.
  { eapply wp_evict_dropping; [done..|]. intros r w' Hk' Hp' He. destruct r as [[]|e].
    - destruct He as (b & l1 & l2 & x & Hb & Hl & Hp & Hsel & [R1 R2 R3 R4 R5]).
      apply (HQ _ [x] w' _ _ R1).
      + by eapply (swept_ext [x] (set_evict (evict w') w) w w').
      + done.
      + unfold aside in R3. unfold evictions. by injection R3 as _ -> ->.
      + done.
      + cbn. by rewrite Hp.
    - destruct He as (-> & Hsel & ->). apply (HQ _ [] _ L es).
      + by eapply at_rest_ext.
      + eapply swept_ext; [..|apply (swept_refl cfg w)]; done.
      + done.
      + done.
      + done.
      + split; [done|]. right. by exists (evict w). }
  unfold evict_policy, drops in *. destruct (Segments.policy cfg) eqn:Ep; try done.
  apply wp_ret, (HQ _ [] w L es); try done; [apply swept_refl|]. split; [done|by left].
Qed.

Lemma wp_evict_one (hash_key : bytes -> Z) w L es (Q : unit + SegmentsError -> World H -> Prop) :
  drops = true -> at_rest w L es -> ranking_ok w ->
  (forall r xs w' L' es', evicts r xs w w' L L' es es' -> Q r w') ->
  wp (evict_one integrity debug_assertions hash_key cfg now) Q w.
Proof.
  intros Hd Hr Hk HQ. unfold evict_one. apply wp_bind, wp_modify.
  set (w0 := set_evictions (u64 (evicts_started w + 1)) (evicts_finished w) w).
  assert (at_rest w0 L es) as Hr0 by (by eapply at_rest_ext).
  assert (forall xs w1 L1 es1, at_rest w1 L1 es1 -> swept xs w w1 L L1 es es1 -> ranking_ok w1 ->
    evictions w1 = evictions w0 -> Eviction.policy (evict w1) = Eviction.policy (evict w) ->
    wp (r ← (if 0 <? freed_of w xs then mret (inl tt) else evict_policy integrity debug_assertions hash_key cfg now);
        _ ← modify (fun w => set_evictions (evicts_started w) (u64 (evicts_finished w + 1)) w);
        mret r) Q w1) as Hrest.
  { intros xs w1 L1 es1 Hr1 Hs1 Hk1 He1 Hp1.
    assert (forall r ys w2 L2 es2, at_rest w2 L2 es2 -> swept (xs ++ ys) w w2 L L2 es es2 -> ranking_ok w2 ->
      evictions w2 = evictions w0 -> Eviction.policy (evict w2) = Eviction.policy (evict w) ->
      match r with
      | inl _ => List.filter (fun x => negb (pinned w x)) (xs ++ ys) <> []
      | inr _ => List.filter (fun x => negb (pinned w x)) (xs ++ ys) = [] /\ at_loss w2
      end -> Q r (set_evictions (evicts_started w2) (u64 (evicts_finished w2 + 1)) w2)) as HQ'.
    { intros r ys w2 L2 es2 Hr2 Hs2 Hk2 He2 Hp2 Hf2. apply (HQ r (xs ++ ys) _ L2 es2).
      unfold evictions, w0 in He2. cbn in He2. injection He2 as E1 E2. split; try done.
      - by eapply at_rest_ext.
      - by eapply (swept_ext _ w w w2).
      - unfold evictions. cbn. by rewrite E1, E2. }
    apply wp_bind. destruct (Z.ltb_spec 0 (freed_of w xs)) as [Hn|Hn]; unfold freed_of in Hn.
    - apply wp_ret. apply wp_bind, wp_modify, wp_ret. apply (HQ' (inl tt) [] w1 L1 es1); rewrite ?app_nil_r; try done.
      intros E. rewrite E in Hn. cbn in Hn. lia.
    - assert (List.filter (fun x => negb (pinned w x)) xs = []) as Hnil.
      { destruct (List.filter _ xs); [done|cbn in Hn; lia]. }
      eapply wp_evict_policy; [done..|]. intros r ys w2 L2 es2 Hr2 Hs2 Hk2 He2 Hp2 Hf2.
      apply wp_bind, wp_modify, wp_ret. apply (HQ' r ys w2 L2 es2); try done.
      + eapply swept_trans; [by eapply chains_nodup; apply Hr|done|done].
      + congruence.
      + congruence.
      + rewrite List.filter_app, Hnil. cbn [app].
        rewrite <- (List.filter_ext (fun x => negb (pinned w1 x))); [done|]. intros y. f_equal. by eapply swept_more. }
  apply wp_bind. eapply wp_expire; [exact Hr0| |].
  - intros _. apply (Hrest [] _ L es); [by eapply at_rest_ext| |done..].
    eapply swept_ext; [..|apply (swept_refl cfg w)]; done.
  - intros xs w1 L1 es1 _ [B1 B2 B3 B4 B5]. apply (Hrest xs w1 L1 es1).
    + done.
    + by eapply (swept_ext xs (set_last_expired now w0) w w1).
    + unfold aside in B5. injection B5 as E _ _ _. unfold ranking_ok. by rewrite E.
    + unfold aside in B5. unfold evictions. by injection B5 as _ _ -> ->.
    + unfold aside in B5. by injection B5 as -> _ _ _.
Qed.
End Evict.
