(* ===== verification/HeapRemove.v ===== *)
(** * Unlinked items taken out

    [remove_at], under a remover pin of the item's segment: the item leaves the
    counters, and a sealed segment that has no item left is cleared at once.
    (Under [Merge] it may start a compaction instead, which this file leaves
    out.) *)
From S2P Require Import Prelude Packing Atomics HashIface TtlBuckets Eviction KvItem KvItemSpec SegState SegHeader SegHeaderSpec.
From S2P Require Import Segment SegmentSpec Segments HeapRules HeapShape HeapContents HeapDrain HeapClear HeapItems HeapEvict.

Section Headers.
Implicit Types (h : SegmentHeader) (m : Metadata).

Lemma run_try_pin_remover h m :
  unpack (metadata h) = Some m -> state_is_removable (state m) = true ->
  run try_pin_remover h = Some (true, with_active_removers (u32 (active_removers h + 1)) h).
Proof.
  intros Em Es. apply seq_run_run. unfold try_pin_remover.
  eapply seq_bind; [by apply seq_load_metadata|]. rewrite Es. cbn [negb].
  eapply seq_bind; [apply seq_fetch|]. eapply seq_bind; [by apply (seq_load_metadata _ m)|].
  rewrite Es. cbn [negb]. apply seq_ret.
Qed.
End Headers.

(** The header of a segment whose remover has taken out an item of [n] bytes. *)
Definition taken_out (n : Z) (h : SegmentHeader) : SegmentHeader :=
  with_active_removers (u32 (active_removers h - 1)) (debited n h).

Section Remove.
Context (integrity debug_assertions : bool).
Context {H : Type} `{LH : LawfulHashtable H} (cfg : Config) (now : Z) (hash_key : bytes -> Z).
Implicit Types (w : World H) (x : Z) (L : Layout) (es : Z -> list Entry) (e : Entry).

Abbreviation at_rest := (at_rest integrity cfg).
Abbreviation size_of := (entry_size integrity).

(** The segments of the chains can be read, and items taken out of them. *)
Lemma chained_header w L es x :
  at_rest w L es -> x ∈ mjoin (chains L) ->
  exists h m, header_at x w = Some h /\ unpack (metadata h) = Some m /\
    is_readable (state m) = true /\ state_is_removable (state m) = true.
Proof.
  intros Hr Hx. apply list_elem_of_join in Hx as (l & Hx & [b Hb]%list_elem_of_lookup).
  apply list_elem_of_split in Hx as (l1 & l2 & ->).
  destruct (sh_chain _ _ _ _ (ar_shape _ _ _ _ _ Hr) _ _ _ _ _ Hb eq_refl) as (h & m & Eh & Em & Es & _).
  exists h, m. split; [done|]. split; [done|]. rewrite Es. by destruct l2.
Qed.

Lemma wp_resolve w x g off h l (Q : option (Z * Z) -> World H -> Prop) :
  1 <= x <= cap cfg -> header_at x w = Some h -> Location.issuable x g off ->
  l = Location.pack_location x g off -> generation h = g ->
  Q (Some (x, off)) w -> wp (resolve cfg l) Q w.
Proof.
  intros Hx Eh Hi -> Eg HQ. destruct (Location.pack_unpack_location _ _ _ Hi) as (Eu & Et & _).
  unfold resolve. rewrite Eu, (proj2 (Z.eqb_neq x 0)), (proj2 (Z.ltb_ge _ _)) by lia.
  apply wp_bind. eapply wp_field; [exact Eh|]. apply wp_ret.
  unfold tag_matches_header. by rewrite Et, Eg, Z.eqb_refl.
Qed.

(** The item at [off] of segment [x], with the segment as it is under the pin. *)
Record removable w x off e (h : SegmentHeader) (d : bytes) : Prop := {
  rb_range : 1 <= x <= cap cfg;
  rb_header : header_at x w = Some h;
  rb_data : datas w !! idx x = Some d;
  rb_magic : check_magic integrity (mkSegment h d) = true;
  rb_ok : entry_ok e;
  rb_stored : stored integrity e (drop (Z.to_nat off) d);
  rb_offset : off <= max_item_offset integrity (mkSegment h d);
  rb_items : 1 <= live_items h < 2 ^ 31;
  rb_bytes : size_of e <= live_bytes h < 2 ^ 31;
  rb_issuable : Location.issuable x (generation h) off
}.

(** An item of a consistent segment can be removed, also when it was rewritten
    and another was added behind. *)
Lemma removable_item w x off e e' t hd d hd' d' (es0 : list Entry) :
  seg_ok integrity t (mkSegment hd d) es0 0 0 -> (off, e) ∈ places integrity (first_offset integrity) es0 ->
  live t (mkSegment hd d) (off, e) = true -> id hd = x -> 1 <= x <= cap cfg ->
  header_at x w = Some hd' -> datas w !! idx x = Some d' -> blen d' = blen d ->
  check_magic integrity (mkSegment hd' d') = true ->
  entry_ok e' -> stored integrity e' (drop (Z.to_nat off) d') -> size_of e' = size_of e ->
  generation hd' = generation hd -> write_offset hd <= write_offset hd' ->
  live_items hd <= live_items hd' <= live_items hd + 1 ->
  live_bytes hd <= live_bytes hd' <= live_bytes hd + 8388608 ->
  removable w x off e' hd' d'.
Proof.
  intros Hs Hp Hl Ei Hx Eh Ed Hb Hm Hok Hst Esz Eg Hwo Hli Hlb.
  destruct (live_counters _ _ _ _ _ _ _ Hs Hp Hl) as (B1 & B2 & B3).
  destruct (seg_counts _ _ _ _ _ _ Hs) as (C1 & C2 & C3).
  destruct (ok_items _ _ _ _ _ _ Hs) as [D1 _], (ok_size _ _ _ _ _ _ Hs) as [D2 _].
  destruct (first_bounds integrity) as [F1 _].
  destruct (place_in _ _ _ _ _ _ _ Hs Hp) as (P1 & _ & P2 & _). destruct (ok_end _ _ _ _ _ _ Hs) as [P3 _].
  pose proof (entry_size_bound integrity e) as (_ & P4 & _).
  pose proof (place_issuable _ _ _ _ _ _ _ Hs Hp) as Hi. cbn [header data fst snd] in *.
  split; try done.
  - unfold max_item_offset in *. cbn [header data] in *. rewrite Hb. repeat case_bool; lia.
  - lia.
  - lia.
  - by rewrite Eg, <- Ei.
Qed.

(** Only [Merge] goes on. *)
Ltac no_compaction :=
  unfold drops in *; destruct (Segments.policy cfg); try done; by apply wp_ret.

Lemma wp_remove_at w x off e h d L es (Q : unit + SegmentsError -> World H -> Prop) :
  drops cfg = true -> removable w x off e h d ->
  let w2 := edit x (taken_out (size_of e)) w in
  at_rest w2 L es -> x ∈ mjoin (chains L) ->
  Q (inl tt) w2 ->
  (forall b l1 l2 w', chains L !! b = Some (l1 ++ x :: l2) -> live_items (debited (size_of e) h) = 0 ->
     removed integrity cfg Freed b l1 l2 x w2 w' L es -> Q (inl tt) w') ->
  wp (remove_at integrity debug_assertions cfg now (Location.pack_location x (generation h) off) x) Q w.
Proof.
  intros Hd [R1 R2 R3 R4 R5 R6 R7 R8 R9 R10] w2 Hr Hx HQ HQ'. unfold remove_at.
  apply wp_bind. eapply wp_resolve; [done..|]. apply wp_bind. eapply wp_intro.
  { unfold view. unfold header_at in R2. destruct (x <=? 0); [done|]. rewrite R2, R3, R4. done. }
  apply wp_bind. eapply wp_lift.
  { apply (remove_item_at_run integrity (mkSegment h d) off e); done. }
  apply wp_bind, wp_modify.
  change (set_datas _ _) with (set_datas (<[idx x := data (mkSegment (debited (size_of e) h) d)]> (datas w))
    (set_headers (<[idx x := header (mkSegment (debited (size_of e) h) d)]> (headers w)) w)).
  rewrite (put_back_edit w x h d) by done. cbn [header]. apply wp_bind.
  assert (header_at x (edit x (fun _ => debited (size_of e) h) w) = Some (debited (size_of e) h)) as Eh1.
  { by rewrite header_edit, decide_True, R2. }
  eapply (wp_edit x _ _ _ (fun h => with_active_removers (u32 (active_removers h - 1)) h)); [exact Eh1|done|].
  rewrite edit_edit.
  assert (edit x ((fun h => with_active_removers (u32 (active_removers h - 1)) h) ∘ (fun _ => debited (size_of e) h)) w = w2) as ->.
  { unfold w2. rewrite <- (put_edit _ _ h) by done. by rewrite <- (put_edit x (taken_out _) h) by done. }
  assert (header_at x w2 = Some (taken_out (size_of e) h)) as Eh2.
  { unfold w2. by rewrite header_edit, decide_True, R2. }
  apply wp_bind. eapply wp_field; [exact Eh2|].
  change (live_items (taken_out (size_of e) h)) with (live_items (debited (size_of e) h)).
  apply list_elem_of_join in Hx as (l & Hx & [b Hb]%list_elem_of_lookup).
  apply list_elem_of_split in Hx as (l1 & l2 & ->).
  destruct (sh_chain _ _ _ _ (ar_shape _ _ _ _ _ Hr) _ _ _ _ _ Hb eq_refl) as (h' & m & Eh' & Em & Est & Enx & Epv).
  rewrite Eh2 in Eh'. injection Eh' as <-.
  assert (bucket_of_ttl b (SegHeader.ttl (taken_out (size_of e) h))) as Ht.
  { eapply (sh_ttl _ _ _ _ (ar_shape _ _ _ _ _ Hr)); [exact Hb| |exact Eh2]. rewrite elem_of_app. right. by left. }
  apply wp_bind. destruct (Z.eqb_spec (live_items (debited (size_of e) h)) 0) as [E0|_].
  2:{ apply wp_ret. by no_compaction. }
  unfold can_evict_at. eapply wp_look; [exact Eh2|by apply run_can_evict|].
  destruct (is_evictable (state m) && (ref_count (taken_out (size_of e) h) =? 0)) eqn:Ee; [|by no_compaction].
  apply andb_true_iff in Ee as [Es Erc].
  assert (state m = Sealed) as Ess by by destruct (state m).
  assert (l2 <> []) as Hl2 by (intros ->; rewrite Ess in Est; done).
  apply wp_bind. eapply wp_lock_sealed; [exact Hr|exact Eh2|exact Em|exact Hb|exact Ht|].
  rewrite bool_decide_eq_true_2 by done.
  apply wp_bind. eapply (wp_next_seg w2); [exact Eh2|exact Em|]. apply wp_bind. eapply (wp_prev_seg w2); [exact Eh2|exact Em|].
  rewrite Enx, Epv. apply wp_bind. eapply wp_mono.
  { eapply wp_unbind, (wp_clear_and_advance integrity debug_assertions cfg w2 L es b l1 l2 x Hr Hb (fun o w' =>
      exists o', o = Some o' /\ removed integrity cfg o' b l1 l2 x w2 w' L es)); [done|]. intros o w' Hrm. by exists o. }
  cbv beta. intros [o|] w3 Hw; [|by destruct Hw as (? & ? & _)].
  apply wp_bind. eapply wp_mono; [eapply wp_unbind; exact Hw|]. cbv beta. intros _ w' (o' & E & Hrm).
  injection E as <-.
  assert (o = Freed) as ->.
  { rewrite (rm_outcome _ _ _ _ _ _ _ _ _ _ _ Hrm). unfold pinned. by rewrite Eh2, Erc. }
  apply wp_ret. by eapply HQ'.
Qed.
End Remove.
