(* ===== verification/HeapReserve.v ===== *)
(** * Reserving space on the heap

    [TtlBucket::reserve]: a range of the tail of the bucket's chain, or of a
    segment taken from the free queue and appended to the chain. The loop ends
    in every case. *)
From S2P Require Import Prelude Packing Atomics HashIface TtlBuckets Eviction KvItem KvItemSpec SegState SegHeader SegHeaderSpec.
From S2P Require Import Segment SegmentSpec Segments HeapRules HeapShape HeapContents HeapDrain HeapClear HeapEvict.

(** ** Headers *)

Section Headers.
Implicit Types (h : SegmentHeader) (m : Metadata).

Lemma run_fetch (f : SegmentHeader -> Z) set g h : run (fetch f set g) h = Some (f h, set (g (f h)) h).
Proof. done. Qed.

Lemma run_try_pin_writer h m :
  unpack (metadata h) = Some m -> state m = Live ->
  run try_pin_writer h = Some (true, with_active_writers (u32 (active_writers h + 1)) h).
Proof.
  intros Em Es. apply seq_run_run. unfold try_pin_writer.
  eapply seq_bind; [by apply seq_load_metadata|]. rewrite Es. cbn [is_writable negb].
  eapply seq_bind; [apply seq_fetch|]. eapply seq_bind; [by apply (seq_load_metadata _ m)|].
  rewrite Es. cbn [is_writable negb]. apply seq_ret.
Qed.

Lemma run_try_reserve_space size capacity h :
  0 < size -> - 2 ^ 31 <= write_offset h <= capacity -> capacity < 2 ^ 31 ->
  run (try_reserve_space size capacity) h =
    Some (if write_offset h + size <=? capacity
          then (Some (write_offset h), with_write_offset (write_offset h + size) h) else (None, h)).
Proof.
  intros Hp [Hl Hh] Hc. apply seq_run_run. unfold seq_run, try_reserve_space, exchange_from, mbind, prog_bind, load, atomic.
  cbn [interfere sched mem length].
  destruct (reserve_loop_spec capacity size h [] 1) as (r & before & rest & E & Er & ->); try done; [cbn; lia|].
  symmetry in E. apply app_eq_nil in E as [-> ->]. change (others capacity []) with (@nil (SegmentHeader -> SegmentHeader)) in Er.
  rewrite Er. cbn [after foldl]. unfold reservation. by case_bool.
Qed.

(** What [try_reserve] leaves. *)
Definition reserved_header (integrity : bool) (now : Z) (h : SegmentHeader) : SegmentHeader :=
  match unpack (metadata h) with
  | Some m => with_merge_at now (with_create_at now (reset integrity (clear_links Reserved (tag m) h)))
  | None => h
  end.

(** A range granted to a writer that stays. *)
Definition granted_header (size : Z) (h : SegmentHeader) : SegmentHeader :=
  with_live_bytes (i32 (live_bytes h + size)) (with_live_items (i32 (live_items h + 1))
    (with_write_offset (write_offset h + size) (with_active_writers (u32 (active_writers h + 1)) h))).
End Headers.

(** The bucket of a time to live keeps it, rounded down. (A bucket at the start
    of a tier whose floor an earlier tier covers is nobody's.) *)
Lemma floor_bucket secs :
  bucket_of_ttl (Z.to_nat (get_bucket_index secs)) (floor (Z.of_nat (Z.to_nat (get_bucket_index secs)))).
Proof.
  pose proof (bucket_index_range (as_i32 secs)) as Hb. unfold get_bucket_index.
  split; [lia|]. split; [done|]. rewrite Z2Nat.id by lia.
  destruct (bucket_ttl_fits (bucket_index (as_i32 secs)) Hb) as [_ Hp].
  assert (floor (bucket_index (as_i32 secs)) < 2 ^ 31) as Hlt.
  { unfold floor. pow2. repeat case_bool; lia. }
  unfold get_bucket_index. unfold as_i32 at 1. rewrite (proj2 (Z.ltb_lt _ _)) by done.
  rewrite !bucket_index_tiers. unfold floor. repeat case_bool; dm.
Qed.

Section Reserve.
Context (integrity debug_assertions : bool).
Context {H : Type} `{LH : LawfulHashtable H} (cfg : Config) (now : Z).
Implicit Types (w : World H) (x : Z) (L : Layout) (exc : Z -> option State) (es : Z -> list Entry).

Abbreviation shape := (shape cfg).
Abbreviation contents := (contents integrity cfg).
Abbreviation at_rest := (at_rest integrity cfg).

(** ** [reserve_free] *)

Definition taken x (q : list Z) w : World H := edit x (reserved_header integrity now) (set_free q (freed w) w).

Section Taken.
Context (w : World H) (L : Layout) (es : Z -> list Entry) (x : Z) (q : list Z).
Context (Hr : at_rest w L es) (Hq : free_queue w = x :: q).

Lemma taken_idle : x ∈ free_queue w ++ spare_queue w.
Proof. rewrite Hq. by left. Qed.

Lemma taken_sits : sits w x Free None None.
Proof. apply (sh_idle _ _ _ _ (ar_shape _ _ _ _ _ Hr)), taken_idle. Qed.

Lemma taken_range : 1 <= x <= cap cfg.
Proof. destruct taken_sits as (h & m & Eh & _). eapply header_range; [apply Hr|done]. Qed.

Lemma taken_es : es x = [].
Proof. apply (ar_idle _ _ _ _ _ Hr). apply (idle_chain _ _ (shape_apart _ _ _ _ (ar_shape _ _ _ _ _ Hr))), taken_idle. Qed.

Lemma taken_shape : shape (taken x q w) (with_held [x] L) (fun _ => None).
Proof.
  pose proof (shape_pop_free cfg w L _ x q (ar_shape _ _ _ _ _ Hr) Hq) as Hs. rewrite (ar_held _ _ _ _ _ Hr) in Hs.
  apply shape_edit_held; [done|by left|]. intros h _. unfold reserved_header. by destruct (unpack _).
Qed.

Lemma taken_header : exists h m, header_at x w = Some h /\ unpack (metadata h) = Some m /\ state m = Free /\
  header_at x (taken x q w) =
    Some (with_merge_at now (with_create_at now (reset integrity (clear_links Reserved (tag m) h)))).
Proof.
  destruct taken_sits as (h & m & Eh & Em & Es & _). exists h, m. split; [done|]. split; [done|]. split; [done|].
  unfold taken. rewrite header_edit, decide_True by done.
  change (header_at x (set_free q (freed w) w)) with (header_at x w). rewrite Eh. cbn. unfold reserved_header. by rewrite Em.
Qed.

Lemma taken_contents : contents (taken x q w) es.
Proof.
  apply contents_restart; [|apply taken_range|apply taken_es|].
  - eapply contents_ext; [apply Hr|done|done|done].
  - intros h _ Hn Hg. unfold reserved_header. destruct (unpack (metadata h)); [|done].
    split; [reflexivity|]. split; [exact (no_items_reset integrity h)|exact Hg].
Qed.

Lemma taken_calm : calm x w (taken x q w).
Proof.
  unfold taken. transitivity (set_free q (freed w) w); [done|]. apply calm_edit. intros h _.
  unfold reserved_header. by destruct (unpack _).
Qed.
End Taken.

Lemma in_range_ok x : 1 <= x <= cap cfg -> in_range cfg x = true.
Proof. intros. unfold in_range. by rewrite !(proj2 (Z.leb_le _ _)) by lia. Qed.

Lemma wp_reserve_free w L es (Q : option Z -> World H -> Prop) :
  at_rest w L es ->
  (free_queue w = [] -> Q None w) ->
  (forall x q, free_queue w = x :: q -> Q (Some x) (taken x q w)) ->
  wp (reserve_free integrity debug_assertions cfg now) Q w.
Proof.
  intros Hr Hn Ht. unfold reserve_free. apply wp_bind. unfold wp at 1, steal_free.
  destruct (free_queue w) as [|x q] eqn:Eq; [by apply wp_ret, Hn|].
  pose proof (taken_range w L es x q Hr Eq) as Hx. destruct (taken_header w L es x q Hr Eq) as (h & m & Eh & Em & Es & _).
  apply wp_bind, wp_debug_check; [by apply in_range_ok|].
  rewrite (proj2 (Z.eqb_neq x 0)) by lia. apply wp_bind.
  eapply (wp_edit x _ h true (reserved_header integrity now)); [exact Eh| |].
  - rewrite (run_try_reserve _ _ _ m) by done. unfold reserved_header. by rewrite Em.
  - apply wp_ret. by apply Ht.
Qed.

(** ** [try_expand] *)

(** The header of a new tail. *)
Definition fresh_header (b : nat) (pv : option Z) (h : SegmentHeader) : SegmentHeader :=
  match unpack (metadata h) with
  | Some m =>
      with_metadata (pack (mkMeta None pv Live (tag m)))
        (with_ttl (floor (Z.of_nat b)) (with_merge_at now (with_create_at now (reset integrity h))))
  | None => h
  end.

(** The heap after [x], the first free segment, became the tail of bucket [b]. *)
Record expanded b l x w w' L es : Prop := {
  ex_rest : at_rest w' (with_chain b (l ++ [x]) L) es;
  ex_queues : free_queue w = x :: free_queue w' /\ freed w' = freed w /\
    spare_queue w' = spare_queue w /\ spare_count w' = spare_count w;
  ex_bytes : hashtable w' = hashtable w /\ datas w' = datas w;
  ex_headers y : y <> x -> erase <$> header_at y w' = erase <$> header_at y w;
  ex_fresh : header_at x w' = fresh_header b (last l) <$> header_at x w;
  ex_aside : aside w' = aside w
}.

Section Expanded.
Context (w w' : World H) (L : Layout) (es : Z -> list Entry) (b : nat) (l : list Z) (x : Z) (q : list Z) (t t' : TtlBucket).
Context (Hr : at_rest w L es) (Hb : chains L !! b = Some l) (Hq : free_queue w = x :: q).
Context (Hreach : bucket_of_ttl b (floor (Z.of_nat b))).
Context (Et : buckets w !! b = Some t).
Context (Hw : w' = set_headers (headers w') (set_free q (freed w) (set_buckets (<[b := t']> (buckets w)) w))).
Context (Hlen : length (headers w') = length (headers w)).
Context (Hx : header_at x w' = fresh_header b (last l) <$> header_at x w).
Context (Hh : forall y, y <> x ->
  header_at y w' = (if decide (last l = Some y) then sealed_before x else fun h => h) <$> header_at y w).
Context (Hhead : TtlBuckets.head t' = or_zero (hd_error (l ++ [x]))).
Context (Htail : TtlBuckets.tail t' = x) (Httl : TtlBuckets.ttl t' = TtlBuckets.ttl t).

Let w0 : World H := taken x q w.

Lemma expand_header : exists h m, header_at x w = Some h /\ unpack (metadata h) = Some m /\ state m = Free.
Proof. destruct (taken_sits w L es x q Hr Hq) as (h & m & ? & ? & ? & _). by exists h, m. Qed.

Lemma expand_fresh y : y <> x -> header_at y w0 = header_at y w.
Proof. intros Hy. unfold w0, taken. by rewrite header_edit, decide_False. Qed.

Lemma expand_tail_range y : last l = Some y -> 1 <= y <= cap cfg.
Proof.
  intros Hy%last_in. eapply accounted_range; [apply Hr|]. by eapply chained_accounted.
Qed.

Lemma expand_sits : sits w' x Live None (last l).
Proof.
  destruct expand_header as (h & m & Eh & Em & _). rewrite Eh in Hx. cbn in Hx. unfold fresh_header in Hx. rewrite Em in Hx.
  eexists _, (mkMeta None (last l) Live (tag m)). split; [exact Hx|]. split; [|done].
  apply unpack_pack_aux. destruct (unpack_ok _ _ Em) as (_ & _ & ?). split; [done|]. split; [|done].
  cbn. eapply link_ok_in; [apply Hr|]. apply expand_tail_range.
Qed.

Lemma expand_queues :
  free_queue w' = q /\ freed w' = freed w /\ spare_queue w' = spare_queue w /\ spare_count w' = spare_count w /\
  admission_count w' = admission_count w /\ datas w' = datas w /\ hashtable w' = hashtable w /\
  buckets w' = <[b := t']> (buckets w) /\ aside w' = aside w.
Proof. by rewrite Hw. Qed.

Lemma expand_shape : shape w' (with_chain b (l ++ [x]) L) (fun _ => None).
Proof.
  destruct expand_queues as (Q1 & Q2 & Q3 & Q4 & Q5 & Q6 & Q7 & Q8 & Q9).
  destruct expand_header as (h & m & Eh & Em & _).
  assert (shape w' (mkLayout (<[b := l ++ [x]]> (chains L)) [] (waiting L)) (upd (fun _ => None) x None)) as Hs.
  { eapply (shape_append cfg w0 w' (with_held [x] L) _ b l [] x); try done.
    - exact (taken_shape w L es x q Hr Hq).
    - unfold same_queues. rewrite Q1, Q3, Q4, Q5, Q6, Hlen. unfold w0, taken. by rewrite length_edit.
    - apply expand_sits.
    - intros h' Eh'. rewrite Hx, Eh in Eh'. cbn in Eh'. unfold fresh_header in Eh'. rewrite Em in Eh'.
      by injection Eh' as <-.
    - unfold in_pool. rewrite Hx, Eh. unfold w0.
      destruct (taken_header w L es x q Hr Hq) as (h2 & m2 & Eh2 & Em2 & _ & ->). simplify_eq.
      cbn. unfold fresh_header. by rewrite Em.
    - intros y Hy. rewrite Hh, expand_fresh by done. done. }
  eapply shape_exc; [|intros y _; symmetry; instantiate (1 := upd (fun _ => None) x None); unfold upd; by case_decide].
  unfold with_chain. by rewrite (ar_held _ _ _ _ _ Hr).
Qed.

Lemma expand_contents : contents w' es.
Proof.
  destruct expand_queues as (Q1 & Q2 & Q3 & Q4 & Q5 & Q6 & Q7 & Q8 & Q9).
  eapply contents_headers; [exact (taken_contents w L es x q Hr Hq)|done|done|].
  intros y. destruct (decide (y = x)) as [->|Hy].
  - rewrite Hx. destruct (taken_header w L es x q Hr Hq) as (h & m & Eh & Em & _ & ->). rewrite Eh. cbn.
    unfold fresh_header. by rewrite Em.
  - rewrite Hh by done. fold w0. rewrite expand_fresh by done. destruct (header_at y w) as [h|]; [|done].
    cbn. f_equal. case_decide; [|done]. unfold sealed_before. by destruct (unpack _).
Qed.

Lemma expand_headers y : y <> x -> erase <$> header_at y w' = erase <$> header_at y w.
Proof.
  intros Hy. rewrite Hh by done. destruct (header_at y w) as [h|]; [|done]. cbn. f_equal.
  case_decide; [|done]. unfold sealed_before. by destruct (unpack _).
Qed.

Lemma expand_expanded : expanded b l x w w' L es.
Proof.
  destruct expand_queues as (Q1 & Q2 & Q3 & Q4 & Q5 & Q6 & Q7 & Q8 & Q9).
  split; [split| |done| |done|done].
  - apply expand_shape.
  - apply (ar_held _ _ _ _ _ Hr).
  - apply expand_contents.
  - eapply anchored_chain; [apply (ar_anchored _ _ _ _ _ Hr)|done|exact Et|done|done| |done].
    by rewrite last_snoc.
  - intros y Hy. apply (ar_idle _ _ _ _ _ Hr). intros Hin. apply Hy. cbn.
    rewrite (join_insert_more (chains L) b l (l ++ [x]) x Hb) by (by rewrite Permutation_app_comm). by right.
  - apply (unpinned_pins w); [|apply (ar_unpinned _ _ _ _ _ Hr)]. intros y. destruct (decide (y = x)) as [->|Hy].
    + rewrite Hx. destruct (header_at x w) as [h|]; [|done]. cbn. f_equal. unfold fresh_header. by destruct (unpack _).
    + pose proof (expand_headers y Hy) as E. destruct (header_at y w'), (header_at y w); try done.
      apply (inj Some) in E. cbn. f_equal. by apply erase_pins.
  - by rewrite Q1.
  - apply expand_headers.
Qed.
End Expanded.

Definition link_header (pv : option Z) (h : SegmentHeader) : SegmentHeader :=
  match unpack (metadata h) with
  | Some m => with_meta (relinked (Some None) (Some pv) Linking m) h
  | None => h
  end.

Lemma unpack_reserved h m :
  unpack (metadata h) = Some m ->
  unpack (metadata (reserved_header integrity now h)) = Some (mkMeta None None Reserved (tag m)).
Proof.
  intros Em. unfold reserved_header. rewrite Em. apply unpack_pack_aux.
  destruct (unpack_ok _ _ Em) as (_ & _ & ?). by split.
Qed.

Lemma unpack_link pv h m :
  unpack (metadata h) = Some m -> link_ok pv ->
  unpack (metadata (link_header pv h)) = Some (mkMeta None pv Linking (tag m)).
Proof.
  intros Em Hp. unfold link_header. rewrite Em. apply unpack_pack_aux.
  destruct (unpack_ok _ _ Em) as (_ & _ & ?). split; [done|]. by split.
Qed.

Lemma fresh_compose h m b pv :
  unpack (metadata h) = Some m -> link_ok pv ->
  restate Live (link_header pv (with_ttl (floor (Z.of_nat b)) (reserved_header integrity now h))) = fresh_header b pv h.
Proof.
  intros Em Hp. pose proof (unpack_reserved h m Em) as E1.
  pose proof (unpack_link pv (with_ttl (floor (Z.of_nat b)) (reserved_header integrity now h)) _ E1 Hp) as E2.
  unfold restate. rewrite E2. unfold link_header. cbn [metadata with_ttl]. rewrite E1.
  unfold reserved_header, fresh_header. by rewrite Em.
Qed.

Lemma wp_link_header w x pv h m (Q : bool -> World H -> Prop) :
  header_at x w = Some h -> unpack (metadata h) = Some m -> state m = Reserved ->
  Q true (edit x (link_header pv) w) -> wp (on x (cas_metadata Reserved Linking (Some None) (Some pv))) Q w.
Proof.
  intros Eh Em Es. apply (wp_edit x _ h true (link_header pv) Q w Eh).
  rewrite (run_cas_metadata _ _ _ _ h m Em), decide_True by done. unfold link_header. by rewrite Em.
Qed.

Lemma wp_seal_header w y x h m (Q : bool -> World H -> Prop) :
  header_at y w = Some h -> unpack (metadata h) = Some m -> state m = Live ->
  Q true (edit y (sealed_before x) w) -> wp (on y (cas_metadata Live Sealed (Some (Some x)) None)) Q w.
Proof.
  intros Eh Em Es. apply (wp_edit y _ h true (sealed_before x) Q w Eh).
  rewrite (run_cas_metadata _ _ _ _ h m Em), decide_True by done. unfold sealed_before. by rewrite Em.
Qed.

(** What the caller of [try_expand] saw of the tail. *)
Definition observed_tail w (l : list Z) : option (Z * Z) :=
  y ← last l; h ← header_at y w; Some (y, generation h).

(** Only headers differ. *)
Definition framed w w' : Prop := exists hs, w' = set_headers hs w.

Lemma framed_refl w : framed w w.
Proof. exists (headers w). by destruct w. Qed.

Lemma framed_edit w w' x f : framed w w' -> framed w (edit x f w').
Proof. intros [hs ->]. by eexists. Qed.

Lemma framed_edit_opt w w' o f : framed w w' -> framed w (edit_opt o f w').
Proof. destruct o; [apply framed_edit|done]. Qed.

Section TryExpand.
Context (w : World H) (L : Layout) (es : Z -> list Entry) (b : nat) (l : list Z).
Context (Hr : at_rest w L es) (Hb : chains L !! b = Some l).
Context (Hreach : bucket_of_ttl b (floor (Z.of_nat b))).

Lemma tail_header y : last l = Some y ->
  exists h m, header_at y w = Some h /\ unpack (metadata h) = Some m /\ state m = Live.
Proof.
  intros (l0 & ->)%last_Some.
  destruct (sh_chain _ _ _ _ (ar_shape _ _ _ _ _ Hr) b _ l0 y [] Hb eq_refl) as (h & m & ? & ? & ? & _).
  by exists h, m.
Qed.

Lemma observed_some y h : last l = Some y -> header_at y w = Some h -> observed_tail w l = Some (y, generation h).
Proof. intros E1 E2. unfold observed_tail. rewrite E1. cbn. by rewrite E2. Qed.

Lemma tail_field y : last l = Some y -> nonzero y = Some y.
Proof.
  intros Hy. unfold nonzero. rewrite (proj2 (Z.eqb_neq y 0)); [done|].
  pose proof (expand_tail_range w L es b l Hr Hb y Hy). lia.
Qed.

(** The new tail is in place: what every way there leaves. *)
Lemma expand_done x q t t' (hs : list SegmentHeader) w' :
  free_queue w = x :: q -> buckets w !! b = Some t ->
  w' = set_headers hs (set_free q (freed w) (set_buckets (<[b := t']> (buckets w)) w)) ->
  hs = headers (edit x (restate Live) (edit x (link_header (last l)) (edit_opt (last l) (sealed_before x)
         (edit x (with_ttl (floor (Z.of_nat b))) (taken x q w))))) ->
  TtlBuckets.head t' = or_zero (hd_error (l ++ [x])) -> TtlBuckets.tail t' = x ->
  TtlBuckets.ttl t' = TtlBuckets.ttl t ->
  expanded b l x w w' L es.
Proof.
  intros Hq Et Ew Ehs E1 E2 E3.
  assert (forall y, header_at y w' = header_at y (edit x (restate Live) (edit x (link_header (last l))
    (edit_opt (last l) (sealed_before x) (edit x (with_ttl (floor (Z.of_nat b))) (taken x q w)))))) as Eh.
  { intros y. rewrite Ew. unfold header_at. by rewrite <- Ehs. }
  destruct (taken_sits w L es x q Hr Hq) as (h & m & Eh0 & Em & _).
  assert (last l <> Some x) as Hx.
  { intros Hin%last_in. eapply (idle_chain _ _ (shape_apart _ _ _ _ (ar_shape _ _ _ _ _ Hr)) x).
    - by apply (taken_idle w x q).
    - by eapply chain_in. }
  eapply (expand_expanded w w' L es b l x q t t'); try done.
  - by rewrite Ew.
  - rewrite Ew. cbn [headers set_headers]. rewrite Ehs, !length_edit.
    destruct (last l); cbn [edit_opt]; unfold taken; by rewrite !length_edit.
  - rewrite Eh, !header_edit, !decide_True, header_edit_opt, decide_False by done.
    unfold taken. rewrite !header_edit, !decide_True by done.
    change (header_at x (set_free q (freed w) w)) with (header_at x w). rewrite Eh0. cbn. f_equal.
    apply fresh_compose with (m := m); [done|]. eapply link_ok_in; [apply Hr|].
    apply (expand_tail_range w L es b l Hr Hb).
  - intros y Hy. rewrite Eh, !header_edit, !(decide_False (P := y = x)), header_edit_opt by done.
    unfold taken. rewrite !header_edit, !(decide_False (P := y = x)) by done.
    change (header_at y (set_free q (freed w) w)) with (header_at y w).
    case_decide; [done|]. by destruct (header_at y w).
Qed.

Lemma wp_try_expand (Q : unit + TtlBucketsError -> World H -> Prop) :
  (free_queue w = [] -> Q (inr NoFreeSegments) w) ->
  (forall x w', expanded b l x w w' L es -> Q (inl tt) w') ->
  wp (try_expand integrity debug_assertions cfg now b (observed_tail w l)) Q w.
Proof.
  intros Hn Hx. destruct (bucket_found integrity cfg _ _ _ _ _ Hr Hb) as (t & Et & Eth & Ett & Etl).
  unfold try_expand. apply wp_bind. eapply wp_reserve_free; [done|by intros ?; apply wp_ret, Hn|].
  intros x q Hq. destruct (taken_header w L es x q Hr Hq) as (h & m & Eh & Em & _ & Eh0).
  pose proof (unpack_reserved h m Em) as Emr.
  set (w0 := taken x q w) in *. set (fl := floor (Z.of_nat b)).
  set (w1 := edit x (with_ttl fl) w0).
  assert (header_at x w1 = Some (with_ttl fl (reserved_header integrity now h))) as Eh1.
  { unfold w1. rewrite header_edit, decide_True, Eh0 by done. unfold reserved_header. by rewrite Em. }
  assert (forall y, y <> x -> header_at y w1 = header_at y w) as Ey.
  { intros y Hy. unfold w1, w0, taken. by rewrite !header_edit, !decide_False. }
  assert (last l <> Some x) as Hlx.
  { intros Hin%last_in. eapply (idle_chain _ _ (shape_apart _ _ _ _ (ar_shape _ _ _ _ _ Hr)) x).
    - by apply (taken_idle w x q).
    - by eapply chain_in. }
  apply wp_bind. eapply wp_bucket_field; [exact Et|]. apply wp_bind. unfold set_ttl.
  rewrite Etl, wrap_id by (apply bucket_ttl_fits; destruct Hreach; lia).
  eapply (wp_edit x _ _ tt (with_ttl fl)); [exact Eh0|apply run_store|]. fold w1.
  (* the end, from the sealing of the tail on *)
  assert (forall w2 t1, w2 = edit x (link_header (last l)) (edit_opt (last l) (sealed_before x) w1) ->
    TtlBuckets.head t1 = or_zero (hd_error (l ++ [x])) -> TtlBuckets.tail t1 = x -> TtlBuckets.ttl t1 = TtlBuckets.ttl t ->
    wp (live ← on x (cas_metadata Linking Live None None);
        _ ← debug_check debug_assertions live;
        _ ← set_bucket b (fun z => with_nseg (u32 (nseg z + 1)) z);
        mret (inl tt)) Q (set_buckets (<[b := t1]> (buckets w)) w2)) as Hend.
  { intros w2 t1 Ew2 B1 B2 B3. apply wp_bind.
    assert (exists hs, w2 = set_headers hs (set_free q (freed w) w)) as (hs2 & Ehs2).
    { rewrite Ew2. apply framed_edit, framed_edit_opt, framed_edit, framed_edit, framed_refl. }
    assert (header_at x (set_buckets (<[b := t1]> (buckets w)) w2) =
      Some (link_header (last l) (with_ttl fl (reserved_header integrity now h)))) as Eh2.
    { change (header_at x w2 = Some (link_header (last l) (with_ttl fl (reserved_header integrity now h)))).
      rewrite Ew2, header_edit, decide_True, header_edit_opt, decide_False, Eh1 by done. done. }
    eapply wp_claim; [exact Eh2|apply unpack_link; [exact Emr|]|done|].
    { eapply link_ok_in; [apply Hr|]. apply (expand_tail_range w L es b l Hr Hb). }
    apply wp_bind, wp_debug_check; [done|]. apply wp_bind.
    eapply (wp_set_bucket b _ t1).
    { cbn. by rewrite list_lookup_insert_eq by (by eapply lookup_lt_Some). }
    apply wp_ret. eapply Hx.
    eapply (expand_done x q t (with_nseg (u32 (nseg t1 + 1)) t1) (headers (edit x (restate Live) w2)));
      [exact Hq|exact Et| | |exact B1|exact B2|exact B3].
    - clear Ew2 Eh2. subst w2. unfold edit. cbn [buckets set_buckets set_headers set_free headers].
      rewrite list_insert_insert_eq. reflexivity.
    - exact (f_equal (fun v => headers (edit x (restate Live) v)) Ew2). }
  unfold observed_tail, stale_tail. destruct (last l) as [y|] eqn:El; cbn [mbind option_bind].
  - destruct (tail_header y El) as (hy & my & Ehy & Emy & Esy).
    assert (y <> x) as Hyx by congruence. rewrite Ehy. cbn [mbind option_bind].
    apply wp_bind, wp_bind. eapply wp_bucket_field; [exact Et|].
    apply wp_bind. eapply wp_field; [rewrite Ey by done; exact Ehy|]. apply wp_ret.
    rewrite Ett. change (or_zero (Some y)) with y. rewrite (tail_field y El).
    rewrite bool_decide_eq_true_2, Z.eqb_refl by done. cbn [negb orb].
    apply wp_bind. unfold seal_tail. apply wp_bind.
    eapply wp_seal_header; [rewrite Ey by done; exact Ehy|exact Emy|exact Esy|].
    apply wp_bind. eapply wp_link_header; [rewrite header_edit, decide_False by done; exact Eh1|exact Emr|done|].
    apply wp_bind, wp_debug_check; [done|]. apply wp_bind. eapply wp_set_bucket; [exact Et|].
    apply wp_ret. apply (Hend _ (with_tail (Some x) t) eq_refl); [|done|done].
    cbn [TtlBuckets.head with_tail]. rewrite Eth. by destruct l.
  - assert (l = []) as El' by by apply last_None.
    apply wp_bind, wp_ret. cbn [negb]. apply wp_bind. unfold first_tail.
    apply wp_bind. eapply wp_bucket_field; [exact Et|]. rewrite Ett. cbn [or_zero Z.eqb].
    apply wp_bind. eapply wp_set_bucket; [exact Et|].
    apply wp_bind. eapply (wp_bucket_field b _ (with_tail (Some x) t)).
    { cbn. by rewrite list_lookup_insert_eq by (by eapply lookup_lt_Some). }
    apply wp_bind, wp_debug_check.
    { cbn [TtlBuckets.head with_tail]. by rewrite Eth, El'. }
    apply wp_bind. eapply wp_link_header; [exact Eh1|exact Emr|done|].
    apply wp_bind, wp_debug_check; [done|]. apply wp_bind.
    eapply (wp_set_bucket b _ (with_tail (Some x) t)).
    { cbn. by rewrite list_lookup_insert_eq by (by eapply lookup_lt_Some). }
    pose proof (Hend _ (with_head (Some x) (with_tail (Some x) t)) eq_refl) as He.
    apply wp_ret. rewrite El' in He. assert (buckets w1 = buckets w) as Eb by reflexivity. clearbody w1.
    unfold edit. cbn [buckets set_buckets set_headers headers]. rewrite list_insert_insert_eq, Eb. by apply He.
Qed.
End TryExpand.

(** ** [try_alloc_item] *)

Lemma tail_room w L es b l y h :
  at_rest w L es -> chains L !! b = Some l -> last l = Some y -> header_at y w = Some h ->
  first_offset integrity <= write_offset h <= segment_size cfg /\ segment_size cfg < 2 ^ 31 /\ active_writers h = 0.
Proof.
  intros Hr Hb Hy Eh. pose proof (expand_tail_range w L es b l Hr Hb y Hy) as Hrange.
  destruct (c_items _ _ _ _ (ar_contents _ _ _ _ _ Hr) y Hrange) as (h' & d & Eh' & _ & _ & Ed & Hs). simplify_eq.
  destruct (ok_end _ _ _ _ _ _ Hs) as [E1 E2], (ok_room _ _ _ _ _ _ Hs) as [_ E3]. cbn in E1, E2, E3.
  pose proof (total_esize integrity (es y)). unfold end_of in *.
  change Location.MAX_SEGMENT_BYTES with 8388608 in E3. pow2.
  split; [lia|]. split; [lia|]. by apply (ar_unpinned _ _ _ _ _ Hr y).
Qed.

Lemma writer_back h : active_writers h = 0 -> with_active_writers (u32 (u32 (active_writers h + 1) - 1)) (with_active_writers (u32 (active_writers h + 1)) h) = h.
Proof. destruct h; cbn. intros ->. done. Qed.

Lemma wp_try_alloc_item w L es b l y h size (Q : AllocOutcome -> World H -> Prop) :
  at_rest w L es -> chains L !! b = Some l -> last l = Some y -> header_at y w = Some h -> 0 < size ->
  (if write_offset h + size <=? segment_size cfg
   then Q (Reserved_ (mkReserved y (generation h) (write_offset h))) (edit y (granted_header size) w)
   else Q Full w) ->
  wp (try_alloc_item debug_assertions cfg y size) Q w.
Proof.
  intros Hr Hb Hy Eh Hsz HQ. destruct (tail_room w L es b l y h Hr Hb Hy Eh) as ([Hlo Hhi] & Hcap & Haw).
  destruct (tail_header w L es b l Hr Hb y Hy) as (h' & m & Eh' & Em & Es). simplify_eq.
  pose proof (expand_tail_range w L es b l Hr Hb y Hy) as Hrange.
  assert (0 <= first_offset integrity) by (unfold first_offset; destruct integrity; lia).
  unfold try_alloc_item. apply wp_bind, wp_debug_check; [apply Z.leb_le; lia|].
  apply wp_bind.
  eapply (wp_edit y _ _ true (fun h => with_active_writers (u32 (active_writers h + 1)) h)); [exact Eh|by eapply run_try_pin_writer|].
  cbn [negb]. apply wp_bind.
  pose proof (run_try_reserve_space size (segment_size cfg) (with_active_writers (u32 (active_writers h + 1)) h) Hsz) as Erun.
  cbn [write_offset with_active_writers] in Erun. specialize (Erun ltac:(pow2; lia) Hcap).
  assert (header_at y (edit y (fun h => with_active_writers (u32 (active_writers h + 1)) h) w) =
    Some (with_active_writers (u32 (active_writers h + 1)) h)) as Eh1.
  { by rewrite header_edit, decide_True, Eh. }
  destruct (write_offset h + size <=? segment_size cfg).
  - eapply (wp_edit y _ _ _ (fun h => with_write_offset (write_offset h + size) h)); [exact Eh1|exact Erun|].
    rewrite edit_edit. apply wp_bind.
    eapply (wp_edit y _ _ _ (fun h => with_live_items (i32 (live_items h + 1)) h)); [by rewrite header_edit, decide_True, Eh|apply run_fetch|].
    rewrite edit_edit. apply wp_bind.
    eapply (wp_edit y _ _ _ (fun h => with_live_bytes (i32 (live_bytes h + size)) h)); [by rewrite header_edit, decide_True, Eh|apply run_fetch|].
    rewrite edit_edit. apply wp_bind. eapply wp_field; [by rewrite header_edit, decide_True, Eh|]. apply wp_ret. exact HQ.
  - eapply wp_look; [exact Eh1|exact Erun|]. apply wp_bind.
    eapply (wp_edit y _ _ _ (fun h => with_active_writers (u32 (active_writers h - 1)) h)); [exact Eh1|apply run_fetch|].
    apply wp_ret. rewrite edit_edit.
    assert (edit y ((fun h => with_active_writers (u32 (active_writers h - 1)) h)
      ∘ (fun h => with_active_writers (u32 (active_writers h + 1)) h)) w = w) as ->; [|exact HQ].
    rewrite <- (put_edit y _ h w Eh). unfold compose. cbn [active_writers with_active_writers].
    rewrite writer_back by done. by apply put_id.
Qed.

(** ** [reserve] *)

(** A segment new to a chain. *)
Definition blank (b : nat) (h : SegmentHeader) : Prop :=
  write_offset h = first_offset integrity /\ live_items h = 0 /\ live_bytes h = first_offset integrity /\
  SegHeader.ttl h = floor (Z.of_nat b) /\ create_at h = now.

(** The first free segments, [xs], were appended to the chain of bucket [b]. *)
Record extended b l (xs : list Z) w w' L es : Prop := {
  et_rest : at_rest w' (with_chain b (l ++ xs) L) es;
  et_queues : free_queue w = xs ++ free_queue w' /\ freed w' = freed w /\
    spare_queue w' = spare_queue w /\ spare_count w' = spare_count w;
  et_bytes : hashtable w' = hashtable w /\ datas w' = datas w;
  et_headers y : y ∉ xs -> erase <$> header_at y w' = erase <$> header_at y w;
  et_blank x : x ∈ xs -> exists h, header_at x w' = Some h /\ blank b h;
  et_aside : aside w' = aside w;
  et_refs y : ref_count <$> header_at y w' = ref_count <$> header_at y w
}.

Lemma extended_refl b l w L es : at_rest w L es -> chains L !! b = Some l -> extended b l [] w w L es.
Proof.
  intros Hr Hb. split; try done.
  - rewrite app_nil_r. unfold with_chain. rewrite list_insert_id by done. by destruct L.
  - by intros x ?%not_elem_of_nil.
Qed.

Lemma blank_erase b h h' : erase h' = erase h -> blank b h -> blank b h'.
Proof. intros E Hh. change (blank b (erase h')). rewrite E. exact Hh. Qed.

Lemma extended_cons b l x xs w w1 w2 L es :
  chains L !! b = Some l -> (exists h m, header_at x w = Some h /\ unpack (metadata h) = Some m) ->
  NoDup (x :: xs) ->
  expanded b l x w w1 L es -> extended b (l ++ [x]) xs w1 w2 (with_chain b (l ++ [x]) L) es ->
  extended b l (x :: xs) w w2 L es.
Proof.
  intros Hb (h & m & Eh & Em) [Hx _]%NoDup_cons [A1 (A2 & A3 & A4 & A5) [A6 A7] A8 A9 A10]
    [B1 (B2 & B3 & B4 & B5) [B6 B7] B8 B9 B10 B11].
  split.
  - unfold with_chain in *. cbn [chains held waiting] in *.
    rewrite list_insert_insert_eq, <- app_assoc in B1. exact B1.
  - split; [by rewrite A2, B2|]. split; [congruence|]. split; congruence.
  - split; congruence.
  - intros y Hy. rewrite B8, A8; [done|set_solver..].
  - intros y [->|Hy]%elem_of_cons; [|auto].
    specialize (B8 x Hx). rewrite A9, Eh in B8. cbn in B8. destruct (header_at x w2) as [h2|]; [|done].
    exists h2. split; [done|]. apply (inj Some) in B8. eapply blank_erase; [exact B8|].
    unfold fresh_header. rewrite Em. unfold blank. done.
  - congruence.
  - intros y. rewrite B11. destruct (decide (y = x)) as [->|Hy].
    + rewrite A9, Eh. cbn. unfold fresh_header. by rewrite Em.
    + specialize (A8 y Hy). destruct (header_at y w1) as [h1|], (header_at y w) as [h0|]; try done.
      apply (inj Some), (f_equal ref_count) in A8. cbn in A8. cbn. by rewrite A8.
Qed.

Definition room w l size : Prop :=
  exists y h, last l = Some y /\ header_at y w = Some h /\ write_offset h + size <= segment_size cfg.

(** What [reserve] does, and when. *)
Inductive reserves b l size w L es : ReservedItem + TtlBucketsError -> World H -> Prop :=
| reserves_oversized :
    segment_size cfg < size ->
    reserves b l size w L es (inr (ItemOversized size)) w
| reserves_tail y h :
    last l = Some y -> header_at y w = Some h -> write_offset h + size <= segment_size cfg ->
    reserves b l size w L es (inl (mkReserved y (generation h) (write_offset h))) (edit y (granted_header size) w)
| reserves_new x q w1 h :
    ~ room w l size -> first_offset integrity + size <= segment_size cfg -> free_queue w = x :: q ->
    extended b l [x] w w1 L es -> header_at x w1 = Some h -> blank b h ->
    reserves b l size w L es (inl (mkReserved x (generation h) (first_offset integrity))) (edit x (granted_header size) w1)
| reserves_exhausted :
    ~ room w l size -> size <= segment_size cfg -> free_queue w = [] ->
    reserves b l size w L es (inr NoFreeSegments) w
| reserves_none_fits w1 :
    ~ room w l size -> size <= segment_size cfg < first_offset integrity + size ->
    extended b l (free_queue w) w w1 L es -> free_queue w1 = [] ->
    reserves b l size w L es (inr NoFreeSegments) w1.

Lemma no_room_tail w l size y h :
  ~ room w l size -> last l = Some y -> header_at y w = Some h -> (write_offset h + size <=? segment_size cfg) = false.
Proof. intros Hn Hy Eh. apply Z.leb_gt. destruct (Z.lt_ge_cases (segment_size cfg) (write_offset h + size)); [done|]. exfalso. apply Hn. by exists y, h. Qed.

Section Loop.
Context (b : nat) (size : Z) (Hsz : 0 < size) (Hreach : bucket_of_ttl b (floor (Z.of_nat b))).

Lemma expanded_extended w w1 L es l x :
  at_rest w L es -> chains L !! b = Some l -> expanded b l x w w1 L es -> extended b l [x] w w1 L es.
Proof.
  intros Hr Hb He. pose proof He as [A1 (A2 & _) _ _ _ _].
  destruct (taken_sits w L es x _ Hr A2) as (h & m & Eh & Em & _).
  eapply extended_cons; [done|by exists h, m| |exact He|].
  - apply NoDup_singleton.
  - apply extended_refl; [done|]. apply list_lookup_insert_eq. by eapply lookup_lt_Some.
Qed.

(** A lap that finds no room in the tail, or no tail. *)
Lemma wp_lap w L es l fuel (Q : ReservedItem + TtlBucketsError -> World H -> Prop) :
  at_rest w L es -> chains L !! b = Some l -> ~ room w l size ->
  (free_queue w = [] -> Q (inr NoFreeSegments) w) ->
  (forall x w1, expanded b l x w w1 L es ->
     wp (reserve_loop integrity debug_assertions cfg now fuel b size) Q w1) ->
  wp (reserve_loop integrity debug_assertions cfg now (S fuel) b size) Q w.
Proof.
  intros Hr Hb Hroom Hn Hx. destruct (bucket_found integrity cfg _ _ _ _ _ Hr Hb) as (t & Et & _ & Ett & _).
  assert (wp (r ← try_expand integrity debug_assertions cfg now b (observed_tail w l);
              match r with
              | inl _ => reserve_loop integrity debug_assertions cfg now fuel b size
              | inr e => mret (inr e)
              end) Q w) as Hexp.
  { apply wp_bind. eapply wp_try_expand; [done..| |].
    - intros E. apply wp_ret. auto.
    - intros x w1 He. eapply Hx; exact He. }
  cbn [reserve_loop]. apply wp_bind. eapply wp_bucket_field; [exact Et|]. rewrite Ett.
  destruct (last l) as [y|] eqn:El.
  - destruct (tail_header w L es b l Hr Hb y El) as (h & m & Eh & Em & Es).
    change (or_zero (Some y)) with y. rewrite (tail_field w L es b l Hr Hb y El).
    apply wp_bind. eapply wp_field; [exact Eh|]. apply wp_bind.
    eapply wp_try_alloc_item; [done..|]. rewrite (no_room_tail w l size y h) by done.
    rewrite (observed_some w l y h El Eh) in Hexp. exact Hexp.
  - unfold observed_tail in Hexp. rewrite El in Hexp. exact Hexp.
Qed.

(** A lap that finds room. *)
Lemma wp_lap_room w L es l fuel y h (Q : ReservedItem + TtlBucketsError -> World H -> Prop) :
  at_rest w L es -> chains L !! b = Some l -> last l = Some y -> header_at y w = Some h ->
  write_offset h + size <= segment_size cfg ->
  Q (inl (mkReserved y (generation h) (write_offset h))) (edit y (granted_header size) w) ->
  wp (reserve_loop integrity debug_assertions cfg now (S fuel) b size) Q w.
Proof.
  intros Hr Hb El Eh Hroom HQ. destruct (bucket_found integrity cfg _ _ _ _ _ Hr Hb) as (t & Et & _ & Ett & _).
  cbn [reserve_loop]. apply wp_bind. eapply wp_bucket_field; [exact Et|]. rewrite Ett, El.
  change (or_zero (Some y)) with y. rewrite (tail_field w L es b l Hr Hb y El).
  apply wp_bind. eapply wp_field; [exact Eh|]. apply wp_bind.
  eapply wp_try_alloc_item; [done..|]. rewrite (proj2 (Z.leb_le _ _)) by done. by apply wp_ret.
Qed.

Lemma fresh_room w w1 L es l x :
  at_rest w L es -> chains L !! b = Some l -> extended b l [x] w w1 L es ->
  chains (with_chain b (l ++ [x]) L) !! b = Some (l ++ [x]) /\ last (l ++ [x]) = Some x /\
  exists h, header_at x w1 = Some h /\ blank b h.
Proof.
  intros Hr Hb He. split; [|split].
  - apply list_lookup_insert_eq. by eapply lookup_lt_Some.
  - apply last_snoc.
  - apply (et_blank _ _ _ _ _ _ _ He). by left.
Qed.

(** Nothing fits a new segment: all of them are used up. *)
Lemma wp_none_fits fuel w L es l (Q : ReservedItem + TtlBucketsError -> World H -> Prop) :
  at_rest w L es -> chains L !! b = Some l -> ~ room w l size -> segment_size cfg < first_offset integrity + size ->
  (length (free_queue w) < fuel)%nat ->
  (forall w1, extended b l (free_queue w) w w1 L es -> free_queue w1 = [] -> Q (inr NoFreeSegments) w1) ->
  wp (reserve_loop integrity debug_assertions cfg now fuel b size) Q w.
Proof.
  revert w L l Q. induction fuel as [|fuel IH]; intros w L l Q Hr Hb Hroom Hbig Hf HQ; [lia|].
  eapply wp_lap; [done..| |].
  - intros E. apply HQ; [|done]. rewrite E. by apply extended_refl.
  - intros x w1 He. pose proof (expanded_extended _ _ _ _ _ _ Hr Hb He) as He1.
    destruct (fresh_room w w1 L es l x Hr Hb He1) as (Hb1 & El & h & Eh & Hh).
    pose proof He as [A1 (A2 & _) _ _ _ _].
    eapply IH; [exact A1|exact Hb1| |done| |].
    + intros (y & h' & E1 & E2 & E3). rewrite El in E1. injection E1 as <-. simplify_eq.
      destruct Hh as (Hw & _). lia.
    + rewrite A2 in Hf. cbn in Hf. lia.
    + intros w2 He2 E2. rewrite A2 in HQ. apply HQ; [|done].
      destruct (taken_sits w L es x _ Hr A2) as (h0 & m0 & ? & ? & _).
      eapply extended_cons; [done|by exists h0, m0| |done|done]. rewrite <- A2.
      pose proof (accounted_nodup _ _ _ _ (ar_shape _ _ _ _ _ Hr)) as Hn. unfold accounted in Hn.
      by apply NoDup_app in Hn as [? _].
Qed.

Lemma wp_reserve w L es l (Q : ReservedItem + TtlBucketsError -> World H -> Prop) :
  at_rest w L es -> chains L !! b = Some l ->
  (forall r w', reserves b l size w L es r w' -> Q r w') ->
  wp (reserve integrity debug_assertions cfg now b size) Q w.
Proof.
  intros Hr Hb HQ. unfold reserve. destruct (Z.ltb_spec (segment_size cfg) size).
  { apply wp_ret, HQ. by constructor. }
  apply wp_bind, wp_gets.
  assert (room w l size \/ ~ room w l size) as [(y & h & E1 & E2 & E3)|Hno].
  { unfold room. destruct (last l) as [y|] eqn:El; [|right; intros (y & h & ? & _); congruence].
    destruct (tail_header w L es b l Hr Hb y El) as (h & m & Eh & _).
    destruct (Z.le_gt_cases (write_offset h + size) (segment_size cfg)); [left; by exists y, h|].
    right. intros (y' & h' & E1 & E2 & E3). simplify_eq. lia. }
  { eapply wp_lap_room; [done..|]. apply HQ. by eapply reserves_tail. }
  destruct (Z.lt_ge_cases (segment_size cfg) (first_offset integrity + size)) as [Hbig|Hfit].
  { eapply wp_none_fits; [done..|lia|]. intros w1 He E. apply HQ. by constructor. }
  eapply wp_lap; [done..| |].
  - intros E. apply HQ. by constructor.
  - intros x w1 He. pose proof (expanded_extended _ _ _ _ _ _ Hr Hb He) as He1.
    destruct (fresh_room w w1 L es l x Hr Hb He1) as (Hb1 & El & h & Eh & Hh).
    pose proof He as [A1 (A2 & _) _ _ _ _]. pose proof Hh as (Hw & _).
    eapply wp_lap_room; [exact A1|exact Hb1|exact El|exact Eh|lia|].
    apply HQ. rewrite Hw. eapply reserves_new; try done.
Qed.
End Loop.
End Reserve.
