(* ===== verification/HeapBuild.v ===== *)
(** * The heap at the start

    What [SegmentsBuilder::build] makes, on memory that is zero: every segment
    free (under [Merge] one of them spare), nothing published, at rest. *)
From S2P Require Import Prelude Packing Atomics HashIface TtlBuckets Eviction KvItem KvItemSpec SegState SegHeader SegHeaderSpec.
From S2P Require Import Segment SegmentSpec Segments SegmentsBuilder HeapRules HeapShape HeapContents HeapDrain HeapClear HeapEvict.

Section Build.
Context (integrity : bool) (map_anon : Z -> option bytes) (now : Z).
Context {H : Type} `{LH : LawfulHashtable H}.
Implicit Types (b : SegmentsBuilder) (h : H).

(** The bytes of a segment without items. *)
Definition zeroed (size : Z) : bytes :=
  let d := replicate (Z.to_nat size) 0 in
  if integrity then blit 0 (be_bytes 8 SEG_MAGIC) d else d.

Definition new_segment (size : Z) (i : nat) : Segment :=
  mkSegment (SegHeader.new integrity (Z.of_nat i + 1)) (zeroed size).

Lemma init_zeroed size n i :
  0 <= size -> (i < n)%nat ->
  init_segment integrity size (replicate (Z.to_nat (Z.of_nat n * size)) 0) i = Some (new_segment size i).
Proof.
  intros Hs Hi. unfold init_segment, Segment.init.
  assert (chunk size (replicate (Z.to_nat (Z.of_nat n * size)) 0) i = replicate (Z.to_nat size) 0) as ->.
  { unfold chunk, slice. rewrite drop_replicate, take_replicate. f_equal. nia. }
  unfold new_segment, zeroed. by destruct integrity.
Qed.

Lemma mapM_init size n :
  0 <= size ->
  mapM (init_segment integrity size (replicate (Z.to_nat (Z.of_nat n * size)) 0)) (seq 0 n) =
    Some (map (new_segment size) (seq 0 n)).
Proof.
  intros Hs. apply mapM_Some, Forall2_fmap_r, Forall_Forall2_diag. rewrite Forall_forall. intros i Hi%elem_of_seq.
  apply init_zeroed; [done|lia].
Qed.

Lemma zero_klen (g : bool) k : klen g (replicate k 0) = 0.
Proof.
  unfold klen, get_uint, slice. rewrite drop_replicate, take_replicate.
  destruct (Z.to_nat (Z.of_nat 1) `min` _)%nat as [|[|m]] eqn:E; [done|done|]. lia.
Qed.

Lemma blen_zeroed size : 0 <= size -> blen (zeroed size) = size.
Proof. intros. unfold zeroed. destruct integrity; rewrite ?blen_blit, blen_replicate; lia. Qed.

Lemma seg_ok_new h size i :
  (forall k l f, get_item_frequency h k l = Some f -> here (new_segment size i) l = false) -> 1 <= Z.of_nat i + 1 <= Location.MAX_SEGMENTS ->
  first_offset integrity + ITEM_HDR_SIZE integrity <= size <= Location.MAX_SEGMENT_BYTES ->
  seg_ok integrity h (new_segment size i) [] 0 0.
Proof.
  intros Hn Hi Hs. assert (0 <= ITEM_HDR_SIZE integrity) by (unfold ITEM_HDR_SIZE; destruct integrity; lia).
  pose proof (first_bounds integrity). assert (blen (zeroed size) = size) as Eb by (apply blen_zeroed; lia).
  split; cbn [header data new_segment SegHeader.new id generation write_offset live_items live_bytes dead_items dead_bytes].
  - done.
  - unfold fits. lia.
  - lia.
  - unfold zeroed. assert (Forall is_byte (replicate (Z.to_nat size) 0)) as Hz.
    { by apply Forall_replicate. }
    destruct integrity; [|done]. unfold blit. apply Forall_take, Forall_app. split; [by apply Forall_take|].
    apply Forall_app. split; [|by apply Forall_drop]. by vm_compute; repeat constructor.
  - unfold check_magic, magic, zeroed, new_segment. cbn [data]. unfold zeroed. destruct integrity; [|done].
    rewrite slice_blit_eq; [by vm_compute|done|done|].
    rewrite blen_replicate. change (blen (be_bytes 8 SEG_MAGIC)) with 8. unfold first_offset in *. lia.
  - unfold end_of, initial_offset. cbn [total]. unfold first_offset in *. destruct integrity; lia.
  - done.
  - intros _. unfold item_at, new_segment, zeroed. cbn [data]. destruct integrity; cbn [first_offset].
    + rewrite blit_in; [|lia|rewrite blen_replicate; change (blen (be_bytes 8 SEG_MAGIC)) with 8; unfold first_offset in *; lia].
      rewrite take_0, app_nil_l.
      rewrite drop_app_ge by (change (length (be_bytes 8 SEG_MAGIC)) with 8%nat; lia).
      rewrite drop_drop, drop_replicate. by rewrite zero_klen.
    + rewrite drop_replicate. by rewrite zero_klen.
  - intros k l f Hf Hl. by rewrite (Hn _ _ _ Hf) in Hl.
  - done.
  - unfold live_size, initial_offset, first_offset in *. cbn [places total]. destruct integrity; lia.
  - unfold i32_range. lia.
Qed.

(** What the code asks of a builder. *)
Record buildable b : Prop := {
  bl_small : first_offset integrity + ITEM_HDR_SIZE integrity < b_segment_size b;
  bl_large : b_segment_size b <= Location.MAX_SEGMENT_BYTES;
  bl_aligned : b_segment_size b mod 8 = 0;
  bl_heap : 0 < b_heap_size b /\ b_heap_size b mod b_segment_size b = 0;
  bl_count : b_heap_size b / b_segment_size b <= Location.MAX_SEGMENTS
}.

Definition segments_of b : nat := Z.to_nat (b_heap_size b / b_segment_size b).

Definition built_config b : Config :=
  mkConfig (b_segment_size b) (Z.of_nat (segments_of b)) (b_policy b) (spare_capacity_of (b_policy b))
    (admission_cap_of (b_policy b) (Z.of_nat (segments_of b))).

Definition queue_of (n : nat) : list Z := map (fun i => Z.of_nat i + 1) (seq 0 n).

Definition built_world b h : World H :=
  let n := segments_of b in
  let spare := Z.to_nat (spare_capacity_of (b_policy b)) in
  mkWorld (map (fun i => SegHeader.new integrity (Z.of_nat i + 1)) (seq 0 n)) (replicate n (zeroed (b_segment_size b)))
    (drop spare (queue_of n)) 0 (take spare (queue_of n)) (spare_capacity_of (b_policy b)) 0
    (new_eviction n (b_policy b) (b_seed b) now) 0 0 TtlBuckets.new now h.

Section Built.
Context (b : SegmentsBuilder) (h : H) (Hb : buildable b).
Context (Hmap : forall n, map_anon n = Some (replicate (Z.to_nat n) 0)).
Context (Hinv : ht_inv h) (Hempty : forall k l, get_item_frequency h k l = None).

Notation n := (segments_of b).
Notation size := (b_segment_size b).
Notation w := (built_world b h).
Notation cfg := (built_config b).

Lemma size_pos : 0 < size.
Proof.
  destruct Hb as [? _ _ _ _]. pose proof (first_bounds integrity).
  assert (0 <= ITEM_HDR_SIZE integrity) by (unfold ITEM_HDR_SIZE; destruct integrity; lia). lia.
Qed.

Lemma segments_some : 1 <= Z.of_nat n <= Location.MAX_SEGMENTS /\ Z.of_nat n = b_heap_size b / size.
Proof.
  pose proof size_pos. destruct Hb as [_ _ _ [? Hm] Hc]. unfold segments_of.
  pose proof (Z.div_mod (b_heap_size b) size ltac:(lia)).
  assert (0 < b_heap_size b / size) by nia. lia.
Qed.

Lemma build_eq : build integrity map_anon now b TtlBuckets.new h = Some (inl (cfg, w)).
Proof.
  pose proof size_pos. destruct segments_some as [Hn En]. pose proof (first_bounds integrity).
  destruct Hb as [B1 B2 B3 [B4 B5] B6]. unfold build.
  rewrite (proj2 (Z.ltb_ge _ _)) by lia. rewrite (proj2 (Z.ltb_ge _ _)) by done.
  rewrite Z.rem_mod_nonneg, B3 by lia. cbn [Z.eqb negb].
  rewrite (proj2 (Z.eqb_neq _ _)), B5 by lia. cbn [Z.eqb negb orb].
  unfold from_builder. rewrite (proj2 (Z.ltb_ge _ _)) by done. rewrite Hmap, <- En, Nat2Z.id.
  rewrite mapM_init by lia. cbn [mbind option_bind]. do 2 f_equal.
  unfold built_config, built_world. rewrite !map_map.
  assert (map (fun x => data (new_segment size x)) (seq 0 n) = replicate n (zeroed size)) as ->; [|done].
  apply list_eq. intros i. rewrite list_lookup_fmap. destruct (decide (i < n)%nat) as [Hi|Hi].
  - by rewrite lookup_seq_lt, lookup_replicate_2.
  - rewrite lookup_seq_ge by lia. symmetry. apply lookup_replicate_None. lia.
Qed.

Lemma built_header x : header_at x w = if decide (1 <= x <= Z.of_nat n) then Some (SegHeader.new integrity x) else None.
Proof.
  unfold header_at, idx. cbn [headers built_world]. rewrite list_lookup_fmap.
  destruct (Z.leb_spec x 0); case_decide; try done; try lia.
  - rewrite lookup_seq_lt by lia. cbn. do 2 f_equal. lia.
  - by rewrite lookup_seq_ge by lia.
Qed.

Lemma built_ids : queue_of n = ids (Z.of_nat n).
Proof. unfold queue_of, ids, seqZ. rewrite Nat2Z.id. done. Qed.

Lemma built_in_pool x : in_pool w x = Main.
Proof. unfold in_pool. rewrite built_header. by case_decide. Qed.

Lemma spare_small : (Z.to_nat (spare_capacity_of (b_policy b)) <= n)%nat /\ 0 <= spare_capacity_of (b_policy b) <= 1.
Proof. destruct segments_some as [? _]. unfold spare_capacity_of. destruct (b_policy b); lia. Qed.

Definition built_layout : Layout := mkLayout (replicate 1024 []) [] [].

Lemma built_shape : shape cfg w built_layout (fun _ => None).
Proof.
  destruct segments_some as [Hn En], spare_small as [Hs1 Hs2]. split; try done.
  - cbn. rewrite length_map, length_seq, length_replicate. lia.
  - unfold accounted, built_layout. cbn [free_queue spare_queue built_world chains held waiting cap built_config].
    assert (mjoin (replicate 1024 ([] : list Z)) = []) as -> by by vm_compute.
    rewrite !app_nil_r, Permutation_app_comm, take_drop. by rewrite built_ids.
  - intros x Hx. cbn [free_queue spare_queue built_world] in Hx.
    rewrite Permutation_app_comm, take_drop, built_ids, in_ids in Hx.
    exists (SegHeader.new integrity x), new_free. rewrite built_header, decide_True by lia. done.
  - intros c l l1 x l2 Hc ->. apply lookup_replicate in Hc as [Hc _]. by destruct l1.
  - intros c l x hd Hc Hx. apply lookup_replicate in Hc as [-> _]. by apply not_elem_of_nil in Hx.
  - intros x Hx. by apply not_elem_of_nil in Hx.
  - intros x. by rewrite built_in_pool.
  - cbn [admission_count built_world]. unfold admitted.
    assert (List.filter (fun x => bool_decide (in_pool w x = Admission)) (ids (cap cfg)) = []) as ->; [|done].
    induction (ids (cap cfg)) as [|x l IH]; [done|]. cbn. by rewrite built_in_pool.
  - cbn [spare_count spare_queue built_world spare_capacity built_config]. rewrite length_take_le.
    + lia.
    + unfold queue_of. by rewrite length_map, length_seq.
Qed.

Lemma built_contents : contents integrity cfg w (fun _ => []).
Proof.
  destruct segments_some as [Hn En]. destruct Hb as [B1 B2 _ _ _]. split; [done| |].
  - intros x Hx. cbn [cap built_config] in Hx. exists (SegHeader.new integrity x), (zeroed size).
    rewrite built_header, decide_True by lia. split; [done|]. split.
    { cbn [datas built_world]. apply lookup_replicate_2. unfold idx. lia. }
    split; [done|]. pose proof size_pos. split; [exact (blen_zeroed size ltac:(lia))|].
    pose proof (seg_ok_new h size (idx x) ltac:(intros k l f Hf; by rewrite Hempty in Hf)) as Hok. unfold new_segment, idx in Hok.
    replace (Z.of_nat (Z.to_nat (x - 1)) + 1) with x in Hok by lia. apply Hok; lia.
  - intros k l f Hf. cbn in Hf. by rewrite Hempty in Hf.
Qed.

Lemma built_anchored : anchored w (chains built_layout).
Proof.
  split.
  - cbn [buckets built_world chains built_layout]. by rewrite length_new, length_replicate.
  - intros c l Hc. apply lookup_replicate in Hc as [-> Hc]. cbn [buckets built_world].
    pose proof (new_lookup (Z.of_nat c) ltac:(lia)) as E. rewrite Nat2Z.id in E.
    eexists. split; [exact E|]. done.
Qed.

Lemma built_at_rest : at_rest integrity cfg w built_layout (fun _ => []) /\ ranking_ok cfg w.
Proof.
  split; [split|].
  - apply built_shape.
  - done.
  - apply built_contents.
  - apply built_anchored.
  - done.
  - intros x hd. rewrite built_header. case_decide; [|done]. by intros [= <-].
  - unfold ranking_ok. cbn [evict built_world new_eviction ranked_segs]. rewrite length_replicate.
    cbn [cap built_config]. lia.
Qed.
End Built.
End Build.
