(* ===== verification/CacheLookup.v ===== *)
(** * Looking up keys in the cache

    [lies w es l x off e ..]: the item [e] is published at location [l], an
    offset of segment [x], where it can be read. On a heap where whatever is
    published lies somewhere, the verifier of [Segcache] compares a key with
    that of the item and leaves nothing behind but the pin of a match, and a
    lookup finds the item of the key, or there is none. *)
From S2P Require Import Prelude Packing Atomics Table TableSpec TableThms HashIface HashSeq HashProbe.
From S2P Require Import KvItem KvItemSpec TtlBuckets Eviction SegState SegHeader SegHeaderSpec Segment SegmentSpec Segments.
From S2P Require Import Segcache HeapRules HeapShape HeapContents HeapDrain HeapClear.

(** ** Reader and remover pins of a header *)

Lemma run_try_acquire_reader h m :
  unpack (metadata h) = Some m -> is_readable (state m) = true ->
  run try_acquire_reader h = Some (Acquired, with_ref_count (u32 (ref_count h + 1)) h).
Proof.
  intros Em Es. apply seq_run_run. unfold try_acquire_reader.
  eapply seq_bind; [by apply seq_load_metadata|]. rewrite Es. cbn [negb].
  eapply seq_bind; [apply seq_fetch|]. eapply seq_bind; [by apply (seq_load_metadata _ m)|].
  rewrite Es. apply seq_ret.
Qed.

Lemma run_drop_guard integrity h m :
  unpack (metadata h) = Some m -> state m <> AwaitingRelease ->
  run (SegHeader.drop_guard integrity) h = Some (false, with_ref_count (u32 (ref_count h - 1)) h).
Proof.
  intros Em Es. apply seq_run_run. unfold SegHeader.drop_guard, release_reader_for_guard.
  eapply seq_bind; [apply seq_fetch|]. destruct (ref_count h =? 1); [|apply seq_ret].
  eapply (seq_bind _ _ _ false); [|apply seq_ret]. unfold try_release_condemned.
  eapply seq_bind; [apply seq_load|]. eapply seq_bind; [by apply seq_unwrap|].
  rewrite bool_decide_eq_false_2 by done. apply seq_ret.
Qed.

Definition add_ref (h : SegmentHeader) : SegmentHeader := with_ref_count (u32 (ref_count h + 1)) h.
Definition sub_ref (h : SegmentHeader) : SegmentHeader := with_ref_count (u32 (ref_count h - 1)) h.

Lemma u32_back x : fits 32 x -> u32 (u32 (x + 1) - 1) = x.
Proof. unfold wrap, fits. pow2. intros. dm. Qed.

Lemma sub_add_ref h : fits 32 (ref_count h) -> sub_ref (add_ref h) = h.
Proof.
  intros Hf%u32_back. destruct h. unfold sub_ref, add_ref, with_ref_count. cbn in *. by rewrite Hf.
Qed.

Section Lookup.
Context (integrity debug_assertions : bool) (hash_key : bytes -> Z).
Context (cfg : Config) (now : Z).

#[local] Hint Extern 0 (Hashtable (Index unit)) => exact (index_hashtable hash_key) : typeclass_instances.
#[local] Hint Extern 0 (LawfulHashtable (Index unit)) => exact (index_lawful hash_key) : typeclass_instances.
#[local] Hint Extern 0 (KeyVerifier Cache (option Pin)) =>
  exact (segments_verifier integrity debug_assertions cfg) : typeclass_instances.

Implicit Types (w : Cache) (x off l : Z) (e : Entry) (es : Z -> list Entry) (k : bytes).

Abbreviation published := (published hash_key).
Abbreviation first := (first_offset integrity).
Abbreviation size_of := (entry_size integrity).

(** ** Where items lie *)

Record lies w es l x off e (h : SegmentHeader) (m : Metadata) (d : bytes) : Prop := {
  li_range : 1 <= x <= cap cfg;
  li_header : header_at x w = Some h;
  li_meta : unpack (metadata h) = Some m;
  li_readable : is_readable (state m) = true;
  li_refs : fits 32 (ref_count h);
  li_issuable : Location.issuable x (generation h) off;
  li_location : l = Location.pack_location x (generation h) off;
  li_data : datas w !! idx x = Some d;
  li_length : blen d = segment_size cfg;
  li_place : (off, e) ∈ places integrity first (es x);
  li_ok : entry_ok e;
  li_stored : stored integrity e (drop (Z.to_nat off) d);
  li_fits : off + size_of e <= segment_size cfg;
  li_kept : e_deleted e = false;
  li_published : published (hashtable w) (e_key e) l
}.

(** The item [e] is published at [l]. *)
Definition item_at w es l e : Prop := exists x off h m d, lies w es l x off e h m d.

(** Whatever is published lies somewhere, and no key is published twice. *)
Record searchable w es : Prop := {
  se_index : index_inv hash_key (hashtable w);
  se_refs y h : header_at y w = Some h -> fits 32 (ref_count h);
  se_data y : 1 <= y <= cap cfg -> is_Some (datas w !! idx y);
  se_entry k l : published (hashtable w) k l -> exists e, item_at w es l e;
  se_unique l l' e e' : item_at w es l e -> item_at w es l' e' -> e_key e = e_key e' -> l = l'
}.

Lemma lies_unpack w es l x off e h m d :
  lies w es l x off e h m d -> Location.unpack_location l = (x, off).
Proof. intros [? ? ? ? ? Hi -> *]. by destruct (Location.pack_unpack_location _ _ _ Hi) as (-> & _). Qed.

Lemma lies_tag w es l x off e h m d :
  lies w es l x off e h m d -> tag_matches_header l h = true.
Proof.
  intros [? ? ? ? ? Hi -> *]. unfold tag_matches_header.
  destruct (Location.pack_unpack_location _ _ _ Hi) as (_ & -> & _). apply Z.eqb_refl.
Qed.

(** At one location lies one item. *)
Lemma lies_fun w es l x off e h m d x' off' e' h' m' d' :
  lies w es l x off e h m d -> lies w es l x' off' e' h' m' d' ->
  x' = x /\ off' = off /\ e' = e /\ h' = h /\ m' = m /\ d' = d.
Proof.
  intros H1 H2. pose proof (lies_unpack _ _ _ _ _ _ _ _ _ H1) as E1.
  rewrite (lies_unpack _ _ _ _ _ _ _ _ _ H2) in E1. injection E1 as -> ->.
  destruct H1, H2. simplify_eq.
  assert ((off, e') = (off, e)) as E; [|by injection E as ->].
  eapply places_same_offset; done.
Qed.

(** *** The verifier *)

Lemma wp_acquire_item w es l x off e h m d (Q : option bytes -> Cache -> Prop) :
  lies w es l x off e h m d ->
  Q (Some (drop (Z.to_nat off) d)) (edit x add_ref w) ->
  wp (acquire_item_at integrity cfg l) Q w.
Proof.
  intros Hl HQ. pose proof Hl as [X1 X2 X3 X4 X5 X6 X7 X8 X8' X9 X10 X11 X12 X13 X14].
  unfold acquire_item_at. rewrite (lies_unpack _ _ _ _ _ _ _ _ _ Hl).
  rewrite (proj2 (Z.eqb_neq x 0)) by lia. apply wp_bind, wp_check; [by apply Z.leb_le; lia|].
  apply wp_bind. eapply (wp_edit x _ h _ add_ref); [done|by eapply run_try_acquire_reader|].
  apply wp_bind. eapply wp_field; [by rewrite header_edit, decide_True, X2|].
  change (tag_matches_header l (add_ref h)) with (tag_matches_header l h).
  rewrite (lies_tag _ _ _ _ _ _ _ _ _ Hl). apply wp_bind.
  eapply wp_intro; [unfold item_bytes; change (datas (edit x add_ref w)) with (datas w); by rewrite X8|].
  by apply wp_ret.
Qed.

Lemma edit_id x f w : (forall h, header_at x w = Some h -> f h = h) -> edit x f w = w.
Proof.
  intros Hf. destruct (header_at x w) as [h|] eqn:E.
  - by rewrite <- (put_edit x f h w E), Hf, put_id.
  - destruct w as [hs ?]. unfold edit, header_at in *. cbn [headers] in *. destruct (x <=? 0); [done|].
    unfold set_headers. cbn. f_equal. apply list_eq. intros i.
    destruct (decide (i = idx x)) as [->|]; [by rewrite list_lookup_alter_eq, E|by rewrite list_lookup_alter_ne].
Qed.

(** A pin taken and dropped. *)
Lemma unpin_edit x h w :
  header_at x w = Some h -> fits 32 (ref_count h) -> edit x sub_ref (edit x add_ref w) = w.
Proof.
  intros Eh Hf. rewrite edit_edit. apply edit_id. intros h' Eh'. rewrite Eh in Eh'. injection Eh' as <-.
  by apply sub_add_ref.
Qed.

Lemma verify_eq w es l x off e h m d k :
  lies w es l x off e h m d ->
  verify_pinned integrity debug_assertions cfg k l w =
    Some (if bool_decide (e_key e = k) then (Match (mkPin x off), edit x add_ref w) else (DifferentKey, w)).
Proof.
  intros Hl. pose proof Hl as [X1 X2 X3 X4 X5 X6 X7 X8 X8' X9 X10 X11 X12 X13 X14].
  assert (wp (verify_pinned integrity debug_assertions cfg k l)
    (fun r w' => (r, w') = if bool_decide (e_key e = k) then (Match (mkPin x off), edit x add_ref w) else (DifferentKey, w)) w)
    as (r & w' & E & HE)%wp_elim; [|etransitivity; [exact E|f_equal; exact HE]].
  unfold verify_pinned. rewrite (lies_unpack _ _ _ _ _ _ _ _ _ Hl).
  rewrite (proj2 (Z.eqb_neq x 0)), (proj2 (Z.ltb_ge _ _)) by lia. cbn [orb].
  apply wp_bind. eapply wp_acquire_item; [done|].
  apply wp_bind, wp_debug_check.
  { rewrite (stored_size integrity e) by done. by apply Z.leb_le. }
  rewrite (holds_read_key _ _ _ _ _ _ _ (entry_args _ X10) X11).
  destruct (bool_decide (e_key e = k)); [by apply wp_ret|].
  apply wp_bind. unfold drop_guard. apply wp_bind.
  eapply (wp_edit x _ (add_ref h) false sub_ref); [by rewrite header_edit, decide_True, X2| |].
  { eapply run_drop_guard; [done|]. intros E. rewrite E in X4. done. }
  rewrite (unpin_edit x h) by done. do 2 apply wp_ret. done.
Qed.

Lemma verify_some w es l x off e h m d k ad :
  lies w es l x off e h m d ->
  verify w k l ad = if bool_decide (e_key e = k) then Match (Some (mkPin x off)) else DifferentKey.
Proof.
  intros Hl. unfold verify, segments_verifier. rewrite (verify_eq _ _ _ _ _ _ _ _ _ k Hl). by case_bool_decide.
Qed.

(** ** Changes that lookups do not see *)

(** What a lookup sees of a header. *)
Definition sight (h : SegmentHeader) : Z * Z := (metadata h, generation h).

Record alike es w w' : Prop := {
  al_table : similar (hashtable w) (hashtable w');
  al_data y d : 1 <= y <= cap cfg -> datas w !! idx y = Some d -> exists d', datas w' !! idx y = Some d' /\
    blen d' = blen d /\ slice 0 (end_of integrity (es y)) d' = slice 0 (end_of integrity (es y)) d;
  al_header y : sight <$> header_at y w' = sight <$> header_at y w;
  al_refs y h : header_at y w' = Some h -> fits 32 (ref_count h)
}.

Lemma alike_lies es w w' l x off e h m d :
  alike es w w' -> lies w es l x off e h m d ->
  exists h' d', lies w' es l x off e h' m d' /\ sight h' = sight h.
Proof.
  intros [A1 A2 A3 A4] [X1 X2 X3 X4 X5 X6 X7 X8 X8' X9 X10 X11 X12 X13 X14].
  specialize (A3 x). rewrite X2 in A3. destruct (header_at x w') as [h'|] eqn:Eh; [|done].
  apply (inj Some) in A3. pose proof A3 as E. unfold sight in E. apply (inj2 pair) in E as [Em Eg].
  destruct (A2 x d X1 X8) as (d' & Ed & Hb & Hs). exists h', d'. split; [|done].
  split; rewrite ?Em, ?Eg; try done.
  - by eapply A4.
  - congruence.
  - destruct (places_bounds integrity first (es x) (off, e) X9) as (B1 & B2 & _). cbn [fst snd] in *.
    unfold end_of in *. pose proof (proj1 (first_bounds integrity)).
    pose proof (entry_size_bound integrity e) as (_ & _ & B3 & _).
    eapply stored_prefix; [exact X11| |].
    + rewrite blen_drop; lia.
    + rewrite !slice_drop, !Z.add_0_r by lia.
      pose proof (slice_slice 0 (end_of integrity (es x)) off (size_of e) d') as E1.
      pose proof (slice_slice 0 (end_of integrity (es x)) off (size_of e) d) as E2.
      unfold end_of in *. rewrite Z.add_0_l in *. rewrite <- E1, <- E2 by lia. by rewrite Hs.
  - by apply (similar_published hash_key (hashtable w)).
Qed.

Lemma alike_sym es w w' : searchable w es -> alike es w w' -> alike es w' w.
Proof.
  intros Hs [A1 A2 A3 A4]. split; [| | |by apply Hs].
  - apply (similar_sym hash_key); [apply Hs|done].
  - intros y d' Hy Ed'. destruct (se_data _ _ Hs y Hy) as [d Ed].
    destruct (A2 y d Hy Ed) as (d2 & E & ? & ?). simplify_eq. by exists d.
  - intros y. by rewrite A3.
Qed.

Lemma alike_item es w w' l e : alike es w w' -> item_at w es l e -> item_at w' es l e.
Proof.
  intros Ha (x & off & h & m & d & Hl). destruct (alike_lies _ _ _ _ _ _ _ _ _ _ Ha Hl) as (h' & d' & ? & _).
  by exists x, off, h', m, d'.
Qed.

Lemma alike_searchable es w w' : searchable w es -> alike es w w' -> searchable w' es.
Proof.
  intros Hs Ha. pose proof (alike_sym _ _ _ Hs Ha) as Ha'. pose proof Ha as [A1 A2 A3 A4]. split.
  - eapply similar_inv; [apply Hs|done].
  - done.
  - intros y Hy. destruct (se_data _ _ Hs y Hy) as [d Ed]. destruct (A2 y d Hy Ed) as (d' & E & _). by exists d'.
  - intros k l Hp. apply (similar_published hash_key (hashtable w)) in Hp; [|done].
    destruct (se_entry _ _ Hs k l Hp) as [e He]. exists e. by eapply alike_item.
  - intros l l' e e' H1 H2. apply (se_unique _ _ Hs); by eapply alike_item.
Qed.

(** ** Lookups *)

(** The heap after the hashtable was read: only frequencies differ. *)
Definition read_from w w' : Prop :=
  exists t, w' = set_hashtable t w /\ similar (hashtable w) t.

Lemma read_alike es w w' : searchable w es -> read_from w w' -> alike es w w'.
Proof.
  intros Hs (t & -> & Ht). split; [done| |done|by apply Hs].
  intros y d _ Ed. by exists d.
Qed.

Lemma pin_alike es w x f :
  searchable w es -> (forall h, sight (f h) = sight h) -> (forall h, fits 32 (ref_count h) -> fits 32 (ref_count (f h))) ->
  alike es w (edit x f w).
Proof.
  intros Hs Hf Hr. split.
  - apply similar_refl.
  - intros y d _ Ed. by exists d.
  - intros y. rewrite header_edit. case_decide; [|done]. destruct (header_at y w); [|done]. cbn. by rewrite Hf.
  - intros y h. rewrite header_edit. case_decide; [|by apply Hs].
    intros (h0 & E & ->)%fmap_Some. by eapply Hr, se_refs.
Qed.

Lemma with_table_eq {A} (p : Table -> prog (TMem Cache) A) w a m :
  run (p (table (hashtable w))) (lift_index w (hashtable w)) = Some (a, m) ->
  with_table p w = Some (a, set_hashtable (drop_index (table (hashtable w)) m) w).
Proof. intros E. unfold with_table, lift_index in *. by rewrite E. Qed.

(** A key is published where its item lies. *)
Lemma item_published w es l e : item_at w es l e -> published (hashtable w) (e_key e) l.
Proof. intros (x & off & h & m & d & Hl). apply Hl. Qed.

Lemma lookup_answer w es (r : Lookup (Hit (option Pin))) k :
  searchable w es -> answered hash_key (hashtable w) w k r ->
  match r with
  | Found hit => exists x off e h m d c, lies w es (hit_location hit) x off e h m d /\ e_key e = k /\
      HashSeq.entry_at hash_key (hashtable w) k (hit_location hit) = Some c /\
      hit = Build_Hit (hit_location hit) (slot_of hash_key k c) (Some (mkPin x off))
  | Absent => forall l e, item_at w es l e -> e_key e <> k
  | Unknown _ => False
  end.
Proof.
  intros Hs. destruct r as [hit| |u]; cbn [answered].
  - intros (c & pin & Ec & Ev & Eh).
    destruct (se_entry _ _ Hs k (hit_location hit)) as (e & x & off & h & m & d & Hl).
    { apply published_entry. by exists c. }
    rewrite (verify_some _ _ _ _ _ _ _ _ _ k false Hl) in Ev. case_bool_decide as Ek; [|done].
    injection Ev as <-. exists x, off, e, h, m, d, c. done.
  - intros Ha l e Hi <-. pose proof (Ha l (item_published _ _ _ _ Hi)) as Ev.
    destruct Hi as (x & off & h & m & d & Hl).
    by rewrite (verify_some _ _ _ _ _ _ _ _ _ _ false Hl), bool_decide_eq_true_2 in Ev.
  - intros (l & Hp & Ev). destruct (se_entry _ _ Hs k l Hp) as (e & x & off & h & m & d & Hl).
    rewrite (verify_some _ _ _ _ _ _ _ _ _ k false Hl) in Ev. by case_bool_decide.
Qed.

(** What a lookup hit on [e] at [l] hands out. *)
Definition hits w w1 es k l x off e h m d (hit : Hit Pin) : Prop :=
  read_from w w1 /\ lies w es l x off e h m d /\ e_key e = k /\
  exists c, HashSeq.entry_at hash_key (hashtable w1) k l = Some c /\
    hit = Build_Hit l (slot_of hash_key k c) (mkPin x off).

Lemma wp_lookup_hit w es uf k (Q : Lookup (Hit Pin) -> Cache -> Prop) :
  searchable w es ->
  (forall w1, read_from w w1 -> (forall l e, item_at w es l e -> e_key e <> k) -> Q Absent w1) ->
  (forall w1 l x off e h m d hit, hits w w1 es k l x off e h m d hit -> Q (Found hit) (edit x add_ref w1)) ->
  wp (lookup_hit integrity debug_assertions hash_key cfg k uf) Q w.
Proof.
  intros Hs Hn Hf. destruct (probe_lookup (Pin := option Pin) hash_key uf (hashtable w) w k (se_index _ _ Hs)) as (r & mm & Er & Hsim & Ha).
  assert ((if uf then with_table (fun t => Table.lookup (Pin := option Pin) hash_key t k)
           else with_table (fun t => Table.lookup_no_freq_update (Pin := option Pin) hash_key t k)) w =
    Some (r, set_hashtable (drop_index (table (hashtable w)) mm) w)) as E.
  { destruct uf; by apply with_table_eq. }
  set (w1 := set_hashtable (drop_index (table (hashtable w)) mm) w) in *.
  assert (read_from w w1) as Hr by by eexists.
  unfold lookup_hit. apply wp_bind. eapply wp_intro; [exact E|].
  pose proof (lookup_answer w es r k Hs Ha) as Hans. destruct r as [hit| |u]; [| |done].
  - destruct Hans as (x & off & e & h & m & d & c & Hl & Ek & Ec & ->). cbn [pinned hit_pin hit_location hit_slot pin_seg].
    apply wp_bind. eapply (wp_edit x _ h Acquired add_ref); [apply Hl| |].
    { eapply run_try_acquire_reader; apply Hl. }
    apply wp_ret. eapply (Hf w1 (hit_location hit) x off e h m d). split; [done|]. split; [done|]. split; [done|].
    exists c. split; [|done]. rewrite <- Ec. by eapply similar_entry_at.
  - apply wp_ret. by apply Hn.
Qed.

Lemma set_hashtable_same w : set_hashtable (drop_index (table (hashtable w)) (lift_index w (hashtable w))) w = w.
Proof. rewrite drop_lift. by destruct w. Qed.

Lemma wp_slot_publishes w k l c l' (Q : bool -> Cache -> Prop) :
  index_inv hash_key (hashtable w) -> HashSeq.entry_at hash_key (hashtable w) k l = Some c ->
  Q (l =? l') w -> wp (slot_publishes (slot_of hash_key k c) l') Q w.
Proof.
  intros Hi Hc HQ. eapply wp_intro.
  - apply with_table_eq, (probe_publishes hash_key); done.
  - by rewrite set_hashtable_same.
Qed.

(** ** The expiry of a segment *)

Definition expired_hd (h : SegmentHeader) : bool :=
  negb (SegHeader.ttl h =? 0) && (create_at h + SegHeader.ttl h <=? now).

Definition remaining_hd (h : SegmentHeader) : Z :=
  if SegHeader.ttl h =? 0 then 0 else create_at h + SegHeader.ttl h - now.

Lemma wp_remaining_ttl w x h (Q : Z + SegcacheError -> Cache -> Prop) :
  header_at x w = Some h ->
  Q (if expired_hd h then inr NotFound else inl (remaining_hd h)) w ->
  wp (remaining_ttl now x) Q w.
Proof.
  intros Eh HQ. unfold remaining_ttl. apply wp_bind. eapply wp_field; [exact Eh|].
  apply wp_bind. eapply wp_field; [exact Eh|]. unfold expired_hd, remaining_hd in HQ.
  destruct (SegHeader.ttl h =? 0); [by apply wp_ret|]. cbn [negb andb] in HQ.
  destruct (_ <=? now); by apply wp_ret.
Qed.

(** ** [get] *)

Definition token_of e l (g : Z) : Z :=
  let base := CasToken.new l g in
  match e_value e with
  | U64 _ => CasToken.mix_version base (e_version e)
  | Bytes _ => base
  end.

Lemma stored_token e d l g :
  entry_ok e -> stored integrity e d -> token_for integrity d l g = token_of e l g.
Proof.
  intros He Hd. unfold token_for, token_of, numeric_version.
  rewrite (holds_numeric _ _ _ _ _ _ _ (entry_args _ He) Hd).
  destruct (e_value e) eqn:Ev; cbn [is_u64]; [done|].
  pose proof (holds_version_word _ _ _ _ _ _ _ (entry_args _ He) Hd) as Hw. rewrite Ev in Hw.
  by rewrite Hw.
Qed.

Lemma wp_raw_at w x off d (Q : bytes -> Cache -> Prop) :
  datas w !! idx x = Some d -> Q (drop (Z.to_nat off) d) w -> wp (raw_at (mkPin x off)) Q w.
Proof. intros Ed HQ. eapply wp_intro; [|exact HQ]. unfold raw_at, item_bytes. cbn [pin_seg pin_offset]. by rewrite Ed. Qed.

Lemma wp_unpin w x off h m (Q : unit -> Cache -> Prop) :
  header_at x w = Some h -> unpack (metadata h) = Some m -> is_readable (state m) = true ->
  fits 32 (ref_count h) -> Q tt w -> wp (unpin integrity (mkPin x off)) Q (edit x add_ref w).
Proof.
  intros Eh Em Es Hf HQ. unfold unpin, drop_guard. cbn [pin_seg]. apply wp_bind.
  eapply (wp_edit x _ (add_ref h) false sub_ref); [by rewrite header_edit, decide_True, Eh| |].
  - eapply run_drop_guard; [done|]. intros E. by rewrite E in Es.
  - rewrite (unpin_edit x h) by done. by apply wp_ret.
Qed.

(** The parts of a hit, in the heap where it was made and its pin is held. *)
Lemma hits_parts w w1 es k l x off e h m d hit :
  searchable w es -> hits w w1 es k l x off e h m d hit ->
  searchable w1 es /\ lies w1 es l x off e h m d /\ header_at x w1 = header_at x w /\
  lies (edit x add_ref w1) es l x off e (add_ref h) m d /\ searchable (edit x add_ref w1) es.
Proof.
  intros Hs (Hr & Hl & _). pose proof (read_alike es w w1 Hs Hr) as Ha.
  pose proof (alike_searchable _ _ _ Hs Ha) as Hs1.
  assert (alike es w1 (edit x add_ref w1)) as Ha2.
  { apply pin_alike; [done..|]. intros h0 _. by apply wrap_fits. }
  assert (lies w1 es l x off e h m d) as Hl1.
  { destruct Hr as (t & -> & Ht). destruct Hl as [X1 X2 X3 X4 X5 X6 X7 X8 X8' X9 X10 X11 X12 X13 X14].
    split; try done. by apply (similar_published hash_key (hashtable w)). }
  split; [done|]. split; [done|]. split; [by destruct Hr as (t & -> & _)|].
  split; [|by eapply alike_searchable].
  destruct Hl1 as [X1 X2 X3 X4 X5 X6 X7 X8 X8' X9 X10 X11 X12 X13 X14]. split; try done.
  - by rewrite header_edit, decide_True, X2.
  - by apply wrap_fits.
Qed.

Lemma wp_get w es (uf : bool) fuel k (Q : option Item -> Cache -> Prop) :
  searchable w es ->
  (forall w1, read_from w w1 -> (forall l x off e h m d, lies w es l x off e h m d -> e_key e = k -> expired_hd h = true) ->
     Q None w1) ->
  (forall w1 l x off e h m d hit, hits w w1 es k l x off e h m d hit -> expired_hd h = false ->
     Q (Some (mkItem (mkPin x off) (token_of e l (generation h)))) (edit x add_ref w1)) ->
  wp (get_pinned integrity debug_assertions hash_key (S fuel) cfg now k uf) Q w.
Proof.
  intros Hs Hn Hf. unfold get_pinned. cbn [resolve_loop]. apply wp_bind. eapply wp_lookup_hit; [exact Hs|..].
  - intros w1 Hr Ha. apply wp_ret, Hn; [done|]. intros l x off e h m d Hl Ek. exfalso.
    apply (Ha l e); [|done]. by exists x, off, h, m, d.
  - intros w1 l x off e h m d hit Hh. pose proof (hits_parts _ _ _ _ _ _ _ _ _ _ _ _ Hs Hh) as (Hs1 & Hl1 & _ & Hl2 & Hs2).
    pose proof Hh as (Hr & Hl & Ek & c & Ec & ->). cbn [hit_location hit_slot hit_pin].
    apply wp_bind. eapply wp_slot_publishes; [apply Hs2|exact Ec|]. rewrite Z.eqb_refl.
    unfold item_from_pin. rewrite (lies_unpack _ _ _ _ _ _ _ _ _ Hl).
    pose proof (li_range _ _ _ _ _ _ _ _ _ Hl) as Hx. rewrite (proj2 (Z.eqb_neq x 0)) by lia.
    apply wp_bind. eapply wp_remaining_ttl; [apply Hl2|].
    change (expired_hd (add_ref h)) with (expired_hd h). destruct (expired_hd h) eqn:Ex.
    + apply wp_bind. eapply wp_unpin; [apply Hl1..|]. apply wp_ret, Hn; [done|].
      intros l' x' off' e' h' m' d' Hl' Ek'.
      assert (l' = l) as ->.
      { apply (se_unique _ _ Hs) with (e := e') (e' := e); [by exists x', off', h', m', d'|by exists x, off, h, m, d|congruence]. }
      destruct (lies_fun _ _ _ _ _ _ _ _ _ _ _ _ _ _ _ Hl Hl') as (_ & _ & _ & -> & _). done.
    + apply wp_bind. eapply wp_raw_at; [apply Hl2|].
      apply wp_bind, wp_check; [eapply holds_check_magic, (li_stored _ _ _ _ _ _ _ _ _ Hl2)|].
      apply wp_bind. unfold generation_of. eapply wp_field; [apply Hl2|].
      rewrite (stored_token e) by apply Hl2. apply wp_ret. eapply (Hf w1 l x off e h m d); [|done].
      split; [done|]. split; [done|]. split; [done|]. exists c. done.
Qed.

(** What an item reads, while its segment is pinned. *)
Lemma wp_item_reads w es l x off e h m d token :
  lies w es l x off e h m d ->
  let i := mkItem (mkPin x off) token in
  wp (item_key integrity i) (fun v w' => v = e_key e /\ w' = w) w /\
  wp (item_value integrity i) (fun v w' => v = e_value e /\ w' = w) w /\
  wp (item_optional integrity i) (fun v w' =>
    v = (if 0 <? blen (e_optional e) then Some (e_optional e) else None) /\ w' = w) w.
Proof.
  intros Hl i. pose proof (entry_args _ (li_ok _ _ _ _ _ _ _ _ _ Hl)) as Ha.
  pose proof (li_stored _ _ _ _ _ _ _ _ _ Hl) as Hst. split_and!.
  - apply wp_bind. eapply wp_raw_at; [apply Hl|]. apply wp_ret. by rewrite (holds_read_key _ _ _ _ _ _ _ Ha Hst).
  - apply wp_bind. eapply wp_raw_at; [apply Hl|]. eapply wp_lift; [|done].
    rewrite (holds_read_value _ _ _ _ _ _ _ Ha Hst).
    pose proof (entry_even _ (li_ok _ _ _ _ _ _ _ _ _ Hl)) as ->. by destruct (e_value e).
  - apply wp_bind. eapply wp_raw_at; [apply Hl|]. apply wp_ret. by rewrite (holds_read_optional _ _ _ _ _ _ _ Ha Hst).
Qed.
End Lookup.
