(* ===== verification/CacheState.v ===== *)
(** * The cache between operations

    [cache_ok]: the heap is at rest and no key is published twice. What the
    cache then maps keys to is [contents_of], a function that can be evaluated;
    [kept] says where. *)
From S2P Require Import Prelude Packing Atomics Table TableSpec TableThms HashIface HashSeq HashProbe.
From S2P Require Import KvItem KvItemSpec TtlBuckets Eviction SegState SegHeader SegHeaderSpec Segment SegmentSpec Segments.
From S2P Require Import Segcache HeapRules HeapShape HeapContents HeapDrain HeapClear HeapItems HeapEvict HeapRemove CacheLookup.

(** What a key is mapped to: a value, the optional data, the second it expires
    at, and the token a [cas] has to show. *)
Record Slot := mkSlot { sl_value : Value; sl_optional : bytes; sl_deadline : option Z; sl_token : Z }.

Definition deadline (h : SegmentHeader) : option Z :=
  if SegHeader.ttl h =? 0 then None else Some (create_at h + SegHeader.ttl h).

Definition slot_for (x off : Z) (e : Entry) (h : SegmentHeader) : Slot :=
  mkSlot (e_value e) (e_optional e) (deadline h)
    (token_of e (Location.pack_location x (generation h) off) (generation h)).

Section State.
Context (integrity debug_assertions : bool) (hash_key : bytes -> Z) (cfg : Config) (now : Z).

#[local] Hint Extern 0 (Hashtable (Index unit)) => exact (index_hashtable hash_key) : typeclass_instances.
#[local] Hint Extern 0 (LawfulHashtable (Index unit)) => exact (index_lawful hash_key) : typeclass_instances.

Implicit Types (w : Cache) (x off l : Z) (e : Entry) (L : Layout) (es : Z -> list Entry) (k : bytes) (s : Slot).

Abbreviation published := (published hash_key).
Abbreviation first := (first_offset integrity).
Abbreviation size_of := (entry_size integrity).
Abbreviation at_rest := (at_rest integrity cfg).
Abbreviation searchable := (searchable integrity hash_key cfg).
Abbreviation lies := (lies integrity hash_key cfg).
Abbreviation item_at := (CacheLookup.item_at integrity hash_key cfg).

(** Key [k] is published where item [e] lies. *)
Record kept w es k x off e (h : SegmentHeader) : Prop := {
  kp_range : 1 <= x <= cap cfg;
  kp_header : header_at x w = Some h;
  kp_place : (off, e) ∈ places integrity first (es x);
  kp_key : e_key e = k;
  kp_published : published (hashtable w) k (Location.pack_location x (generation h) off)
}.

Record cache_ok w L es : Prop := {
  ck_rest : at_rest w L es;
  ck_refs y h : header_at y w = Some h -> fits 32 (ref_count h);
  ck_unique k x off e h x' off' e' h' :
    kept w es k x off e h -> kept w es k x' off' e' h' -> x' = x /\ off' = off
}.

Lemma kept_fun w L es k x off e h x' off' e' h' :
  cache_ok w L es -> kept w es k x off e h -> kept w es k x' off' e' h' -> x' = x /\ off' = off /\ e' = e /\ h' = h.
Proof.
  intros Hk H1 H2. destruct (ck_unique _ _ _ Hk _ _ _ _ _ _ _ _ _ H1 H2) as [-> ->].
  destruct H1, H2. split; [done|]. split; [done|]. simplify_eq. split; [|done].
  assert ((off, e') = (off, e)) as E; [|by injection E]. by eapply places_same_offset.
Qed.

Lemma lies_kept w es l x off e h m d : lies w es l x off e h m d -> kept w es (e_key e) x off e h.
Proof. intros [? ? ? ? ? ? -> *]. by split. Qed.

Lemma placed_chained w L es x off e :
  at_rest w L es -> (off, e) ∈ places integrity first (es x) -> x ∈ mjoin (chains L).
Proof.
  intros Hr Hp. destruct (decide (x ∈ mjoin (chains L))) as [|Hn]; [done|].
  rewrite (ar_idle _ _ _ _ _ Hr x Hn) in Hp. by apply not_elem_of_nil in Hp.
Qed.

Lemma chained_ttl w L es x h :
  at_rest w L es -> x ∈ mjoin (chains L) -> header_at x w = Some h -> 0 < SegHeader.ttl h.
Proof.
  intros Hr Hx Eh. apply list_elem_of_join in Hx as (l & Hx & [b Hb]%list_elem_of_lookup).
  destruct (sh_ttl _ _ _ _ (ar_shape _ _ _ _ _ Hr) b l x h Hb Hx Eh) as (_ & -> & _). unfold floor. lia.
Qed.

Lemma kept_lies w L es k x off e h :
  cache_ok w L es -> kept w es k x off e h ->
  exists m d, lies w es (Location.pack_location x (generation h) off) x off e h m d.
Proof.
  intros Hk [K1 K2 K3 K4 K5]. pose proof (ck_rest _ _ _ Hk) as Hr.
  pose proof (ar_contents _ _ _ _ _ Hr) as Hc.
  destruct (chained_header integrity cfg w L es x Hr) as (h' & m & Eh & Em & Ed & _); [by eapply placed_chained|].
  simplify_eq. destruct (c_items _ _ _ _ Hc x K1) as (h2 & d & E2 & Edd & Ei & Hb & Hs). simplify_eq.
  exists m, d. destruct (place_stored _ _ _ _ _ _ _ Hs K3) as [Hok Hst].
  destruct (place_in _ _ _ _ _ _ _ Hs K3) as (? & ? & ? & ? & ?). cbn [fst snd data] in *.
  split; try done.
  - by eapply (ck_refs _ _ _ Hk).
  - exact (place_issuable _ _ _ _ _ _ _ Hs K3).
  - by rewrite <- Hb.
  - eapply (live_not_deleted integrity _ _ _ _ _ (off, e)); [exact Hs|done|]. by apply live_some.
Qed.

Lemma kept_item w L es l e : cache_ok w L es -> item_at w es l e ->
  exists x off h, kept w es (e_key e) x off e h /\ l = Location.pack_location x (generation h) off.
Proof.
  intros Hk (x & off & h & m & d & Hl). exists x, off, h. split; [by eapply lies_kept|]. apply Hl.
Qed.

Lemma cache_searchable w L es : cache_ok w L es -> searchable w es.
Proof.
  intros Hk. pose proof (ck_rest _ _ _ Hk) as Hr. pose proof (ar_contents _ _ _ _ _ Hr) as Hc. split.
  - apply Hc.
  - apply Hk.
  - intros y Hy. destruct (c_items _ _ _ _ Hc y Hy) as (h & d & _ & E & _). by exists d.
  - intros k l [f Hf]. destruct (c_covered _ _ _ _ Hc _ _ _ Hf) as (x & h & Hx & Eh & Hh).
    destruct (c_items _ _ _ _ Hc x Hx) as (h2 & d & E2 & _ & Ei & _ & Hs). simplify_eq.
    destruct (ok_published _ _ _ _ _ _ Hs _ _ _ Hf Hh) as ([off e] & Hp & El & Hli & _).
    exists e. destruct (kept_lies w L es (e_key e) (id h) off e h Hk) as (m & d' & Hl).
    { split; try done. by apply live_some in Hli. }
    exists (id h), off, h, m, d'. by rewrite El.
  - intros l l' e e' Hi Hi' Ee. destruct (kept_item _ _ _ _ _ Hk Hi) as (x & off & h & H1 & ->).
    destruct (kept_item _ _ _ _ _ Hk Hi') as (x' & off' & h' & H2 & ->). rewrite <- Ee in H2.
    by destruct (kept_fun _ _ _ _ _ _ _ _ _ _ _ _ Hk H1 H2) as (-> & -> & -> & ->).
Qed.

(** ** The map *)

Definition shelves es : list (Z * (Z * Entry)) :=
  x ← ids (cap cfg); p ← places integrity first (es x); [(x, p)].

Definition shelved w k (q : Z * (Z * Entry)) : bool :=
  match header_at q.1 w with
  | Some h => bool_decide (e_key q.2.2 = k) &&
      negb (is_none (get_item_frequency (hashtable w) k (Location.pack_location q.1 (generation h) q.2.1)))
  | None => false
  end.

(** What key [k] is mapped to, expired or not. *)
Definition contents_of w es k : option Slot :=
  q ← List.find (shelved w k) (shelves es);
  h ← header_at q.1 w;
  Some (slot_for q.1 q.2.1 q.2.2 h).

Lemma shelves_spec es x off e :
  (x, (off, e)) ∈ shelves es <-> 1 <= x <= cap cfg /\ (off, e) ∈ places integrity first (es x).
Proof.
  unfold shelves. rewrite list_elem_of_bind. split.
  - intros (x' & (p & Hq & Hp)%list_elem_of_bind & Hx). apply list_elem_of_singleton in Hq.
    injection Hq as -> <-. rewrite in_ids in Hx. split; [lia|done].
  - intros [Hx Hp]. exists x. rewrite in_ids, list_elem_of_bind. split; [|lia].
    exists (off, e). split; [by left|done].
Qed.

Lemma shelved_spec w es k x off e :
  (x, (off, e)) ∈ shelves es -> shelved w k (x, (off, e)) = true <-> exists h, kept w es k x off e h.
Proof.
  rewrite shelves_spec. intros [Hx Hp]. unfold shelved. cbn [fst snd]. split.
  - destruct (header_at x w) as [h|] eqn:Eh; [|done]. rewrite andb_true_iff, bool_decide_eq_true.
    intros [Ek Hf]. exists h. split; try done. unfold HashProbe.published.
    destruct (get_item_frequency _ _ _); [done|discriminate].
  - intros (h & [K1 K2 K3 K4 [f K5]]). rewrite K2, K5, bool_decide_eq_true_2 by done. done.
Qed.

Lemma contents_some w L es k s :
  cache_ok w L es -> contents_of w es k = Some s <-> exists x off e h, kept w es k x off e h /\ s = slot_for x off e h.
Proof.
  intros Hk. unfold contents_of. split.
  - destruct (List.find _ _) as [[x [off e]]|] eqn:Ef; [|done]. cbn [mbind option_bind fst snd].
    apply List.find_some in Ef as [Hin Hs]. apply list_elem_of_In in Hin.
    apply (shelved_spec w es) in Hs as (h & Hkp); [|done]. rewrite (kp_header _ _ _ _ _ _ _ Hkp).
    cbn [mbind option_bind]. intros [= <-]. by exists x, off, e, h.
  - intros (x & off & e & h & Hkp & ->).
    destruct (List.find (shelved w k) (shelves es)) as [[x' [off' e']]|] eqn:Ef.
    + apply List.find_some in Ef as [Hin Hs]. apply list_elem_of_In in Hin.
      apply (shelved_spec w es) in Hs as (h' & Hkp'); [|done].
      destruct (kept_fun _ _ _ _ _ _ _ _ _ _ _ _ Hk Hkp Hkp') as (-> & -> & -> & ->).
      cbn [mbind option_bind fst snd]. by rewrite (kp_header _ _ _ _ _ _ _ Hkp).
    + exfalso. assert ((x, (off, e)) ∈ shelves es) as Hin by (apply shelves_spec; split; apply Hkp).
      pose proof (List.find_none _ _ Ef _ (proj1 (list_elem_of_In _ _) Hin)) as Hs.
      rewrite (proj2 (shelved_spec w es k x off e Hin)) in Hs by eauto. done.
Qed.

Lemma contents_none w L es k :
  cache_ok w L es -> contents_of w es k = None <-> forall x off e h, ~ kept w es k x off e h.
Proof.
  intros Hk. split.
  - intros E x off e h Hkp. assert (contents_of w es k = Some (slot_for x off e h)) as E'; [|congruence].
    apply (contents_some w L es); [done|]. by exists x, off, e, h.
  - intros Hn. destruct (contents_of w es k) as [s|] eqn:E; [|done].
    apply (contents_some w L es) in E as (x & off & e & h & Hkp & _); [|done]. by apply Hn in Hkp.
Qed.

(** Two heaps that keep the same items for a key map it the same. *)
Lemma contents_ext_at w L es w' L' es' k :
  cache_ok w L es -> cache_ok w' L' es' ->
  (forall s, (exists x off e h, kept w es k x off e h /\ s = slot_for x off e h) <->
             (exists x off e h, kept w' es' k x off e h /\ s = slot_for x off e h)) ->
  contents_of w' es' k = contents_of w es k.
Proof.
  intros Hk Hk' Hs. apply option_eq. intros s. by rewrite (contents_some w L es), (contents_some w' L' es').
Qed.

(** What becomes of a cache: but for the key [k0], it keeps what it kept. *)
Lemma remapped (k0 : option bytes) w L es w' L' es' :
  cache_ok w L es -> at_rest w' L' es' -> (forall y h, header_at y w' = Some h -> fits 32 (ref_count h)) ->
  (forall k x off e h, k0 <> Some k -> kept w' es' k x off e h ->
     exists h0, kept w es k x off e h0 /\ slot_for x off e h0 = slot_for x off e h) ->
  (forall k x off e h, k0 <> Some k -> kept w es k x off e h ->
     exists h', kept w' es' k x off e h' /\ slot_for x off e h' = slot_for x off e h) ->
  (forall k x off e h x' off' e' h', k0 = Some k ->
     kept w' es' k x off e h -> kept w' es' k x' off' e' h' -> x' = x /\ off' = off) ->
  cache_ok w' L' es' /\ forall k, k0 <> Some k -> contents_of w' es' k = contents_of w es k.
Proof.
  intros Hk Hr Hf Hback Hforth Hu.
  assert (cache_ok w' L' es') as Hk'.
  { split; [done..|]. intros k x off e h x' off' e' h' H1 H2.
    destruct (decide (k0 = Some k)) as [Ek|Ek]; [by eapply Hu|].
    apply Hback in H1 as (h1 & H1 & _); [|done]. apply Hback in H2 as (h2 & H2 & _); [|done].
    by eapply ck_unique. }
  split; [done|]. intros k Ek. eapply contents_ext_at; [done..|]. intros s. split.
  - intros (x & off & e & h & (h' & Hkp & <-)%Hforth & ->); [by exists x, off, e, h'|done].
  - intros (x & off & e & h & (h' & Hkp & <-)%Hback & ->); [by exists x, off, e, h'|done].
Qed.

(** ** Changes the map does not see *)

(** What the map depends on in a header. *)
Definition dated (h : SegmentHeader) : Z * Z * Z := (generation h, SegHeader.ttl h, create_at h).

Lemma slot_for_dated x off e h h' : dated h = dated h' -> slot_for x off e h = slot_for x off e h'.
Proof. unfold dated, slot_for, deadline. intros E. injection E as -> -> ->. done. Qed.

Lemma kept_same w w' es k x off e h :
  (forall y, dated <$> header_at y w' = dated <$> header_at y w) ->
  (forall l, published (hashtable w') k l <-> published (hashtable w) k l) ->
  kept w es k x off e h -> exists h', kept w' es k x off e h' /\ slot_for x off e h' = slot_for x off e h.
Proof.
  intros Hd Hp [K1 K2 K3 K4 K5]. specialize (Hd x). rewrite K2 in Hd.
  destruct (header_at x w') as [h'|] eqn:Eh; [|done]. apply (inj Some) in Hd.
  unfold dated in Hd. injection Hd as E1 E2 E3. exists h'. split.
  - split; try done. by rewrite Hp, E1.
  - apply slot_for_dated. unfold dated. congruence.
Qed.

Lemma same_ok w w' L es :
  cache_ok w L es -> at_rest w' L es -> (forall y h, header_at y w' = Some h -> fits 32 (ref_count h)) ->
  (forall y, dated <$> header_at y w' = dated <$> header_at y w) ->
  (forall k l, published (hashtable w') k l <-> published (hashtable w) k l) ->
  cache_ok w' L es /\ forall k, contents_of w' es k = contents_of w es k.
Proof.
  intros Hk Hr Hf Hd Hp. destruct (remapped None w L es w' L es) as [Hk' Hc]; try done.
  - intros k x off e h _. eapply kept_same; [intros y; by rewrite Hd|intros l; by rewrite Hp].
  - intros k x off e h _. by apply kept_same.
  - split; [done|]. intros k. by apply Hc.
Qed.

(** The hashtable was read. *)
Lemma read_ok w w1 L es :
  cache_ok w L es -> read_from w w1 ->
  cache_ok w1 L es /\ forall k, contents_of w1 es k = contents_of w es k.
Proof.
  intros Hk (t & -> & Ht). pose proof (ck_rest _ _ _ Hk) as [A1 A2 A3 A4 A5 A6].
  pose proof (c_index _ _ _ _ A3) as Hi.
  assert (forall k l, published t k l <-> published (hashtable w) k l) as Hp by (intros; by apply similar_published).
  apply same_ok; try done; [|apply Hk]. split; try done.
  - by eapply shape_ext.
  - apply contents_domain; [done|by eapply similar_inv|exact Hp].
  - by eapply anchored_ext.
Qed.

(** A segment of a chain was pinned, or is not any more. *)
Lemma repinned_ok w x f L es :
  cache_ok w L es -> x ∈ mjoin (chains L) -> (forall h, fits 32 (ref_count h) -> fits 32 (ref_count (f h))) ->
  (forall h, with_ref_count (ref_count h) (f h) = h) ->
  cache_ok (edit x f w) L es /\ forall k, contents_of (edit x f w) es k = contents_of w es k.
Proof.
  intros Hk Hx Hr Hf. pose proof (ck_rest _ _ _ Hk) as [A1 A2 A3 A4 A5 A6].
  assert (forall {A} (g : SegmentHeader -> A), (forall n h, g (with_ref_count n h) = g h) -> forall h, g (f h) = g h) as Hg.
  { intros A g Hg h. rewrite <- (Hf h) at 2. by rewrite Hg. }
  assert (forall {A} (g : SegmentHeader -> A), (forall n h, g (with_ref_count n h) = g h) ->
    forall y, g <$> header_at y (edit x f w) = g <$> header_at y w) as Hm.
  { intros A g Hg' y. rewrite header_edit. case_decide; [|done]. subst y. destruct (header_at x w); [|done].
    cbn. by rewrite (Hg A g). }
  apply same_ok; try done.
  - split; try done.
    + eapply shape_bones; [done|unfold same_queues; by rewrite length_edit|by apply Hm|].
      intros y Hy. unfold pinned. rewrite header_edit, decide_False; [done|]. intros ->.
      pose proof (accounted_nodup _ _ _ _ A1) as Hn. unfold accounted in Hn.
      apply NoDup_app in Hn as (_ & _ & Hn). apply NoDup_app in Hn as (_ & _ & Hn).
      apply NoDup_app in Hn as (_ & Hn & _). apply (Hn x Hx). rewrite elem_of_app. by right.
    + apply contents_edit; [done|]. intros h _. by apply (Hg _ counters).
    + by eapply anchored_ext.
    + intros y h. rewrite header_edit. case_decide; [|apply A6].
      intros (h0 & E0 & ->)%fmap_Some. destruct (A6 y h0 E0) as [E1 E2].
      by rewrite (Hg _ active_writers), (Hg _ active_removers).
  - intros y h. rewrite header_edit. case_decide; [|apply Hk].
    intros (h0 & E0 & ->)%fmap_Some. by eapply Hr, (ck_refs _ _ _ Hk).
  - by apply Hm.
Qed.

(** Segments [xs] were taken out: what is kept was kept. *)
Lemma swept_dated xs w w' L L' es es' y h h' :
  swept cfg xs w w' L L' es es' -> y ∉ xs -> header_at y w = Some h -> header_at y w' = Some h' -> dated h' = dated h.
Proof.
  intros Hs Hy E E'. pose proof (sw_headers _ _ _ _ _ _ _ _ Hs y Hy) as S6. rewrite E, E' in S6. apply (inj Some) in S6.
  change (dated (erase h') = dated (erase h)). by rewrite S6.
Qed.

Lemma swept_back xs w w' L L' es es' k y off e h' :
  swept cfg xs w w' L L' es es' -> kept w' es' k y off e h' ->
  exists h, kept w es k y off e h /\ dated h = dated h' /\ y ∉ xs.
Proof.
  intros Hs [K1 K2 K3 K4 K5]. rewrite (sw_items _ _ _ _ _ _ _ _ Hs) in K3.
  case_decide as D; [by apply not_elem_of_nil in K3|].
  pose proof (sw_headers _ _ _ _ _ _ _ _ Hs y D) as S6. rewrite K2 in S6.
  destruct (header_at y w) as [h|] eqn:Eh; [|done]. clear S6.
  pose proof (swept_dated _ _ _ _ _ _ _ _ _ _ Hs D Eh K2) as E. exists h. split; [|done].
  unfold dated in E. injection E as G1 G2 G3.
  split; try done. rewrite <- G1. destruct K5 as [f Hf]. unfold HashProbe.published.
  rewrite (sw_index _ _ _ _ _ _ _ _ Hs) in Hf. by destruct (gone _ _ _).
Qed.

Lemma swept_ok xs w w' L L' es es' :
  cache_ok w L es -> at_rest w' L' es' -> swept cfg xs w w' L L' es es' ->
  cache_ok w' L' es' /\
  (forall k, contents_of w' es' k = contents_of w es k \/ contents_of w' es' k = None) /\
  (forall k, (forall x off e h, kept w es k x off e h -> x ∉ xs) -> contents_of w' es' k = contents_of w es k).
Proof.
  intros Hk Hr' Hsw. pose proof Hsw as [S1 S2 S3 S4 S5 S6 S7 S8]. pose proof (ck_rest _ _ _ Hk) as Hr.
  pose proof (fun y h h' => swept_dated _ _ _ _ _ _ _ y h h' Hsw) as Hd.
  assert (forall y, y ∉ xs -> is_Some (header_at y w') <-> is_Some (header_at y w)) as Hs.
  { intros y Hy. specialize (S6 y Hy). destruct (header_at y w), (header_at y w'); done. }
  assert (forall k y off e h', kept w' es' k y off e h' ->
    exists h, kept w es k y off e h /\ slot_for y off e h = slot_for y off e h' /\ y ∉ xs) as Hback.
  { intros k y off e h' (h & ? & ? & ?)%(swept_back _ _ _ _ _ _ _ _ _ _ _ _ Hsw). exists h.
    split; [done|]. split; [by apply slot_for_dated|done]. }
  assert (forall k y off e h, kept w es k y off e h -> y ∉ xs ->
    exists h', kept w' es' k y off e h' /\ slot_for y off e h' = slot_for y off e h) as Hforth.
  { intros k y off e h Hkp D. pose proof Hkp as [K1 K2 K3 K4 K5].
    destruct (proj2 (Hs y D) (mk_is_Some _ _ K2)) as [h' Eh']. pose proof (Hd y h h' D K2 Eh') as E.
    pose proof (slot_for_dated y off e h' h E) as Esl. unfold dated in E. injection E as G1 G2 G3. exists h'. split; [|done].
    split; try done.
    - by rewrite S4, decide_False.
    - rewrite G1. unfold HashProbe.published. rewrite S5.
      assert (gone xs w (Location.pack_location y (generation h) off) = false) as ->; [|exact K5].
      apply not_true_is_false. unfold gone. intros (x & Hx%list_elem_of_In & Hl)%existsb_exists. apply D.
      destruct (kept_lies _ _ _ _ _ _ _ _ Hk Hkp) as (m & d & Hlie). unfold in_segment in Hl.
      destruct (header_at x w) as [hx|] eqn:Ex; [|done]. apply here_id in Hl.
      rewrite (lies_unpack _ _ _ _ _ _ _ _ _ _ _ _ Hlie) in Hl. cbn [fst] in Hl.
      pose proof (header_range _ _ _ _ _ _ (ar_shape _ _ _ _ _ Hr) Ex) as Hxr.
      destruct (c_items _ _ _ _ (ar_contents _ _ _ _ _ Hr) x Hxr) as (hx' & ? & Ex' & _ & Ei & _).
      rewrite Ex in Ex'. injection Ex' as <-. by rewrite Hl, Ei. }
  assert (cache_ok w' L' es') as Hk'.
  { split; [done| |].
    - intros y h Eh. specialize (S7 y). rewrite Eh in S7. destruct (header_at y w) as [h0|] eqn:E0; [|done].
      apply (inj Some) in S7. unfold pins in S7. injection S7 as -> _ _. by eapply (ck_refs _ _ _ Hk).
    - intros k y off e h y' off' e' h' (h1 & H1 & _)%Hback (h2 & H2 & _)%Hback. by eapply (ck_unique _ _ _ Hk). }
  split; [done|].
  assert (forall k s, contents_of w' es' k = Some s -> contents_of w es k = Some s) as Hsome.
  { intros k s. rewrite (contents_some w' L'), (contents_some w L) by done.
    intros (y & off & e & h & (h' & Hkp & <- & _)%Hback & ->). by exists y, off, e, h'. }
  split.
  - intros k. destruct (contents_of w' es' k) as [s|] eqn:E; [|by right]. left. symmetry. by apply Hsome.
  - intros k Hn. destruct (contents_of w es k) as [s|] eqn:E.
    + apply (contents_some w L) in E as (y & off & e & h & Hkp & ->); [|done].
      destruct (Hforth _ _ _ _ _ Hkp (Hn _ _ _ _ Hkp)) as (h' & Hkp' & <-).
      apply (contents_some w' L'); [done|]. by exists y, off, e, h'.
    + destruct (contents_of w' es' k) as [s|] eqn:E'; [|done]. apply Hsome in E'. congruence.
Qed.

(** ** What [evict] needs, which the other operations keep *)

(** The ranking covers the segments, the spares are complete, no eviction runs,
    and no segment of a chain was created later than now. *)
Record dropping w L : Prop := {
  dp_ranking : ranking_ok cfg w;
  dp_spare : spare_capacity cfg <= spare_count w;
  dp_evictions : evicts_started w = evicts_finished w;
  dp_created y h : y ∈ mjoin (chains L) -> header_at y w = Some h -> create_at h <= now
}.

Lemma dropping_ext w w' L : evict w' = evict w -> spare_count w' = spare_count w -> evictions w' = evictions w ->
  (forall y, dated <$> header_at y w' = dated <$> header_at y w) -> dropping w L -> dropping w' L.
Proof.
  intros E1 E2 E3 Ed [D1 D2 D3 D4]. unfold evictions in E3. injection E3 as E3 E4.
  split; [unfold ranking_ok; by rewrite E1|by rewrite E2|congruence|].
  intros y h' Hy Eh'. specialize (Ed y). rewrite Eh' in Ed. destruct (header_at y w) as [h|] eqn:Eh; [|done].
  apply (inj Some) in Ed. unfold dated in Ed. injection Ed as _ _ ->. by eapply D4.
Qed.

Lemma dropping_swept xs w w' L L' es es' :
  at_rest w L es -> swept cfg xs w w' L L' es es' -> ranking_ok cfg w' -> evicts_started w' = evicts_finished w' ->
  dropping w L -> dropping w' L'.
Proof.
  intros Hr [S1 S2 S3 S4 S5 S6 S7 S8] Hk He [D1 D2 D3 D4].
  split; [done| |done|].
  - destruct (S8 D2) as (_ & _ & _ & ->). done.
  - intros y h' Hy Eh'.
    assert (y ∈ mjoin (chains L) /\ y ∉ xs) as [Hy0 Hyx].
    { split; [rewrite S1, elem_of_app; by right|]. intros Hx.
      pose proof (chains_nodup _ _ _ _ (ar_shape _ _ _ _ _ Hr)) as Hn. rewrite S1 in Hn.
      apply NoDup_app in Hn as (_ & Hn & _). by apply (Hn y). }
    specialize (S6 y Hyx). rewrite Eh' in S6. destruct (header_at y w) as [h|] eqn:Eh; [|done].
    apply (inj Some), (f_equal create_at) in S6. cbn in S6. rewrite S6. by eapply D4.
Qed.

(** A segment that keeps nothing was removed. *)
Lemma removed_ok b (l1 l2 : list Z) x w w' L es :
  cache_ok w L es -> dropping w L -> (forall k off e h, ~ kept w es k x off e h) ->
  removed integrity cfg Freed b l1 l2 x w w' L es ->
  cache_ok w' (with_chain b (l1 ++ l2) L) (upd_es x [] es) /\ dropping w' (with_chain b (l1 ++ l2) L) /\
  forall k, contents_of w' (upd_es x [] es) k = contents_of w es k.
Proof.
  intros Hk Hd Hno [R1 R2 R3 R4 R5]. destruct (swept_ok [x] w w' L _ es _ Hk R1 R2) as (Hk' & _ & Hc).
  split; [done|]. unfold aside in R3. injection R3 as E1 _ E3 E4. split.
  - eapply dropping_swept; [apply Hk|exact R2| | |done].
    + unfold ranking_ok. rewrite E1. apply Hd.
    + rewrite E3, E4. apply Hd.
  - intros k. apply Hc. intros y off e h Hkp ->%list_elem_of_singleton. by eapply Hno.
Qed.

(** Whether a slot is over at second [now]. *)
Definition expired_slot s : bool :=
  match sl_deadline s with
  | Some t => t <=? now
  | None => false
  end.

Lemma expired_slot_for x off e h : expired_slot (slot_for x off e h) = expired_hd now h.
Proof. unfold expired_slot, slot_for, deadline, expired_hd. cbn. by destruct (SegHeader.ttl h =? 0). Qed.
End State.
