(* ===== verification/CacheDelete.v ===== *)
(** * Deleting a key

    The hashtable's operations the writers use, and [delete] of [Segcache]
    from a consistent cache to a consistent cache. *)
From S2P Require Import Prelude Packing Atomics Table TableSpec TableThms HashIface HashSeq HashProbe.
From S2P Require Import KvItem KvItemSpec TtlBuckets Eviction SegState SegHeader SegHeaderSpec Segment SegmentSpec Segments.
From S2P Require Import Segcache HeapRules HeapShape HeapContents HeapDrain HeapClear HeapItems HeapEvict HeapRemove CacheLookup CacheState.

Section Delete.
Context (integrity debug_assertions : bool) (hash_key : bytes -> Z).
Context (cfg : Config) (now : Z).

#[local] Hint Extern 0 (Hashtable (Index unit)) => exact (index_hashtable hash_key) : typeclass_instances.
#[local] Hint Extern 0 (LawfulHashtable (Index unit)) => exact (index_lawful hash_key) : typeclass_instances.

Implicit Types (w : Cache) (x off l : Z) (e : Entry) (L : Layout) (es : Z -> list Entry) (k : bytes).

Abbreviation published := (published hash_key).
Abbreviation first := (first_offset integrity).
Abbreviation size_of := (entry_size integrity).
Abbreviation at_rest := (at_rest integrity cfg).
Abbreviation searchable := (searchable integrity hash_key cfg).
Abbreviation lies := (lies integrity hash_key cfg).
Abbreviation kept := (kept integrity hash_key cfg).
Abbreviation cache_ok := (cache_ok integrity hash_key cfg).
Abbreviation contents_of := (contents_of integrity hash_key cfg).
Abbreviation dropping := (dropping cfg now).

(** ** The hashtable *)

Lemma table_back w i : table i = table (hashtable w) ->
  drop_index (table (hashtable w)) (lift_index w i) = i.
Proof. intros <-. apply drop_lift. Qed.

Lemma wp_table_remove w k l (Q : bool -> Cache -> Prop) :
  index_inv hash_key (hashtable w) -> published (hashtable w) k l ->
  (forall t, index_inv hash_key t ->
     (forall k' l', get_item_frequency t k' l' = if l' =? l then None else get_item_frequency (hashtable w) k' l') ->
     Q true (set_hashtable t w)) ->
  wp (table_remove hash_key k l) Q w.
Proof.
  intros Hi [f Hf] HQ. destruct (@remove_published _ _ (index_lawful hash_key) (hashtable w) k l f Hi Hf) as (t & Et & Hit & Hg).
  eapply wp_intro; [apply with_table_eq, probe_remove|]. rewrite Et. cbn [fst snd].
  rewrite table_back; [by apply HQ|].
  change (HashIface.remove (hashtable w) k l = (true, t)) in Et. rewrite remove_entry in Et.
  destruct (HashSeq.entry_at _ _ _ _); [by injection Et as <-|done].
Qed.

Lemma wp_item_frequency w k l (Q : option Z -> Cache -> Prop) :
  Q (get_item_frequency (hashtable w) k l) w -> wp (item_frequency hash_key k l) Q w.
Proof.
  intros HQ. eapply wp_intro; [apply with_table_eq, probe_frequency|]. by rewrite set_hashtable_same.
Qed.

(** ** The mark *)

Lemma set_uint_local n off v (n' : Z) buf :
  0 <= off -> off + Z.of_nat n <= n' -> n' <= blen buf ->
  blen (set_uint n off v buf) = blen buf /\
  (forall o l, n' <= o -> 0 <= l -> slice o l (set_uint n off v buf) = slice o l buf) /\
  (Forall is_byte buf -> Forall is_byte (set_uint n off v buf)).
Proof.
  intros Ho Hn Hb. unfold set_uint. split; [apply blen_blit|]. split.
  - intros o l ? ?. apply slice_blit_after; rewrite ?blen_le_bytes; lia.
  - intros. auto with bytes_len.
Qed.

Lemma set_deleted_local d buf :
  ITEM_HDR_SIZE integrity <= blen buf ->
  blen (set_deleted integrity d buf) = blen buf /\
  (forall o l, ITEM_HDR_SIZE integrity <= o -> 0 <= l -> slice o l (set_deleted integrity d buf) = slice o l buf) /\
  (Forall is_byte buf -> Forall is_byte (set_deleted integrity d buf)).
Proof.
  intros Hb. destruct (layout integrity) as (b & ? & ? & ? & EF & ? & EH & ?).
  unfold set_deleted. destruct d; apply set_uint_local; rewrite ?EF, ?EH in *; lia.
Qed.

Definition marked e : Entry := mkEntry (e_key e) (e_optional e) (e_value e) (e_version e) true.

Lemma marked_ok e : entry_ok e -> entry_ok (marked e).
Proof. intros [? ? ?]. by split. Qed.

(** The bytes of a segment whose item at [off] was marked. *)
Lemma marked_bytes e off d :
  entry_ok e -> stored integrity e (drop (Z.to_nat off) d) -> 0 <= off -> off + size_of e <= blen d ->
  Forall is_byte d ->
  let d' := blit off (set_deleted integrity true (drop (Z.to_nat off) d)) d in
  outside off (size_of e) d d' /\ stored integrity (marked e) (drop (Z.to_nat off) d') /\ Forall is_byte d'.
Proof.
  intros He Hst Ho Hb Hby d'. pose proof (entry_size_bound integrity e) as (_ & B & _).
  assert (0 < ITEM_HDR_SIZE integrity) by (unfold ITEM_HDR_SIZE; by destruct integrity).
  assert (blen (drop (Z.to_nat off) d) = blen d - off) as El by (apply blen_drop; lia).
  destruct (set_deleted_local true (drop (Z.to_nat off) d)) as (S1 & S2 & S3); [lia|].
  destruct (outside_rewrite off (size_of e) d (set_deleted integrity true (drop (Z.to_nat off) d)))
    as [O1 O2]; [lia..| |].
  - intros o l ? ?. apply S2; lia.
  - split; [exact O1|]. split.
    + unfold d'. rewrite O2. eapply (holds_set_deleted integrity _ _ _ _ _ true); [exact (entry_args _ He)|exact Hst].
    + unfold d'. apply Forall_blit; [by apply S3, Forall_drop|done].
Qed.

(** A segment with no live item keeps nothing. *)
Lemma none_kept w L es k x off e h h' :
  cache_ok w L es -> header_at x w = Some h -> live_items h = 0 -> ~ kept w es k x off e h'.
Proof.
  intros Hk Eh E0 [K1 K2 K3 K4 K5]. rewrite Eh in K2. injection K2 as <-.
  destruct (c_items _ _ _ _ (ar_contents _ _ _ _ _ (ck_rest _ _ _ _ _ _ Hk)) x K1) as (h2 & d & E2 & _ & Ei & _ & Hs).
  rewrite Eh in E2. injection E2 as <-.
  assert (live (hashtable w) (mkSegment h d) (off, e) = true) as Hl.
  { apply live_some. cbn [fst snd]. unfold location. cbn [header]. by rewrite K4, Ei. }
  destruct (live_counters _ _ _ _ _ _ _ Hs K3 Hl) as ([? _] & _). cbn [header] in *. lia.
Qed.

(** ** An item taken out *)

Section TakenOut.
Context (w : Cache) (L : Layout) (es : Z -> list Entry) (l x off : Z) (e : Entry) (h : SegmentHeader) (m : Metadata) (d : bytes).
Context (t : Index unit).
Context (Hk : cache_ok w L es) (Hl : lies w es l x off e h m d) (Hit : index_inv hash_key t).
Context (Hg : forall k' l', get_item_frequency t k' l' = if l' =? l then None else get_item_frequency (hashtable w) k' l').

Let d' : bytes := blit off (set_deleted integrity true (drop (Z.to_nat off) d)) d.

(** The heap under the remover pin, the item marked. *)
Definition deleting : Cache :=
  set_datas (alter (blit off (set_deleted integrity true (drop (Z.to_nat off) d))) (idx x) (datas w))
    (set_hashtable t (edit x (fun h => with_active_removers (u32 (active_removers h + 1)) h) w)).

Definition deleted : Cache := edit x (taken_out (size_of e)) deleting.

Lemma del_removers : active_writers h = 0 /\ active_removers h = 0.
Proof. exact (ar_unpinned _ _ _ _ _ (ck_rest _ _ _ _ _ _ Hk) x h (li_header _ _ _ _ _ _ _ _ _ _ _ _ Hl)). Qed.

Lemma deleting_header : header_at x deleting = Some (with_active_removers 1 h).
Proof.
  change (header_at x (edit x (fun h => with_active_removers (u32 (active_removers h + 1)) h) w) = Some (with_active_removers 1 h)).
  rewrite header_edit, decide_True, (li_header _ _ _ _ _ _ _ _ _ _ _ _ Hl) by done. cbn.
  by rewrite (proj2 del_removers).
Qed.

Lemma deleted_header y : header_at y deleted = if decide (y = x) then Some (debited (size_of e) h) else header_at y w.
Proof.
  unfold deleted. rewrite header_edit. case_decide as D.
  - subst y. rewrite deleting_header. cbn. f_equal. unfold taken_out. destruct del_removers as [_ E].
    destruct h. cbn in *. by subst.
  - change (header_at y (edit x (fun h => with_active_removers (u32 (active_removers h + 1)) h) w) = header_at y w).
    by rewrite header_edit, decide_False.
Qed.

Lemma deleted_data y : datas deleted !! idx y = if decide (idx y = idx x) then Some d' else datas w !! idx y.
Proof.
  change (datas deleted) with (alter (blit off (set_deleted integrity true (drop (Z.to_nat off) d))) (idx x) (datas w)).
  case_decide as D.
  - by rewrite D, list_lookup_alter_eq, (li_data _ _ _ _ _ _ _ _ _ _ _ _ Hl).
  - by apply list_lookup_alter_ne.
Qed.

Lemma idx_inj y z : 1 <= y -> 1 <= z -> idx y = idx z -> y = z.
Proof. unfold idx. lia. Qed.

Lemma del_bytes : outside off (size_of e) d d' /\ stored integrity (marked e) (drop (Z.to_nat off) d') /\ Forall is_byte d'.
Proof.
  pose proof Hl as [X1 X2 X3 X4 X5 X6 X7 X8 X8' X9 X10 X11 X12 X13 X14].
  destruct (c_items _ _ _ _ (ar_contents _ _ _ _ _ (ck_rest _ _ _ _ _ _ Hk)) x X1) as (h2 & d2 & E2 & E3 & _ & _ & Hs).
  rewrite X8 in E3. injection E3 as <-. destruct (places_bounds _ _ _ _ X9) as (B & _).
  destruct (first_bounds integrity) as [F _]. cbn [fst] in B.
  apply marked_bytes; try done; [lia|lia|apply (ok_bytes _ _ _ _ _ _ Hs)].
Qed.

Lemma deleted_contents : exists es1 es2 : list Entry, es x = es1 ++ e :: es2 /\ off = end_of integrity es1 /\
  contents integrity cfg deleted (upd_es x (es1 ++ marked e :: es2) es).
Proof.
  pose proof Hl as [X1 X2 X3 X4 X5 X6 X7 X8 X8' X9 X10 X11 X12 X13 X14].
  destruct (laid_inv integrity _ _ _ X9) as (es1 & es2 & Ees & Eo). exists es1, es2. split; [done|]. split; [done|].
  destruct del_bytes as (O1 & O2 & O3).
  set (w1 := set_hashtable t (edit x (debited (size_of e)) w)).
  assert (forall y, header_at y w1 = if decide (y = x) then Some (debited (size_of e) h) else header_at y w) as Eh1.
  { intros y. change (header_at y w1) with (header_at y (edit x (debited (size_of e)) w)).
    rewrite header_edit. case_decide; [|done]. subst y. by rewrite X2. }
  assert (contents integrity cfg w1 es) as Hc1.
  { eapply (contents_unlinked integrity cfg x w w1 es h (debited (size_of e) h) d off e); try done.
    - apply (ck_rest _ _ _ _ _ _ Hk).
    - by rewrite Eh1, decide_True.
    - intros y Hy. by rewrite Eh1, decide_False.
    - by rewrite <- X7.
    - intros k l'. rewrite <- X7. exact (Hg k l').
    - unfold counted. do 5 (split; [done || (cbn; lia)|]). split; apply i32_in_range. }
  eapply (contents_rewritten integrity cfg x w1 deleted es (debited (size_of e) h) d d' es1 es2 e (marked e)); try done.
  - by rewrite Eh1, decide_True.
  - by rewrite deleted_data, decide_True.
  - intros y. by rewrite deleted_header, Eh1.
  - intros y Hy Hy1. rewrite deleted_data, decide_False; [done|]. intros E. apply Hy. by apply idx_inj; [|lia|].
  - by apply marked_ok.
  - by rewrite <- Eo.
  - by rewrite <- Eo.
  - right. intros k. change (get_item_frequency t k (Location.pack_location x (generation h) (end_of integrity es1)) = None).
    by rewrite <- Eo, Hg, X7, Z.eqb_refl.
Qed.

Lemma del_chained : x ∈ mjoin (chains L).
Proof. eapply placed_chained; [apply (ck_rest _ _ _ _ _ _ Hk)|apply Hl]. Qed.

Lemma deleted_rest (es' : list Entry) : contents integrity cfg deleted (upd_es x es' es) -> at_rest deleted L (upd_es x es' es).
Proof.
  intros Hc. eapply (at_rest_touched integrity cfg x w deleted); [apply (ck_rest _ _ _ _ _ _ Hk)|apply del_chained|done|..].
  - unfold same_queues, deleted. cbn [free_queue spare_queue spare_count admission_count edit set_headers].
    do 4 (split; [done|]). rewrite length_edit. split; [apply length_edit|]. apply length_alter.
  - done.
  - intros y. rewrite deleted_header. case_decide; [|done]. subst y. by rewrite (li_header _ _ _ _ _ _ _ _ _ _ _ _ Hl).
  - intros y h0. rewrite deleted_header. case_decide; [|apply (ar_unpinned _ _ _ _ _ (ck_rest _ _ _ _ _ _ Hk))].
    intros E. injection E as <-. exact del_removers.
Qed.

Lemma deleted_dated y : dated <$> header_at y deleted = dated <$> header_at y w.
Proof.
  rewrite deleted_header. case_decide; [|done]. subst y. by rewrite (li_header _ _ _ _ _ _ _ _ _ _ _ _ Hl).
Qed.

Lemma published_deleted k l' : published t k l' <-> l' <> l /\ published (hashtable w) k l'.
Proof.
  unfold HashProbe.published. rewrite Hg. destruct (Z.eqb_spec l' l) as [->|].
  - split; [by intros [? [=]]|by intros []].
  - naive_solver.
Qed.

(** The location is the item's and no other's. *)
Lemma kept_here k y off' e' h' : kept w es k y off' e' h' ->
  Location.pack_location y (generation h') off' = l -> y = x /\ off' = off /\ e' = e.
Proof.
  intros Hkp E. destruct (kept_lies _ _ _ _ _ _ _ _ _ _ _ Hk Hkp) as (m' & d2 & Hl').
  rewrite E in Hl'. by destruct (lies_fun _ _ _ _ _ _ _ _ _ _ _ _ _ _ _ _ _ _ Hl Hl') as (-> & -> & -> & _).
Qed.

Lemma deleted_ok (es1 es2 : list Entry) :
  es x = es1 ++ e :: es2 -> off = end_of integrity es1 ->
  let es' := upd_es x (es1 ++ marked e :: es2) es in
  contents integrity cfg deleted es' ->
  cache_ok deleted L es' /\ contents_of deleted es' (e_key e) = None /\
  forall k, k <> e_key e -> contents_of deleted es' k = contents_of w es k.
Proof.
  intros Ees Eo es' Hc.
  assert (forall y off' e', (off', e') ∈ places integrity first (es' y) ->
    (y = x /\ off' = off) \/ (off', e') ∈ places integrity first (es y)) as Hpl.
  { intros y off' e' Hp. unfold es', upd_es in Hp. case_decide as D; [|by right]. subst y. rewrite Ees.
    rewrite laid_around in Hp |- *. change (size_of (marked e)) with (size_of e) in Hp.
    rewrite elem_of_app, elem_of_cons in Hp. rewrite elem_of_app, elem_of_cons.
    destruct Hp as [?|[E|?]]; [auto| |auto]. injection E as -> ->. left. by rewrite Eo. }
  assert (forall y off' e', (off', e') ∈ places integrity first (es y) -> ~ (y = x /\ off' = off) ->
    (off', e') ∈ places integrity first (es' y)) as Hpl'.
  { intros y off' e' Hp Hn. unfold es', upd_es. case_decide as D; [|done]. subst y. rewrite Ees in Hp.
    rewrite laid_around in Hp |- *. change (size_of (marked e)) with (size_of e).
    rewrite elem_of_app, elem_of_cons in Hp. rewrite elem_of_app, elem_of_cons.
    destruct Hp as [?|[E|?]]; [auto| |auto]. injection E as -> ->. exfalso. apply Hn. by rewrite Eo. }
  assert (forall k y off' e' h', kept deleted es' k y off' e' h' ->
    exists h0, kept w es k y off' e' h0 /\ slot_for y off' e' h0 = slot_for y off' e' h') as Hback.
  { intros k y off' e' h' [K1 K2 K3 K4 K5%published_deleted]. pose proof (deleted_dated y) as E. rewrite K2 in E.
    destruct (header_at y w) as [h0|] eqn:E0; [|done]. apply (inj Some) in E. unfold dated in E.
    injection E as G1 G2 G3. rewrite G1 in K5. destruct K5 as [K5 K6]. exists h0. split.
    - split; try done. destruct (Hpl y off' e' K3) as [[-> ->]|]; [|done]. exfalso. apply K5.
      rewrite (li_header _ _ _ _ _ _ _ _ _ _ _ _ Hl) in E0. injection E0 as <-. symmetry. apply Hl.
    - apply slot_for_dated. unfold dated. congruence. }
  assert (forall k y off' e' h0, k <> e_key e -> kept w es k y off' e' h0 ->
    exists h', kept deleted es' k y off' e' h' /\ slot_for y off' e' h' = slot_for y off' e' h0) as Hforth.
  { intros k y off' e' h0 Hne Hkp. pose proof Hkp as [K1 K2 K3 K4 K5]. pose proof (deleted_dated y) as E. rewrite K2 in E.
    destruct (header_at y deleted) as [h'|] eqn:E'; [|done]. apply (inj Some) in E. unfold dated in E.
    injection E as G1 G2 G3.
    assert (Location.pack_location y (generation h0) off' <> l) as Hnl.
    { intros E%(kept_here _ _ _ _ _ Hkp). destruct E as (-> & -> & ->). by apply Hne. }
    exists h'. split.
    - split; try done.
      + apply Hpl'; [done|]. intros [-> ->]. apply Hnl.
        rewrite (li_header _ _ _ _ _ _ _ _ _ _ _ _ Hl) in K2. injection K2 as <-. symmetry. apply Hl.
      + rewrite G1. by apply published_deleted.
    - apply slot_for_dated. unfold dated. congruence. }
  destruct (remapped integrity hash_key cfg (Some (e_key e)) w L es deleted L es') as [Hk' Hkc].
  - done.
  - by apply deleted_rest.
  - intros y h0. rewrite deleted_header. case_decide; [|apply (ck_refs _ _ _ _ _ _ Hk)].
    intros E. injection E as <-. apply (li_refs _ _ _ _ _ _ _ _ _ _ _ _ Hl).
  - intros k y off' e' h' _. apply Hback.
  - intros k y off' e' h' Hne. apply Hforth. congruence.
  - intros k y off1 e1 h1 y2 off2 e2 h2 _ (h3 & H3 & _)%Hback (h4 & H4 & _)%Hback. by eapply (ck_unique _ _ _ _ _ _ Hk).
  - split; [done|]. split; [|intros k Hne; apply Hkc; congruence].
    apply (contents_none integrity hash_key cfg deleted L); [done|]. intros y off' e' h' Hkp.
    destruct (Hback _ _ _ _ _ Hkp) as (h0 & Hkp0 & _).
    pose proof (lies_kept _ _ _ _ _ _ _ _ _ _ _ _ Hl) as Hkl.
    destruct (kept_fun _ _ _ _ _ _ _ _ _ _ _ _ _ _ _ Hk Hkl Hkp0) as (-> & -> & -> & ->).
    pose proof (kp_published _ _ _ _ _ _ _ _ _ _ Hkp) as Hp. change (hashtable deleted) with t in Hp.
    apply published_deleted in Hp as [Hp _]. apply Hp.
    pose proof (kp_header _ _ _ _ _ _ _ _ _ _ Hkp) as Eh. rewrite deleted_header, decide_True in Eh by done.
    injection Eh as <-. symmetry. apply Hl.
Qed.

Lemma deleting_removable : removable integrity cfg deleting x off (marked e) (with_active_removers 1 h) d'.
Proof.
  pose proof Hl as [X1 X2 X3 X4 X5 X6 X7 X8 X8' X9 X10 X11 X12 X13 X14].
  destruct (c_items _ _ _ _ (ar_contents _ _ _ _ _ (ck_rest _ _ _ _ _ _ Hk)) x X1) as (h2 & d2 & E2 & E3 & Ei & _ & Hs).
  rewrite X2 in E2. injection E2 as <-. rewrite X8 in E3. injection E3 as <-.
  destruct del_bytes as (O1 & O2 & O3). destruct (places_bounds _ _ _ _ X9) as (B & _). cbn [fst] in B.
  eapply (removable_item integrity cfg deleting x off e (marked e) (hashtable w) h d); try done.
  - apply live_some. cbn [fst snd]. unfold location. cbn [header]. by rewrite Ei, <- X7.
  - apply deleting_header.
  - pose proof (deleted_data x) as Ed. by rewrite decide_True in Ed.
  - apply O1.
  - eapply check_magic_outside; [exact (ok_magic _ _ _ _ _ _ Hs)|exact O1|done].
  - by apply marked_ok.
  - cbn. lia.
  - cbn. lia.
Qed.
End TakenOut.

(** ** [delete] *)

(** The cache maps [k] to [o], and every other key as before. *)
Definition becomes k (o : option Slot) w es w' : Prop :=
  exists L' es', cache_ok w' L' es' /\ dropping w' L' /\ contents_of w' es' k = o /\
    forall k', k' <> k -> contents_of w' es' k' = contents_of w es k'.

Lemma becomes_same w w' L es k :
  cache_ok w' L es -> dropping w' L -> (forall k, contents_of w' es k = contents_of w es k) ->
  becomes k (contents_of w es k) w es w'.
Proof. intros Hk Hd Hc. exists L, es. auto. Qed.

Lemma read_dropping w w1 L : read_from w w1 -> dropping w L -> dropping w1 L.
Proof. intros (t & -> & _). by apply dropping_ext. Qed.

Lemma becomes_read w w1 L es k :
  cache_ok w L es -> dropping w L -> read_from w w1 -> becomes k (contents_of w es k) w es w1.
Proof.
  intros Hk Hd Hr. destruct (read_ok integrity hash_key cfg w w1 L es Hk Hr) as [Hk1 Hc].
  eapply becomes_same; [done| |done]. by eapply read_dropping.
Qed.

(** No item of the key: it is mapped to nothing. *)
Lemma absent_none w L es k :
  cache_ok w L es -> (forall l e, item_at integrity hash_key cfg w es l e -> e_key e <> k) -> contents_of w es k = None.
Proof.
  intros Hk Ha. apply (contents_none integrity hash_key cfg w L); [done|]. intros x off e h Hkp.
  destruct (kept_lies _ _ _ _ _ _ _ _ _ _ _ Hk Hkp) as (m & d & Hl). eapply Ha; [|by apply Hkp].
  by exists x, off, h, m, d.
Qed.

Lemma lies_contents w L es l x off e h m d :
  cache_ok w L es -> lies w es l x off e h m d -> contents_of w es (e_key e) = Some (slot_for x off e h).
Proof.
  intros Hk Hl%lies_kept. apply (contents_some integrity hash_key cfg w L); [done|]. by exists x, off, e, h.
Qed.

(** An unlinked item is taken out of the counters; the map stays. *)
Lemma wp_remove_unlinked w L es l x off e h d (Q : unit -> Cache -> Prop) :
  let w2 := edit x (taken_out (size_of e)) w in
  drops cfg = true -> removable integrity cfg w x off e h d -> l = Location.pack_location x (generation h) off ->
  cache_ok w2 L es -> dropping w2 L -> x ∈ mjoin (chains L) ->
  (forall w' L' es', cache_ok w' L' es' -> dropping w' L' -> (forall k, contents_of w' es' k = contents_of w2 es k) -> Q tt w') ->
  wp (remove_unlinked integrity debug_assertions hash_key cfg now l x) Q w.
Proof.
  intros w2 Hd Hrm -> Hk Hdp Hx HQ. unfold remove_unlinked. apply wp_bind.
  eapply wp_remove_at; [exact Hd|exact Hrm|apply (ck_rest _ _ _ _ _ _ Hk)|exact Hx|..].
  - apply wp_ret. by eapply HQ.
  - intros b l1 l2 w' Hb E0 Hrmv. apply wp_ret.
    destruct (removed_ok integrity hash_key cfg now b l1 l2 x _ w' L es Hk Hdp) with (2 := Hrmv) as (Hk2 & Hd2 & Hc2).
    + intros k off' e' h' Hkp. apply (none_kept w2 L es k x off' e' (taken_out (size_of e) h) h' Hk); [|exact E0|exact Hkp].
      unfold w2. rewrite header_edit, decide_True, (rb_header _ _ _ _ _ _ _ _ Hrm) by done. done.
    + by eapply HQ.
Qed.

Lemma wp_delete_item (m0 : @Segments.M (Index unit) bool) w L es l x off e h m d (Q : bool -> Cache -> Prop) :
  drops cfg = true -> cache_ok w L es -> dropping w L -> lies w es l x off e h m d ->
  (forall w', becomes (e_key e) None w es w' -> Q true w') ->
  wp (pinned ← on x try_pin_remover;
      if negb pinned then m0
      else
        removed ← table_remove hash_key (e_key e) l;
        if negb removed then _ ← on x release_remover; mret false
        else _ ← remove_marked integrity debug_assertions hash_key cfg now l (mkPin x off); mret true) Q w.
Proof.
  intros Hd Hk Hdp Hl HQ. pose proof Hl as [X1 X2 X3 X4 X5 X6 X7 X8 X8' X9 X10 X11 X12 X13 X14].
  pose proof (ck_rest _ _ _ _ _ _ Hk) as Hr.
  assert (x ∈ mjoin (chains L)) as Hx by (by eapply placed_chained).
  destruct (chained_header integrity cfg w L es x Hr Hx) as (h2 & m2 & E2 & Em2 & _ & Hrm). simplify_eq.
  apply wp_bind. eapply (wp_edit x _ h true (fun h => with_active_removers (u32 (active_removers h + 1)) h));
    [done|by eapply run_try_pin_remover|]. cbn [negb].
  apply wp_bind. eapply wp_table_remove; [apply (c_index _ _ _ _ (ar_contents _ _ _ _ _ Hr))|exact X14|].
  intros t Hit Hg. cbn [negb]. apply wp_bind. unfold remove_marked. apply wp_bind.
  pose proof (deleting_header w L es _ x off e h m d t Hk Hl) as Eh4.
  eapply wp_resolve; [exact X1|exact Eh4|exact X6|done|done|].
  do 2 apply wp_bind. eapply wp_raw_at; [exact X8|]. unfold write_raw. apply wp_modify. cbn [pin_seg pin_offset].
  change (set_datas _ _) with (deleting w x off d t).
  destruct (deleted_contents w L es _ x off e h m d t Hk Hl Hit Hg) as (es1 & es2 & Ees & Eo & Hc).
  destruct (deleted_ok w L es _ x off e h m d t Hk Hl Hg es1 es2 Ees Eo Hc) as (Hk' & Hnone & Hother).
  eapply wp_remove_unlinked; [exact Hd|eapply deleting_removable; done|done|exact Hk'| |exact Hx|].
  { apply (dropping_ext cfg now w); try done. exact (deleted_dated w L es _ x off e h m d t Hk Hl). }
  intros w' L' es' Hk2 Hd2 Hc2. apply wp_ret, HQ. exists L', es'. split; [done|]. split; [done|]. split.
  - by rewrite Hc2.
  - intros k' Hne. rewrite Hc2. auto.
Qed.

Lemma wp_delete w L es k fuel (Q : bool -> Cache -> Prop) :
  drops cfg = true -> cache_ok w L es -> dropping w L ->
  (forall w', contents_of w es k = None \/ (exists s, contents_of w es k = Some s /\ expired_slot now s = true) ->
     becomes k (contents_of w es k) w es w' -> Q false w') ->
  (forall s w', contents_of w es k = Some s -> expired_slot now s = false -> becomes k None w es w' -> Q true w') ->
  wp (delete integrity debug_assertions hash_key (S fuel) cfg now k) Q w.
Proof.
  intros Hd Hk Hdp Hno Hyes. pose proof (cache_searchable integrity hash_key cfg w L es Hk) as Hs.
  unfold delete. cbn [delete_loop]. apply wp_bind. eapply wp_lookup_hit; [exact Hs|..].
  - intros w1 Hr Ha. apply wp_ret, Hno; [|by eapply becomes_read]. left. by eapply absent_none.
  - intros w1 l x off e h m d hit Hh.
    pose proof (hits_parts _ _ _ _ _ _ _ _ _ _ _ _ _ _ _ Hs Hh) as (Hs1 & Hl1 & _).
    pose proof Hh as (Hr & Hl & Ek & c & Ec & ->). cbn [hit_location hit_slot hit_pin]. subst k.
    destruct (read_ok integrity hash_key cfg w w1 L es Hk Hr) as [Hk1 Hc1].
    apply wp_bind. eapply wp_unpin; [apply Hl1..|]. rewrite (lies_unpack _ _ _ _ _ _ _ _ _ _ _ _ Hl).
    pose proof (li_range _ _ _ _ _ _ _ _ _ _ _ _ Hl) as Hx. rewrite (proj2 (Z.eqb_neq x 0)) by lia.
    apply wp_bind. unfold generation_of. eapply wp_field; [apply Hl1|].
    apply wp_bind. eapply wp_remaining_ttl; [apply Hl1|].
    pose proof (lies_contents _ _ _ _ _ _ _ _ _ _ Hk Hl) as Ec0. pose proof (expired_slot_for now x off e h) as Ex.
    destruct (expired_hd now h).
    + apply wp_ret, Hno; [|by eapply becomes_read]. right. by eexists.
    + eapply wp_delete_item; [exact Hd|exact Hk1|by eapply read_dropping|exact Hl1|].
      intros w' (L' & es' & B1 & B2 & B3 & B4). eapply Hyes; [exact Ec0|done|].
      exists L', es'. split; [done|]. split; [done|]. split; [done|]. intros k' Hne. by rewrite B4, Hc1.
Qed.
End Delete.
