(* ===== verification/CacheNumeric.v ===== *)
(** * In-place arithmetic

    [numeric_update] of [Segcache]: the value and the version of the item are
    rewritten where they lie, under the version lock, and nothing else is. *)
From S2P Require Import Prelude Packing Atomics Table TableSpec TableThms HashIface HashSeq HashProbe.
From S2P Require Import KvItem KvItemSpec TtlBuckets Eviction SegState SegHeader SegHeaderSpec Segment SegmentSpec Segments.
From S2P Require Import Segcache HeapRules HeapShape HeapContents HeapDrain HeapClear HeapItems HeapEvict HeapRemove CacheLookup CacheState CacheDelete.

(** ** The bytes *)

Section Bytes.
Context (integrity : bool) (crc32 : bytes -> Z) (Hcrc : forall b, fits 32 (crc32 b)).

(** Only the first [n] bytes may differ, and bytes stay bytes. *)
Definition within (n : Z) (buf buf' : bytes) : Prop :=
  blen buf' = blen buf /\ (forall o l, n <= o -> 0 <= l -> slice o l buf' = slice o l buf) /\
  (Forall is_byte buf -> Forall is_byte buf').

Lemma within_trans n a b c : within n a b -> within n b c -> within n a c.
Proof.
  intros (A1 & A2 & A3) (B1 & B2 & B3). split; [congruence|]. split; [|auto].
  intros o l ? ?. by rewrite B2, A2.
Qed.

Lemma set_uint_within n off v (n' : Z) buf :
  0 <= off -> off + Z.of_nat n <= n' -> n' <= blen buf -> within n' buf (set_uint n off v buf).
Proof. intros. by apply set_uint_local. Qed.

Section Update.
Context (k o : bytes) (Hk : blen k <= 255) (Ho : blen o <= 63).
Context (n ver : Z) (op : Z -> Z) (Hn : fits 64 n) (Hop : fits 64 (op n)) (Hev : Z.even ver = true).
Context (del : bool) (buf : bytes) (Hb : holds integrity k (U64 n) o ver del buf).

Let vs : Z := value_start integrity k (U64 n) o.

Lemma word_offsets : ITEM_HDR_SIZE integrity <= vs /\ vs + 16 <= blen buf /\ stored_end integrity k (U64 n) o = vs + 16.
Proof.
  pose proof (value_start_bound integrity k (U64 n) o) as [? ?]. pose proof (blen_nonneg k). pose proof (blen_nonneg o).
  pose proof (holds_room _ _ _ _ _ _ _ Hb). unfold stored_end in *. subst vs. lia.
Qed.

Lemma lock_update : exists locked b,
  lock_numeric_version integrity buf = NumericOk (ver, locked) /\ within (vs + 16) buf locked /\
  guard_update integrity crc32 ver op locked = (op n, b) /\ within (vs + 16) locked b /\
  holds integrity k (U64 (op n)) o (u64 (ver + 2)) del b.
Proof.
  pose proof (numeric_args k o Hk Ho n Hn) as Ha. destruct word_offsets as (W1 & W2 & W3).
  assert (0 < ITEM_HDR_SIZE integrity) by (unfold ITEM_HDR_SIZE; by destruct integrity).
  destruct (numeric_step integrity crc32 Hcrc k o Hk Ho n ver del op buf) as (b & E & Hh & _ & Hlen); [done..|].
  unfold locked_numeric_update in E.
  assert (lock_numeric_version integrity buf = NumericOk (ver, set_version_word integrity (u64 (ver + 1)) buf)) as El.
  { unfold lock_numeric_version. rewrite (holds_numeric _ _ _ _ _ _ _ Ha Hb). cbn [is_u64 negb].
    by rewrite (holds_version_word _ _ _ _ _ _ _ Ha Hb eq_refl), <- Z.negb_even, Hev. }
  rewrite El in E. apply (f_equal (fun r => match r with NumericOk a => Some a | _ => None end)), (inj Some) in E.
  set (locked := set_version_word integrity (u64 (ver + 1)) buf) in *.
  assert (value_offset integrity buf = vs) as Eo by (by apply (holds_value_offset _ _ _ _ _ _ _ Ha Hb)).
  assert (within (vs + 16) buf locked) as Hw1.
  { unfold locked, set_version_word. rewrite Eo. apply set_uint_within; lia. }
  assert (holds integrity k (U64 n) o (u64 (ver + 1)) del locked) as Hl.
  { eapply holds_set_version; [done..|]. by apply wrap_fits. }
  exists locked, b. split; [done|]. split; [exact Hw1|]. split; [exact E|]. split; [|exact Hh].
  destruct Hw1 as (B1 & _ & _). assert (value_offset integrity locked = vs) as Eo1 by (by apply (holds_value_offset _ _ _ _ _ _ _ Ha Hl)).
  unfold guard_update in E. rewrite (holds_value_word _ _ _ _ _ _ _ Ha Hl) in E. injection E as E.
  set (b1 := set_value_word integrity (op n) locked) in *.
  assert (within (vs + 16) locked b1) as Hw2.
  { unfold b1, set_value_word. rewrite Eo1. apply set_uint_within; lia. }
  assert (holds integrity k (U64 (op n)) o (u64 (ver + 1)) del b1) as Hb1 by exact (holds_set_value integrity k o Hk Ho n (op n) _ del locked Hn Hl Hop).
  pose proof (holds_header _ _ _ _ _ _ _ Hb1) as Hd1. destruct Hw2 as (C1 & C2 & C3). pose proof (conj C1 (conj C2 C3)) as Hw2.
  set (b2 := if integrity then set_crc32 integrity (compute_crc_numeric integrity crc32 (op n) b1) b1 else b1) in *.
  assert (within (vs + 16) b1 b2 /\ value_offset integrity b2 = vs) as [Hw3 Eo2].
  { assert (value_offset integrity b1 = vs) as Eo2.
    { exact (holds_value_offset _ _ _ _ _ _ _ (numeric_args k o Hk Ho _ Hop) Hb1). }
    unfold b2. destruct (sumbool_of_bool integrity) as [Ei|Ei]; rewrite Ei; rewrite <- Ei; [|split; [by split|done]].
    assert (CRC_OFFSET integrity + 4 = ITEM_HDR_SIZE integrity /\ 0 <= CRC_OFFSET integrity) as [EC EC']
      by (unfold CRC_OFFSET, ITEM_HDR_SIZE; rewrite Ei; lia).
    split; [unfold set_crc32; apply set_uint_within; lia|].
    rewrite <- Eo2. rewrite (proj2 (header_value_offset _ _ _ _ _ Hd1)).
    by rewrite (proj2 (header_value_offset _ _ _ _ _ (header_set_crc _ _ _ _ _ _ Ei Hd1))). }
  destruct Hw3 as (D1 & D2 & D3). eapply within_trans; [exact Hw2|]. eapply within_trans; [by split|].
  rewrite <- E. unfold set_version_word. rewrite Eo2. apply set_uint_within; lia.
Qed.
End Update.
End Bytes.

(** ** The cache *)

Section Numeric.
Context (integrity debug_assertions : bool) (hash_key crc32 : bytes -> Z) (Hcrc : forall b, fits 32 (crc32 b)).
Context (cfg : Config) (now : Z).

#[local] Hint Extern 0 (Hashtable (Index unit)) => exact (index_hashtable hash_key) : typeclass_instances.
#[local] Hint Extern 0 (LawfulHashtable (Index unit)) => exact (index_lawful hash_key) : typeclass_instances.

Implicit Types (w : Cache) (x off l : Z) (e : Entry) (L : Layout) (es : Z -> list Entry) (k : bytes).

Abbreviation first := (first_offset integrity).
Abbreviation size_of := (entry_size integrity).
Abbreviation at_rest := (at_rest integrity cfg).
Abbreviation lies := (lies integrity hash_key cfg).
Abbreviation kept := (kept integrity hash_key cfg).
Abbreviation cache_ok := (cache_ok integrity hash_key cfg).
Abbreviation contents_of := (contents_of integrity hash_key cfg).
Abbreviation becomes := (becomes integrity hash_key cfg now).
Abbreviation dropping := (dropping cfg now).

(** An item rewritten where it lies, under the same key. *)
Section Rewritten.
Context (w : Cache) (L : Layout) (es : Z -> list Entry) (l x off : Z) (e e' : Entry) (h : SegmentHeader) (m : Metadata) (d d' : bytes).
Context (Hk : cache_ok w L es) (Hl : lies w es l x off e h m d).
Context (He : entry_ok e') (Ek : e_key e' = e_key e) (En : size_of e' = size_of e) (Hnd : e_deleted e' = false).
Context (Hout : outside off (size_of e) d d') (Hst : stored integrity e' (drop (Z.to_nat off) d')) (Hby : Forall is_byte d').

Let w' : Cache := set_datas (<[idx x := d']> (datas w)) w.

Lemma rewritten_data y : datas w' !! idx y = if decide (idx y = idx x) then Some d' else datas w !! idx y.
Proof.
  change (datas w') with (<[idx x := d']> (datas w)). case_decide as D.
  - rewrite D. apply list_lookup_insert_eq. eapply lookup_lt_Some, (li_data _ _ _ _ _ _ _ _ _ _ _ _ Hl).
  - by apply list_lookup_insert_ne.
Qed.

Lemma rewritten_contents : exists es1 es2 : list Entry, es x = es1 ++ e :: es2 /\ off = end_of integrity es1 /\
  contents integrity cfg w' (upd_es x (es1 ++ e' :: es2) es).
Proof.
  pose proof Hl as [X1 X2 X3 X4 X5 X6 X7 X8 X8' X9 X10 X11 X12 X13 X14].
  destruct (laid_inv integrity _ _ _ X9) as (es1 & es2 & Ees & Eo). exists es1, es2. split; [done|]. split; [done|].
  eapply (contents_rewritten integrity cfg x w w' es h d d' es1 es2 e e'); try done.
  - apply (ck_rest _ _ _ _ _ _ Hk).
  - by rewrite rewritten_data, decide_True.
  - intros y Hy Hy1. rewrite rewritten_data, decide_False; [done|]. intros E. apply Hy. by apply idx_inj; [|lia|].
  - by rewrite <- Eo.
  - by rewrite <- Eo.
  - by left.
Qed.

Lemma rewritten_ok : exists es', cache_ok w' L es' /\ contents_of w' es' (e_key e) = Some (slot_for x off e' h) /\
  forall k, k <> e_key e -> contents_of w' es' k = contents_of w es k.
Proof.
  pose proof Hl as [X1 X2 X3 X4 X5 X6 X7 X8 X8' X9 X10 X11 X12 X13 X14].
  pose proof (ck_rest _ _ _ _ _ _ Hk) as Hr.
  destruct rewritten_contents as (es1 & es2 & Ees & Eo & Hc). set (es' := upd_es x (es1 ++ e' :: es2) es) in *.
  exists es'.
  assert (forall y off' e0, (off', e0) ∈ places integrity first (es y) ->
    (y = x /\ off' = off /\ e0 = e) \/ (off', e0) ∈ places integrity first (es' y)) as Hpl.
  { intros y off' e0 Hp. unfold es', upd_es. case_decide as D; [|by right]. subst y. rewrite Ees in Hp.
    rewrite laid_around in Hp |- *. rewrite En. rewrite elem_of_app, elem_of_cons in *.
    destruct Hp as [?|[E|?]]; [auto| |auto]. injection E as -> ->. left. by rewrite Eo. }
  assert (forall y off' e0, (off', e0) ∈ places integrity first (es' y) ->
    (y = x /\ off' = off /\ e0 = e') \/ (off', e0) ∈ places integrity first (es y)) as Hpl'.
  { intros y off' e0 Hp. unfold es', upd_es in Hp. case_decide as D; [|by right]. subst y. rewrite Ees.
    rewrite laid_around in Hp |- *. rewrite En in Hp. rewrite elem_of_app, elem_of_cons in *.
    destruct Hp as [?|[E|?]]; [auto| |auto]. injection E as -> ->. left. by rewrite Eo. }
  assert (kept w' es' (e_key e) x off e' h) as Hnew.
  { split; try done.
    - unfold es', upd_es. rewrite decide_True by done. rewrite laid_around, <- Eo, elem_of_app, elem_of_cons. auto.
    - change (HashProbe.published hash_key (hashtable w) (e_key e) (Location.pack_location x (generation h) off)). by rewrite <- X7. }
  destruct (remapped integrity hash_key cfg (Some (e_key e)) w L es w' L es') as [Hk' Hkc].
  - done.
  - eapply (at_rest_touched integrity cfg x w w'); [done|by eapply placed_chained|done| |done|done|apply Hr].
    unfold same_queues, w'. do 5 (split; [done|]). apply length_insert.
  - apply (ck_refs _ _ _ _ _ _ Hk).
  - intros k y off' e0 h0 Hne [K1 K2 K3 K4 K5]. exists h0. split; [|done]. split; try done.
    destruct (Hpl' y off' e0 K3) as [(-> & -> & ->)|]; [|done]. congruence.
  - intros k y off' e0 h0 Hne [K1 K2 K3 K4 K5]. exists h0. split; [|done]. split; try done.
    destruct (Hpl y off' e0 K3) as [(-> & -> & ->)|]; [|done]. congruence.
  - intros k y1 off1 e1 h1 y2 off2 e2 h2 E H1 H2. injection E as <-.
    assert (forall y off' e0 h0, kept w' es' (e_key e) y off' e0 h0 -> y = x /\ off' = off) as Hu.
    { intros y off' e0 h0 [K1 K2 K3 K4 K5]. destruct (Hpl' y off' e0 K3) as [(-> & -> & _)|Hp]; [done|].
      apply (ck_unique _ _ _ _ _ _ Hk (e_key e) x off e h y off' e0 h0); [by eapply lies_kept|]. by split. }
    destruct (Hu _ _ _ _ H1) as [-> ->], (Hu _ _ _ _ H2) as [-> ->]. done.
  - split; [done|]. split.
    + apply (contents_some integrity hash_key cfg w' L); [done|]. by exists x, off, e', h.
    + intros k Hne. apply Hkc. congruence.
Qed.
End Rewritten.

(** The entry whose value is updated. *)
Definition updated e (v : Z) : Entry := mkEntry (e_key e) (e_optional e) (U64 v) (u64 (e_version e + 2)) (e_deleted e).

Lemma updated_ok e n v : entry_ok e -> e_value e = U64 n -> fits 64 v -> entry_ok (updated e v) /\ size_of (updated e v) = size_of e.
Proof.
  intros [[A1 A2 A3] B C] Ev Hv. split.
  - split; [by split|done|]. cbn. rewrite <- Z.negb_even in C |- *. rewrite negb_false_iff in C |- *. by apply even_version.
  - unfold entry_size. cbn. by rewrite Ev.
Qed.

(** An update changes the token. *)
Lemma updated_token e n v a g :
  e_value e = U64 n -> fits 64 (e_version e) -> token_of (updated e v) a g <> token_of e a g.
Proof.
  unfold token_of. cbn. intros -> Hf E%CasToken.mix_version_inj; [|by apply wrap_fits|done].
  revert E. unfold wrap, fits in *. revert Hf. pow2. intros. dm.
Qed.

(** The writes of an update, as one. *)
Lemma two_writes w x off a b d :
  datas w !! idx x = Some d -> 0 <= off -> off + blen a <= blen d -> blen b = blen a ->
  set_datas (alter (blit off b) (idx x) (datas (set_datas (alter (blit off a) (idx x) (datas w)) w)))
    (set_datas (alter (blit off a) (idx x) (datas w)) w) = set_datas (<[idx x := blit off b d]> (datas w)) w.
Proof.
  intros Ed Ho Ha Hb. unfold set_datas. cbn. f_equal. apply list_eq. intros i.
  destruct (decide (i = idx x)) as [->|Hne].
  - rewrite !list_lookup_alter_eq, Ed, list_lookup_insert_eq by (by eapply lookup_lt_Some). cbn.
    f_equal. apply blit_blit; unfold blen in *; lia.
  - by rewrite !list_lookup_alter_ne, list_lookup_insert_ne by done.
Qed.

Lemma value_cases e : (exists n, e_value e = U64 n) \/ (exists b, e_value e = Bytes b).
Proof. destruct (e_value e); eauto. Qed.

Lemma wp_numeric w L es k op fuel (Q : Z + SegcacheError -> Cache -> Prop) :
  cache_ok w L es -> dropping w L -> (forall v, fits 64 v -> fits 64 (op v)) ->
  (forall w', contents_of w es k = None \/ (exists s, contents_of w es k = Some s /\ expired_slot now s = true) ->
     becomes k (contents_of w es k) w es w' -> Q (inr NotFound) w') ->
  (forall s b w', contents_of w es k = Some s -> expired_slot now s = false -> sl_value s = Bytes b ->
     becomes k (contents_of w es k) w es w' -> Q (inr NotNumeric) w') ->
  (forall s n token w', contents_of w es k = Some s -> expired_slot now s = false -> sl_value s = U64 n ->
     token <> sl_token s ->
     becomes k (Some (mkSlot (U64 (op n)) (sl_optional s) (sl_deadline s) token)) w es w' -> Q (inl (op n)) w') ->
  wp (numeric_update integrity debug_assertions hash_key crc32 (S fuel) cfg now k op) Q w.
Proof.
  intros Hk Hdp Hop Hno Hbytes Hyes. pose proof (cache_searchable integrity hash_key cfg w L es Hk) as Hs.
  unfold numeric_update. cbn [numeric_loop]. apply wp_bind. eapply wp_lookup_hit; [exact Hs|..].
  { intros w1 Hr Ha. apply wp_ret, Hno; [|by eapply becomes_read]. left. by eapply absent_none. }
  intros w1 l x off e h m d hit Hh.
  pose proof (hits_parts _ _ _ _ _ _ _ _ _ _ _ _ _ _ _ Hs Hh) as (Hs1 & Hl1 & _ & Hl2 & Hs2).
  pose proof Hh as (Hr & Hl & Ek & c & Ec & ->). cbn [hit_location hit_slot hit_pin]. subst k.
  destruct (read_ok integrity hash_key cfg w w1 L es Hk Hr) as [Hk1 Hc1].
  pose proof (lies_contents _ _ _ _ _ _ _ _ _ _ _ _ _ Hk Hl) as Ec0. pose proof (expired_slot_for now x off e h) as Ex.
  pose proof Hl1 as [X1 X2 X3 X4 X5 X6 X7 X8 X8' X9 X10 X11 X12 X13 X14].
  rewrite (lies_unpack _ _ _ _ _ _ _ _ _ _ _ _ Hl), (proj2 (Z.eqb_neq x 0)) by lia.
  apply wp_bind. eapply wp_remaining_ttl; [apply Hl2|]. change (expired_hd now (add_ref h)) with (expired_hd now h).
  destruct (expired_hd now h).
  { apply wp_bind. eapply wp_unpin; [done..|]. apply wp_ret, Hno; [|by eapply becomes_read]. right. by eexists. }
  apply wp_bind. eapply wp_raw_at; [exact X8|].
  destruct (value_cases e) as [[n Ev]|[bs Ev]].
  2:{ assert (lock_numeric_version integrity (drop (Z.to_nat off) d) = NotNumericError) as ->.
      { unfold lock_numeric_version. by rewrite (holds_numeric _ _ _ _ _ _ _ (entry_args _ X10) X11), Ev. }
      apply wp_bind. eapply wp_slot_publishes; [apply Hs2|exact Ec|]. rewrite Z.eqb_refl.
      apply wp_bind. eapply wp_unpin; [done..|]. apply wp_ret. eapply Hbytes; [exact Ec0|done|exact Ev|].
      by eapply becomes_read. }
  assert (fits 64 n) as Hn by (pose proof (arg_value _ _ _ (entry_args _ X10)) as Ha; by rewrite Ev in Ha).
  destruct (lock_update integrity crc32 Hcrc (e_key e) (e_optional e)) with (n := n) (ver := e_version e) (op := op)
    (del := e_deleted e) (buf := drop (Z.to_nat off) d) as (locked & b & El & Hw1 & Eg & Hw2 & Hh2).
  { apply (arg_key _ _ _ (entry_args _ X10)). } { apply (arg_optional _ _ _ (entry_args _ X10)). } { done. } { auto. }
  { pose proof (entry_even _ X10) as Eo. rewrite <- Z.negb_even, negb_false_iff in Eo. done. }
  { unfold stored in X11. by rewrite Ev in X11. }
  rewrite El. apply wp_bind. unfold write_raw at 1. apply wp_modify. cbn [pin_seg pin_offset].
  apply wp_bind. eapply wp_slot_publishes; [apply Hs2|exact Ec|]. rewrite Z.eqb_refl. cbn [negb].
  destruct (places_bounds _ _ _ _ X9) as (P1 & P2 & _). cbn [fst snd] in P1, P2.
  pose proof (proj1 (first_bounds integrity)) as F0. pose proof (entry_size_bound integrity e) as (Z1 & Z2 & Z3 & _).
  assert (blen (drop (Z.to_nat off) d) = blen d - off) as Edl by (apply blen_drop; lia).
  destruct Hw1 as (A1 & A2 & A3). pose proof (conj A1 (conj A2 A3)) as Hw1.
  apply wp_bind. eapply wp_raw_at.
  { cbn [datas set_datas edit set_headers]. rewrite list_lookup_alter_eq, X8. done. }
  assert (drop (Z.to_nat off) (blit off locked d) = locked) as ->.
  { eapply (outside_rewrite off (blen d - off)); [lia..|]. intros o l0 ? ?. apply A2; [|done].
    unfold stored_end in Z1. rewrite Ev in Z1. lia. }
  rewrite Eg. apply wp_bind. unfold write_raw. apply wp_modify. cbn [pin_seg pin_offset].
  destruct (within_trans _ _ _ _ Hw1 Hw2) as (B1 & B2 & B3).
  destruct (updated_ok e n (op n) X10 Ev (Hop n Hn)) as [He' En'].
  destruct (outside_rewrite off (size_of e) d b) as [O1 O2]; [lia..|congruence| |].
  { intros o l0 ? ?. apply B2; [|done]. unfold stored_end in Z1. rewrite Ev in Z1. lia. }
  destruct (rewritten_ok w1 L es l x off e (updated e (op n)) h m d (blit off b d) Hk1 Hl1 He' eq_refl En' X13 O1)
    as (es' & R1 & R2 & R3).
  { rewrite O2. exact Hh2. }
  { destruct (c_items _ _ _ _ (ar_contents _ _ _ _ _ (ck_rest _ _ _ _ _ _ Hk1)) x X1) as (h3 & d3 & _ & Ed3 & _ & _ & Hs3).
    simplify_eq. pose proof (ok_bytes _ _ _ _ _ _ Hs3) as Hb3. cbn [data] in Hb3.
    apply Forall_blit; [by apply B3, Forall_drop|done]. }
  apply wp_bind. set (w2 := set_datas (<[idx x := blit off b d]> (datas w1)) w1) in *.
  assert (set_datas (alter (blit off b) (idx x) (datas (set_datas (alter (blit off locked) (idx x) (datas (edit x add_ref w1))) (edit x add_ref w1))))
    (set_datas (alter (blit off locked) (idx x) (datas (edit x add_ref w1))) (edit x add_ref w1)) = edit x add_ref w2) as ->.
  { rewrite (two_writes (edit x add_ref w1) x off locked b d); [done|done|lia|lia|congruence]. }
  eapply wp_unpin; [exact X2|done..|]. apply wp_ret. eapply Hyes; [exact Ec0|done|exact Ev| |].
  { apply (updated_token e n (op n)); [exact Ev|].
    pose proof X11 as X11'. by destruct (holds_version _ _ _ _ _ _ _ X11 ltac:(by rewrite Ev)). }
  exists L, es'. split; [exact R1|]. split; [apply (dropping_ext cfg now w1); try done; by eapply read_dropping|].
  split; [exact R2|]. intros k' Hne. by rewrite R3, Hc1.
Qed.
End Numeric.
