(* ===== verification/CacheSlots.v ===== *)
(** * What evictions do to the hashtable

    The policies that drop segments change the hashtable by [remove] alone:
    whatever [remove] keeps, a reservation that evicts keeps. So the entries it
    leaves are in the slots where they were, which is what a [SlotRef] taken
    before a reservation relies on. *)
From S2P Require Import Prelude Packing Atomics Table TableSpec TableThms HashIface HashSeq HashProbe.
From S2P Require Import KvItem KvItemSpec TtlBuckets Eviction SegState SegHeader SegHeaderSpec Segment SegmentSpec Segments.
From S2P Require Import Segcache HeapRules HeapShape HeapContents HeapDrain HeapClear HeapItems HeapEvict.

(** ** Programs that keep a property of the hashtable *)

Section Keeps.
Context {H : Type} (P : H -> Prop).
Implicit Types (w : World H).

Definition keeps {A} (m : @M H A) : Prop :=
  forall w a w', m w = Some (a, w') -> P (hashtable w) -> P (hashtable w').

Lemma keeps_ret {A} (a : A) : keeps (mret a).
Proof. intros w b w' E. by injection E as _ <-. Qed.

Lemma keeps_bind {A B} (m : @M H A) (k : A -> @M H B) :
  keeps m -> (forall a, keeps (k a)) -> keeps (x ← m; k x).
Proof.
  intros Hm Hk w b w2. unfold mbind, m_bind. destruct (m w) as [[a w1]|] eqn:E; [|done].
  intros E2 Hp. eapply Hk; [exact E2|]. by eapply Hm.
Qed.

Lemma keeps_crash {A} : keeps (crash (A := A)).
Proof. by intros w a w' [=]. Qed.

Lemma keeps_gets {A} (f : World H -> A) : keeps (gets f).
Proof. intros w a w' E. by injection E as _ <-. Qed.

Lemma keeps_modify f : (forall w, hashtable (f w) = hashtable w) -> keeps (modify f).
Proof. intros Hf w a w' E. injection E as _ <-. by rewrite Hf. Qed.

Lemma keeps_lift {A} (x : option A) : keeps (lift x).
Proof. intros w a w'. unfold lift. destruct x; [|done]. intros E. by injection E as _ <-. Qed.

Lemma keeps_on id {A} (p : prog SegmentHeader A) : keeps (on id p).
Proof.
  intros w a w'. unfold on. destruct (header_at id w); [|done]. cbn. destruct (run p _) as [[b h]|]; [|done].
  intros E. by injection E as _ <-.
Qed.

Lemma keeps_field id {A} (f : SegmentHeader -> A) : keeps (field id f).
Proof. intros w a w'. unfold field. destruct (header_at id w); [|done]. intros E. by injection E as _ <-. Qed.

Lemma keeps_bucket_field b {A} (f : TtlBucket -> A) : keeps (bucket_field b f).
Proof. intros w a w'. unfold bucket_field. destruct (buckets w !! b); [|done]. intros E. by injection E as _ <-. Qed.

Lemma keeps_set_bucket b f : keeps (set_bucket b f).
Proof. intros w a w'. unfold set_bucket. destruct (buckets w !! b); [|done]. intros E. by injection E as _ <-. Qed.

Lemma keeps_check x : keeps (check x).
Proof. destruct x; [apply keeps_ret|apply keeps_crash]. Qed.

(** A program that returns, and keeps [P]. *)
Lemma wp_keeps {A} (m : @M H A) Q w :
  keeps m -> P (hashtable w) -> wp m Q w -> wp m (fun a w' => P (hashtable w') /\ Q a w') w.
Proof. intros Hm Hp. unfold wp. destruct (m w) as [[a w']|] eqn:E; [|done]. intros HQ. split; [by eapply Hm|done]. Qed.
End Keeps.

Create HintDb keeps.
#[export] Hint Resolve keeps_ret keeps_crash keeps_gets keeps_lift keeps_on keeps_field keeps_bucket_field
  keeps_set_bucket keeps_check : keeps.

(** The cases of a program, and what is known of its parts. *)
Ltac keeps := repeat first
  [ progress intros
  | solve [auto with keeps]
  | apply keeps_bind
  | apply keeps_modify; done
  | match goal with
    | |- keeps _ (let '(_, _) := ?x in _) => destruct x
    | |- keeps _ (match ?x with _ => _ end) => destruct x
    end ].

(** ** Evictions that drop segments *)

Section Dropping.
Context (integrity debug_assertions : bool).
Context {H : Type} {HT : Hashtable H} (hash_key : bytes -> Z) (crc32 : bytes -> Z).
Context (cfg : Config) (now : Z).
Context (P : H -> Prop) (HP : forall h k l, P h -> P (remove h k l).2).

Abbreviation keeps := (keeps P).

(** *** Clearing *)

Lemma clear_item_keeps off (s : Segment) (h : H) flow :
  clear_item integrity debug_assertions off (s, h) = Some flow -> P h ->
  match flow with Continue _ st | Stop st _ => P st.2 end.
Proof.
  unfold clear_item. destruct (get_item_at integrity off s) as [item|]; [|done]. cbn [mbind option_bind].
  destruct (_ && _); [intros E Hp; by injection E as <-|].
  destruct (guard _); [|done]. cbn [mbind option_bind]. destruct (debug_assert _ _); [|done]. cbn [mbind option_bind].
  set (k := KvItem.key integrity item). set (l := location s off). pose proof (HP h k l) as Hr.
  assert (exists r, (if is_none (get_item_frequency h k l) then Some (s, h)
    else let '(removed, h) := remove h k l in
         if removed : bool then s ← remove_item_at integrity off s; Some (s, h) else Some (s, h)) = r /\
    (P h -> forall s1 h1, r = Some (s1, h1) -> P h1)) as (r & -> & Hr').
  { eexists. split; [done|]. intros Hp s1 h1. destruct (is_none _); [intros E; by injection E as _ <-|].
    specialize (Hr Hp). destruct (remove h k l) as [[|] h']; [|intros E; by injection E as _ <-].
    destruct (remove_item_at integrity off s); [|done]. intros E. by injection E as _ <-. }
  destruct r as [[s1 h1]|]; [|done]. cbn [mbind option_bind].
  destruct (debug_assert _ (0 <=? live_items _)); [|done]. cbn [mbind option_bind].
  destruct (debug_assert _ _); [|done]. cbn [mbind option_bind].
  intros E Hp. injection E as <-. by eapply Hr'.
Qed.

Lemma scan_keeps fuel mo off (s s' : Segment) (h h' : H) r r' :
  scan fuel mo (clear_item integrity debug_assertions) r off (s, h) = Some (s', h', r') -> P h -> P h'.
Proof.
  revert off s h. induction fuel as [|fuel IH]; intros off s h; cbn [scan]; [done|].
  destruct (mo <? off); [intros E; by injection E as _ <- _|].
  destruct (clear_item _ _ _ _) as [flow|] eqn:Ef; [|done]. cbn [mbind option_bind]. intros E Hp.
  pose proof (clear_item_keeps _ _ _ _ Ef Hp) as Hf. destruct flow as [off' [s1 h1]|[s1 h1] r1].
  - by eapply IH.
  - injection E as _ <- _. exact Hf.
Qed.

Lemma clear_keeps (s s' : Segment) (h h' : H) :
  Segment.clear integrity debug_assertions s h = Some (s', h') -> P h -> P h'.
Proof.
  unfold Segment.clear. destruct (assert_draining _ _); [|done]. cbn [mbind option_bind].
  destruct (scan _ _ _ _ _ _) as [[[s1 h1] []]|] eqn:E; [|done]. cbn [mbind option_bind].
  destruct (on_header _ _) as [[? s2]|]; [|done]. cbn [mbind option_bind].
  intros E2. injection E2 as _ <-. by eapply scan_keeps.
Qed.

Lemma keeps_debug_check x : keeps (debug_check debug_assertions x).
Proof. apply keeps_check. Qed.

Lemma keeps_view id : keeps (view integrity id).
Proof.
  intros w a w'. unfold view. destruct (id <=? 0); [done|].
  destruct (headers w !! idx id), (datas w !! idx id); try (intros E; by injection E as _ <-).
  destruct (check_magic _ _); [intros E; by injection E as _ <-|done].
Qed.

Lemma keeps_clear_in_place id : keeps (clear_in_place integrity debug_assertions id).
Proof.
  intros w a w' E Hp. revert E. unfold clear_in_place, mbind, m_bind.
  destruct (view integrity id w) as [[s w1]|] eqn:Ev; [|done].
  pose proof (keeps_view _ _ _ _ Ev Hp) as Hp1.
  unfold unwrap_view, lift. destruct s as [s|]; [|done]. cbn [mbind option_bind].
  unfold gets. destruct (Segment.clear integrity debug_assertions s (hashtable w1)) as [[s2 h2]|] eqn:Ec; [|done].
  cbn. intros E. injection E as _ <-. cbn. by eapply clear_keeps.
Qed.

#[local] Hint Resolve keeps_debug_check keeps_view keeps_clear_in_place : keeps.

Lemma keeps_unlink id : keeps (unlink id).
Proof. unfold unlink. keeps. Qed.

Lemma keeps_push_freed id : keeps (push_freed id).
Proof. by apply keeps_modify. Qed.

#[local] Hint Resolve keeps_unlink keeps_push_freed : keeps.

Lemma keeps_return_segment id : keeps (return_segment cfg id).
Proof. unfold return_segment. keeps. Qed.

Lemma keeps_leave_pool id : keeps (leave_pool debug_assertions id).
Proof. unfold leave_pool. keeps. Qed.

#[local] Hint Resolve keeps_return_segment keeps_leave_pool : keeps.

Lemma keeps_recycle id : keeps (recycle integrity debug_assertions cfg id).
Proof. unfold recycle. keeps. Qed.

Lemma keeps_condemn id next prev : keeps (condemn integrity debug_assertions cfg id next prev).
Proof. unfold condemn. keeps. Qed.

Lemma keeps_wait_pins id : keeps (wait_pins id).
Proof. unfold wait_pins. keeps. Qed.

#[local] Hint Resolve keeps_recycle keeps_condemn keeps_wait_pins : keeps.

Lemma keeps_claim_for_drain id : keeps (claim_for_drain id).
Proof. unfold claim_for_drain. keeps. Qed.

Lemma keeps_finalize_drained id : keeps (finalize_drained integrity debug_assertions cfg id).
Proof. unfold finalize_drained. keeps. Qed.

#[local] Hint Resolve keeps_claim_for_drain keeps_finalize_drained : keeps.

Lemma keeps_clear_segment id : keeps (clear_segment integrity debug_assertions cfg id).
Proof. unfold clear_segment. keeps. Qed.

Lemma keeps_lock_sealed id : keeps (lock_sealed_in_bucket id).
Proof. unfold lock_sealed_in_bucket, is_sealed_member. keeps. Qed.

Lemma keeps_advance_head b prev next : keeps (advance_head b prev next).
Proof. unfold advance_head. keeps. Qed.

Lemma keeps_drain_one b id next prev : keeps (drain_one integrity debug_assertions cfg b id next prev).
Proof. unfold drain_one. keeps. Qed.

#[local] Hint Resolve keeps_clear_segment keeps_lock_sealed keeps_advance_head keeps_drain_one : keeps.

(** *** Expiry and eviction *)

Lemma keeps_expired id : keeps (expired now id).
Proof. unfold expired. keeps. Qed.

#[local] Hint Resolve keeps_expired : keeps.

Lemma keeps_drain_from fuel b ex freed cursor :
  keeps (drain_from integrity debug_assertions cfg now fuel b ex freed cursor).
Proof. revert freed cursor. induction fuel as [|fuel IH]; intros freed cursor; cbn [drain_from]; unfold unwrap_view; keeps. Qed.

#[local] Hint Resolve keeps_drain_from : keeps.

Lemma keeps_drain_buckets ex bs : keeps (drain_buckets integrity debug_assertions cfg now ex bs).
Proof. induction bs as [|b bs IH]; cbn [drain_buckets]; unfold drain_chain; keeps. Qed.

#[local] Hint Resolve keeps_drain_buckets : keeps.

Lemma keeps_expire : keeps (Segments.expire integrity debug_assertions cfg now).
Proof. unfold Segments.expire, all_buckets. keeps. Qed.

Lemma keeps_evict_dropping : keeps (evict_dropping integrity debug_assertions cfg now).
Proof.
  unfold evict_dropping. apply keeps_bind; [|keeps].
  intros w a w'. unfold least_valuable. destruct (Eviction.least_valuable_seg _ _ _ _) as [[seg e]|]; [|done].
  cbn. intros E. by injection E as _ <-.
Qed.

#[local] Hint Resolve keeps_expire keeps_evict_dropping : keeps.

Lemma keeps_evict_one : drops cfg = true -> keeps (evict_one integrity debug_assertions hash_key cfg now).
Proof.
  intros Hd. assert (keeps (evict_policy integrity debug_assertions hash_key cfg now)) as Hp.
  { unfold evict_policy. unfold drops in Hd. destruct (Segments.policy cfg); try done; keeps. }
  unfold evict_one. keeps.
Qed.

(** ** Reservations *)

Lemma keeps_reserve_free : keeps (reserve_free integrity debug_assertions cfg now).
Proof.
  unfold reserve_free. apply keeps_bind; [|keeps]. intros w a w'. unfold steal_free.
  destruct (free_queue w); intros E; by injection E as _ <-.
Qed.

Lemma keeps_release_unused id : keeps (release_unused cfg id).
Proof. unfold release_unused. keeps. Qed.

Lemma keeps_try_alloc_item id size : keeps (try_alloc_item debug_assertions cfg id size).
Proof. unfold try_alloc_item. keeps. Qed.

Lemma keeps_seal_tail b t id : keeps (seal_tail debug_assertions b t id).
Proof. unfold seal_tail. keeps. Qed.

Lemma keeps_first_tail b id : keeps (first_tail debug_assertions b id).
Proof. unfold first_tail. keeps. Qed.

Lemma keeps_stale_tail b o : keeps (stale_tail b o).
Proof. unfold stale_tail. keeps. Qed.

#[local] Hint Resolve keeps_reserve_free keeps_release_unused keeps_try_alloc_item keeps_seal_tail keeps_first_tail
  keeps_stale_tail : keeps.

Lemma keeps_try_expand b o : keeps (try_expand integrity debug_assertions cfg now b o).
Proof. unfold try_expand, set_ttl. keeps. Qed.

#[local] Hint Resolve keeps_try_expand : keeps.

Lemma keeps_reserve b size : keeps (reserve integrity debug_assertions cfg now b size).
Proof.
  unfold reserve. destruct (_ <? _); [keeps|]. apply keeps_bind; [keeps|]. intros free.
  generalize (S (S (length free))) as fuel. induction fuel as [|fuel IH]; cbn [reserve_loop]; keeps.
Qed.
End Dropping.

(** ** Slots *)

Section Slots.
Context (integrity debug_assertions : bool) (hash_key crc32 : bytes -> Z) (cfg : Config) (now : Z).

#[local] Hint Extern 0 (Hashtable (Index unit)) => exact (index_hashtable hash_key) : typeclass_instances.

Abbreviation entry_at := (HashSeq.entry_at hash_key).

(** The entries of [t'] are entries of [t], in the same slots. *)
Record thinned (t t' : Index unit) : Prop := {
  th_inv : index_inv hash_key t';
  th_table : table t' = table t;
  th_entry k l c : entry_at t' k l = Some c -> entry_at t k l = Some c
}.

Lemma thinned_refl t : index_inv hash_key t -> thinned t t.
Proof. done. Qed.

Lemma thinned_remove t t' k l : thinned t t' -> thinned t (remove t' k l).2.
Proof.
  intros [Hi Ht He]. rewrite remove_entry. destruct (entry_at t' k l) as [c|] eqn:E; [|done]. cbn [snd]. split.
  - eapply updated_inv; [done|done|by vm_compute|]. done.
  - exact Ht.
  - intros k' l' c'. rewrite (entry_at_unlinked hash_key t' k l) by done. destruct (l' =? l); [done|apply He].
Qed.

Lemma keeps_reserve_and_define t fuel key value optional secs :
  drops cfg = true ->
  keeps (thinned t) (reserve_and_define integrity debug_assertions hash_key crc32 fuel cfg now key value optional secs).
Proof.
  intros Hd. pose proof (fun h k l => thinned_remove t h k l) as HP.
  pose proof (keeps_evict_one integrity debug_assertions hash_key cfg now (thinned t) HP Hd) as Hev.
  pose proof (keeps_reserve integrity debug_assertions cfg now (thinned t)) as Hre.
  assert (keeps (thinned t) (run_evict integrity debug_assertions hash_key cfg now)) as Hrun.
  { unfold run_evict. apply keeps_bind; [exact Hev|]. keeps. }
  assert (forall freed, keeps (thinned t) (wait_for_running_evictions freed)) as Hwait.
  { intros freed. unfold wait_for_running_evictions. keeps. }
  assert (forall r pool, keeps (thinned t) (label_pool r pool)) as Hlabel by (intros r [|]; cbn [label_pool]; keeps).
  assert (forall r, keeps (thinned t) (define_reserved integrity crc32 r key value optional)) as Hdef.
  { intros r. by apply keeps_modify. }
  unfold reserve_and_define, route. unfold drops in Hd.
  assert (forall pool laps retries size, keeps (thinned t) (reserve_retry integrity debug_assertions hash_key crc32 cfg now
    laps retries key value optional secs size pool)) as Hretry.
  { intros pool laps. induction laps as [|laps IH]; intros retries size; cbn [reserve_retry]; keeps. }
  destruct (Segments.policy cfg); try done; keeps.
Qed.
End Slots.
