(* ===== verification/CacheReserve.v ===== *)
(** * Space for an item

    The reservation of [insert] under the policies that drop segments: as long
    as the bucket has no room and no segment is free, one is evicted and the
    reservation tried again. It ends; the cache may have lost items then. *)
From S2P Require Import Prelude Packing Atomics Table TableSpec TableThms HashIface HashSeq HashProbe.
From S2P Require Import KvItem KvItemSpec TtlBuckets Eviction SegState SegHeader SegHeaderSpec Segment SegmentSpec Segments.
From S2P Require Import Segcache HeapRules HeapShape HeapContents HeapDrain HeapClear HeapItems HeapEvict HeapRemove HeapReserve.
From S2P Require Import CacheLookup CacheState CacheDelete.

Section Reserve.
Context (integrity debug_assertions : bool) (hash_key crc32 : bytes -> Z).
Context (cfg : Config) (now : Z).

#[local] Hint Extern 0 (Hashtable (Index unit)) => exact (index_hashtable hash_key) : typeclass_instances.
#[local] Hint Extern 0 (LawfulHashtable (Index unit)) => exact (index_lawful hash_key) : typeclass_instances.

Implicit Types (w : Cache) (x y off l : Z) (e : Entry) (L : Layout) (es : Z -> list Entry) (k : bytes).

Abbreviation first := (first_offset integrity).
Abbreviation size_of := (entry_size integrity).
Abbreviation at_rest := (at_rest integrity cfg).
Abbreviation kept := (kept integrity hash_key cfg).
Abbreviation cache_ok := (cache_ok integrity hash_key cfg).
Abbreviation contents_of := (contents_of integrity hash_key cfg).
Abbreviation dropping := (dropping cfg now).

(** [w'] maps every key as [w] does, or to nothing. *)
Definition thinner w es w' es' : Prop :=
  forall k, contents_of w' es' k = contents_of w es k \/ contents_of w' es' k = None.

(** What [w'] keeps, [w] keeps at the same place. *)
Definition thins w es w' es' : Prop :=
  forall k x off e h', kept w' es' k x off e h' -> exists h, kept w es k x off e h /\ dated h = dated h'.

Lemma thins_refl w es : thins w es w es.
Proof. intros k x off e h Hkp. by exists h. Qed.

Lemma thins_trans w es w1 es1 w2 es2 : thins w es w1 es1 -> thins w1 es1 w2 es2 -> thins w es w2 es2.
Proof.
  intros H1 H2 k x off e h2 (h1 & (h & ? & <-)%H1 & <-)%H2. by exists h.
Qed.

Lemma thins_thinner w L es w' L' es' :
  cache_ok w L es -> cache_ok w' L' es' -> thins w es w' es' -> thinner w es w' es'.
Proof.
  intros Hk Hk' Ht k. destruct (contents_of w' es' k) as [s|] eqn:E; [|by right]. left. symmetry.
  apply (contents_some integrity hash_key cfg w' L' es') in E as (x & off & e & h' & (h & Hkp & Ed)%Ht & ->); [|done].
  rewrite <- (slot_for_dated x off e h h') by done.
  apply (contents_some integrity hash_key cfg w L); [done|]. by exists x, off, e, h.
Qed.

(** Segments appended to a chain hold nothing. *)
Lemma extended_ok b (l xs : list Z) w w' L es :
  cache_ok w L es -> dropping w L -> chains L !! b = Some l -> extended integrity cfg now b l xs w w' L es ->
  let L' := with_chain b (l ++ xs) L in
  cache_ok w' L' es /\ dropping w' L' /\ thins w es w' es.
Proof.
  intros Hk Hd Hb [E1 (Eq & Ef & Es & Ec) [Et Eda] Eh Ebl Ea Erc] L'.
  pose proof (ck_rest _ _ _ _ _ _ Hk) as Hr.
  assert (forall y, y ∈ xs -> es y = []) as Hnil.
  { intros y Hy. apply (ar_idle _ _ _ _ _ Hr). apply (idle_chain _ _ (shape_apart _ _ _ _ (ar_shape _ _ _ _ _ Hr))).
    rewrite elem_of_app. left. rewrite Eq, elem_of_app. by left. }
  assert (forall y, y ∉ xs -> dated <$> header_at y w' = dated <$> header_at y w) as Hdt.
  { intros y Hy. specialize (Eh y Hy). destruct (header_at y w') as [h'|], (header_at y w) as [h|]; try done.
    apply (inj Some) in Eh. cbn. f_equal. change (dated (erase h') = dated (erase h)). by rewrite Eh. }
  assert (forall u u' k y off e h, (u = w /\ u' = w' \/ u = w' /\ u' = w) -> kept u es k y off e h ->
    exists h', kept u' es k y off e h' /\ dated h' = dated h) as Hkept.
  { intros u u' k y off e h Hu [K1 K2 K3 K4 K5].
    assert (y ∉ xs) as Hy by (intros Hy; rewrite Hnil in K3 by done; by apply not_elem_of_nil in K3).
    assert (dated <$> header_at y u' = dated <$> header_at y u) as E.
    { destruct Hu as [[-> ->]|[-> ->]]; [|symmetry]; by apply Hdt. }
    assert (hashtable u' = hashtable u) as Eu by (destruct Hu as [[-> ->]|[-> ->]]; congruence).
    rewrite K2 in E. destruct (header_at y u') as [h'|] eqn:E'; [|done]. apply (inj Some) in E.
    unfold dated in E. injection E as G1 G2 G3. exists h'. split.
    - split; try done. by rewrite Eu, G1.
    - unfold dated. by rewrite G1, G2, G3. }
  assert (thins w es w' es) as Hth by (intros k y off e h; apply (Hkept w' w); by right).
  destruct (remapped integrity hash_key cfg None w L es w' L' es) as [Hk' Hc]; try done.
  - intros y h' E'. specialize (Erc y). rewrite E' in Erc. destruct (header_at y w) as [h|] eqn:E0; [|done].
    apply (inj Some) in Erc. rewrite Erc. by eapply (ck_refs _ _ _ _ _ _ Hk).
  - intros k y off e h _ (h0 & ? & ?)%(Hkept w' w); [|by right]. exists h0. split; [done|by apply slot_for_dated].
  - intros k y off e h _ (h0 & ? & ?)%(Hkept w w'); [|by left]. exists h0. split; [done|by apply slot_for_dated].
  - split; [done|]. split; [|done]. destruct Hd as [D1 D2 D3 D4].
    unfold aside in Ea. injection Ea as A1 _ A3 A4. split.
    + unfold ranking_ok. by rewrite A1.
    + by rewrite Ec.
    + congruence.
    + intros y h' Hy E'. destruct (decide (y ∈ xs)) as [Hx|Hx].
      * destruct (Ebl y Hx) as (h0 & E0 & (_ & _ & _ & _ & B)). rewrite E' in E0. injection E0 as <-. lia.
      * specialize (Hdt y Hx). rewrite E' in Hdt. destruct (header_at y w) as [h|] eqn:E0; [|done].
        apply (inj Some) in Hdt. unfold dated in Hdt. injection Hdt as _ _ ->. eapply D4; [|done].
        apply list_elem_of_join in Hy as (l' & Hy & [c Hc']%list_elem_of_lookup). cbn [chains L' with_chain] in Hc'.
        destruct (decide (c = b)) as [->|Hcb].
        -- rewrite list_lookup_insert_eq in Hc' by (by eapply lookup_lt_Some). injection Hc' as <-.
           apply elem_of_app in Hy as [Hy|]; [|done]. by eapply chain_in.
        -- rewrite list_lookup_insert_ne in Hc' by done. by eapply chain_in.
Qed.

(** ** Evictions *)

Lemma swept_length xs w w' L L' es es' :
  at_rest w L es -> swept cfg xs w w' L L' es es' -> Z.of_nat (length xs) <= cap cfg.
Proof.
  intros Hr Hs. pose proof (ar_shape _ _ _ _ _ Hr) as Hsh.
  assert (length xs <= length (ids (cap cfg)))%nat as Hl.
  { apply submseteq_length, NoDup_submseteq.
    - pose proof (chains_nodup _ _ _ _ Hsh) as Hn. rewrite (sw_chains _ _ _ _ _ _ _ _ Hs) in Hn. by apply NoDup_app in Hn as [? _].
    - intros x Hx. rewrite <- (sh_ids _ _ _ _ Hsh). unfold accounted. rewrite !elem_of_app. right. right. left.
      rewrite (sw_chains _ _ _ _ _ _ _ _ Hs), elem_of_app. by left. }
  unfold ids in Hl. rewrite length_seqZ in Hl. pose proof (sh_cap _ _ _ _ Hsh). lia.
Qed.

(** One eviction: whether something was freed shows in the counter. *)
Lemma wp_run_evict w L es (Q : unit -> Cache -> Prop) :
  drops cfg = true -> cache_ok w L es -> dropping w L ->
  (forall w' L' es', cache_ok w' L' es' -> dropping w' L' -> thins w es w' es' ->
     (freed w' <> freed w /\ free_queue w' <> []) \/ freed w' = freed w -> Q tt w') ->
  wp (run_evict integrity debug_assertions hash_key cfg now) Q w.
Proof.
  intros Hd Hk Hdp HQ. unfold run_evict. pose proof (ck_rest _ _ _ _ _ _ Hk) as Hr. apply wp_bind.
  eapply wp_evict_one; [done|exact Hr|apply Hdp|].
  intros r xs w' L' es' [R1 R2 R3 R4 _ R5]. apply wp_ret.
  destruct (swept_ok integrity hash_key cfg xs w w' L L' es es' Hk R1 R2) as (Hk' & _).
  assert (thins w es w' es') as Hth.
  { intros k x off e h (h0 & ? & ? & _)%(swept_back _ _ _ _ _ _ _ _ _ _ _ _ _ _ _ R2). by exists h0. }
  unfold evictions in R5. injection R5 as E1 E2.
  apply (HQ w' L' es'); [done| |done|].
  - eapply dropping_swept; [exact Hr|exact R2|done| |done]. rewrite E1, E2. by rewrite (dp_evictions _ _ _ _ Hdp).
  - pose proof (sw_free _ _ _ _ _ _ _ _ R2) as Hst. destruct r as [u|er].
    + left. eapply stocked_counts; [exact Hst|apply Hdp|done|].
      pose proof (swept_length _ _ _ _ _ _ _ Hr R2) as Hlen. pose proof (sh_cap _ _ _ _ (ar_shape _ _ _ _ _ Hr)) as Hcap.
      assert (length (List.filter (fun x => negb (pinned w x)) xs) <= length xs)%nat by apply List.filter_length_le.
      change Location.MAX_SEGMENTS with 262142 in Hcap. lia.
    + right. rewrite (proj1 R4) in Hst. apply Hst, Hdp.
Qed.

(** ** A granted range *)

(** The range [r] is the end of segment [y], as long as [size], in bucket of [secs]. *)
Record granted w L es y (h : SegmentHeader) (secs size : Z) (r : ReservedItem) : Prop := {
  gr_chain : y ∈ mjoin (chains L);
  gr_header : header_at y w = Some h;
  gr_room : write_offset h + size <= segment_size cfg;
  gr_item : r = mkReserved y (generation h) (write_offset h);
  gr_ttl : SegHeader.ttl h = floor (get_bucket_index secs)
}.

(** The item is written behind the last one, and counted. *)
Definition filling y off size key (value : Value) optional w : Cache :=
  set_datas (alter (fun d => blit off (KvItem.define integrity crc32 key value optional (drop (Z.to_nat off) d)) d) (idx y) (datas w))
    (edit y (granted_header size) w).

Lemma bucket_nat secs : Z.of_nat (Z.to_nat (get_bucket_index secs)) = get_bucket_index secs.
Proof. pose proof (bucket_index_range (as_i32 secs)). unfold get_bucket_index. lia. Qed.

Lemma reserve_granted w L es secs size r w' (l : list Z) :
  let b := Z.to_nat (get_bucket_index secs) in
  cache_ok w L es -> dropping w L -> chains L !! b = Some l ->
  reserves integrity cfg now b l size w L es (inl r) w' ->
  exists w0 L0 y h, cache_ok w0 L0 es /\ dropping w0 L0 /\ thins w es w0 es /\
    granted w0 L0 es y h secs size r /\ w' = edit y (granted_header size) w0.
Proof.
  intros b Hk Hd Hb Hres. inversion Hres as [|y h El Eh Hroom|x q w1 h Hno Hroom Eq Hext Eh Hbl| |]; subst.
  - exists w, L, y, h. split; [done|]. split; [done|]. split; [apply thins_refl|]. split; [|done].
    assert (y ∈ l) as Hy by by apply last_in.
    split; try done; [by eapply chain_in|].
    destruct (sh_ttl _ _ _ _ (ar_shape _ _ _ _ _ (ck_rest _ _ _ _ _ _ Hk)) b l y h Hb Hy Eh) as (_ & -> & _).
    unfold b. by rewrite bucket_nat.
  - destruct (extended_ok b l [x] w w1 L es Hk Hd Hb Hext) as (Hk1 & Hd1 & Hc1).
    destruct Hbl as (B1 & _ & _ & B4 & _).
    exists w1, (with_chain b (l ++ [x]) L), x, h. do 3 (split; [done|]). split; [|done]. split; try done.
    + eapply (chain_in _ b (l ++ [x])); [|rewrite elem_of_app; right; by left].
      apply list_lookup_insert_eq. by eapply lookup_lt_Some.
    + lia.
    + by rewrite B1.
    + rewrite B4. unfold b. by rewrite bucket_nat.
Qed.

Definition fits_segment (size : Z) : Prop := first + size <= segment_size cfg.

Lemma wp_reserve_retry laps retries key value optional secs size w L es (Q : ReservedItem + SegcacheError -> Cache -> Prop) :
  drops cfg = true -> cache_ok w L es -> dropping w L -> 0 < size ->
  segment_size cfg < size \/ fits_segment size -> (0 < retries)%nat ->
  (retries < laps)%nat \/ free_queue w <> [] /\ (0 < laps)%nat ->
  (segment_size cfg < size -> Q (inr (Segcache.ItemOversized size)) w) ->
  (forall w' L' es', fits_segment size -> cache_ok w' L' es' -> dropping w' L' -> thins w es w' es' ->
     Q (inr Segcache.NoFreeSegments) w') ->
  (forall r w0 L0 es0 y h, fits_segment size -> cache_ok w0 L0 es0 -> dropping w0 L0 -> thins w es w0 es0 ->
     granted w0 L0 es0 y h secs size r -> Q (inl r) (filling y (write_offset h) size key value optional w0)) ->
  wp (reserve_retry integrity debug_assertions hash_key crc32 cfg now laps retries key value optional secs size Main) Q w.
Proof.
  intros Hd. revert retries w L es Q. induction laps as [|laps IH]; intros retries w L es Q Hk Hdp Hsz Hfit Hre Hlaps Hov Hnone Hok; [lia|].
  pose proof (ck_rest _ _ _ _ _ _ Hk) as Hr. cbn [reserve_retry].
  set (b := Z.to_nat (get_bucket_index secs)).
  destruct (lookup_lt_is_Some_2 (chains L) b) as [l Hb].
  { destruct (an_len _ _ (ar_anchored _ _ _ _ _ Hr)) as [_ ->]. pose proof (bucket_index_range (as_i32 secs)). unfold b, get_bucket_index. lia. }
  apply wp_bind. eapply (wp_reserve integrity debug_assertions cfg now b size Hsz (floor_bucket secs) w L es l); [exact Hr|exact Hb|].
  intros r w' Hres. destruct r as [r|[size'|]].
  - destruct (reserve_granted w L es secs size r w' l Hk Hdp Hb Hres) as (w0 & L0 & y & h & Hk0 & Hd0 & Hc0 & Hg & ->).
    assert (fits_segment size) as Hf.
    { destruct Hfit as [Hfit|]; [|done]. exfalso. destruct Hg as [_ Eh Hroom _ _].
      pose proof (header_range _ _ _ _ _ _ (ar_shape _ _ _ _ _ (ck_rest _ _ _ _ _ _ Hk0)) Eh) as Hy.
      destruct (c_items _ _ _ _ (ar_contents _ _ _ _ _ (ck_rest _ _ _ _ _ _ Hk0)) y Hy) as (h' & d & Eh' & _ & _ & _ & Hs).
      simplify_eq. destruct (ok_end _ _ _ _ _ _ Hs) as [E _]. pose proof (total_esize integrity (es y)).
      pose proof (proj1 (first_bounds integrity)). unfold end_of in E. cbn [header] in E. lia. }
    apply wp_bind. unfold define_reserved. apply wp_modify. unfold label_pool. apply wp_bind, wp_ret, wp_ret.
    destruct Hg as [G1 G2 G3 -> G5]. cbn [r_seg r_offset].
    apply (Hok _ w0 L0 es y h Hf Hk0 Hd0); [exact Hc0|by split].
  - inversion Hres; subst. apply wp_ret. by apply Hov.
  - assert (fits_segment size) as Hf by (destruct Hfit; [inversion Hres; lia|done]).
    assert (w' = w /\ free_queue w = []) as [-> Eq].
    { unfold fits_segment in Hf. inversion Hres; subst; [done|lia]. }
    assert (retries < S laps)%nat as Hlt by by destruct Hlaps as [|[? _]].
    apply wp_bind, wp_gets, wp_bind. eapply wp_run_evict; [done..|]. intros w1 L1 es1 Hk1 Hd1 Hth Hfr.
    assert (forall retries', (0 < retries')%nat -> (retries' < laps)%nat \/ free_queue w1 <> [] /\ (0 < laps)%nat ->
      wp (reserve_retry integrity debug_assertions hash_key crc32 cfg now laps retries' key value optional secs size Main) Q w1) as Hnext.
    { intros retries' H1 H2. eapply IH; [done..| | |].
      - intros Hbig. unfold fits_segment in Hf. pose proof (proj1 (first_bounds integrity)). lia.
      - intros w2 L2 es2 _ Hk2 Hd2 Hth2. eapply Hnone; [done..|]. by eapply thins_trans.
      - intros r w0 L0 es0 y h _ Hk0 Hd0 Hth0 Hg. eapply Hok; [done..| |exact Hg]. by eapply thins_trans. }
    apply wp_bind, wp_gets, wp_bind. destruct Hfr as [[Hne Hq]|Heq].
    + rewrite (proj2 (Z.eqb_neq _ _)) by done. cbn [negb]. apply wp_ret. apply Hnext; [done|]. right. split; [done|lia].
    + rewrite Heq, Z.eqb_refl. cbn [negb]. unfold wait_for_running_evictions.
      apply wp_bind, wp_gets, wp_bind, wp_gets, wp_bind, wp_gets. rewrite Heq, Z.eqb_refl. cbn [negb].
      apply wp_bind, wp_check; [rewrite (dp_evictions _ _ _ _ Hd1); apply Z.leb_refl|]. apply wp_ret.
      destruct retries as [|[|retries]]; [lia| |].
      * apply wp_ret. by eapply Hnone.
      * apply Hnext; [lia|]. left. lia.
Qed.
End Reserve.
