(* ===== verification/CacheAppend.v ===== *)
(** * An item appended

    The range that a reservation granted, filled with an item: nothing that was
    in the cache changes, and the item can be published, or left dead. *)
From S2P Require Import Prelude Packing Atomics Table TableSpec TableThms HashIface HashSeq HashProbe.
From S2P Require Import KvItem KvItemSpec TtlBuckets Eviction SegState SegHeader SegHeaderSpec Segment SegmentSpec Segments.
From S2P Require Import Segcache HeapRules HeapShape HeapContents HeapDrain HeapClear HeapItems HeapEvict HeapRemove HeapReserve.
From S2P Require Import CacheLookup CacheState CacheDelete CacheReserve.

Lemma define_bytes integrity crc32 k v o buf :
  Forall is_byte k -> Forall is_byte o -> value_ok v -> Forall is_byte buf ->
  Forall is_byte (define integrity crc32 k v o buf).
Proof.
  intros Hk Ho Hv Hb.
  assert (Forall is_byte ITEM_MAGIC) as Hm by by repeat (constructor; [done|]).
  assert (forall n, Forall is_byte (replicate n 0)) as Hz by (intros n; by apply Forall_replicate).
  assert (forall n off x b, Forall is_byte b -> Forall is_byte (set_uint n off x b)) as Hs.
  { intros. unfold set_uint. auto with bytes_len. }
  assert (forall (c : bool) b b', Forall is_byte b -> Forall is_byte b' -> Forall is_byte (if c then b else b')) as Hif.
  { by intros []. }
  unfold define, KvItem.init, set_olen, set_klen, set_numeric, set_vlen, set_value_word, set_version_word, set_flags, set_crc32.
  destruct v as [v|n]; [destruct Hv|]; repeat first [assumption | apply Hs | apply Forall_blit | apply Hif | apply Hz].
Qed.

(** The header of a segment whose writer has filled [n] bytes. *)
Definition filled (n : Z) (h : SegmentHeader) : SegmentHeader :=
  with_active_writers (u32 (active_writers (granted_header n h) - 1)) (granted_header n h).

Section Append.
Context (integrity debug_assertions : bool) (hash_key crc32 : bytes -> Z) (Hcrc : forall b, fits 32 (crc32 b)).
Context (cfg : Config) (now : Z).

#[local] Hint Extern 0 (Hashtable (Index unit)) => exact (index_hashtable hash_key) : typeclass_instances.
#[local] Hint Extern 0 (LawfulHashtable (Index unit)) => exact (index_lawful hash_key) : typeclass_instances.

Abbreviation published := (published hash_key).
Abbreviation first := (first_offset integrity).
Abbreviation size_of := (entry_size integrity).
Abbreviation at_rest := (at_rest integrity cfg).
Abbreviation kept := (kept integrity hash_key cfg).
Abbreviation lies := (lies integrity hash_key cfg).
Abbreviation cache_ok := (cache_ok integrity hash_key cfg).
Abbreviation contents_of := (contents_of integrity hash_key cfg).
Abbreviation dropping := (dropping cfg now).
Abbreviation searchable := (searchable integrity hash_key cfg).

(** What [insert] takes. *)
Record insertable (k : bytes) (v : Value) (o : bytes) : Prop := {
  in_args : item_args k v o;
  in_key : 0 < blen k;
  in_key_bytes : Forall is_byte k;
  in_optional_bytes : Forall is_byte o
}.

Definition new_entry (k : bytes) (v : Value) (o : bytes) : Entry := mkEntry k o v 0 false.

Section Filled.
Context (w : Cache) (L : Layout) (es : Z -> list Entry) (y : Z) (h : SegmentHeader) (d : bytes) (secs : Z) (r : ReservedItem).
Context (k : bytes) (v : Value) (o : bytes).
Let e : Entry := new_entry k v o.
Context (Hk : cache_ok w L es) (Hin : insertable k v o) (Hg : granted cfg w L es y h secs (size_of e) r).
Context (Ed : datas w !! idx y = Some d).

Let off : Z := write_offset h.
Let a : Z := Location.pack_location y (generation h) off.
Let d' : bytes := blit off (KvItem.define integrity crc32 k v o (drop (Z.to_nat off) d)) d.

Lemma new_entry_ok : entry_ok e.
Proof. split; [apply Hin|apply Hin|done]. Qed.

Lemma fl_header : header_at y w = Some h.
Proof. exact (gr_header _ _ _ _ _ _ _ _ _ Hg). Qed.

Lemma fl_segment : 1 <= y <= cap cfg /\ id h = y /\ blen d = segment_size cfg /\
  seg_ok integrity (hashtable w) (mkSegment h d) (es y) 0 0 /\ off = end_of integrity (es y) /\
  active_writers h = 0 /\ active_removers h = 0.
Proof.
  pose proof (ck_rest _ _ _ _ _ _ Hk) as Hr. pose proof fl_header as Eh.
  pose proof (header_range _ _ _ _ _ _ (ar_shape _ _ _ _ _ Hr) Eh) as Hy. split; [done|].
  destruct (c_items _ _ _ _ (ar_contents _ _ _ _ _ Hr) y Hy) as (h2 & d2 & E2 & E3 & Ei & Hb & Hs). simplify_eq.
  split; [done|]. split; [done|]. split; [done|]. split; [apply (ok_end _ _ _ _ _ _ Hs)|].
  exact (ar_unpinned _ _ _ _ _ Hr _ _ Eh).
Qed.

Lemma fl_room : 0 <= off /\ 8 <= size_of e /\ off + size_of e <= segment_size cfg.
Proof.
  destruct fl_segment as (_ & _ & _ & Hs & Eo & _). pose proof (gr_room _ _ _ _ _ _ _ _ _ Hg).
  pose proof (entry_size_bound integrity e) as (_ & _ & ? & _). pose proof (total_esize integrity (es y)).
  pose proof (proj1 (first_bounds integrity)). unfold end_of in Eo. unfold off in *. lia.
Qed.

Lemma fl_issuable : Location.issuable y (generation h) off.
Proof.
  destruct fl_segment as (_ & Ei & Eb & Hs & Eo & _). destruct fl_room as (? & ? & ?).
  pose proof (end_issuable integrity _ _ _ _ _ Hs) as Hi. cbn [data header] in Hi. rewrite Ei in Hi.
  rewrite Eo. apply Hi. lia.
Qed.

Lemma fl_free : unpublished (hashtable w) a.
Proof.
  destruct fl_segment as (_ & Ei & Eb & Hs & Eo & _). unfold a. rewrite <- Ei.
  eapply (seg_ok_free integrity _ _ _ _ _ _ Hs); [by rewrite Eo|]. cbn [header]. rewrite Ei. exact fl_issuable.
Qed.

Lemma fl_bytes : outside off (size_of e) d d' /\ stored integrity e (drop (Z.to_nat off) d') /\ Forall is_byte d' /\
  KvItem.key integrity (drop (Z.to_nat off) d') = k.
Proof.
  destruct fl_segment as (_ & Ei & Eb & Hs & _). destruct fl_room as (? & ? & ?).
  assert (blen (drop (Z.to_nat off) d) = blen d - off) as El by (apply blen_drop; lia).
  pose proof (entry_size_bound integrity e) as (B1 & _). cbn [e_key e_value e_optional e new_entry] in B1.
  destruct (define_holds integrity crc32 Hcrc k v o (drop (Z.to_nat off) d) (in_args _ _ _ Hin)) as (D1 & _ & D3 & D4).
  { unfold e in *. lia. }
  destruct (outside_rewrite off (size_of e) d (KvItem.define integrity crc32 k v o (drop (Z.to_nat off) d))) as [O1 O2];
    [lia..| |].
  { intros p l ? ?. apply D4; unfold e in *; lia. }
  split; [exact O1|]. split; [unfold d'; rewrite O2; exact D1|]. split.
  - unfold d'. apply Forall_blit; [|apply (ok_bytes _ _ _ _ _ _ Hs)].
    apply define_bytes; [apply Hin..|]. apply Forall_drop, (ok_bytes _ _ _ _ _ _ Hs).
  - unfold d'. rewrite O2. exact (holds_read_key integrity _ _ _ _ _ _ (in_args _ _ _ Hin) D1).
Qed.

Abbreviation fill := (filling integrity crc32 y off (size_of e) k v o).

Lemma filling_header z : header_at z (fill w) = if decide (z = y) then Some (granted_header (size_of e) h) else header_at z w.
Proof.
  change (header_at z (fill w)) with (header_at z (edit y (granted_header (size_of e)) w)).
  rewrite header_edit. case_decide; [|done]. subst z. by rewrite fl_header.
Qed.

Lemma filling_data z : datas (fill w) !! idx z = if decide (idx z = idx y) then Some d' else datas w !! idx z.
Proof.
  unfold filling. cbn [datas set_datas]. case_decide as D.
  - by rewrite D, list_lookup_alter_eq, Ed.
  - by apply list_lookup_alter_ne.
Qed.

(** Lookups do not see the item. *)
Lemma filling_alike : alike integrity cfg es w (fill w).
Proof.
  destruct fl_segment as (Hy & Ei & Eb & Hs & Eo & _). destruct fl_bytes as ([O1 O2] & _).
  split; [apply similar_refl|..].
  - intros z dz Hz Ez. rewrite filling_data. case_decide as D; [|by exists dz].
    apply idx_inj in D; [|lia..]. subst z. rewrite Ed in Ez. injection Ez as <-. exists d'.
    split; [done|]. split; [done|]. rewrite <- Eo. pose proof fl_room. apply O2; lia.
  - intros z. rewrite filling_header. case_decide; [|done]. subst z. by rewrite fl_header.
  - intros z hz. rewrite filling_header. case_decide; [|apply (ck_refs _ _ _ _ _ _ Hk)].
    intros E. injection E as <-. exact (ck_refs _ _ _ _ _ _ Hk _ _ fl_header).
Qed.

(** ** The segment, when the item is accounted for *)

Lemma fl_ranges :
  0 <= live_items h < 2 ^ 21 /\ 0 <= live_bytes h <= 2 ^ 24 /\ size_of e <= 2 ^ 23.
Proof.
  destruct fl_segment as (_ & Ei & Eb & Hs & _). destruct fl_room as (? & ? & ?).
  destruct (seg_counts _ _ _ _ _ _ Hs) as (C1 & C2 & C3).
  destruct (ok_items _ _ _ _ _ _ Hs) as [D1 _], (ok_size _ _ _ _ _ _ Hs) as [D2 _].
  destruct (ok_room _ _ _ _ _ _ Hs) as [_ D3]. destruct (first_bounds integrity) as [F1 _].
  change Location.MAX_SEGMENT_BYTES with 8388608 in D3. cbn [header data] in *. pow2. lia.
Qed.

Lemma filled_counted : counted h (filled (size_of e) h) 1 (size_of e) (size_of e).
Proof.
  destruct fl_segment as (_ & _ & _ & Hs & _). destruct (ok_dead _ _ _ _ _ _ Hs) as [D1 D2].
  destruct fl_ranges as (R1 & R2 & R3). destruct fl_room as (? & ? & ?).
  split; [done|]. split; [done|]. split; [done|]. cbn.
  split; [apply i32_id; unfold i32_range; pow2; lia|].
  split; [apply i32_id; unfold i32_range; pow2; lia|]. done.
Qed.

(** ** The map, when the item is published or left dead *)

Definition appended : Z -> list Entry := upd_es y (es y ++ [e]) es.

Lemma appended_places z off' e' :
  (off', e') ∈ places integrity first (appended z) <->
  (off', e') ∈ places integrity first (es z) \/ z = y /\ off' = off /\ e' = e.
Proof.
  destruct fl_segment as (_ & _ & _ & _ & Eo & _). unfold appended, upd_es. case_decide as D; [subst z|naive_solver].
  rewrite laid_snoc_app, elem_of_app, list_elem_of_singleton, <- Eo. naive_solver.
Qed.

Section Published.
Context (pub : bool) (w2 : Cache).
Context (Hr2 : at_rest w2 L appended) (Hd2 : forall z, dated <$> header_at z w2 = dated <$> header_at z w).
Context (Hf2 : forall z hz, header_at z w2 = Some hz -> fits 32 (ref_count hz)).
Context (Hnew : published (hashtable w2) k a <-> pub = true).
Context (Hold : forall x off e h, kept w es k x off e h -> ~ published (hashtable w2) k (Location.pack_location x (generation h) off)).
Context (Hback : forall k' l, l <> a -> published (hashtable w2) k' l -> published (hashtable w) k' l).
Context (Hforth : forall k' x off e h, k' <> k -> kept w es k' x off e h ->
  published (hashtable w2) k' (Location.pack_location x (generation h) off)).

Lemma dated_inv z h2 : header_at z w2 = Some h2 ->
  exists h1, header_at z w = Some h1 /\ generation h1 = generation h2 /\ forall o e, slot_for z o e h1 = slot_for z o e h2.
Proof.
  intros E2. specialize (Hd2 z). rewrite E2 in Hd2. destruct (header_at z w) as [h1|]; [|done].
  apply (inj Some) in Hd2. unfold dated in Hd2. injection Hd2 as G1 G2 G3. exists h1. split; [done|].
  split; [done|]. intros o0 e0. apply slot_for_dated. unfold dated. congruence.
Qed.

Lemma dated_forth z h1 : header_at z w = Some h1 ->
  exists h2, header_at z w2 = Some h2 /\ generation h2 = generation h1 /\ forall o e, slot_for z o e h2 = slot_for z o e h1.
Proof.
  intros E1. pose proof (Hd2 z) as E. rewrite E1 in E. destruct (header_at z w2) as [h2|] eqn:E2; [|done].
  destruct (dated_inv z h2 E2) as (h1' & E1' & G1 & G2). rewrite E1 in E1'. injection E1' as <-. exists h2.
  split; [done|]. split; [done|]. intros o0 e0. by rewrite G2.
Qed.

Lemma kept_appended k' x off' e' h2 :
  kept w2 appended k' x off' e' h2 ->
  (x = y /\ off' = off /\ e' = e) \/ exists h1, kept w es k' x off' e' h1 /\ slot_for x off' e' h1 = slot_for x off' e' h2.
Proof.
  intros [K1 K2 K3 K4 K5]. destruct (dated_inv x h2 K2) as (h1 & E1 & G1 & G2).
  apply appended_places in K3 as [K3|?]; [|by left]. right. exists h1. split; [|done]. split; try done.
  rewrite G1. apply Hback; [|done]. intros El.
  destruct fl_segment as (Hy & Ei & Eb & Hs & Eo & _).
  destruct (c_items _ _ _ _ (ar_contents _ _ _ _ _ (ck_rest _ _ _ _ _ _ Hk)) x K1) as (hx & dx & Ex & _ & Eix & _ & Hsx).
  rewrite E1 in Ex. injection Ex as <-. pose proof (place_issuable _ _ _ _ _ _ _ Hsx K3) as Hi.
  cbn [header fst] in Hi. rewrite Eix in Hi.
  destruct (Location.pack_unpack_location _ _ _ Hi) as (U1 & _).
  destruct (Location.pack_unpack_location _ _ _ fl_issuable) as (U2 & _).
  unfold a in El. rewrite <- G1 in El. rewrite El, U2 in U1. injection U1 as <- <-.
  destruct (place_in _ _ _ _ _ _ _ Hsx K3) as (_ & _ & P & _). cbn [fst snd] in P.
  pose proof (entry_size_bound integrity e') as (_ & _ & ? & _). unfold off in *. rewrite Eo in P. lia.
Qed.

Lemma appended_ok :
  cache_ok w2 L appended /\ contents_of w2 appended k = (if pub then Some (slot_for y off e h) else None) /\
  forall k', k' <> k -> contents_of w2 appended k' = contents_of w es k'.
Proof.
  destruct (dated_forth y h fl_header) as (hy & Ey & Gy & Sy).
  assert (forall x off' e' h2, kept w2 appended k x off' e' h2 -> (x = y /\ off' = off /\ e' = e) /\ pub = true) as Hkk.
  { intros x off' e' h2 Hkp. destruct (kept_appended _ _ _ _ _ Hkp) as [(-> & -> & ->)|(h1 & Hk1 & _)].
    - split; [done|]. apply Hnew. destruct Hkp as [_ K2 _ _ K5]. rewrite Ey in K2. injection K2 as <-. by rewrite Gy in K5.
    - exfalso. apply (Hold _ _ _ _ Hk1). destruct Hkp as [_ K2 _ _ K5]. destruct Hk1 as [_ K1 _ _ _].
      destruct (dated_inv _ _ K2) as (h1' & E1 & G1 & _). rewrite K1 in E1. injection E1 as <-. by rewrite G1. }
  destruct (remapped integrity hash_key cfg (Some k) w L es w2 L appended) as [Hk2 Hc]; try done.
  - intros k' x off' e' h2 Hne Hkp. destruct (kept_appended _ _ _ _ _ Hkp) as [(-> & -> & ->)|]; [|done].
    exfalso. apply Hne. f_equal. exact (kp_key _ _ _ _ _ _ _ _ _ _ Hkp).
  - intros k' x off' e' h1 Hne Hkp. pose proof Hkp as [K1 K2 K3 K4 K5].
    destruct (dated_forth x h1 K2) as (h2 & E2 & G & S). exists h2. split; [|done]. split; try done.
    + apply appended_places. by left.
    + rewrite G. eapply Hforth; [congruence|exact Hkp].
  - intros k' x1 o1 e1 h1 x2 o2 e2 h2 E H1 H2. injection E as <-.
    destruct (Hkk _ _ _ _ H1) as [(-> & -> & _) _], (Hkk _ _ _ _ H2) as [(-> & -> & _) _]. done.
  - split; [done|]. split; [|intros k' Hne; apply Hc; congruence]. destruct pub.
    + apply (contents_some integrity hash_key cfg w2 L); [done|]. exists y, off, e, hy. split; [|done].
      destruct fl_segment as (Hy & _). split; try done; [apply appended_places; auto|]. rewrite Gy. by apply Hnew.
    + apply (contents_none integrity hash_key cfg w2 L); [done|]. intros x off' e' h2 Hkp.
      by destruct (Hkk _ _ _ _ Hkp).
Qed.
End Published.

(** ** The cache, when the item is accounted for *)

(** What the cache is told of a header, but for the counters. *)
Definition framed (h : SegmentHeader) := (skeleton h, dated h, pins h).

(** From [wm], which has the items [w] has but may publish less of them, the item
    was added to segment [y]: published, or dead. *)
Record settles (pub : bool) (wm w2 : Cache) (hm h2 : SegmentHeader) : Prop := {
  st_contents : contents integrity cfg wm es;
  st_datas : datas wm = datas w;
  st_before : header_at y wm = Some hm /\ generation hm = generation h;
  st_after : header_at y w2 = Some h2;
  st_others z : z <> y -> header_at z w2 = header_at z wm;
  st_bytes : datas w2 = datas (fill w);
  st_index : index_inv hash_key (hashtable w2);
  st_new : published (hashtable w2) k a <-> pub = true;
  st_free k' : published (hashtable w2) k' a -> pub = true;
  st_rest k' l : l <> a -> published (hashtable w2) k' l <-> published (hashtable wm) k' l;
  st_counted : counted hm h2 (Z.b2z pub) (Z.b2z pub * size_of e) (size_of e);
  st_queues : same_queues w w2 /\ buckets w2 = buckets w;
  st_aside : evict w2 = evict w /\ evictions w2 = evictions w;
  st_framed z : framed <$> header_at z w2 = framed <$> header_at z w
}.

Lemma framed_part {A} (f : Z * Z * SegmentPool * bool * (Z * Z * Z) * (Z * Z * Z) -> A) (w2 : Cache) z :
  framed <$> header_at z w2 = framed <$> header_at z w ->
  (fun h => f (framed h)) <$> header_at z w2 = (fun h => f (framed h)) <$> header_at z w.
Proof. destruct (header_at z w2), (header_at z w); cbn; try done. intros E. apply (inj Some) in E. by rewrite E. Qed.

Lemma settled_rest pub wm w2 hm h2 : settles pub wm w2 hm h2 -> at_rest w2 L appended.
Proof.
  intros [S1 S2 [S3 S3'] S4 S5 S6 S7 S8 S9 S10 S11 [S12 S12'] _ S14]. pose proof (ck_rest _ _ _ _ _ _ Hk) as Hr.
  destruct fl_segment as (Hy & _ & _ & _ & Eo & _). destruct fl_bytes as (B1 & B2 & B3 & _).
  eapply (at_rest_touched integrity cfg y w w2); [exact Hr|apply Hg| |done|done|..].
  - eapply (contents_appended integrity cfg pub y wm w2 es hm h2 d d' e); try done.
    + by rewrite S2.
    + by rewrite S6, filling_data, decide_True.
    + intros z Hz Hz1. rewrite S6, S2, filling_data, decide_False; [done|]. intros E. apply Hz. by apply idx_inj; [|lia|].
    + exact new_entry_ok.
    + by rewrite <- Eo.
    + by rewrite <- Eo.
    + rewrite <- Eo. apply fl_room.
    + rewrite <- Eo, S3'. exact S8.
    + rewrite <- Eo, S3'. exact S9.
    + rewrite <- Eo, S3'. exact S10.
  - intros z. exact (framed_part (fun p => p.1.1) w2 z (S14 z)).
  - intros z hz Ez. pose proof (framed_part (fun p => p.2) w2 z (S14 z)) as E. rewrite Ez in E.
    destruct (header_at z w) as [h0|] eqn:E0; [|done]. apply (inj Some) in E. cbn in E. unfold pins in E.
    injection E as _ -> ->. exact (ar_unpinned _ _ _ _ _ Hr z h0 E0).
Qed.

Lemma settled_ok pub wm w2 hm h2 :
  settles pub wm w2 hm h2 ->
  (forall k' l, published (hashtable wm) k' l -> published (hashtable w) k' l) ->
  (forall x off e h, kept w es k x off e h -> ~ published (hashtable wm) k (Location.pack_location x (generation h) off)) ->
  (forall k' x off e h, k' <> k -> kept w es k' x off e h ->
    published (hashtable wm) k' (Location.pack_location x (generation h) off)) ->
  dropping w L ->
  cache_ok w2 L appended /\ dropping w2 L /\ contents_of w2 appended k = (if pub then Some (slot_for y off e h) else None) /\
  forall k', k' <> k -> contents_of w2 appended k' = contents_of w es k'.
Proof.
  intros Hst Hsub Hold Hforth Hdp. pose proof (settled_rest _ _ _ _ _ Hst) as Hr2.
  pose proof Hst as [S1 S2 S3 S4 S5 S6 S7 S8 S9 S10 S11 [S12 S12'] [S13 S13'] S14].
  assert (forall z, dated <$> header_at z w2 = dated <$> header_at z w) as Hdt.
  { intros z. exact (framed_part (fun p => p.1.2) w2 z (S14 z)). }
  assert (forall k' x off' e' h', kept w es k' x off' e' h' -> Location.pack_location x (generation h') off' <> a) as Hna.
  { intros k' x off' e' h' Hkp E. destruct (kp_published _ _ _ _ _ _ _ _ _ _ Hkp) as [f Hf].
    rewrite E in Hf. by rewrite (fl_free k') in Hf. }
  destruct (appended_ok pub w2 Hr2 Hdt) as (Hk2 & Hc1 & Hc2).
  - intros z hz Ez. pose proof (framed_part (fun p => p.2) w2 z (S14 z)) as E. rewrite Ez in E.
    destruct (header_at z w) as [h0|] eqn:E0; [|done]. apply (inj Some) in E. cbn in E. unfold pins in E.
    injection E as -> _ _. exact (ck_refs _ _ _ _ _ _ Hk z h0 E0).
  - exact S8.
  - intros x off' e' h' Hkp Hp. apply (Hold _ _ _ _ Hkp). apply S10; [by eapply Hna|exact Hp].
  - intros k' l Hl Hp. by apply Hsub, S10.
  - intros k' x off' e' h' Hne Hkp. apply S10; [by eapply Hna|]. by eapply Hforth.
  - split; [done|]. split; [|done]. apply (dropping_ext cfg now w); [done| |done|done|done]. apply S12.
Qed.
End Filled.
End Append.
