(* ===== verification/CacheInsert.v ===== *)
(** * Inserting an item

    What follows the reservation of [insert]: the item is published under a key
    that has none, or in the place of the key's item, which is taken out; or
    the hashtable has no room, and the range is given up. *)
From S2P Require Import Prelude Packing Atomics Table TableSpec TableThms HashIface HashSeq HashProbe.
From S2P Require Import KvItem KvItemSpec TtlBuckets Eviction SegState SegHeader SegHeaderSpec Segment SegmentSpec Segments.
From S2P Require Import Segcache HeapRules HeapShape HeapContents HeapDrain HeapClear HeapItems HeapEvict HeapRemove HeapReserve.
From S2P Require Import CacheLookup CacheState CacheDelete CacheReserve CacheAppend.

Section Insert.
Context (integrity debug_assertions : bool) (hash_key crc32 : bytes -> Z) (Hcrc : forall b, fits 32 (crc32 b)).
Context (cfg : Config) (now : Z).

#[local] Hint Extern 0 (Hashtable (Index unit)) => exact (index_hashtable hash_key) : typeclass_instances.
#[local] Hint Extern 0 (LawfulHashtable (Index unit)) => exact (index_lawful hash_key) : typeclass_instances.
#[local] Hint Extern 0 (KeyVerifier Cache (option Pin)) =>
  exact (segments_verifier integrity debug_assertions cfg) : typeclass_instances.

Abbreviation published := (published hash_key).
Abbreviation first := (first_offset integrity).
Abbreviation size_of := (entry_size integrity).
Abbreviation at_rest := (at_rest integrity cfg).
Abbreviation kept := (kept integrity hash_key cfg).
Abbreviation lies := (lies integrity hash_key cfg).
Abbreviation cache_ok := (cache_ok integrity hash_key cfg).
Abbreviation contents_of := (contents_of integrity hash_key cfg).
Abbreviation dropping := (dropping cfg now).
Abbreviation becomes := (becomes integrity hash_key cfg now).

Definition release (h : SegmentHeader) : SegmentHeader := with_active_writers (u32 (active_writers h - 1)) h.
Definition unpin_remover (h : SegmentHeader) : SegmentHeader := with_active_removers (u32 (active_removers h - 1)) h.
Definition pin_remover (h : SegmentHeader) : SegmentHeader := with_active_removers (u32 (active_removers h + 1)) h.

Section Filled.
Context (w : Cache) (L : Layout) (es : Z -> list Entry) (y : Z) (h : SegmentHeader) (d : bytes) (secs : Z) (r : ReservedItem).
Context (k : bytes) (v : Value) (o : bytes).
Abbreviation mine := (new_entry k v o).
Context (Hk : cache_ok w L es) (Hdp : dropping w L) (Hin : insertable k v o).
Context (Hg : granted cfg w L es y h secs (size_of mine) r) (Ed : datas w !! idx y = Some d).

Abbreviation off := (write_offset h).
Abbreviation a := (Location.pack_location y (generation h) off).

Abbreviation fill := (filling integrity crc32 y off (size_of mine) k v o).
Abbreviation settles := (settles integrity hash_key crc32 cfg w es y h k v o).
Abbreviation appended := (appended es y k v o).

(** The facts of the segment. *)
Abbreviation in_seg := (fl_segment integrity hash_key cfg w L es y h d secs r k v o Hk Hg Ed).
Abbreviation in_bytes := (fl_bytes integrity hash_key crc32 Hcrc cfg w L es y h d secs r k v o Hk Hin Hg Ed).
Abbreviation in_ranges := (fl_ranges integrity hash_key cfg w L es y h d secs r k v o Hk Hg Ed).
Abbreviation in_room := (fl_room integrity hash_key cfg w L es y h d secs r k v o Hk Hg Ed).
Abbreviation in_counted := (filled_counted integrity hash_key cfg w L es y h d secs r k v o Hk Hg Ed).
Abbreviation in_issuable := (fl_issuable integrity hash_key cfg w L es y h d secs r k v o Hk Hg Ed).
Abbreviation in_free := (fl_free integrity hash_key cfg w L es y h d secs r k v o Hk Hg Ed).

Lemma in_header : header_at y w = Some h.
Proof. exact (gr_header _ _ _ _ _ _ _ _ _ Hg). Qed.

Lemma in_unpinned z hz : header_at z w = Some hz -> active_writers hz = 0 /\ active_removers hz = 0.
Proof. apply (ar_unpinned _ _ _ _ _ (ck_rest _ _ _ _ _ _ Hk)). Qed.

(** ** Published under a new key *)

Definition created (t : Index unit) : Cache := edit y release (set_hashtable t (fill w)).

Lemma created_header t z : header_at z (created t) = if decide (z = y) then Some (filled (size_of mine) h) else header_at z w.
Proof.
  unfold created. rewrite header_edit. change (header_at z (set_hashtable t (fill w))) with (header_at z (fill w)).
  rewrite (filling_header integrity crc32 cfg w L es y h secs r k v o Hg). by case_decide.
Qed.

Lemma framed_filled n : active_writers h = 0 -> framed (filled n h) = framed h.
Proof. unfold framed, skeleton, pins. cbn. by intros ->. Qed.

Lemma queues_edit z f (w1 w2 : Cache) : same_queues w1 w2 -> same_queues w1 (edit z f w2).
Proof. unfold same_queues. rewrite length_edit. done. Qed.

Lemma queues_fill t : same_queues w (set_hashtable t (fill w)).
Proof.
  change (same_queues w (fill w)). unfold filling, same_queues. do 4 (split; [done|]).
  split; [apply length_edit|]. apply length_alter.
Qed.

Lemma created_settles t :
  index_inv hash_key t -> published t k a ->
  (forall k' l, l <> a -> published t k' l <-> published (hashtable w) k' l) ->
  settles true w (created t) h (filled (size_of mine) h).
Proof.
  intros Hi Hp Ho. destruct (in_unpinned y h in_header) as [Haw _].
  split; try done.
  - apply (ck_rest _ _ _ _ _ _ Hk).
  - split; [exact in_header|done].
  - by rewrite created_header, decide_True.
  - intros z Hz. by rewrite created_header, decide_False.
  - change (Z.b2z true) with 1. rewrite Z.mul_1_l. by eapply filled_counted.
  - split; [|done]. apply queues_edit, queues_fill.
  - intros z. rewrite created_header. case_decide; [|done]. subst z. rewrite in_header. cbn. by rewrite framed_filled.
Qed.

Lemma created_becomes t :
  index_inv hash_key t -> published t k a ->
  (forall k' l, l <> a -> published t k' l <-> published (hashtable w) k' l) ->
  contents_of w es k = None -> becomes k (Some (slot_for y off mine h)) w es (created t).
Proof.
  intros Hi Hp Ho Hnone.
  destruct (settled_ok integrity hash_key crc32 Hcrc cfg now w L es y h d secs r k v o Hk Hin Hg Ed true w
    (created t) h _ (created_settles t Hi Hp Ho)) as (Hk2 & Hd2 & Hc1 & Hc2); [done| | |done|].
  - intros x off' e' h' Hkp. exfalso. by eapply (contents_none integrity hash_key cfg w L es k Hk) in Hnone.
  - intros k' x off' e' h' _ Hkp. apply Hkp.
  - exists L, appended. done.
Qed.

(** ** Given up *)

Definition pin_dead (t : Index unit) : Cache := edit y pin_remover (created t).

Definition dead (t : Index unit) : Cache := edit y (taken_out (size_of mine)) (pin_dead t).

Lemma pin_dead_header t z :
  header_at z (pin_dead t) = if decide (z = y) then Some (pin_remover (filled (size_of mine) h)) else header_at z w.
Proof. unfold pin_dead. rewrite header_edit, created_header. by case_decide. Qed.

Lemma dead_header t z :
  header_at z (dead t) = if decide (z = y) then Some (debited (size_of mine) (filled (size_of mine) h)) else header_at z w.
Proof.
  unfold dead. rewrite header_edit, pin_dead_header. case_decide; [|done]. cbn. f_equal.
  destruct (in_unpinned y h in_header) as [_ E]. destruct h. cbn in *. by subst.
Qed.

Lemma dead_counted : counted h (debited (size_of mine) (filled (size_of mine) h)) 0 0 (size_of mine).
Proof.
  destruct in_ranges as (R1 & R2 & R3).
  unfold counted. do 3 (split; [done|]). cbn.
  pose proof (entry_size_bound integrity mine) as (_ & _ & ? & _).
  rewrite !i32_id by (unfold i32_range; pow2; lia). split; [lia|]. split; [lia|]. split; apply i32_in_range.
Qed.

Lemma dead_settles t : similar (hashtable w) t -> settles false w (dead t) h (debited (size_of mine) (filled (size_of mine) h)).
Proof.
  intros Ht. destruct (in_unpinned y h in_header) as [Haw Har].
  pose proof (c_index _ _ _ _ (ar_contents _ _ _ _ _ (ck_rest _ _ _ _ _ _ Hk))) as Hi.
  assert (forall k' l, published t k' l <-> published (hashtable w) k' l) as Hp by (intros; by apply similar_published).
  assert (forall k', ~ published t k' a) as Hna.
  { intros k' [f Hf]%Hp. change (get_item_frequency (hashtable w) k' a = Some f) in Hf.
    by rewrite in_free in Hf. }
  split; try done.
  - apply (ck_rest _ _ _ _ _ _ Hk).
  - split; [exact in_header|done].
  - by rewrite dead_header, decide_True.
  - intros z Hz. by rewrite dead_header, decide_False.
  - by eapply similar_inv.
  - split; [|done]. intros Hp'. by apply Hna in Hp'.
  - intros k' Hp'. by apply Hna in Hp'.
  - exact dead_counted.
  - split; [|done]. do 3 apply queues_edit. apply queues_fill.
  - intros z. rewrite dead_header. case_decide; [|done]. subst z. rewrite in_header. cbn. unfold framed, skeleton, pins. cbn.
    by rewrite Haw.
Qed.

Lemma dead_becomes t :
  similar (hashtable w) t -> contents_of w es k = None ->
  cache_ok (dead t) L appended /\ dropping (dead t) L /\ contents_of (dead t) appended k = None /\
  forall k', k' <> k -> contents_of (dead t) appended k' = contents_of w es k'.
Proof.
  intros Ht Hnone.
  apply (settled_ok integrity hash_key crc32 Hcrc cfg now w L es y h d secs r k v o Hk Hin Hg Ed false w
    (dead t) h _ (dead_settles t Ht)); [done| | |done].
  - intros x off' e' h' Hkp. exfalso. by eapply (contents_none integrity hash_key cfg w L es k Hk) in Hnone.
  - intros k' x off' e' h' _ Hkp. apply Hkp.
Qed.

Lemma dead_removable t : similar (hashtable w) t ->
  removable integrity cfg (pin_dead t) y off mine (pin_remover (filled (size_of mine) h))
    (blit off (KvItem.define integrity crc32 k v o (drop (Z.to_nat off) d)) d).
Proof.
  intros Ht. destruct in_seg as (Hy & Ei & Eb & Hs & Eo & _).
  destruct in_bytes as (B1 & B2 & B3 & _).
  destruct in_ranges as (R1 & R2 & R3).
  destruct in_room as (M1 & M2 & M3).
  destruct in_counted as (_ & _ & C3 & C4 & C5 & _).
  pose proof (seg_counts _ _ _ _ _ _ Hs) as (D1 & D2 & D3).
  destruct (ok_size _ _ _ _ _ _ Hs) as [E1 _]. pose proof (proj1 (first_bounds integrity)) as F1. cbn [header data] in *.
  split; try done.
  - by rewrite pin_dead_header, decide_True.
  - change (datas (pin_dead t)) with (datas (fill w)).
    rewrite (filling_data integrity crc32 w y h d k v o Ed). by rewrite decide_True.
  - eapply (check_magic_outside integrity); [exact (ok_magic _ _ _ _ _ _ Hs)|exact B1|].
    rewrite Eo. unfold end_of. pose proof (total_esize integrity (es y)). lia.
  - by eapply new_entry_ok.
  - unfold max_item_offset. cbn [header data]. rewrite (proj1 B1).
    change (write_offset (pin_remover (filled (size_of mine) h))) with (write_offset (filled (size_of mine) h)).
    rewrite C3. pose proof (entry_size_bound integrity mine) as (_ & ? & _).
    rewrite Eb. repeat case_bool; lia.
  - change (1 <= live_items (filled (size_of mine) h) < 2 ^ 31). rewrite C4. pow2. lia.
  - change (size_of mine <= live_bytes (filled (size_of mine) h) < 2 ^ 31). rewrite C5. pow2. lia.
  - exact in_issuable.
Qed.

(** ** Published in the place of the key's item *)

Section Replaced.
Context (l x off0 : Z) (e0 : Entry) (h0 : SegmentHeader) (m0 : Metadata) (d0 : bytes) (t0 t1 : Index unit).
Context (Hl : lies w es l x off0 e0 h0 m0 d0) (Ek : e_key e0 = k).
Context (Hi0 : index_inv hash_key t0) (Hi1 : index_inv hash_key t1).
Context (Hg0 : forall k' l', get_item_frequency t0 k' l' = if l' =? l then None else get_item_frequency (hashtable w) k' l').
Context (Hg1 : forall k' l', is_Some (get_item_frequency t1 k' l') <->
  if l' =? a then is_Some (get_item_frequency (hashtable w) k' l)
  else if l' =? l then False else is_Some (get_item_frequency (hashtable w) k' l')).

Abbreviation n0 := (size_of e0).

(** The heap under the remover pin of the old item, and when it is taken out. *)
Definition replacing : Cache := edit y release (set_hashtable t1 (edit x pin_remover (fill w))).
Definition replaced : Cache := edit x (taken_out n0) replacing.

(** The heap without the old item. *)
Definition unlinked : Cache := set_hashtable t0 (edit x (debited n0) w).

Lemma replacing_header z :
  header_at z replacing = if decide (z = x) then pin_remover <$> header_at z (created t1) else header_at z (created t1).
Proof.
  rewrite created_header. unfold replacing. rewrite header_edit.
  change (header_at z (set_hashtable t1 (edit x pin_remover (fill w)))) with (header_at z (edit x pin_remover (fill w))).
  rewrite header_edit, (filling_header integrity crc32 cfg w L es y h secs r k v o Hg).
  destruct (decide (z = y)), (decide (z = x)); done.
Qed.

Lemma old_header : header_at x w = Some h0.
Proof. apply Hl. Qed.

Lemma same_segment : x = y -> h0 = h.
Proof. intros D. pose proof old_header as E. rewrite D, in_header in E. by injection E. Qed.

Definition old_filled : SegmentHeader := if decide (x = y) then filled (size_of mine) h else h0.

Lemma old_created : header_at x (created t1) = Some old_filled.
Proof. rewrite created_header. unfold old_filled. case_decide; [done|]. apply old_header. Qed.

Lemma old_unpinned : active_removers old_filled = 0.
Proof.
  unfold old_filled. case_decide; [|apply (in_unpinned x h0 old_header)]. apply (in_unpinned y h in_header).
Qed.

Lemma taken_out_unpinned n hd : active_removers hd = 0 -> taken_out n (pin_remover hd) = debited n hd.
Proof. destruct hd. cbn. intros ->. done. Qed.

Lemma replaced_header z :
  header_at z replaced = if decide (z = x) then Some (debited n0 old_filled) else header_at z (created t1).
Proof.
  unfold replaced. rewrite header_edit, replacing_header. case_decide; [|done]. subst z.
  rewrite old_created. cbn. by rewrite taken_out_unpinned by exact old_unpinned.
Qed.

Lemma unlinked_header z : header_at z unlinked = if decide (z = x) then Some (debited n0 h0) else header_at z w.
Proof.
  change (header_at z unlinked) with (header_at z (edit x (debited n0) w)). rewrite header_edit.
  case_decide; [|done]. subst z. by rewrite old_header.
Qed.

Lemma unlinked_contents : contents integrity cfg unlinked es.
Proof.
  pose proof Hl as [X1 X2 X3 X4 X5 X6 X7 X8 X8' X9 X10 X11 X12 X13 X14].
  eapply (contents_unlinked integrity cfg x w unlinked es h0 (debited n0 h0) d0 off0 e0); try done.
  - apply (ck_rest _ _ _ _ _ _ Hk).
  - by rewrite unlinked_header, decide_True.
  - intros z Hz. by rewrite unlinked_header, decide_False.
  - by rewrite <- X7.
  - intros k' l'. rewrite <- X7. exact (Hg0 k' l').
  - unfold counted. do 5 (split; [done || (cbn; lia)|]). split; apply i32_in_range.
Qed.

Lemma replaced_counted :
  let hm := if decide (x = y) then debited n0 h else h in
  let h2 := if decide (x = y) then debited n0 (filled (size_of mine) h) else filled (size_of mine) h in
  counted hm h2 1 (size_of mine) (size_of mine).
Proof.
  intros hm h2. destruct in_counted as (C1 & C2 & C3 & C4 & C5 & C6 & C7). unfold hm, h2. case_decide; [|done].
  unfold counted. do 2 (split; [done|]). cbn [live_items live_bytes write_offset debited moved_out with_live_items
    with_live_bytes with_dead_items with_dead_bytes]. rewrite C4, C5.
  split; [exact C3|]. split; [lia|]. split; [lia|]. split; apply i32_in_range.
Qed.

Lemma replaced_settles :
  settles true unlinked replaced (if decide (x = y) then debited n0 h else h)
    (if decide (x = y) then debited n0 (filled (size_of mine) h) else filled (size_of mine) h).
Proof.
  destruct (in_unpinned y h in_header) as [Haw _].
  split; try done.
  - exact unlinked_contents.
  - rewrite unlinked_header. destruct (decide (x = y)) as [Exy|Hne].
    + rewrite decide_True by done. by rewrite <- (same_segment Exy).
    + rewrite decide_False by done. split; [exact in_header|done].
  - rewrite replaced_header, created_header. unfold old_filled. destruct (decide (x = y)) as [Exy|Hne].
    + by rewrite decide_True.
    + by rewrite decide_False, decide_True.
  - intros z Hz. rewrite replaced_header, unlinked_header, created_header. unfold old_filled.
    destruct (decide (z = x)) as [Ezx|]; [|by rewrite decide_False]. by rewrite decide_False by congruence.
  - split; [done|]. intros _. apply Hg1. rewrite Z.eqb_refl, <- Ek. apply Hl.
  - intros k' l' Hne. unfold HashProbe.published. rewrite Hg1. change (hashtable unlinked) with t0. rewrite Hg0.
    rewrite (proj2 (Z.eqb_neq _ _)) by done. destruct (l' =? l); [|done]. split; [done|by intros [? [=]]].
  - change (Z.b2z true) with 1. rewrite Z.mul_1_l. exact replaced_counted.
  - split; [|done]. do 2 apply queues_edit. change (same_queues w (edit x pin_remover (fill w))).
    apply queues_edit. exact (queues_fill (hashtable w)).
  - intros z. rewrite replaced_header, created_header. destruct (decide (z = x)) as [Ezx|].
    + rewrite Ezx, old_header. cbn. f_equal. unfold old_filled. case_decide as Exy; [|done].
      rewrite (same_segment Exy). by apply framed_filled.
    + case_decide; [|done]. subst z. rewrite in_header. cbn. by rewrite framed_filled.
Qed.

Lemma replaced_ok :
  cache_ok replaced L appended /\ dropping replaced L /\ contents_of replaced appended k = Some (slot_for y off mine h) /\
  forall k', k' <> k -> contents_of replaced appended k' = contents_of w es k'.
Proof.
  apply (settled_ok integrity hash_key crc32 Hcrc cfg now w L es y h d secs r k v o Hk Hin Hg Ed true unlinked
    replaced _ _ replaced_settles); [| | |done].
  - intros k' l' [f Hf]. change (get_item_frequency t0 k' l' = Some f) in Hf. rewrite Hg0 in Hf.
    destruct (l' =? l); [done|]. by exists f.
  - intros x' off' e' h' Hkp [f Hf]. change (get_item_frequency t0 k (Location.pack_location x' (generation h') off') = Some f) in Hf.
    pose proof (lies_kept _ _ _ _ _ _ _ _ _ _ _ _ Hl) as Hkl. rewrite Ek in Hkl.
    destruct (kept_fun _ _ _ _ _ _ _ _ _ _ _ _ _ _ _ Hk Hkl Hkp) as (-> & -> & -> & ->).
    rewrite Hg0, <- (li_location _ _ _ _ _ _ _ _ _ _ _ _ Hl), Z.eqb_refl in Hf. done.
  - intros k' x' off' e' h' Hne Hkp. unfold HashProbe.published. change (hashtable unlinked) with t0. rewrite Hg0.
    destruct (Z.eqb_spec (Location.pack_location x' (generation h') off') l) as [E|]; [|apply Hkp]. exfalso. apply Hne.
    destruct (kept_here integrity hash_key cfg w L es l x off0 e0 h0 m0 d0 Hk Hl _ _ _ _ _ Hkp E) as (-> & -> & ->).
    rewrite <- (kp_key _ _ _ _ _ _ _ _ _ _ Hkp). exact Ek.
Qed.

Abbreviation d' := (blit off (KvItem.define integrity crc32 k v o (drop (Z.to_nat off) d)) d).

Definition old_data : bytes := if decide (x = y) then d' else d0.

Lemma old_generation : generation (pin_remover old_filled) = generation h0.
Proof. unfold old_filled. case_decide as Exy; [|done]. by rewrite (same_segment Exy). Qed.

Lemma same_data : x = y -> d0 = d.
Proof. intros Exy. pose proof (li_data _ _ _ _ _ _ _ _ _ _ _ _ Hl) as E. rewrite Exy, Ed in E. by injection E. Qed.

Lemma old_stored : stored integrity e0 (drop (Z.to_nat off0) old_data).
Proof.
  pose proof Hl as [X1 X2 X3 X4 X5 X6 X7 X8 X8' X9 X10 X11 X12 X13 X14]. unfold old_data.
  case_decide as Exy; [|done]. destruct in_bytes as (B1 & _). rewrite (same_data Exy) in X11.
  destruct in_seg as (_ & _ & Eb & _ & Eo & _). rewrite Exy in X9. destruct (places_bounds _ _ _ _ X9) as (P1 & P2 & _).
  cbn [fst snd] in *. pose proof (proj1 (first_bounds integrity)). unfold end_of in Eo.
  eapply (stored_outside integrity); [exact X11|exact B1|lia..].
Qed.

Lemma replaced_removable : removable integrity cfg replacing x off0 e0 (pin_remover old_filled) old_data.
Proof.
  pose proof Hl as [X1 X2 X3 X4 X5 X6 X7 X8 X8' X9 X10 X11 X12 X13 X14].
  destruct (c_items _ _ _ _ (ar_contents _ _ _ _ _ (ck_rest _ _ _ _ _ _ Hk)) x X1) as (h2 & d2 & E2 & E3 & Ei & _ & Hs).
  rewrite X2 in E2. injection E2 as <-. rewrite X8 in E3. injection E3 as <-.
  destruct in_bytes as (B1 & _). destruct in_ranges as (R1 & R2 & R3). destruct in_counted as (_ & _ & C3 & C4 & C5 & _).
  destruct in_seg as (_ & _ & Eb & _ & Eo & _). destruct in_room as (M1 & M2 & M3).
  assert (blen old_data = blen d0) as Hb.
  { unfold old_data. case_decide as Exy; [|done]. rewrite (same_data Exy). apply B1. }
  eapply (removable_item integrity cfg replacing x off0 e0 e0 (hashtable w) h0 d0); try done.
  - apply live_some. cbn [fst snd]. unfold location. cbn [header]. by rewrite Ei, <- X7.
  - by rewrite replacing_header, decide_True, old_created.
  - change (datas replacing) with (datas (fill w)). rewrite (filling_data integrity crc32 w y h d k v o Ed). unfold old_data.
    destruct (decide (x = y)) as [Exy|Hne]; [by rewrite decide_True by congruence|]. rewrite decide_False; [done|].
    intros E. apply Hne. destruct in_seg as (Hy & _). by apply idx_inj; [lia|lia|].
  - unfold old_data. case_decide as Exy; [|exact (ok_magic _ _ _ _ _ _ Hs)].
    eapply (check_magic_outside integrity _ _ (mkSegment h0 d0)); [exact (ok_magic _ _ _ _ _ _ Hs)| |].
    + cbn [data]. rewrite (same_data Exy). exact B1.
    + rewrite Eo. unfold end_of. pose proof (total_esize integrity (es y)). pose proof (proj1 (first_bounds integrity)). lia.
  - exact old_stored.
  - exact old_generation.
  - unfold old_filled. case_decide as Exy; [|done].
    change (write_offset (pin_remover (filled (size_of mine) h))) with (write_offset (filled (size_of mine) h)).
    rewrite C3, (same_segment Exy). lia.
  - unfold old_filled. case_decide as Exy; [|cbn; lia].
    change (live_items (pin_remover (filled (size_of mine) h))) with (live_items (filled (size_of mine) h)).
    rewrite C4, (same_segment Exy). lia.
  - unfold old_filled. case_decide as Exy; [|cbn; lia].
    change (live_bytes (pin_remover (filled (size_of mine) h))) with (live_bytes (filled (size_of mine) h)).
    rewrite C5, (same_segment Exy). pow2. lia.
Qed.
End Replaced.
End Filled.
End Insert.
