(* ===== verification/CachePublish.v ===== *)
(** * The loop of [insert]

    The reservation, and its publication by the hashtable, from a consistent
    cache to a consistent cache. *)
From S2P Require Import Prelude Packing Atomics Table TableSpec TableThms HashIface HashSeq HashProbe.
From S2P Require Import KvItem KvItemSpec TtlBuckets Eviction SegState SegHeader SegHeaderSpec Segment SegmentSpec Segments.
From S2P Require Import Segcache HeapRules HeapShape HeapContents HeapDrain HeapClear HeapItems HeapEvict HeapRemove HeapReserve.
From S2P Require Import CacheLookup CacheState CacheDelete CacheSlots CacheReserve CacheAppend CacheInsert.

Section Publish.
Context (integrity debug_assertions : bool) (hash_key crc32 : bytes -> Z) (Hcrc : forall b, fits 32 (crc32 b)).
Context (backoff_completed : nat -> bool) (cfg : Config) (now : Z).

#[local] Hint Extern 0 (Hashtable (Index unit)) => exact (index_hashtable hash_key) : typeclass_instances.
#[local] Hint Extern 0 (LawfulHashtable (Index unit)) => exact (index_lawful hash_key) : typeclass_instances.
#[local] Hint Extern 0 (KeyVerifier Cache (option Pin)) =>
  exact (segments_verifier integrity debug_assertions cfg) : typeclass_instances.

Implicit Types (w : Cache) (L : Layout) (es : Z -> list Entry) (k : bytes) (l : Z).

Abbreviation published := (published hash_key).
Abbreviation first := (first_offset integrity).
Abbreviation size_of := (entry_size integrity).
Abbreviation lies := (lies integrity hash_key cfg).
Abbreviation searchable := (searchable integrity hash_key cfg).
Abbreviation item_at := (CacheLookup.item_at integrity hash_key cfg).
Abbreviation cache_ok := (cache_ok integrity hash_key cfg).
Abbreviation contents_of := (contents_of integrity hash_key cfg).
Abbreviation dropping := (dropping cfg now).
Abbreviation becomes := (becomes integrity hash_key cfg now).
Abbreviation thinner := (thinner integrity hash_key cfg).
Abbreviation thins := (thins integrity hash_key cfg).
Abbreviation granted := (granted cfg).
Abbreviation verify w := (@verify Cache (option Pin) (segments_verifier integrity debug_assertions cfg) w).

(** ** The hashtable *)

Lemma wp_cas_at w k old new c (Q : bool -> Cache -> Prop) :
  index_inv hash_key (hashtable w) -> HashSeq.entry_at hash_key (hashtable w) k old = Some c ->
  item_loc new -> unpublished (hashtable w) new ->
  (forall t, index_inv hash_key t ->
     (forall k' l', get_item_frequency t k' l' =
        if l' =? new then relink_freq Preserve <$> get_item_frequency (hashtable w) k' old
        else if l' =? old then None else get_item_frequency (hashtable w) k' l') ->
     Q true (set_hashtable t w)) ->
  wp (cas_location_at (slot_of hash_key k c) old new true) Q w.
Proof.
  intros Hi Hc Hn Hu HQ.
  destruct (probe_cas_at hash_key (hashtable w) w k old new c Hi Hc) as [E _].
  assert (published (hashtable w) k old) as [f Hf] by (apply published_entry; by exists c).
  destruct (@cas_published _ _ (index_lawful hash_key) (hashtable w) k old new Preserve f Hi Hf Hn Hu) as (t & Et & Hit & Hg).
  eapply wp_intro; [apply with_table_eq; exact E|]. rewrite Et. cbn [snd]. rewrite table_back; [by apply HQ|].
  rewrite cas_entry, Hc in Et. by injection Et as <-.
Qed.

Lemma wp_lookup_slot w es k (Q : Lookup (Z * SlotRef) -> Cache -> Prop) :
  searchable w es ->
  (forall t, similar (hashtable w) t -> (forall l e, item_at w es l e -> e_key e <> k) -> Q Absent (set_hashtable t w)) ->
  (forall t l x off e h m d c, similar (hashtable w) t -> lies w es l x off e h m d -> e_key e = k ->
     HashSeq.entry_at hash_key t k l = Some c -> Q (Found (l, slot_of hash_key k c)) (set_hashtable t w)) ->
  wp (lookup_slot integrity debug_assertions hash_key cfg k) Q w.
Proof.
  intros Hs Hn Hf.
  destruct (probe_lookup_slot (Pin := option Pin) hash_key (hashtable w) w k (se_index _ _ _ _ _ Hs)) as (r & mm & Er & Hsim & Ha).
  unfold lookup_slot. eapply wp_intro; [apply with_table_eq; exact Er|].
  pose proof (lookup_answer _ _ _ _ w es r k Hs Ha) as Hans. destruct r as [hit| |u]; [| |done]; cbn [slot_hit].
  - destruct Hans as (x & off & e & h & m & d & c & Hl & Ek & Ec & ->). cbn [hit_location hit_slot].
    eapply Hf; [done|exact Hl|done|]. by rewrite <- Ec; eapply similar_entry_at.
  - by apply Hn.
Qed.

Lemma wp_table_insert w es k l (Q : option Insert -> Cache -> Prop) :
  searchable w es -> item_loc l -> unpublished (hashtable w) l -> (forall l e, item_at w es l e -> e_key e <> k) ->
  (forall t, index_inv hash_key t -> published t k l ->
     (forall k' l', l' <> l -> published t k' l' <-> published (hashtable w) k' l') -> Q (Some Created) (set_hashtable t w)) ->
  (forall t, similar (hashtable w) t -> Q None (set_hashtable t w)) ->
  wp (table_insert integrity debug_assertions hash_key cfg k l) Q w.
Proof.
  intros Hs Hl Hu Ha HQ HQ'.
  destruct (probe_insert (Pin := option Pin) hash_key (hashtable w) w k l (se_index _ _ _ _ _ Hs) Hl Hu) as (r & m & Er & Hr).
  { intros l' Hp. destruct (se_entry _ _ _ _ _ Hs k l' Hp) as (e & x & off & h & m & d & Hlie).
    rewrite (verify_some _ _ _ _ _ _ _ _ _ _ _ _ _ k true Hlie), bool_decide_eq_false_2; [done|].
    apply (Ha l' e). by exists x, off, h, m, d. }
  unfold table_insert. eapply wp_intro; [apply with_table_eq; exact Er|]. destruct r as [[| |]|]; try done.
  - destruct Hr as (? & ? & ?). by apply HQ.
  - by apply HQ'.
Qed.

(** ** The publication *)

Section Filled.
Context (w : Cache) (L : Layout) (es : Z -> list Entry) (y : Z) (h : SegmentHeader) (d : bytes) (secs : Z) (r : ReservedItem).
Context (k : bytes) (v : Value) (o : bytes).
Abbreviation mine := (new_entry k v o).
Context (Hk : cache_ok w L es) (Hdp : dropping w L) (Hin : insertable k v o) (Hd : drops cfg = true).
Context (Hg : granted w L es y h secs (size_of mine) r) (Ed : datas w !! idx y = Some d).

Abbreviation off := (write_offset h).
Abbreviation a := (Location.pack_location y (generation h) off).
Abbreviation fill := (filling integrity crc32 y off (size_of mine) k v o).
Abbreviation created := (created integrity crc32 w y h k v o).
Abbreviation pin_dead := (pin_dead integrity crc32 w y h k v o).

Lemma granted_chained : y ∈ mjoin (chains L).
Proof. apply Hg. Qed.

Lemma granted_location : location_of r = a.
Proof. by rewrite (gr_item _ _ _ _ _ _ _ _ _ Hg). Qed.

Lemma granted_seg : r_seg r = y /\ r_offset r = off.
Proof. by rewrite (gr_item _ _ _ _ _ _ _ _ _ Hg). Qed.

Lemma granted_unpack : Location.unpack_location a = (y, off) /\ item_loc a.
Proof.
  pose proof (fl_issuable integrity hash_key cfg w L es y h d secs r k v o Hk Hg Ed) as Hi.
  split; [|by apply issuable_item_loc]. by destruct (Location.pack_unpack_location _ _ _ Hi) as (-> & _).
Qed.

(** The segment can be pinned for a removal. *)
Lemma wp_pin_remover x hx w' (Q : bool -> Cache -> Prop) :
  x ∈ mjoin (chains L) -> header_at x w' = Some hx -> metadata hx = metadata (default hx (header_at x w)) ->
  Q true (edit x pin_remover w') -> wp (on x try_pin_remover) Q w'.
Proof.
  intros Hx Eh Em HQ.
  destruct (chained_header integrity cfg w L es x (ck_rest _ _ _ _ _ _ Hk) Hx) as (hw & m & Ew & Em' & _ & Hr).
  rewrite Ew in Em. cbn in Em.
  eapply (wp_edit x _ hx true pin_remover); [exact Eh| |exact HQ]. eapply run_try_pin_remover; [by rewrite Em|done].
Qed.

Lemma wp_drop_reserved w' hy (Q : unit -> Cache -> Prop) :
  header_at y w' = Some hy -> Q tt (edit y release w') -> wp (drop_reserved r) Q w'.
Proof.
  intros Eh HQ. unfold drop_reserved. rewrite (proj1 granted_seg). apply wp_bind.
  eapply (wp_edit y _ hy _ release); [exact Eh|done|]. by apply wp_ret.
Qed.

Lemma fill_header : header_at y (fill w) = Some (granted_header (size_of mine) h).
Proof. by rewrite (filling_header integrity crc32 cfg w L es y h secs r k v o Hg), decide_True. Qed.

Lemma fill_metadata x hx : header_at x w = Some hx ->
  exists hf, header_at x (fill w) = Some hf /\ metadata hf = metadata hx.
Proof.
  intros Ex. rewrite (filling_header integrity crc32 cfg w L es y h secs r k v o Hg).
  case_decide as D; [|by exists hx]. eexists. split; [done|]. subst x. rewrite (gr_header _ _ _ _ _ _ _ _ _ Hg) in Ex.
  by injection Ex as <-.
Qed.

(** The hashtable has no room: the item is left dead. *)
Lemma wp_rollback t (Q : unit -> Cache -> Prop) :
  similar (hashtable w) t -> contents_of w es k = None ->
  (forall w', becomes k None w es w' -> Q tt w') ->
  wp (rollback_reservation integrity debug_assertions hash_key cfg now r a) Q (set_hashtable t (fill w)).
Proof.
  intros Ht Hno HQ. unfold rollback_reservation. apply wp_bind.
  eapply wp_drop_reserved; [exact fill_header|]. change (edit y release (set_hashtable t (fill w))) with (created t).
  rewrite (proj1 granted_unpack).
  destruct (fl_segment integrity hash_key cfg w L es y h d secs r k v o Hk Hg Ed) as (Hy & _).
  rewrite (proj2 (Z.eqb_neq y 0)) by lia. apply wp_bind.
  eapply wp_pin_remover; [exact granted_chained| | |].
  { rewrite (created_header integrity crc32 cfg w L es y h secs r k v o Hg), decide_True by done. done. }
  { by rewrite (gr_header _ _ _ _ _ _ _ _ _ Hg). }
  change (edit y pin_remover (created t)) with (pin_dead t).
  destruct (dead_becomes integrity hash_key crc32 Hcrc cfg now w L es y h d secs r k v o Hk Hdp Hin Hg Ed t Ht Hno)
    as (Hk2 & Hd2 & Hc1 & Hc2).
  eapply wp_remove_unlinked; [exact Hd|eapply dead_removable; done|done|exact Hk2|exact Hd2|exact granted_chained|].
  intros w' L' es' Hk3 Hd3 Hc3. apply HQ. exists L', es'. split; [done|]. split; [done|]. split.
  - by rewrite Hc3.
  - intros k' Hne. rewrite Hc3. auto.
Qed.

(** What follows the exchange with the key's item. *)
Lemma wp_exchanged {A} (z : A) l x off0 e0 h0 m d0 t1 (Q : A -> Cache -> Prop) :
  lies w es l x off0 e0 h0 m d0 -> e_key e0 = k -> index_inv hash_key t1 ->
  (forall k' l', get_item_frequency t1 k' l' =
     if l' =? a then relink_freq Preserve <$> get_item_frequency (hashtable w) k' l
     else if l' =? l then None else get_item_frequency (hashtable w) k' l') ->
  (forall w', becomes k (Some (slot_for y off mine h)) w es w' -> Q z w') ->
  wp (_ ← drop_reserved r; _ ← remove_unlinked integrity debug_assertions hash_key cfg now l x; mret z) Q
    (set_hashtable t1 (edit x pin_remover (fill w))).
Proof.
  intros Hl Ek Hi1 Hg1 HQ. pose proof (c_index _ _ _ _ (ar_contents _ _ _ _ _ (ck_rest _ _ _ _ _ _ Hk))) as Hi.
  pose proof (li_published _ _ _ _ _ _ _ _ _ _ _ _ Hl) as [f Hf].
  destruct (@remove_published _ _ (index_lawful hash_key) (hashtable w) _ l f Hi Hf) as (t0 & _ & Hi0 & Hg0).
  assert (forall k' l', is_Some (get_item_frequency t1 k' l') <->
    if l' =? a then is_Some (get_item_frequency (hashtable w) k' l)
    else if l' =? l then False else is_Some (get_item_frequency (hashtable w) k' l')) as Hs1.
  { intros k' l'. rewrite Hg1. destruct (l' =? a); [apply fmap_is_Some|].
    destruct (l' =? l); [|done]. split; [by intros [? [=]]|done]. }
  apply wp_bind.
  assert (exists hy, header_at y (set_hashtable t1 (edit x pin_remover (fill w))) = Some hy) as [hy Ehy].
  { change (exists hy, header_at y (edit x pin_remover (fill w)) = Some hy). rewrite header_edit, fill_header.
    case_decide; eauto. }
  eapply wp_drop_reserved; [exact Ehy|]. apply wp_bind.
  destruct (replaced_ok integrity hash_key crc32 Hcrc cfg now w L es y h d secs r k v o Hk Hdp Hin Hg Ed
    l x off0 e0 h0 m d0 t0 t1 Hl Ek Hi0 Hi1 Hg0 Hs1) as (Hk2 & Hd2 & Hc1 & Hc2).
  eapply wp_remove_unlinked; [exact Hd|eapply (replaced_removable integrity hash_key crc32 Hcrc cfg w L es y h d secs r k v o); done| |exact Hk2|exact Hd2| |].
  - erewrite (old_generation integrity hash_key cfg w L es y h secs r k v o Hg); [apply Hl|exact Hl].
  - eapply placed_chained; [apply (ck_rest _ _ _ _ _ _ Hk)|apply Hl].
  - intros w' L' es' Hk3 Hd3 Hc3. apply wp_ret, HQ. exists L', es'. split; [done|]. split; [done|]. split.
    + by rewrite Hc3.
    + intros k' Hne. rewrite Hc3. auto.
Qed.

(** The exchange with the key's item. *)
Lemma wp_exchange (m0 : @Segments.M (Index unit) (option (unit + SegcacheError))) l x off0 e0 h0 m d0 c
    (Q : option (unit + SegcacheError) -> Cache -> Prop) :
  lies w es l x off0 e0 h0 m d0 -> e_key e0 = k -> HashSeq.entry_at hash_key (hashtable w) k l = Some c ->
  (forall w', becomes k (Some (slot_for y off mine h)) w es w' -> Q (Some (inl tt)) w') ->
  wp (swapped ← cas_location_at (slot_of hash_key k c) l a true;
      if swapped : bool then
        _ ← drop_reserved r;
        _ ← remove_unlinked integrity debug_assertions hash_key cfg now l x;
        mret (Some (inl tt))
      else m0) Q (edit x pin_remover (fill w)).
Proof.
  intros Hl Ek Hc HQ. pose proof (c_index _ _ _ _ (ar_contents _ _ _ _ _ (ck_rest _ _ _ _ _ _ Hk))) as Hi.
  pose proof (fl_free integrity hash_key cfg w L es y h d secs r k v o Hk Hg Ed) as Hu.
  apply wp_bind. eapply wp_cas_at; [exact Hi|exact Hc|apply granted_unpack|exact Hu|].
  intros t1 Hi1 Hg1. by eapply wp_exchanged.
Qed.
End Filled.

(** The hashtable read, before or after the item was written. *)
Lemma read_becomes w t L es k o w' :
  cache_ok w L es -> similar (hashtable w) t ->
  becomes k o (set_hashtable t w) es w' -> becomes k o w es w'.
Proof.
  intros Hk Ht (L' & es' & B1 & B2 & B3 & B4).
  destruct (read_ok integrity hash_key cfg w (set_hashtable t w) L es Hk) as [_ Hc]; [by exists t|].
  exists L', es'. split; [done|]. split; [done|]. split; [done|]. intros k' Hne. by rewrite B4, Hc.
Qed.

Lemma granted_read w t L es y h secs n r : granted w L es y h secs n r -> granted (set_hashtable t w) L es y h secs n r.
Proof. by intros [? ? ? ? ?]. Qed.

(** The lookup of [publish], on the filled heap. *)
Lemma wp_publish_lookup w L es y h d secs r k v o (Q : Lookup (Z * SlotRef) -> Cache -> Prop) :
  let e := new_entry k v o in
  let fill := filling integrity crc32 y (write_offset h) (size_of e) k v o in
  cache_ok w L es -> insertable k v o -> granted w L es y h secs (size_of e) r -> datas w !! idx y = Some d ->
  (forall w1, read_from w w1 -> searchable (fill w1) es -> (forall l e, item_at (fill w1) es l e -> e_key e <> k) ->
     contents_of w1 es k = None -> Q Absent (fill w1)) ->
  (forall w1 l x off e h m d c, read_from w w1 -> lies w1 es l x off e h m d -> e_key e = k ->
     HashSeq.entry_at hash_key (hashtable w1) k l = Some c -> Q (Found (l, slot_of hash_key k c)) (fill w1)) ->
  wp (lookup_slot integrity debug_assertions hash_key cfg k) Q (fill w).
Proof.
  intros e fill Hk Hin Hg Ed HQ HQ'.
  pose proof (cache_searchable integrity hash_key cfg w L es Hk) as Hs.
  pose proof (filling_alike integrity hash_key crc32 Hcrc cfg w L es y h d secs r k v o Hk Hin Hg Ed) as Ha.
  pose proof (alike_searchable _ _ _ _ _ _ Hs Ha) as Hsf. pose proof (alike_sym _ _ _ _ _ _ Hs Ha) as Ha'.
  eapply wp_lookup_slot; [exact Hsf| |].
  - intros t Ht Hno. change (set_hashtable t (fill w)) with (fill (set_hashtable t w)).
    assert (read_from w (set_hashtable t w)) as Hr by by exists t.
    assert (alike integrity cfg es (fill w) (fill (set_hashtable t w))) as Hrf.
    { eapply read_alike; [exact Hsf|]. by exists t. }
    apply HQ; [done|by eapply alike_searchable| |].
    + intros l e' He'. apply (Hno l e'). eapply alike_item; [|exact He']. by eapply alike_sym.
    + destruct (read_ok integrity hash_key cfg w _ L es Hk Hr) as [_ ->]. eapply absent_none; [exact Hk|].
      intros l e' He'. apply (Hno l e'). by eapply alike_item.
  - intros t l x off0 e0 h1 m1 d1 c Ht Hl Ek Hc. change (set_hashtable t (fill w)) with (fill (set_hashtable t w)).
    assert (read_from w (set_hashtable t w)) as Hr by by exists t.
    destruct (alike_lies _ _ _ _ _ _ _ _ _ _ _ _ _ Ha' Hl) as (h2 & d2 & Hl2 & _).
    destruct (alike_lies _ _ _ _ _ _ _ _ _ _ _ _ _ (read_alike _ _ _ _ _ _ Hs Hr) Hl2) as (h3 & d3 & Hl3 & _).
    by eapply HQ'.
Qed.

Lemma wp_publish laps snoozes w L es y h d secs r k v o (Q : option (unit + SegcacheError) -> Cache -> Prop) :
  let e := new_entry k v o in
  cache_ok w L es -> dropping w L -> insertable k v o -> drops cfg = true ->
  granted w L es y h secs (size_of e) r -> datas w !! idx y = Some d ->
  (forall w', becomes k (Some (slot_for y (write_offset h) e h)) w es w' -> Q (Some (inl tt)) w') ->
  (forall w', contents_of w es k = None -> becomes k None w es w' -> Q (Some (inr HashTableInsertEx)) w') ->
  wp (publish integrity debug_assertions hash_key backoff_completed cfg now (S laps) k r snoozes) Q
    (filling integrity crc32 y (write_offset h) (size_of e) k v o w).
Proof.
  intros e Hk Hdp Hin Hd Hg Ed HQ HQ'. cbn [publish]. rewrite (granted_location w L es y h secs r k v o Hg).
  assert (forall w1, read_from w w1 -> cache_ok w1 L es /\ dropping w1 L /\ granted w1 L es y h secs (size_of e) r /\
    datas w1 !! idx y = Some d /\ (forall o w', becomes k o w1 es w' -> becomes k o w es w') /\
    contents_of w1 es k = contents_of w es k) as Hread.
  { intros w1 Hr. destruct (read_ok integrity hash_key cfg w w1 L es Hk Hr) as [Hk1 Hc1]. destruct Hr as (t & -> & Ht).
    split; [done|]. split; [by eapply (read_dropping cfg now w); [exists t|]|]. split; [by apply granted_read|]. split; [done|].
    split; [|done]. intros o' w'. by eapply read_becomes. }
  apply wp_bind. eapply wp_publish_lookup; [done..| |].
  - intros w1 (Hk1 & Hdp1 & Hg1 & Ed1 & Hb & Ec)%Hread Hs1 Hno Hnone.
    apply wp_bind. destruct (granted_seg w L es y h secs r k v o Hg) as [-> ->].
    destruct (fl_bytes integrity hash_key crc32 Hcrc cfg w1 L es y h d secs r k v o Hk1 Hin Hg1 Ed1) as (_ & _ & _ & Ekey).
    eapply wp_intro.
    { unfold item_bytes. rewrite (filling_data integrity crc32 w1 y h d k v o Ed1), decide_True by done. done. }
    rewrite Ekey. apply wp_bind. eapply wp_table_insert with (es := es); [exact Hs1| | |exact Hno| |].
    + exact (proj2 (granted_unpack w1 L es y h d secs r k v o Hk1 Hg1 Ed1)).
    + exact (fl_free integrity hash_key cfg w1 L es y h d secs r k v o Hk1 Hg1 Ed1).
    + intros t Hi Hp Ho. apply wp_bind.
      eapply (wp_drop_reserved w1); [exact Hg1|exact (fill_header w1 L es y h secs r k v o Hg1)|]. apply wp_ret, HQ, Hb.
      exact (created_becomes integrity hash_key crc32 Hcrc cfg now w1 L es y h d secs r k v o Hk1 Hdp1 Hin Hg1 Ed1 t Hi Hp Ho Hnone).
    + intros t Ht. apply wp_bind. eapply (wp_rollback w1); [done..|]. intros w' Hb'. apply wp_ret, HQ'; [congruence|by apply Hb].
  - intros w1 l x off0 e0 h0 m d0 c (Hk1 & Hdp1 & Hg1 & Ed1 & Hb & Ec)%Hread Hl Ek Hc.
    destruct (Z.eqb_spec l (Location.pack_location y (generation h) (write_offset h))) as [E|_].
    { exfalso. assert (published (hashtable w1) k l) as [f Hf] by (apply published_entry; by exists c).
      pose proof (fl_free integrity hash_key cfg w1 L es y h d secs r k v o Hk1 Hg1 Ed1 k) as Hu. rewrite <- E in Hu.
      change (get_item_frequency (hashtable w1) k l = Some f) in Hf. congruence. }
    rewrite (lies_unpack _ _ _ _ _ _ _ _ _ _ _ _ Hl).
    pose proof (li_range _ _ _ _ _ _ _ _ _ _ _ _ Hl) as Hx. rewrite (proj2 (Z.eqb_neq x 0)) by lia.
    assert (x ∈ mjoin (chains L)) as Hxc.
    { eapply placed_chained; [apply (ck_rest _ _ _ _ _ _ Hk1)|apply Hl]. }
    pose proof (li_header _ _ _ _ _ _ _ _ _ _ _ _ Hl) as Ex. apply wp_bind.
    destruct (fill_metadata w1 L es y h secs r k v o Hg1 x h0 Ex) as (hf & Ef & Emf).
    eapply (wp_pin_remover w1); [done|exact Hxc|exact Ef|by rewrite Ex|]. cbn [negb].
    eapply (wp_exchange w1); [done..|]. intros w' Hb'. by apply HQ, Hb.
Qed.

(** ** The reservation *)

(** What is reserved for an item, and what is left of the cache: a range that
    holds the item, or an error. *)
Inductive reservation w es k v o secs : ReservedItem + SegcacheError -> Cache -> Prop :=
| not_reserved_big : segment_size cfg < size_of (new_entry k v o) ->
    reservation w es k v o secs (inr (Segcache.ItemOversized (size_of (new_entry k v o)))) w
| not_reserved w' L' es' : cache_ok w' L' es' -> dropping w' L' -> thins w es w' es' ->
    reservation w es k v o secs (inr Segcache.NoFreeSegments) w'
| reserved_for r w' L' es' y h d : cache_ok w' L' es' -> dropping w' L' -> thins w es w' es' ->
    thinned hash_key (hashtable w) (hashtable w') ->
    granted w' L' es' y h secs (size_of (new_entry k v o)) r -> datas w' !! idx y = Some d ->
    reservation w es k v o secs (inl r)
      (filling integrity crc32 y (write_offset h) (size_of (new_entry k v o)) k v o w').

Lemma wp_reserve_and_define fuel w L es k v o secs :
  drops cfg = true -> cache_ok w L es -> dropping w L -> (3 < fuel)%nat ->
  segment_size cfg < size_of (new_entry k v o) \/ fits_segment integrity cfg (size_of (new_entry k v o)) ->
  wp (reserve_and_define integrity debug_assertions hash_key crc32 fuel cfg now k v o secs)
    (reservation w es k v o secs) w.
Proof.
  intros Hd Hk Hdp Hfuel Hfit.
  pose proof (c_index _ _ _ _ (ar_contents _ _ _ _ _ (ck_rest _ _ _ _ _ _ Hk))) as Hi.
  set (R := fun (a : ReservedItem + SegcacheError) w' =>
    thinned hash_key (hashtable w) (hashtable w') -> reservation w es k v o secs a w').
  assert (wp (reserve_and_define integrity debug_assertions hash_key crc32 fuel cfg now k v o secs) R w) as HR.
  { assert (0 < size_of (new_entry k v o)) as Hsz by (pose proof (entry_size_bound integrity (new_entry k v o)); lia).
    assert (wp (route integrity debug_assertions hash_key cfg now (hash_key k))
      (fun pool w' => pool = Main /\ w' = w) w) as Hroute.
    { unfold route. unfold drops in Hd. destruct (Segments.policy cfg); try done; by apply wp_ret. }
    unfold reserve_and_define. apply wp_bind. eapply wp_mono; [exact Hroute|]. intros ? ? [-> ->].
    eapply wp_reserve_retry; [done|exact Hk|exact Hdp|exact Hsz|exact Hfit|unfold RESERVE_RETRIES; lia|left; exact Hfuel|..].
    - intros Hbig _. by apply not_reserved_big.
    - intros w' L' es' _ Hk' Hd' Hth _. by eapply not_reserved.
    - intros r w0 L0 es0 y h _ Hk0 Hd0 Hth Hg Htt.
      pose proof (header_range _ _ _ _ _ _ (ar_shape _ _ _ _ _ (ck_rest _ _ _ _ _ _ Hk0)) (gr_header _ _ _ _ _ _ _ _ _ Hg)) as Hy.
      destruct (c_items _ _ _ _ (ar_contents _ _ _ _ _ (ck_rest _ _ _ _ _ _ Hk0)) y Hy) as (h2 & d & _ & Ed & _).
      by eapply reserved_for. }
  eapply wp_mono.
  - eapply (wp_keeps (thinned hash_key (hashtable w))); [by apply keeps_reserve_and_define|by apply thinned_refl|exact HR].
  - intros a w' [Ht Hr]. by apply Hr.
Qed.

(** ** [insert] *)

(** When the item is over: with the segment, which may be older than the item. *)
Definition deadline_within (secs : Z) (t : option Z) : Prop :=
  match t with
  | Some t => t <= now + floor (get_bucket_index secs)
  | None => False
  end.

Lemma granted_deadline w L es y h secs size r :
  dropping w L -> granted w L es y h secs size r -> deadline_within secs (deadline h).
Proof.
  intros Hd [G1 G2 _ _ G5]. pose proof (dp_created _ _ _ _ Hd y h G1 G2). unfold deadline_within, deadline.
  rewrite <- G5, (proj2 (Z.eqb_neq _ _)); [lia|]. rewrite G5. unfold floor. lia.
Qed.

Lemma wp_insert fuel w L es k v (o : option bytes) secs (Q : unit + SegcacheError -> Cache -> Prop) :
  let e := new_entry k v (default [] o) in
  drops cfg = true -> cache_ok w L es -> dropping w L -> insertable k v (default [] o) ->
  segment_size cfg < size_of e \/ fits_segment integrity cfg (size_of e) ->
  (segment_size cfg < size_of e -> Q (inr (Segcache.ItemOversized (size_of e))) w) ->
  (forall w' L' es', cache_ok w' L' es' -> dropping w' L' -> thinner w es w' es' ->
     Q (inr Segcache.NoFreeSegments) w') ->
  (forall w' L' es', cache_ok w' L' es' -> dropping w' L' -> thinner w es w' es' -> contents_of w' es' k = None ->
     Q (inr HashTableInsertEx) w') ->
  (forall w' L' es' t token, cache_ok w' L' es' -> dropping w' L' -> deadline_within (coarse_ttl secs) t ->
     contents_of w' es' k = Some (mkSlot v (default [] o) t token) ->
     (forall k', k' <> k -> contents_of w' es' k' = contents_of w es k' \/ contents_of w' es' k' = None) ->
     Q (inl tt) w') ->
  wp (insert integrity debug_assertions hash_key crc32 backoff_completed (S (S (S (S fuel)))) cfg now k v o secs) Q w.
Proof.
  intros e Hd Hk Hdp Hin Hfit Hov Hnone Hfull Hok. unfold insert. cbn [insert_loop]. apply wp_bind.
  eapply wp_mono; [eapply wp_reserve_and_define; [done|exact Hk|exact Hdp|lia|exact Hfit]|].
  intros ? ? [Hbig|w' L' es' Hk' Hd' Hth|r w0 L0 es0 y h d Hk0 Hd0 Hth _ Hg Ed].
  - apply wp_ret. by apply Hov.
  - apply (thins_thinner _ _ _ _ _ _ _ _ _ Hk Hk') in Hth. apply wp_ret. by eapply Hnone.
  - apply (thins_thinner _ _ _ _ _ _ _ _ _ Hk Hk0) in Hth. apply wp_bind.
    eapply wp_publish; [exact Hk0|exact Hd0|exact Hin|exact Hd|exact Hg|exact Ed|..].
    + intros w' (L' & es' & B1 & B2 & B3 & B4). apply wp_ret. eapply Hok; [done..| |exact B3|].
      * exact (granted_deadline w0 L0 es0 y h _ _ r Hd0 Hg).
      * intros k' Hne. rewrite B4 by done. apply Hth.
    + intros w' Hno (L' & es' & B1 & B2 & B3 & B4). apply wp_ret. eapply Hfull; [done..| |done].
      intros k'. destruct (decide (k' = k)) as [->|Hne]; [by right|]. rewrite B4 by done. apply Hth.
Qed.
End Publish.
