(* ===== verification/CacheCas.v ===== *)
(** * Compare and swap

    [cas] and [try_into_numeric] of [Segcache]: an item is reserved, which may
    evict the item it is meant for, and then exchanged with it if it is still
    there and its token is the one expected. *)
From S2P Require Import Prelude Packing Atomics Table TableSpec TableThms HashIface HashSeq HashProbe.
From S2P Require Import KvItem KvItemSpec TtlBuckets Eviction SegState SegHeader SegHeaderSpec Segment SegmentSpec Segments.
From S2P Require Import Segcache HeapRules HeapShape HeapContents HeapDrain HeapClear HeapItems HeapEvict HeapRemove HeapReserve.
From S2P Require Import CacheLookup CacheState CacheDelete CacheNumeric CacheSlots CacheReserve CacheAppend CacheInsert CachePublish.

(** ** The version lock *)

(** Locked and unlocked again, an item is as it was. *)
Lemma lock_restored integrity e n raw :
  entry_ok e -> stored integrity e raw -> e_value e = U64 n -> exists locked,
    lock_numeric_version integrity raw = NumericOk (e_version e, locked) /\ blen locked = blen raw /\
    guard_drop integrity (e_version e) locked = raw.
Proof.
  intros He Hs Ev. pose proof (entry_args _ He) as Ha.
  assert (is_u64 (e_value e) = true) as Hu by by rewrite Ev.
  pose proof (value_start_bound integrity (e_key e) (e_value e) (e_optional e)) as [V1 V2].
  pose proof (blen_nonneg (e_key e)). pose proof (blen_nonneg (e_optional e)).
  pose proof (holds_room _ _ _ _ _ _ _ Hs) as Hr. unfold stored_end in Hr. rewrite Ev in Hr.
  set (locked := set_version_word integrity (u64 (e_version e + 1)) raw).
  assert (value_offset integrity locked = value_offset integrity raw) as Eo.
  { pose proof Ha as [A1 A2 A3]. rewrite Ev in A3.
    assert (holds integrity (e_key e) (U64 n) (e_optional e) (u64 (e_version e + 1)) (e_deleted e) locked) as Hl.
    { apply (holds_set_version integrity _ _ A1 A2 n (e_version e)); [done| |by apply wrap_fits].
      unfold stored in Hs. by rewrite Ev in Hs. }
    rewrite Ev in Ha. rewrite (holds_value_offset _ _ _ _ _ _ _ Ha Hl).
    unfold stored in Hs. rewrite Ev in Hs. by rewrite (holds_value_offset _ _ _ _ _ _ _ Ha Hs). }
  pose proof (holds_value_offset _ _ _ _ _ _ _ Ha Hs) as Eo'. rewrite Ev in Eo', V1.
  exists locked. split; [|split].
  - unfold lock_numeric_version. rewrite (holds_numeric _ _ _ _ _ _ _ Ha Hs), Hu. cbn [negb].
    by rewrite (holds_version_word _ _ _ _ _ _ _ Ha Hs Hu), (entry_even _ He).
  - unfold locked, set_version_word, set_uint. rewrite Eo'. apply blen_blit; rewrite ?blen_le_bytes; lia.
  - transitivity (set_version_word integrity (e_version e) raw); [|by apply (set_version_same integrity e)].
    unfold guard_drop.
    unfold set_version_word, set_uint. rewrite Eo. unfold locked, set_version_word, set_uint. rewrite Eo'.
    apply blit_blit; rewrite ?length_le_bytes, ?blen_le_bytes; lia || done.
Qed.

Section Cas.
Context (integrity debug_assertions : bool) (hash_key crc32 : bytes -> Z) (Hcrc : forall b, fits 32 (crc32 b)).
Context (backoff_completed : nat -> bool) (cfg : Config) (now : Z).

#[local] Hint Extern 0 (Hashtable (Index unit)) => exact (index_hashtable hash_key) : typeclass_instances.
#[local] Hint Extern 0 (LawfulHashtable (Index unit)) => exact (index_lawful hash_key) : typeclass_instances.

Implicit Types (w : Cache) (x off l : Z) (e : Entry) (L : Layout) (es : Z -> list Entry) (k : bytes).

Abbreviation published := (published hash_key).
Abbreviation first := (first_offset integrity).
Abbreviation size_of := (entry_size integrity).
Abbreviation at_rest := (at_rest integrity cfg).
Abbreviation lies := (lies integrity hash_key cfg).
Abbreviation kept := (kept integrity hash_key cfg).
Abbreviation searchable := (searchable integrity hash_key cfg).
Abbreviation cache_ok := (cache_ok integrity hash_key cfg).
Abbreviation contents_of := (contents_of integrity hash_key cfg).
Abbreviation dropping := (dropping cfg now).
Abbreviation becomes := (becomes integrity hash_key cfg now).
Abbreviation thins := (thins integrity hash_key cfg).
Abbreviation thinned := (thinned hash_key).
Abbreviation granted := (granted cfg).
Abbreviation entry_at := (HashSeq.entry_at hash_key).

(** ** The slot, after a reservation *)

(** Of an item that was found, a reservation leaves the entry in its slot and
    the item where it is, or nothing of its key. *)
Lemma still_there w w' L L' es es' l x off e h m d k c :
  cache_ok w L es -> cache_ok w' L' es' -> thins w es w' es' -> thinned (hashtable w) (hashtable w') ->
  lies w es l x off e h m d -> e_key e = k -> entry_at (hashtable w) k l = Some c ->
  (exists h' m' d', lies w' es' l x off e h' m' d' /\ dated h' = dated h /\ entry_at (hashtable w') k l = Some c) \/
  (entry_at (hashtable w') k l = None /\ contents_of w' es' k = None).
Proof.
  intros Hk Hk' Hth Htt Hl <- Hc. destruct (entry_at (hashtable w') (e_key e) l) as [c'|] eqn:Ec.
  - left. pose proof (th_entry _ _ _ Htt _ _ _ Ec) as Ec'. rewrite Hc in Ec'. injection Ec' as <-.
    destruct (se_entry _ _ _ _ _ (cache_searchable integrity hash_key cfg w' L' es' Hk') (e_key e) l) as (e' & x' & off' & h' & m' & d' & Hl').
    { apply published_entry. by exists c. }
    pose proof (lies_unpack _ _ _ _ _ _ _ _ _ _ _ _ Hl') as Eu. rewrite (lies_unpack _ _ _ _ _ _ _ _ _ _ _ _ Hl) in Eu.
    injection Eu as <- <-.
    destruct (Hth _ _ _ _ _ (lies_kept _ _ _ _ _ _ _ _ _ _ _ _ Hl')) as (h0 & Hkp & Ed).
    assert (h0 = h) as ->.
    { pose proof (kp_header _ _ _ _ _ _ _ _ _ _ Hkp) as E0. rewrite (li_header _ _ _ _ _ _ _ _ _ _ _ _ Hl) in E0. by injection E0. }
    assert ((off, e') = (off, e)) as E; [|injection E as ->; by exists h', m', d'].
    eapply places_same_offset; [apply Hkp|apply Hl|done].
  - right. split; [done|]. apply (contents_none integrity hash_key cfg w' L'); [done|]. intros y off' e' h' Hkp.
    destruct (Hth _ _ _ _ _ Hkp) as (h0 & Hkp0 & Ed).
    destruct (kept_fun _ _ _ _ _ _ _ _ _ _ _ _ _ _ _ Hk (lies_kept _ _ _ _ _ _ _ _ _ _ _ _ Hl) Hkp0) as (-> & -> & -> & ->).
    pose proof (kp_published _ _ _ _ _ _ _ _ _ _ Hkp) as Hp. unfold dated in Ed. injection Ed as Eg _ _.
    rewrite <- Eg, <- (li_location _ _ _ _ _ _ _ _ _ _ _ _ Hl) in Hp. apply published_entry in Hp as [c' Hc']. congruence.
Qed.

(** The slot of an entry that is gone does not take a new one. *)
Lemma wp_cas_gone w t k old new c (Q : bool -> Cache -> Prop) :
  index_inv hash_key t -> entry_at t k old = Some c -> thinned t (hashtable w) -> entry_at (hashtable w) k old = None ->
  Q false w -> wp (cas_location_at (slot_of hash_key k c) old new true) Q w.
Proof.
  intros Hi Hc [_ Ht _] Hn HQ. destruct (slot_back hash_key t k old c Hi Hc) as [E1 E2].
  assert (is_entry (key_tag hash_key k) old (word (hashtable w) c) = false) as En.
  { apply not_true_is_false. intros E. unfold HashSeq.entry_at in Hn. apply List.find_none with (x := c) in Hn; [by rewrite E in Hn|].
    rewrite Ht. apply list_elem_of_In. by apply (entry_at_spec hash_key t k old c). }
  assert (run (Table.cas_location_at (slot_of hash_key k c) old new true) (lift_index w (hashtable w)) =
    Some (false, lift_index w (hashtable w))) as Er.
  { unfold Table.cas_location_at, run. rewrite E1, E2, (seq_cas_loop (lift_index w (hashtable w)) c.1 c.2).
    change (slot (lift_index w (hashtable w)) c.1 c.2) with (word (hashtable w) c). unfold is_entry in En.
    change (slot_tag (slot_of hash_key k c)) with (key_tag hash_key k).
    destruct (_ || Hashbucket.is_ghost _); [done|].
    cbn [orb] in En. revert En. by destruct (negb _ || negb _). }
  eapply wp_intro; [apply with_table_eq; exact Er|by rewrite set_hashtable_same].
Qed.

(** ** The replacement *)

Lemma rest_header w L es x : at_rest w L es -> 1 <= x <= cap cfg ->
  exists h m, header_at x w = Some h /\ unpack (metadata h) = Some m.
Proof.
  intros Hr Hx. pose proof (ar_shape _ _ _ _ _ Hr) as Hs.
  assert (x ∈ accounted w L) as Ha by (rewrite (sh_ids _ _ _ _ Hs), in_ids; lia).
  unfold accounted in Ha. rewrite app_assoc, !(elem_of_app _ _ x), (ar_held _ _ _ _ _ Hr) in Ha.
  rewrite <- elem_of_app in Ha. destruct Ha as [Ha|[Ha|[Ha|Ha]]].
  - destruct (sh_idle _ _ _ _ Hs x Ha) as (h & m & ? & ? & _). by exists h, m.
  - destruct (chained_header integrity cfg w L es x Hr Ha) as (h & m & ? & ? & _). by exists h, m.
  - by apply not_elem_of_nil in Ha.
  - destruct (sh_waiting _ _ _ _ Hs x Ha) as [(h & m & ? & ? & _) _]. by exists h, m.
Qed.

Lemma wp_try_pin w x h m (Q : bool -> Cache -> Prop) :
  header_at x w = Some h -> unpack (metadata h) = Some m -> Q true (edit x pin_remover w) -> Q false w ->
  wp (on x try_pin_remover) Q w.
Proof.
  intros Eh Em HQ HQ'. destruct (state_is_removable (state m)) eqn:Es.
  - eapply (wp_edit x _ h true pin_remover); [done|by eapply run_try_pin_remover|done].
  - eapply wp_look; [done| |done]. apply seq_run_run. unfold try_pin_remover.
    eapply seq_bind; [by apply seq_load_metadata|]. rewrite Es. apply seq_ret.
Qed.

Lemma unpin_pin h : active_removers h = 0 -> unpin_remover (pin_remover h) = h.
Proof. destruct h. cbn. by intros ->. Qed.

Lemma wp_release_remover {A} (m : @Segments.M (Index unit) A) w x h (Q : A -> Cache -> Prop) :
  header_at x w = Some h -> active_removers h = 0 -> wp m Q w ->
  wp (_ ← on x release_remover; m) Q (edit x pin_remover w).
Proof.
  intros Eh Er HQ. apply wp_bind. eapply (wp_edit x _ (pin_remover h) _ unpin_remover).
  - by rewrite header_edit, decide_True, Eh.
  - done.
  - rewrite edit_edit, edit_id; [exact HQ|]. intros h' Eh'. rewrite Eh in Eh'. injection Eh' as <-. by apply unpin_pin.
Qed.

Lemma wp_resolve_any w l x off h (Q : option (Z * Z) -> Cache -> Prop) :
  Location.unpack_location l = (x, off) -> 1 <= x <= cap cfg -> header_at x w = Some h ->
  Q None w -> Q (Some (x, off)) w -> wp (resolve cfg l) Q w.
Proof.
  intros Eu Hx Eh HQ HQ'. unfold resolve. rewrite Eu, (proj2 (Z.eqb_neq x 0)), (proj2 (Z.ltb_ge _ _)) by lia.
  apply wp_bind. eapply wp_field; [exact Eh|]. apply wp_ret. by destruct (tag_matches_header l h).
Qed.

(** *** The gate *)

Lemma set_datas_same w : set_datas (datas w) w = w.
Proof. by destruct w. Qed.

(** What stands between the pin of the item and the exchange of its entry. *)
Definition gate k l (old : Pin) (token : option Z) : @Segments.M (Index unit) (option (option Z)) :=
  match token with
  | None => mret (Some None)
  | Some expected =>
      f ← item_frequency hash_key k l;
      if bool_decide (f = None) then mret None else verify_token integrity old l expected
  end.

(** It opens for the token of the item, which is locked meanwhile if it is
    numeric, and restored after the exchange. *)
Lemma wp_gate w es l x off e h m d k token (Q : option (option Z) -> Cache -> Prop) :
  lies w es l x off e h m d -> e_key e = k -> token = None \/ token = Some (token_of e l (generation h)) ->
  (forall version w1, hashtable w1 = hashtable w ->
     (forall t (Q' : unit -> Cache -> Prop), Q' tt (set_hashtable t w) ->
        wp (drop_version integrity (mkPin x off) version) Q' (set_hashtable t w1)) ->
     Q (Some version) w1) ->
  wp (gate k l (mkPin x off) token) Q w.
Proof.
  intros Hl Ek Ht HQ. pose proof Hl as [X1 X2 X3 X4 X5 X6 X7 X8 X8' X9 X10 X11 X12 X13 X14].
  destruct Ht as [->| ->]; [by apply wp_ret, HQ|]. cbn [gate].
  apply wp_bind, wp_item_frequency. rewrite <- Ek.
  destruct X14 as [f Hf]. change (get_item_frequency (hashtable w) (e_key e) l = Some f) in Hf. rewrite Hf.
  rewrite bool_decide_eq_false_2 by done. unfold verify_token. cbn [pin_seg].
  apply wp_bind. eapply wp_raw_at; [exact X8|]. apply wp_bind. unfold generation_of. eapply wp_field; [exact X2|].
  unfold token_of. destruct (value_cases e) as [[n Ev]|[b Ev]]; rewrite Ev.
  2:{ assert (lock_numeric_version integrity (drop (Z.to_nat off) d) = NotNumericError) as ->.
      { unfold lock_numeric_version. by rewrite (holds_numeric _ _ _ _ _ _ _ (entry_args _ X10) X11), Ev. }
      rewrite Z.eqb_refl. by apply wp_ret, HQ. }
  destruct (lock_restored integrity e n (drop (Z.to_nat off) d) X10 X11 Ev) as (locked & -> & Hlen & Hback).
  apply wp_bind. unfold write_raw. apply wp_modify. rewrite Z.eqb_refl. apply wp_ret, HQ; [done|].
  intros t Q' HQ'. cbn [drop_version pin_seg pin_offset].
  destruct (places_bounds _ _ _ _ X9) as (P1 & _). cbn [fst snd] in P1. pose proof (proj1 (first_bounds integrity)) as F0.
  pose proof (entry_size_bound integrity e) as (Z1 & Z2 & Z3 & _).
  assert (blen (drop (Z.to_nat off) d) = blen d - off) as Edl by (apply blen_drop; lia).
  apply wp_bind. eapply wp_raw_at.
  { cbn [datas set_datas set_hashtable]. by rewrite list_lookup_alter_eq, X8. }
  change (drop (Z.to_nat off) (blit off locked d)) with (Segment.item_at (Segment.write_at off locked (mkSegment h d)) off).
  rewrite item_at_write_at by (cbn [data]; lia). rewrite Hback. unfold write_raw. apply wp_modify. cbn [pin_seg pin_offset].
  change (set_hashtable t (set_datas (alter (blit off locked) (idx x) (datas w)) w)) with
    (set_datas (alter (blit off locked) (idx x) (datas (set_hashtable t w))) (set_hashtable t w)).
  rewrite (two_writes (set_hashtable t w) x off locked _ d); [|done|lia|lia|congruence].
  pose proof (write_at_restore (mkSegment h d) off locked ltac:(lia)) as Hw. cbn [data] in Hw.
  unfold Segment.write_at, Segment.item_at in Hw. cbn [data header] in Hw.
  rewrite blit_blit in Hw by (unfold blen in *; lia). injection (Hw ltac:(lia)) as ->.
  rewrite list_insert_id by done. by rewrite set_datas_same.
Qed.

Section Replace.
Context (w : Cache) (L : Layout) (es : Z -> list Entry) (y : Z) (h : SegmentHeader) (d : bytes) (secs : Z) (r : ReservedItem).
Context (k : bytes) (v : Value) (o : bytes).
Abbreviation mine := (new_entry k v o).
Context (Hk : cache_ok w L es) (Hdp : dropping w L) (Hin : insertable k v o) (Hd : drops cfg = true).
Context (Hg : granted w L es y h secs (size_of mine) r) (Ed : datas w !! idx y = Some d).

Abbreviation a := (Location.pack_location y (generation h) (write_offset h)).
Abbreviation fill := (filling integrity crc32 y (write_offset h) (size_of mine) k v o).

Lemma replace_index : index_inv hash_key (hashtable w).
Proof. apply (c_index _ _ _ _ (ar_contents _ _ _ _ _ (ck_rest _ _ _ _ _ _ Hk))). Qed.

Lemma fill_unpinned x : 1 <= x <= cap cfg ->
  exists hf m, header_at x (fill w) = Some hf /\ unpack (metadata hf) = Some m /\ active_removers hf = 0.
Proof.
  intros Hx. destruct (rest_header w L es x (ck_rest _ _ _ _ _ _ Hk) Hx) as (h0 & m & E0 & Em).
  destruct (ar_unpinned _ _ _ _ _ (ck_rest _ _ _ _ _ _ Hk) x h0 E0) as [_ Er].
  rewrite (filling_header integrity crc32 cfg w L es y h secs r k v o Hg). case_decide as D; [|by exists h0, m].
  subst x. rewrite (gr_header _ _ _ _ _ _ _ _ _ Hg) in E0. injection E0 as <-. by exists (granted_header (size_of mine) h), m.
Qed.

Lemma wp_give_up (Q : unit + SegcacheError -> Cache -> Prop) :
  contents_of w es k = None -> (forall w', becomes k None w es w' -> Q (inr Exists) w') ->
  wp (_ ← rollback_reservation integrity debug_assertions hash_key cfg now r (location_of r); mret (inr Exists)) Q (fill w).
Proof.
  intros Hno HQ. apply wp_bind. erewrite granted_location by exact Hg.
  change (fill w) with (set_hashtable (hashtable w) (fill w)).
  by eapply (wp_rollback integrity debug_assertions hash_key crc32 Hcrc cfg now w L es y h d secs r k v o).
Qed.

(** Nothing of the key is left: the item that was to replace it is dropped. *)
Lemma wp_replace_gone fuel l x off c t token (Q : unit + SegcacheError -> Cache -> Prop) :
  Location.unpack_location l = (x, off) -> 1 <= x <= cap cfg ->
  index_inv hash_key t -> entry_at t k l = Some c -> thinned t (hashtable w) ->
  entry_at (hashtable w) k l = None -> contents_of w es k = None ->
  (forall w', becomes k None w es w' -> Q (inr Exists) w') ->
  wp (replace_at integrity debug_assertions hash_key backoff_completed (S fuel) cfg now k l (slot_of hash_key k c) r token) Q (fill w).
Proof.
  intros Eu Hx Hit Hc Htt Hn Hno HQ. destruct (fill_unpinned x Hx) as (hf & m & Eh & Em & Er).
  assert (get_item_frequency (hashtable (fill w)) k l = None) as Hf by (by apply get_none).
  pose proof (wp_give_up Q Hno HQ) as Hend.
  unfold replace_at. rewrite Eu, (proj2 (Z.eqb_neq x 0)) by lia. cbn [replace_loop].
  apply wp_bind. eapply wp_try_pin; [exact Eh|exact Em|..]; cbn [negb].
  2: { apply wp_bind. eapply wp_item_frequency. rewrite Hf, bool_decide_eq_true_2 by done. exact Hend. }
  assert (header_at x (edit x pin_remover (fill w)) = Some (pin_remover hf)) as Eh1 by (by rewrite header_edit, decide_True, Eh).
  assert (get_item_frequency (hashtable (edit x pin_remover (fill w))) k l = None) as Hf1 by exact Hf.
  apply wp_bind. eapply wp_resolve_any; [exact Eu|exact Hx|exact Eh1|..].
  { by eapply wp_release_remover. }
  destruct token as [token|]; apply wp_bind.
  - apply wp_bind. eapply wp_item_frequency. rewrite Hf1, bool_decide_eq_true_2 by done. apply wp_ret.
    by eapply wp_release_remover.
  - apply wp_ret, wp_bind. eapply (wp_cas_gone _ t); [done..|]. apply wp_bind, wp_ret.
    eapply wp_release_remover; [exact Eh|exact Er|]. apply wp_bind. eapply wp_item_frequency.
    rewrite Hf, bool_decide_eq_true_2 by done. exact Hend.
Qed.

(** The item is still there: it is exchanged for the new one. *)
Lemma wp_replace_there fuel l x off e hx m dx c token (Q : unit + SegcacheError -> Cache -> Prop) :
  lies w es l x off e hx m dx -> e_key e = k -> entry_at (hashtable w) k l = Some c ->
  token = None \/ token = Some (token_of e l (generation hx)) ->
  (forall w', becomes k (Some (slot_for y (write_offset h) mine h)) w es w' -> Q (inl tt) w') ->
  wp (replace_at integrity debug_assertions hash_key backoff_completed (S fuel) cfg now k l (slot_of hash_key k c) r token) Q (fill w).
Proof.
  intros Hl Ek Hc Ht HQ. pose proof (cache_searchable integrity hash_key cfg w L es Hk) as Hs.
  destruct (alike_lies _ _ _ _ _ _ _ _ _ _ _ _ _
    (filling_alike integrity hash_key crc32 Hcrc cfg w L es y h d secs r k v o Hk Hin Hg Ed) Hl) as (hf & df & Hlf & Esf).
  unfold sight in Esf. injection Esf as Emf Egf.
  pose proof (li_range _ _ _ _ _ _ _ _ _ _ _ _ Hl) as Hx. destruct (fill_unpinned x Hx) as (hf' & mf & Eh & Em & Er).
  assert (hf' = hf) as -> by (rewrite (li_header _ _ _ _ _ _ _ _ _ _ _ _ Hlf) in Eh; by injection Eh).
  assert (lies (edit x pin_remover (fill w)) es l x off e (pin_remover hf) m df) as Hlp.
  { destruct Hlf as [X1 X2 X3 X4 X5 X6 X7 X8 X8' X9 X10 X11 X12 X13 X14]. split; try done.
    by rewrite header_edit, decide_True, X2. }
  assert (x ∈ mjoin (chains L)) as Hxc by (eapply placed_chained; [apply (ck_rest _ _ _ _ _ _ Hk)|apply Hl]).
  unfold replace_at. rewrite (lies_unpack _ _ _ _ _ _ _ _ _ _ _ _ Hl), (proj2 (Z.eqb_neq x 0)) by lia. cbn [replace_loop].
  apply wp_bind. eapply (wp_pin_remover integrity hash_key cfg w L es); [exact Hk|exact Hxc|exact Eh| |cbn [negb]].
  { rewrite (li_header _ _ _ _ _ _ _ _ _ _ _ _ Hl). cbn.
    exact Emf. }
  apply wp_bind. eapply wp_resolve; [exact Hx|apply Hlp|apply Hlp|apply Hlp|done|].
  change (match token with
          | None => mret (Some None)
          | Some expected =>
              f ← item_frequency hash_key k l;
              if bool_decide (f = None) then mret None else verify_token integrity (mkPin x off) l expected
          end) with (gate k l (mkPin x off) token).
  apply wp_bind. eapply wp_gate; [exact Hlp|exact Ek| |].
  { destruct Ht as [->| ->]; [by left|right]. change (generation (pin_remover hf)) with (generation hf). by rewrite Egf. }
  intros version w1 E1 Hdrop. erewrite granted_location by exact Hg.
  assert (hashtable w1 = hashtable w) as E1' by exact E1.
  apply wp_bind. eapply wp_cas_at; [rewrite E1'; exact replace_index|rewrite E1'; exact Hc| | |].
  { by eapply granted_unpack. }
  { rewrite E1'. by eapply (fl_free integrity hash_key cfg w L es y h d secs r k v o). }
  intros t1 Hi1 Hg1. rewrite E1' in Hg1. apply wp_bind. apply Hdrop.
  by eapply (wp_exchanged integrity debug_assertions hash_key crc32 Hcrc cfg now w L es y h d secs r k v o).
Qed.
End Replace.

(** Whatever a reservation left of the item, on the reserved range. *)
Lemma wp_replace_at fuel w w' L L' es es' l x off e hx m dx c y h d secs r k v o token
    (Q : unit + SegcacheError -> Cache -> Prop) :
  cache_ok w L es -> lies w es l x off e hx m dx -> e_key e = k -> entry_at (hashtable w) k l = Some c ->
  token = None \/ token = Some (token_of e l (generation hx)) ->
  cache_ok w' L' es' -> dropping w' L' -> insertable k v o -> drops cfg = true ->
  thins w es w' es' -> thinned (hashtable w) (hashtable w') ->
  granted w' L' es' y h secs (size_of (new_entry k v o)) r -> datas w' !! idx y = Some d ->
  (forall w2, becomes k (Some (slot_for y (write_offset h) (new_entry k v o) h)) w' es' w2 -> Q (inl tt) w2) ->
  (forall w2, contents_of w' es' k = None -> becomes k None w' es' w2 -> Q (inr Exists) w2) ->
  wp (replace_at integrity debug_assertions hash_key backoff_completed (S fuel) cfg now k l (slot_of hash_key k c) r token) Q
    (filling integrity crc32 y (write_offset h) (size_of (new_entry k v o)) k v o w').
Proof.
  intros Hk Hl Ek Hc Ht Hk' Hdp Hin Hd Hth Htt Hg Ed HQ HQ'.
  pose proof (c_index _ _ _ _ (ar_contents _ _ _ _ _ (ck_rest _ _ _ _ _ _ Hk))) as Hi.
  destruct (still_there w w' L L' es es' l x off e hx m dx k c Hk Hk' Hth Htt Hl Ek Hc) as [(h' & m' & d' & Hl' & Ehd & Hc')|[Hn Hno]].
  - eapply wp_replace_there; [done..| |exact HQ].
    destruct Ht as [->| ->]; [by left|right]. unfold dated in Ehd. by injection Ehd as -> _ _.
  - eapply wp_replace_gone; [done..|by eapply lies_unpack|apply Hl|exact Hi|exact Hc|exact Htt|exact Hn|exact Hno|].
    intros w2. by apply HQ'.
Qed.

(** ** [cas] *)

(** The lookup of [cas]: no live item, or its location, slot and token. *)
Lemma wp_cas_lookup fuel w es k (Q : Z * SlotRef * Z + SegcacheError -> Cache -> Prop) :
  searchable w es ->
  (forall w1, read_from w w1 -> (forall l x off e h m d, lies w es l x off e h m d -> e_key e = k -> expired_hd now h = true) ->
     Q (inr NotFound) w1) ->
  (forall w1 l x off e h m d c, read_from w w1 -> lies w es l x off e h m d -> lies w1 es l x off e h m d -> e_key e = k ->
     entry_at (hashtable w1) k l = Some c -> expired_hd now h = false ->
     Q (inl (l, slot_of hash_key k c, token_of e l (generation h))) w1) ->
  wp (cas_lookup integrity debug_assertions hash_key cfg now (S fuel) k 0) Q w.
Proof.
  intros Hs Hno Hyes. cbn [cas_lookup]. apply wp_bind. eapply wp_lookup_hit; [exact Hs|..].
  { intros w1 Hr Ha. apply wp_ret, Hno; [done|]. intros l x off e h m d Hl Ek. exfalso.
    apply (Ha l e); [|done]. by exists x, off, h, m, d. }
  intros w1 l x off e h m d hit Hh.
  pose proof (hits_parts _ _ _ _ _ _ _ _ _ _ _ _ _ _ _ Hs Hh) as (Hs1 & Hl1 & _ & Hl2 & Hs2).
  pose proof Hh as (Hr & Hl & Ek & c & Ec & ->). cbn [hit_location hit_slot hit_pin].
  rewrite (lies_unpack _ _ _ _ _ _ _ _ _ _ _ _ Hl). pose proof (li_range _ _ _ _ _ _ _ _ _ _ _ _ Hl) as Hx.
  rewrite (proj2 (Z.eqb_neq x 0)) by lia.
  apply wp_bind. eapply wp_remaining_ttl; [apply Hl2|]. change (expired_hd now (add_ref h)) with (expired_hd now h).
  destruct (expired_hd now h) eqn:Ex.
  { apply wp_bind. eapply wp_unpin; [apply Hl1..|]. apply wp_ret, Hno; [done|]. intros l' x' off' e' h' m' d' Hl' Ek'.
    assert (l' = l) as ->.
    { apply (se_unique _ _ _ _ _ Hs) with (e := e') (e' := e); [by exists x', off', h', m', d'|by exists x, off, h, m, d|congruence]. }
    destruct (lies_fun _ _ _ _ _ _ _ _ _ _ _ _ _ _ _ _ _ _ Hl Hl') as (_ & _ & _ & -> & _). done. }
  apply wp_bind. eapply wp_slot_publishes; [apply Hs2|exact Ec|]. rewrite Z.eqb_refl. cbn [negb].
  apply wp_bind. eapply wp_raw_at; [apply Hl2|]. apply wp_bind. unfold generation_of. eapply wp_field; [apply Hl2|].
  apply wp_bind. eapply wp_unpin; [apply Hl1..|]. rewrite (stored_token integrity e) by apply Hl2.
  apply wp_ret. change (generation (add_ref h)) with (generation h). by eapply Hyes.
Qed.

(** A reservation for an item that was found, and its exchange with it: the new
    item in its place, or the item was evicted, or there is no room. *)
Inductive swaps w L es k v o secs : unit + SegcacheError -> Cache -> Prop :=
| swapped_big : segment_size cfg < size_of (new_entry k v o) ->
    swaps w L es k v o secs (inr (Segcache.ItemOversized (size_of (new_entry k v o)))) w
| swapped_none w' L' es' : cache_ok w' L' es' -> dropping w' L' -> thinner integrity hash_key cfg w es w' es' ->
    swaps w L es k v o secs (inr Segcache.NoFreeSegments) w'
| swapped_gone w' L' es' : cache_ok w' L' es' -> dropping w' L' -> thinner integrity hash_key cfg w es w' es' ->
    contents_of w' es' k = None -> swaps w L es k v o secs (inr Exists) w'
| swapped w' L' es' t token : cache_ok w' L' es' -> dropping w' L' -> deadline_within now secs t ->
    contents_of w' es' k = Some (mkSlot v o t token) ->
    (forall k', k' <> k -> contents_of w' es' k' = contents_of w es k' \/ contents_of w' es' k' = None) ->
    swaps w L es k v o secs (inl tt) w'.

Lemma wp_swap fuel w L es l x off e h m d c k v o secs token :
  drops cfg = true -> cache_ok w L es -> dropping w L -> insertable k v o ->
  segment_size cfg < size_of (new_entry k v o) \/ fits_segment integrity cfg (size_of (new_entry k v o)) ->
  lies w es l x off e h m d -> e_key e = k -> entry_at (hashtable w) k l = Some c ->
  token = None \/ token = Some (token_of e l (generation h)) ->
  wp (r ← reserve_and_define integrity debug_assertions hash_key crc32 (S (S (S (S fuel)))) cfg now k v o secs;
      match r with
      | inr e => mret (inr e)
      | inl reserved =>
          replace_at integrity debug_assertions hash_key backoff_completed (S (S (S (S fuel)))) cfg now k l
            (slot_of hash_key k c) reserved token
      end) (swaps w L es k v o secs) w.
Proof.
  intros Hd Hk Hdp Hin Hfit Hl Ek Hc Ht. apply wp_bind.
  eapply wp_mono; [eapply wp_reserve_and_define; [done|exact Hk|exact Hdp|lia|exact Hfit]|].
  intros ? ? [Hbig|w' L' es' Hk' Hd' Hth|r w0 L0 es0 y h0 d0 Hk0 Hd0 Hth Htt Hg Ed].
  - by apply wp_ret, swapped_big.
  - apply wp_ret. eapply swapped_none; [done..|]. by eapply thins_thinner.
  - pose proof (thins_thinner _ _ _ _ _ _ _ _ _ Hk Hk0 Hth) as Hth'.
    eapply (wp_replace_at _ w w0 L L0); [done..|exact Hg|exact Ed| |].
    + intros w2 (L2 & es2 & B1 & B2 & B3 & B4). eapply swapped; [done..| |exact B3|].
      * exact (granted_deadline cfg now w0 L0 es0 y h0 _ _ r Hd0 Hg).
      * intros k' Hne. rewrite B4 by done. apply Hth'.
    + intros w2 Hno (L2 & es2 & B1 & B2 & B3 & B4). eapply swapped_gone; [done..| |done].
      intros k'. destruct (decide (k' = k)) as [->|Hne]; [by right|]. rewrite B4 by done. apply Hth'.
Qed.

(** ** [try_into_numeric] *)

(** The lookup of [try_into_numeric]. *)
Lemma wp_numeric_lookup fuel w es k (Q : Conversion -> Cache -> Prop) :
  searchable w es ->
  (forall w1, read_from w w1 -> (forall l e, CacheLookup.item_at integrity hash_key cfg w es l e -> e_key e <> k) -> Q Create w1) ->
  (forall w1 l x off e h m d c, read_from w w1 -> lies w es l x off e h m d -> lies w1 es l x off e h m d -> e_key e = k ->
     entry_at (hashtable w1) k l = Some c ->
     Q (match e_value e with
        | U64 _ => Settled (inl tt)
        | Bytes b =>
            match parse_simple_numeric b with
            | None => Settled (inr NotNumeric)
            | Some n => if expired_hd now h then Settled (inr NotFound)
                        else Convert l (slot_of hash_key k c) n (e_optional e) (remaining_hd now h)
            end
        end) w1) ->
  wp (numeric_lookup integrity debug_assertions hash_key cfg now (S fuel) k 0) Q w.
Proof.
  intros Hs Hno Hyes. cbn [numeric_lookup]. apply wp_bind. eapply wp_lookup_hit; [exact Hs|..].
  { intros w1 Hr Ha. by apply wp_ret, Hno. }
  intros w1 l x off e h m d hit Hh.
  pose proof (hits_parts _ _ _ _ _ _ _ _ _ _ _ _ _ _ _ Hs Hh) as (Hs1 & Hl1 & _ & Hl2 & Hs2).
  pose proof Hh as (Hr & Hl & Ek & c & Ec & ->). cbn [hit_location hit_slot hit_pin].
  rewrite (lies_unpack _ _ _ _ _ _ _ _ _ _ _ _ Hl). pose proof (li_range _ _ _ _ _ _ _ _ _ _ _ _ Hl) as Hx.
  rewrite (proj2 (Z.eqb_neq x 0)) by lia.
  apply wp_bind. eapply wp_slot_publishes; [apply Hs2|exact Ec|]. rewrite Z.eqb_refl. cbn [negb].
  apply wp_bind. eapply wp_raw_at; [apply Hl2|].
  specialize (Hyes w1 l x off e h m d c Hr Hl Hl1 Ek Ec).
  pose proof (entry_args _ (li_ok _ _ _ _ _ _ _ _ _ _ _ _ Hl2)) as Ha. pose proof (li_stored _ _ _ _ _ _ _ _ _ _ _ _ Hl2) as Hst.
  assert (read_value integrity (drop (Z.to_nat off) d) = Some (e_value e)) as Ev.
  { rewrite (holds_read_value _ _ _ _ _ _ _ Ha Hst), (entry_even _ (li_ok _ _ _ _ _ _ _ _ _ _ _ _ Hl2)). by destruct (e_value e). }
  pose proof (holds_read_optional _ _ _ _ _ _ _ Ha Hst) as Eopt. clear Ha Hst.
  unfold convertible. do 2 apply wp_bind. eapply wp_lift; [exact Ev|].
  destruct (e_value e) as [b|n].
  2:{ apply wp_ret, wp_bind. eapply wp_unpin; [apply Hl1..|]. by apply wp_ret. }
  destruct (parse_simple_numeric b) as [n|].
  2:{ apply wp_ret, wp_bind. eapply wp_unpin; [apply Hl1..|]. by apply wp_ret. }
  apply wp_bind. eapply wp_remaining_ttl; [apply Hl2|]. change (expired_hd now (add_ref h)) with (expired_hd now h).
  change (remaining_hd now (add_ref h)) with (remaining_hd now h).
  cbn [hit_location hit_slot]. rewrite Eopt.
  apply wp_ret, wp_bind. eapply wp_unpin; [apply Hl1..|]. apply wp_ret. destruct (expired_hd now h); [exact Hyes|].
  destruct (Z.ltb_spec 0 (blen (e_optional e))) as [|Hz]; [exact Hyes|].
  destruct (e_optional e); [exact Hyes|]. unfold blen in Hz. cbn in Hz. lia.
Qed.
End Cas.
