(* ===== verification/CacheOps.v ===== *)
(** * The cache and its clients

    The operations of [Segcache] as one step each, and what a client may see of
    them: [allowed] is the map of keys to slots that forgets keys when it has to
    make room, and never makes one up. *)
From S2P Require Import Prelude Packing Atomics Table TableSpec TableThms HashIface HashSeq HashProbe.
From S2P Require Import KvItem KvItemSpec TtlBuckets Eviction SegState SegHeader SegHeaderSpec Segment SegmentSpec Segments.
From S2P Require Import Segcache HeapRules HeapShape HeapContents HeapDrain HeapClear HeapItems HeapEvict HeapRemove HeapReserve.
From S2P Require Import CacheLookup CacheState CacheDelete CacheNumeric CacheReserve CacheAppend CacheInsert CachePublish CacheCas.

(** ** Operations *)

Inductive Op :=
| Get (k : bytes)
| Insert (k : bytes) (v : Value) (o : option bytes) (secs : Z)
| Cas (k : bytes) (v : Value) (o : option bytes) (secs token : Z)
| Delete (k : bytes)
| TryIntoNumeric (k : bytes) (initial secs : Z)
| WrappingAdd (k : bytes) (rhs : Z)
| SaturatingSub (k : bytes) (rhs : Z)
| Expire
| Clear.

(** What a reader gets: the value, the optional data and the token. *)
Inductive Result :=
| Got (r : option (Value * option bytes * Z))
| Stored (r : unit + SegcacheError)
| Deleted (r : bool)
| Number (r : Z + SegcacheError)
| Count (n : Z).

(** ** The map *)

Definition Map : Type := bytes -> option Slot.
Implicit Types (m : Map) (k : bytes) (s : Slot).

Definition some_optional (o : bytes) : option bytes := if 0 <? blen o then Some o else None.

Definition shown s : Value * option bytes := (sl_value s, some_optional (sl_optional s)).
Definition seen s : Value * option bytes * Z := (shown s, sl_token s).

Section Allowed.
Context (now : Z).

(** What is not over. *)
Definition alive m k : option Slot := s ← m k; if expired_slot now s then None else Some s.

Definition same m m' : Prop := forall k, m' k = m k.
Definition forgets m m' : Prop := forall k, m' k = m k \/ m' k = None.
Definition same_but k m m' : Prop := forall k', k' <> k -> m' k' = m k'.
Definition forgets_but k m m' : Prop := forall k', k' <> k -> m' k' = m k' \/ m' k' = None.

(** How long a slot has left; 0 stands for ever. *)
Definition remaining s : Z :=
  match sl_deadline s with
  | Some t => t - now
  | None => 0
  end.

(** In-place arithmetic on the number of a key. *)
Inductive calculated (op : Z -> Z) k m : Z + SegcacheError -> Map -> Prop :=
| number s n token m' : alive m k = Some s -> sl_value s = U64 n ->
    m' k = Some (mkSlot (U64 (op n)) (sl_optional s) (sl_deadline s) token) -> token <> sl_token s ->
    same_but k m m' -> calculated op k m (inl (op n)) m'
| not_a_number s b m' : alive m k = Some s -> sl_value s = Bytes b -> same m m' ->
    calculated op k m (inr NotNumeric) m'
| no_number m' : alive m k = None -> same m m' -> calculated op k m (inr NotFound) m'.

Context (size : bytes -> Value -> bytes -> Z).

(** An item under a key, whatever the key had. *)
Inductive inserted k v o secs m : unit + SegcacheError -> Map -> Prop :=
| stored t token m' : m' k = Some (mkSlot v o t token) -> deadline_within now secs t ->
    forgets_but k m m' -> inserted k v o secs m (inl tt) m'
| oversized m' : same m m' -> inserted k v o secs m (inr (ItemOversized (size k v o))) m'
| no_segments m' : forgets m m' -> inserted k v o secs m (inr NoFreeSegments) m'
| no_slots m' : m' k = None -> forgets m m' -> inserted k v o secs m (inr HashTableInsertEx) m'.

(** An item in the place of the one a key has, unless making room takes it. *)
Inductive exchanged k v o secs m : unit + SegcacheError -> Map -> Prop :=
| exchange t token m' : m' k = Some (mkSlot v o t token) -> deadline_within now secs t ->
    forgets_but k m m' -> exchanged k v o secs m (inl tt) m'
| exchange_oversized m' : same m m' -> exchanged k v o secs m (inr (ItemOversized (size k v o))) m'
| exchange_no_segments m' : forgets m m' -> exchanged k v o secs m (inr NoFreeSegments) m'
| exchange_lost m' : m' k = None -> forgets m m' -> exchanged k v o secs m (inr Exists) m'.

(** A number under a key, or text that reads as one made a number. *)
Inductive converted k initial secs m : unit + SegcacheError -> Map -> Prop :=
| converts_nothing r m' : m k = None -> inserted k (U64 initial) [] (coarse_ttl secs) m r m' ->
    converted k initial secs m r m'
| converts_number s n m' : m k = Some s -> sl_value s = U64 n -> same m m' -> converted k initial secs m (inl tt) m'
| converts_other s b m' : m k = Some s -> sl_value s = Bytes b -> parse_simple_numeric b = None -> same m m' ->
    converted k initial secs m (inr NotNumeric) m'
| converts_expired s b n m' : m k = Some s -> alive m k = None -> sl_value s = Bytes b -> parse_simple_numeric b = Some n ->
    same m m' -> converted k initial secs m (inr NotFound) m'
| converts_text s b n r m' : alive m k = Some s -> sl_value s = Bytes b -> parse_simple_numeric b = Some n ->
    exchanged k (U64 n) (sl_optional s) (remaining s) m r m' -> converted k initial secs m r m'.

Inductive allowed m : Op -> Result -> Map -> Prop :=
| got k m' : same m m' -> allowed m (Get k) (Got (seen <$> alive m k)) m'
| inserts k v o secs r m' : inserted k v (default [] o) (coarse_ttl secs) m r m' ->
    allowed m (Insert k v o secs) (Stored r) m'
| cas_current k v o secs s r m' : alive m k = Some s -> exchanged k v (default [] o) (coarse_ttl secs) m r m' ->
    allowed m (Cas k v o secs (sl_token s)) (Stored r) m'
| cas_stale k v o secs token s m' : alive m k = Some s -> token <> sl_token s -> same m m' ->
    allowed m (Cas k v o secs token) (Stored (inr Exists)) m'
| cas_missing k v o secs token m' : alive m k = None -> same m m' ->
    allowed m (Cas k v o secs token) (Stored (inr NotFound)) m'
| deleted k m' : is_Some (alive m k) -> m' k = None -> same_but k m m' -> allowed m (Delete k) (Deleted true) m'
| nothing_deleted k m' : alive m k = None -> same m m' -> allowed m (Delete k) (Deleted false) m'
| converts k initial secs r m' : converted k initial secs m r m' -> allowed m (TryIntoNumeric k initial secs) (Stored r) m'
| added k rhs r m' : calculated (fun n => u64 (n + rhs)) k m r m' -> allowed m (WrappingAdd k rhs) (Number r) m'
| subtracted k rhs r m' : calculated (fun n => sat_sub n rhs) k m r m' -> allowed m (SaturatingSub k rhs) (Number r) m'
| expired n m' : (forall k, m' k = m k \/ m' k = None /\ alive m k = None) -> allowed m Expire (Count n) m'
| cleared n m' : (forall k, m' k = None) -> allowed m Clear (Count n) m'.
End Allowed.

Section Ops.
Context (integrity debug_assertions : bool) (hash_key crc32 : bytes -> Z) (Hcrc : forall b, fits 32 (crc32 b)).
Context (backoff_completed : nat -> bool) (cfg : Config) (now : Z).

#[local] Hint Extern 0 (Hashtable (Index unit)) => exact (index_hashtable hash_key) : typeclass_instances.
#[local] Hint Extern 0 (LawfulHashtable (Index unit)) => exact (index_lawful hash_key) : typeclass_instances.

Implicit Types (w : Cache) (L : Layout) (es : Z -> list Entry).

Abbreviation size_of := (entry_size integrity).
Abbreviation lies := (lies integrity hash_key cfg).
Abbreviation cache_ok := (cache_ok integrity hash_key cfg).
Abbreviation contents_of := (contents_of integrity hash_key cfg).
Abbreviation dropping := (dropping cfg now).
Abbreviation M := (@Segments.M (Index unit)).

Section Perform.
Context (fuel : nat).

(** A client that reads an item and drops it. *)
Definition read_item (i : Item) : M (Value * option bytes * Z) :=
  v ← item_value integrity i;
  o ← item_optional integrity i;
  _ ← drop_item integrity i;
  mret (v, o, item_cas i).

Definition get_and_read k : M (option (Value * option bytes * Z)) :=
  i ← get integrity debug_assertions hash_key fuel cfg now k;
  match i with
  | Some i => r ← read_item i; mret (Some r)
  | None => mret None
  end.

Definition perform (op : Op) : M Result :=
  match op with
  | Get k => r ← get_and_read k; mret (Got r)
  | Insert k v o secs =>
      r ← insert integrity debug_assertions hash_key crc32 backoff_completed fuel cfg now k v o secs; mret (Stored r)
  | Cas k v o secs token =>
      r ← cas integrity debug_assertions hash_key crc32 backoff_completed fuel cfg now k v o secs token; mret (Stored r)
  | TryIntoNumeric k initial secs =>
      r ← try_into_numeric integrity debug_assertions hash_key crc32 backoff_completed fuel cfg now k initial secs; mret (Stored r)
  | Delete k => r ← delete integrity debug_assertions hash_key fuel cfg now k; mret (Deleted r)
  | WrappingAdd k rhs =>
      r ← wrapping_add integrity debug_assertions hash_key crc32 fuel cfg now k rhs; mret (Number r)
  | SaturatingSub k rhs =>
      r ← saturating_sub integrity debug_assertions hash_key crc32 fuel cfg now k rhs; mret (Number r)
  | Expire => n ← expire integrity debug_assertions hash_key cfg now; mret (Count n)
  | Clear => n ← clear integrity debug_assertions hash_key cfg now; mret (Count n)
  end.

End Perform.

(** The size of an item. *)
Definition size_for k (v : Value) o : Z := size_of (new_entry k v o).

(** What may be asked: an item is one the API takes, and its size is none of the
    few that are above what a segment holds and below the segment size. *)
Definition storable (size : Z) : Prop := segment_size cfg < size \/ fits_segment integrity cfg size.

Definition asked (op : Op) : Prop :=
  match op with
  | Insert k v o _ | Cas k v o _ _ => insertable k v (default [] o) /\ storable (size_for k v (default [] o))
  | TryIntoNumeric k initial _ => insertable k (U64 initial) [] /\
      forall n o, blen o <= 63 -> storable (size_for k (U64 n) o)
  | SaturatingSub _ rhs => 0 <= rhs
  | _ => True
  end.

(** ** One operation *)

Definition stepped (op : Op) w es (r : Result) w' : Prop :=
  exists L' es', cache_ok w' L' es' /\ dropping w' L' /\
    allowed now size_for (contents_of w es) op r (contents_of w' es').

Lemma becomes_stepped op w es r w' k o :
  becomes integrity hash_key cfg now k o w es w' ->
  (forall m', m' k = o -> same_but k (contents_of w es) m' -> allowed now size_for (contents_of w es) op r m') ->
  stepped op w es r w'.
Proof. intros (L' & es' & B1 & B2 & B3 & B4) Ha. exists L', es'. auto. Qed.

Lemma same_from k m m' : m' k = m k -> same_but k m m' -> same m m'.
Proof. intros E Ho k'. destruct (decide (k' = k)) as [->|]; auto. Qed.

Lemma alive_none m k :
  m k = None \/ (exists s, m k = Some s /\ expired_slot now s = true) -> alive now m k = None.
Proof. unfold alive. intros [->|(s & -> & E)]; [done|]. cbn. by rewrite E. Qed.

Lemma alive_some m k s : m k = Some s -> expired_slot now s = false -> alive now m k = Some s.
Proof. unfold alive. intros -> E. cbn. by rewrite E. Qed.

(** What the lookup's answers say of the map. *)
Lemma none_alive w L es k :
  cache_ok w L es -> (forall l x off e h mt d, lies w es l x off e h mt d -> e_key e = k -> expired_hd now h = true) ->
  alive now (contents_of w es) k = None.
Proof.
  intros Hk Ha. apply alive_none. destruct (contents_of w es k) as [s|] eqn:E; [|by left]. right. exists s. split; [done|].
  apply (contents_some integrity hash_key cfg w L es) in E as (x & off & e & h & Hkp & ->); [|done].
  destruct (kept_lies _ _ _ _ _ _ _ _ _ _ _ Hk Hkp) as (m & d & Hl). rewrite expired_slot_for.
  eapply Ha; [exact Hl|apply Hkp].
Qed.

Lemma hit_alive w L es l x off e h mt d :
  cache_ok w L es -> lies w es l x off e h mt d -> expired_hd now h = false ->
  alive now (contents_of w es) (e_key e) = Some (slot_for x off e h).
Proof.
  intros Hk Hl Ex. apply alive_some; [by eapply lies_contents|]. by rewrite expired_slot_for.
Qed.

Lemma slot_token w es l x off e h mt d :
  lies w es l x off e h mt d -> sl_token (slot_for x off e h) = token_of e l (generation h).
Proof. intros Hl. cbn. by rewrite <- (li_location _ _ _ _ _ _ _ _ _ _ _ _ Hl). Qed.

Lemma wp_perform_get w L es k fuel :
  cache_ok w L es -> dropping w L -> wp (perform (S fuel) (Get k)) (stepped (Get k) w es) w.
Proof.
  intros Hk Hd. pose proof (cache_searchable integrity hash_key cfg w L es Hk) as Hs.
  assert (forall w1, read_from w w1 -> forall r, r = seen <$> alive now (contents_of w es) k -> stepped (Get k) w es (Got r) w1) as Hdone.
  { intros w1 Hr r ->. destruct (becomes_read integrity hash_key cfg now w w1 L es k Hk Hd Hr) as (L' & es' & B1 & B2 & B3 & B4).
    exists L', es'. split; [done|]. split; [done|]. constructor. by eapply same_from. }
  cbn [perform]. apply wp_bind. unfold get_and_read, get. apply wp_bind. eapply wp_get; [exact Hs|..].
  - intros w1 Hr Ha. do 2 apply wp_ret. apply Hdone; [done|].
    by erewrite none_alive.
  - intros w1 l x off e h m d hit Hh Ex.
    pose proof (hits_parts _ _ _ _ _ _ _ _ _ _ _ _ _ _ _ Hs Hh) as (Hs1 & Hl1 & _ & Hl2 & Hs2).
    pose proof Hh as (Hr & Hl & Ek & _). unfold read_item.
    destruct (wp_item_reads _ _ _ _ _ _ _ _ _ _ _ _ (token_of e l (generation h)) Hl2) as (_ & Hv & Ho).
    do 2 apply wp_bind. eapply wp_mono; [exact Hv|]. intros ? ? [-> ->].
    apply wp_bind. eapply wp_mono; [exact Ho|]. intros ? ? [-> ->].
    apply wp_bind. unfold drop_item. cbn [item_pin]. eapply wp_unpin; [apply Hl1..|].
    do 3 apply wp_ret. apply Hdone; [done|].
    rewrite <- Ek. erewrite hit_alive by done. cbn [fmap option_fmap option_map]. unfold seen. by erewrite slot_token.
Qed.

(** A cache in a state that maps keys as [m] does. *)
Definition left_in (rel : Map -> unit + SegcacheError -> Map -> Prop) m (r : unit + SegcacheError) w' : Prop :=
  exists L' es', cache_ok w' L' es' /\ dropping w' L' /\ rel m r (contents_of w' es').

Lemma wp_inserts w1 L es m k v (o : option bytes) secs fuel :
  drops cfg = true -> cache_ok w1 L es -> dropping w1 L -> same m (contents_of w1 es) ->
  insertable k v (default [] o) -> storable (size_for k v (default [] o)) ->
  wp (insert integrity debug_assertions hash_key crc32 backoff_completed (S (S (S (S fuel)))) cfg now k v o secs)
    (left_in (inserted now size_for k v (default [] o) (coarse_ttl secs)) m) w1.
Proof.
  intros Hdr Hk Hd Hm Hin Hfit. unfold left_in.
  eapply (wp_insert integrity debug_assertions hash_key crc32 Hcrc); [done|exact Hk|exact Hd|exact Hin|exact Hfit|..].
  - intros _. exists L, es. split; [done|]. split; [done|]. by apply oversized.
  - intros w' L' es' Hk' Hd' Hth. exists L', es'. split; [done|]. split; [done|]. constructor.
    intros k'. rewrite <- Hm. apply Hth.
  - intros w' L' es' Hk' Hd' Hth Hno. exists L', es'. split; [done|]. split; [done|]. constructor; [done|].
    intros k'. rewrite <- Hm. apply Hth.
  - intros w' L' es' t token Hk' Hd' Ht Hc Hth. exists L', es'. split; [done|]. split; [done|].
    econstructor; [done..|]. intros k' Hne. rewrite <- Hm. by apply Hth.
Qed.

Lemma swaps_exchanged w1 L es m k v o secs r w' :
  cache_ok w1 L es -> dropping w1 L -> same m (contents_of w1 es) ->
  swaps integrity hash_key cfg now w1 L es k v o secs r w' ->
  left_in (exchanged now size_for k v o secs) m r w'.
Proof.
  intros Hk Hd Hm [Hbig|w2 L' es' Hk' Hd' Hth|w2 L' es' Hk' Hd' Hth Hno|w2 L' es' t token Hk' Hd' Ht Hc Hth].
  - exists L, es. split; [done|]. split; [done|]. by apply exchange_oversized.
  - exists L', es'. split; [done|]. split; [done|]. constructor. intros k'. rewrite <- Hm. apply Hth.
  - exists L', es'. split; [done|]. split; [done|]. constructor; [done|]. intros k'. rewrite <- Hm. apply Hth.
  - exists L', es'. split; [done|]. split; [done|]. econstructor; [done..|]. intros k' Hne. rewrite <- Hm. by apply Hth.
Qed.

Lemma left_stepped (rel : Map -> unit + SegcacheError -> Map -> Prop) op w es r w' :
  left_in rel (contents_of w es) r w' ->
  (forall m', rel (contents_of w es) r m' -> allowed now size_for (contents_of w es) op (Stored r) m') ->
  stepped op w es (Stored r) w'.
Proof. intros (L' & es' & Hk & Hd & Hr) Ha. exists L', es'. auto. Qed.

Lemma wp_perform_insert w L es k v o secs fuel :
  drops cfg = true -> cache_ok w L es -> dropping w L -> asked (Insert k v o secs) ->
  wp (perform (S (S (S (S fuel)))) (Insert k v o secs)) (stepped (Insert k v o secs) w es) w.
Proof.
  intros Hdr Hk Hd [Hin Hfit]. cbn [perform]. apply wp_bind.
  eapply wp_mono; [by eapply (wp_inserts w L es (contents_of w es))|].
  intros r w' Hl. apply wp_ret. eapply left_stepped; [exact Hl|]. intros m'. by constructor.
Qed.

(** The map when the hashtable was read. *)
Lemma read_same w w1 L es : cache_ok w L es -> read_from w w1 ->
  cache_ok w1 L es /\ same (contents_of w es) (contents_of w1 es).
Proof. intros Hk Hr. by destruct (read_ok integrity hash_key cfg w w1 L es Hk Hr). Qed.

Lemma wp_perform_cas w L es k v o secs token fuel :
  drops cfg = true -> cache_ok w L es -> dropping w L -> asked (Cas k v o secs token) ->
  wp (perform (S (S (S (S fuel)))) (Cas k v o secs token)) (stepped (Cas k v o secs token) w es) w.
Proof.
  intros Hdr Hk Hd [Hin Hfit]. pose proof (cache_searchable integrity hash_key cfg w L es Hk) as Hs.
  cbn [perform]. apply wp_bind. unfold cas. apply wp_bind. eapply wp_cas_lookup; [exact Hs|..].
  - intros w1 Hr Ha. do 2 apply wp_ret. eapply (becomes_stepped _ _ _ _ _ k); [by eapply becomes_read|]. intros m' E Ho.
    apply cas_missing; [by eapply none_alive|by eapply same_from].
  - intros w1 l x off e h m d c Hr Hl Hl1 Ek Hc Ex.
    assert (alive now (contents_of w es) k = Some (slot_for x off e h)) as Ha by (rewrite <- Ek; by eapply hit_alive).
    pose proof (slot_token _ _ _ _ _ _ _ _ _ Hl) as Etok.
    destruct (Z.eqb_spec (token_of e l (generation h)) token) as [<-|Hne]; cbn [negb].
    2:{ do 2 apply wp_ret. eapply (becomes_stepped _ _ _ _ _ k); [by eapply becomes_read|]. intros m' E Ho.
        eapply cas_stale; [exact Ha|congruence|by eapply same_from]. }
    destruct (read_same w w1 L es Hk Hr) as [Hk1 Hm]. pose proof (read_dropping cfg now w w1 L Hr Hd) as Hd1.
    eapply wp_mono; [eapply (wp_swap integrity debug_assertions hash_key crc32 Hcrc backoff_completed cfg now fuel w1 L es);
      [exact Hdr|exact Hk1|exact Hd1|exact Hin|exact Hfit|exact Hl1|exact Ek|exact Hc|by right]|].
    intros r w' Hsw. apply wp_ret. eapply left_stepped; [by eapply swaps_exchanged|].
    intros m' Hx. rewrite <- Etok. apply (cas_current now size_for _ k v o secs _ r m' Ha Hx).
Qed.

(** The optional data of an item are bytes. *)
Lemma optional_bytes w L es l x off e h mt d :
  cache_ok w L es -> lies w es l x off e h mt d -> Forall is_byte (e_optional e).
Proof.
  intros Hk Hl.
  destruct (c_items _ _ _ _ (ar_contents _ _ _ _ _ (ck_rest _ _ _ _ _ _ Hk)) x (li_range _ _ _ _ _ _ _ _ _ _ _ _ Hl))
    as (h2 & d2 & _ & Ed2 & _ & _ & Hs).
  pose proof (li_data _ _ _ _ _ _ _ _ _ _ _ _ Hl) as Ed. rewrite Ed in Ed2. injection Ed2 as <-.
  pose proof (ok_bytes _ _ _ _ _ _ Hs) as Hb. cbn [data] in Hb.
  rewrite <- (holds_optional _ _ _ _ _ _ _ (li_stored _ _ _ _ _ _ _ _ _ _ _ _ Hl)).
  unfold slice. by apply Forall_take, Forall_drop, Forall_drop.
Qed.

Lemma wp_perform_convert w L es k initial secs fuel :
  drops cfg = true -> cache_ok w L es -> dropping w L -> asked (TryIntoNumeric k initial secs) ->
  wp (perform (S (S (S (S fuel)))) (TryIntoNumeric k initial secs)) (stepped (TryIntoNumeric k initial secs) w es) w.
Proof.
  intros Hdr Hk Hd [Hin Hfit]. pose proof (cache_searchable integrity hash_key cfg w L es Hk) as Hs.
  cbn [perform]. apply wp_bind. unfold try_into_numeric. apply wp_bind. eapply wp_numeric_lookup; [exact Hs|..].
  - intros w1 Hr Ha. destruct (read_same w w1 L es Hk Hr) as [Hk1 Hm]. pose proof (read_dropping cfg now w w1 L Hr Hd) as Hd1.
    eapply wp_mono; [eapply (wp_inserts w1 L es (contents_of w es)); try done|].
    { apply Hfit. by cbn. }
    intros r w' Hl. apply wp_ret. eapply left_stepped; [exact Hl|]. intros m' Hi. constructor.
    eapply converts_nothing; [by eapply absent_none|exact Hi].
  - intros w1 l x off e h m d c Hr Hl Hl1 Ek Hc.
    pose proof (lies_contents integrity hash_key cfg w L es l x off e h m d Hk Hl) as Ec. rewrite Ek in Ec.
    pose proof (expired_slot_for now x off e h) as Ex.
    assert (forall r, (forall m', same (contents_of w es) m' -> converted now size_for k initial secs (contents_of w es) r m') ->
      stepped (TryIntoNumeric k initial secs) w es (Stored r) w1) as Hsettled.
    { intros r Hr'. eapply (becomes_stepped _ _ _ _ _ k); [by eapply becomes_read|]. intros m' E Ho. constructor. apply Hr'.
      by eapply same_from. }
    destruct (e_value e) as [b|n] eqn:Ev.
    2:{ do 2 apply wp_ret. apply Hsettled. intros m'. by eapply converts_number. }
    destruct (parse_simple_numeric b) as [n|] eqn:Ep.
    2:{ do 2 apply wp_ret. apply Hsettled. intros m'. by eapply converts_other. }
    destruct (expired_hd now h) eqn:Eh.
    { do 2 apply wp_ret. apply Hsettled. intros m'. eapply converts_expired; [exact Ec| |exact Ev|exact Ep].
      apply alive_none. right. by eexists. }
    destruct (read_same w w1 L es Hk Hr) as [Hk1 Hm]. pose proof (read_dropping cfg now w w1 L Hr Hd) as Hd1.
    pose proof (entry_args _ (li_ok _ _ _ _ _ _ _ _ _ _ _ _ Hl)) as [A1 A2 A3]. rewrite Ev in A3.
    assert (insertable k (U64 n) (e_optional e)) as Hin'.
    { destruct Hin as [[B1 _ _] B2 B3 _]. split; [split; [done|done|]|done|done|by eapply optional_bytes].
      by apply parse_simple_numeric_spec in Ep as [? _]. }
    eapply wp_mono; [eapply (wp_swap integrity debug_assertions hash_key crc32 Hcrc backoff_completed cfg now fuel w1 L es);
      [exact Hdr|exact Hk1|exact Hd1|exact Hin'|by apply Hfit|exact Hl1|exact Ek|exact Hc|by left]|].
    intros r w' Hsw. apply wp_ret. eapply left_stepped; [by eapply swaps_exchanged|].
    intros m' Hx. constructor. eapply converts_text; [by apply alive_some|exact Ev|exact Ep|].
    assert (remaining now (slot_for x off e h) = remaining_hd now h) as ->; [|exact Hx].
    unfold remaining, slot_for, deadline, remaining_hd. cbn. by destruct (SegHeader.ttl h =? 0).
Qed.

Lemma wp_perform_delete w L es k fuel :
  drops cfg = true -> cache_ok w L es -> dropping w L -> wp (perform (S fuel) (Delete k)) (stepped (Delete k) w es) w.
Proof.
  intros Hdr Hk Hd. cbn [perform]. apply wp_bind. eapply wp_delete; [done|exact Hk|exact Hd|..].
  - intros w' Hno Hb. apply wp_ret. eapply becomes_stepped; [exact Hb|]. intros m' E Ho.
    constructor; [by apply alive_none|by eapply same_from].
  - intros s w' Es Ex Hb. apply wp_ret. eapply becomes_stepped; [exact Hb|]. intros m' E Ho.
    constructor; [|done..]. by rewrite (alive_some _ k s).
Qed.

Lemma wp_calculate w L es k f fuel (Q : Z + SegcacheError -> Cache -> Prop) :
  cache_ok w L es -> dropping w L -> (forall v, fits 64 v -> fits 64 (f v)) ->
  (forall r w' L' es', cache_ok w' L' es' -> dropping w' L' ->
     calculated now f k (contents_of w es) r (contents_of w' es') -> Q r w') ->
  wp (numeric_update integrity debug_assertions hash_key crc32 (S fuel) cfg now k f) Q w.
Proof.
  intros Hk Hd Hf HQ. eapply (wp_numeric integrity debug_assertions hash_key crc32 Hcrc); [exact Hk|exact Hd|exact Hf|..].
  - intros w' Hno (L' & es' & B1 & B2 & B3 & B4). eapply HQ; [done..|].
    constructor; [by apply alive_none|by eapply same_from].
  - intros s b w' Es Ex Eb (L' & es' & B1 & B2 & B3 & B4). eapply HQ; [done..|].
    econstructor; [by apply alive_some|done|by eapply same_from].
  - intros s n token w' Es Ex En Htok (L' & es' & B1 & B2 & B3 & B4). eapply HQ; [done..|].
    econstructor; [by apply alive_some|done|exact B3|done|done].
Qed.

Lemma wp_perform_number w L es k rhs fuel :
  cache_ok w L es -> dropping w L ->
  wp (perform (S fuel) (WrappingAdd k rhs)) (stepped (WrappingAdd k rhs) w es) w /\
  (0 <= rhs -> wp (perform (S fuel) (SaturatingSub k rhs)) (stepped (SaturatingSub k rhs) w es) w).
Proof.
  intros Hk Hd. split; [|intros Hrhs]; cbn [perform]; apply wp_bind; (eapply wp_calculate; [exact Hk|exact Hd|..]).
  - intros v _. by apply wrap_fits.
  - intros r w' L' es' Hk' Hd' Hc. apply wp_ret. exists L', es'. split; [done|]. split; [done|]. by constructor.
  - intros v Hv. unfold sat_sub, fits in *. lia.
  - intros r w' L' es' Hk' Hd' Hc. apply wp_ret. exists L', es'. split; [done|]. split; [done|]. by constructor.
Qed.

(** Buckets drained from the head: the segments taken out are over, or all were asked for. *)
Lemma drained_dropping ex bs xs w w' L L' es es' :
  cache_ok w L es -> dropping w L -> drained_buckets integrity cfg now ex bs xs w w' L L' es es' ->
  cache_ok w' L' es' /\ dropping w' L' /\ swept cfg xs w w' L L' es es'.
Proof.
  intros Hk Hd [D1 D2 D3 D4 D5]. destruct (swept_ok integrity hash_key cfg xs w w' L L' es es' Hk D1 D2) as (Hk' & _).
  unfold aside in D5. injection D5 as E1 _ E3 E4.
  split; [done|]. split; [|done]. eapply dropping_swept; [apply (ck_rest _ _ _ _ _ _ Hk)|exact D2| | |exact Hd].
  - unfold ranking_ok. rewrite E1. apply Hd.
  - rewrite E3, E4. apply Hd.
Qed.

(** What expiry takes out is over. *)
Lemma drained_over xs w w' L L' es es' x :
  at_rest integrity cfg w L es -> drained_buckets integrity cfg now true (seq 0 (length (buckets w))) xs w w' L L' es es' ->
  x ∈ xs -> over now w x = true.
Proof.
  intros Hr [D1 D2 D3 D4 D5] Hx. pose proof (sw_chains _ _ _ _ _ _ _ _ D2) as Hp.
  pose proof (chains_nodup _ _ _ _ (ar_shape _ _ _ _ _ Hr)) as Hn. rewrite Hp in Hn. apply NoDup_app in Hn as (_ & Hn & _).
  assert (x ∈ mjoin (chains L)) as Hin by (rewrite Hp, elem_of_app; by left).
  apply list_elem_of_join in Hin as (l & Hxl & [c Hc]%list_elem_of_lookup).
  destruct (an_len _ _ (ar_anchored _ _ _ _ _ Hr)) as [Eb Ec].
  destruct (D3 c l Hc) as (ys & rest & -> & Hrest & Hdr & _).
  { apply elem_of_seq. apply lookup_lt_Some in Hc. lia. }
  apply elem_of_app in Hxl as [Hy|Hy]; [by eapply Forall_forall in Hdr|]. exfalso. apply (Hn x Hx).
  by eapply chain_in.
Qed.

Lemma wp_perform_expire w L es fuel :
  cache_ok w L es -> dropping w L -> wp (perform fuel Expire) (stepped Expire w es) w.
Proof.
  intros Hk Hd. cbn [perform]. apply wp_bind. unfold Segcache.expire. set (w0 := set_last_expired now w).
  pose proof (ck_rest _ _ _ _ _ _ Hk) as Hr.
  assert (at_rest integrity cfg w0 L es) as Hr0 by (by eapply at_rest_ext).
  destruct (same_ok integrity hash_key cfg w w0 L es Hk Hr0) as [Hk0 Hc0]; [apply (ck_refs _ _ _ _ _ _ Hk)|done|done|].
  assert (dropping w0 L) as Hd0 by (apply (dropping_ext cfg now w); done).
  eapply wp_expire; [exact Hr|..].
  - intros _. apply wp_ret. exists L, es. split; [done|]. split; [done|]. constructor. intros k. left. apply Hc0.
  - intros xs w' L' es' _ Hdr. fold w0 in Hdr. apply wp_ret.
    destruct (drained_dropping _ _ _ _ _ _ _ _ _ Hk0 Hd0 Hdr) as (Hk' & Hd' & Hsw).
    exists L', es'. split; [done|]. split; [done|]. constructor. intros k.
    destruct (swept_ok integrity hash_key cfg xs w0 w' L L' es es' Hk0) as (_ & Hth & Hkeep); [apply Hk'|done|].
    rewrite <- Hc0. destruct (Hth k) as [|Hnone]; [by left|]. destruct (contents_of w0 es k) as [s|] eqn:Es; [|by left].
    right. split; [done|]. apply alive_none. right. exists s. split; [by rewrite <- Hc0|].
    apply (contents_some integrity hash_key cfg w0 L es) in Es as (x & off & e & h & Hkp & ->); [|done].
    destruct (decide (x ∈ xs)) as [Hx|Hx].
    + pose proof (drained_over _ _ _ _ _ _ _ x Hr0 Hdr Hx) as Ho. rewrite expired_slot_for.
      unfold over in Ho. rewrite (kp_header _ _ _ _ _ _ _ _ _ _ Hkp) in Ho.
      unfold expired_hd. rewrite negb_true_iff, Z.ltb_ge in Ho.
      assert (x ∈ mjoin (chains L)) as Hxc by (rewrite (sw_chains _ _ _ _ _ _ _ _ Hsw), elem_of_app; by left).
      assert (0 < SegHeader.ttl h) by (eapply chained_ttl; [exact Hr0|exact Hxc|apply Hkp]).
      rewrite (proj2 (Z.eqb_neq _ _)) by lia. by apply Z.leb_le.
    + exfalso. rewrite Hkeep in Hnone.
      * apply (contents_none integrity hash_key cfg w0 L es k Hk0) with (1 := Hnone) in Hkp. done.
      * intros y off' e' h' Hkp'. by destruct (kept_fun _ _ _ _ _ _ _ _ _ _ _ _ _ _ _ Hk0 Hkp Hkp') as (-> & _).
Qed.

Lemma wp_perform_clear w L es fuel :
  cache_ok w L es -> dropping w L -> wp (perform fuel Clear) (stepped Clear w es) w.
Proof.
  intros Hk Hd. cbn [perform]. apply wp_bind. unfold Segcache.clear, Segments.clear, all_buckets.
  pose proof (ck_rest _ _ _ _ _ _ Hk) as Hr. destruct (an_len _ _ (ar_anchored _ _ _ _ _ Hr)) as [Eb Ec].
  apply wp_bind, wp_gets. eapply wp_drain_buckets; [exact Hr|apply NoDup_seq| |].
  - intros c Hc%elem_of_seq. lia.
  - intros xs w' L' es' Hdr. apply wp_ret.
    destruct (drained_dropping _ _ _ _ _ _ _ _ _ Hk Hd Hdr) as (Hk' & Hd' & Hsw).
    exists L', es'. split; [done|]. split; [done|]. constructor. intros k.
    apply (contents_none integrity hash_key cfg w' L' es' k Hk'). intros x off e h Hkp.
    assert (x ∈ mjoin (chains L')) as Hx by (eapply placed_chained; [apply (ck_rest _ _ _ _ _ _ Hk')|apply Hkp]).
    apply list_elem_of_join in Hx as (l & Hx & [c Hc]%list_elem_of_lookup).
    destruct (an_len _ _ (ar_anchored _ _ _ _ _ (ck_rest _ _ _ _ _ _ Hk'))) as [_ Ec'].
    pose proof (lookup_lt_Some _ _ _ Hc) as Hlt. destruct (lookup_lt_is_Some_2 (chains L) c) as [l0 Hl0]; [lia|].
    destruct (db_chain _ _ _ _ _ _ _ _ _ _ _ _ Hdr c l0 Hl0) as (ys & rest & _ & Hrest & ->); [apply elem_of_seq; lia|].
    rewrite Hc in Hrest. injection Hrest as ->. by apply not_elem_of_nil in Hx.
Qed.

Lemma wp_perform w L es op fuel :
  drops cfg = true -> cache_ok w L es -> dropping w L -> asked op ->
  wp (perform (S (S (S (S fuel)))) op) (stepped op w es) w.
Proof.
  intros Hdr Hk Hd Ha. destruct op as [k|k v o secs|k v o secs token|k|k initial secs|k rhs|k rhs| |].
  - by apply (wp_perform_get w L).
  - by apply (wp_perform_insert w L).
  - by apply (wp_perform_cas w L).
  - by apply (wp_perform_delete w L).
  - by apply (wp_perform_convert w L).
  - exact (proj1 (wp_perform_number w L es k rhs _ Hk Hd)).
  - exact (proj2 (wp_perform_number w L es k rhs _ Hk Hd) Ha).
  - by apply (wp_perform_expire w L).
  - by apply (wp_perform_clear w L).
Qed.
End Ops.

(** ** Histories *)

Section Histories.
Context (integrity debug_assertions : bool) (hash_key crc32 : bytes -> Z) (Hcrc : forall b, fits 32 (crc32 b)).
Context (backoff_completed : nat -> bool) (cfg : Config).
Implicit Types (w : Cache) (L : Layout) (es : Z -> list Entry).

#[local] Hint Extern 0 (Hashtable (Index unit)) => exact (index_hashtable hash_key) : typeclass_instances.
#[local] Hint Extern 0 (LawfulHashtable (Index unit)) => exact (index_lawful hash_key) : typeclass_instances.

(** Operations one after the other, each at its second. *)
Fixpoint play (fuel : nat) (evs : list (Z * Op)) : @Segments.M (Index unit) (list Result) :=
  match evs with
  | [] => mret []
  | (now, op) :: evs =>
      r ← perform integrity debug_assertions hash_key crc32 backoff_completed cfg now fuel op;
      rs ← play fuel evs;
      mret (r :: rs)
  end.

(** The clock does not go back, and what is asked may be asked. *)
Fixpoint in_order (now : Z) (evs : list (Z * Op)) : Prop :=
  match evs with
  | [] => True
  | (now', op) :: evs => now <= now' /\ asked integrity cfg op /\ in_order now' evs
  end.

(** What may have been last written under a key. Only [try_into_numeric] leaves
    open what it did: it says neither that it created an item nor that it
    converted one. *)
Definition written : Type := option (Value * option bytes).

Definition as_number (last : written) : written :=
  match last with
  | Some (Bytes b, o) => match parse_simple_numeric b with Some n => Some (U64 n, o) | None => last end
  | _ => last
  end.

Definition write k (ev : Op * Result) (last : written) : list written :=
  match ev with
  | (Insert k' v o _, Stored (inl _)) | (Cas k' v o _ _, Stored (inl _)) =>
      if decide (k' = k) then [Some (v, some_optional (default [] o))] else [last]
  | (Delete k', Deleted true) => if decide (k' = k) then [None] else [last]
  | (TryIntoNumeric k' initial _, Stored (inl _)) =>
      if decide (k' = k) then [Some (U64 initial, None); as_number last] else [last]
  | (WrappingAdd k' _, Number (inl n)) | (SaturatingSub k' _, Number (inl n)) =>
      if decide (k' = k) then [p ← last; Some (U64 n, p.2)] else [last]
  | (Clear, _) => [None]
  | _ => [last]
  end.

Definition last_writes k (h : list (Op * Result)) : list written :=
  fold_left (fun lasts ev => last ← lasts; write k ev last) h [None].

(** The map holds nothing but what was last written. *)
Definition up_to_date m (h : list (Op * Result)) : Prop :=
  forall k s, m k = Some s -> Some (shown s) ∈ last_writes k h.

Lemma last_writes_snoc k h op r : last_writes k (h ++ [(op, r)]) = last ← last_writes k h; write k (op, r) last.
Proof. unfold last_writes. by rewrite fold_left_app. Qed.

(** A slot that stays is up to date when the operation does not write its key. *)
Lemma still_written k h op r s m : up_to_date m h -> m k = Some s ->
  Some (shown s) ∈ write k (op, r) (Some (shown s)) -> Some (shown s) ∈ last_writes k (h ++ [(op, r)]).
Proof. intros Hu Es Hw. rewrite last_writes_snoc. apply list_elem_of_bind. exists (Some (shown s)). auto. Qed.

Lemma now_written k h op r x : last_writes k h <> [] -> (forall last, x ∈ write k (op, r) last) ->
  x ∈ last_writes k (h ++ [(op, r)]).
Proof.
  intros Hne Hw. rewrite last_writes_snoc. apply list_elem_of_bind. destruct (last_writes k h) as [|last l]; [done|].
  exists last. split; [done|by left].
Qed.

Lemma write_some k ev last : write k ev last <> [].
Proof. destruct ev as [[] []]; cbn; repeat (case_match || case_decide); done. Qed.

Lemma last_writes_some k h : last_writes k h <> [].
Proof.
  induction h as [|[op r] h IH] using rev_ind; [done|]. rewrite last_writes_snoc.
  destruct (last_writes k h) as [|last l]; [done|]. cbn [mbind list_bind].
  intros [E _]%app_eq_nil. by apply write_some in E.
Qed.

Lemma alive_in now m k s : alive now m k = Some s -> m k = Some s.
Proof. unfold alive. destruct (m k); cbn; [|done]. by destruct (expired_slot _ _); intros [= ->]. Qed.

Lemma calculated_up_to_date now f k m r m' h op :
  (forall k' n last, write k' (op, Number (inl n)) last = if decide (k = k') then [p ← last; Some (U64 n, p.2)] else [last]) ->
  (forall k' e last, write k' (op, Number (inr e)) last = [last]) ->
  calculated now f k m r m' -> up_to_date m h -> up_to_date m' (h ++ [(op, Number r)]).
Proof.
  intros Hw Hw' Hc Hu k' s' Es'. destruct Hc as [s n token m' Ha Hv Hm _ Ho|s b m' _ _ Hs|m' _ Hs].
  - destruct (decide (k = k')) as [<-|D].
    + rewrite last_writes_snoc. apply list_elem_of_bind. exists (Some (shown s)).
      rewrite Hw, decide_True by done. split; [|by apply Hu, (alive_in now)]. rewrite Hm in Es'. injection Es' as <-. by left.
    + eapply still_written; [exact Hu|by rewrite <- Ho|]. rewrite Hw, decide_False by done. by left.
  - eapply still_written; [exact Hu|by rewrite <- Hs|]. rewrite Hw'. by left.
  - eapply still_written; [exact Hu|by rewrite <- Hs|]. rewrite Hw'. by left.
Qed.

(** Stores write their key, and leave the others, or forget them. *)
Lemma forgets_up_to_date m m' h op r :
  (forall k last, write k (op, r) last = [last]) -> forgets m m' -> up_to_date m h -> up_to_date m' (h ++ [(op, r)]).
Proof.
  intros Hw Hf Hu k s Es. eapply still_written; [exact Hu| |rewrite Hw; by left].
  destruct (Hf k) as [<-|E]; [done|congruence].
Qed.

Lemma stored_up_to_date m m' h op r k v o t token :
  (forall k' last, k' <> k -> write k' (op, r) last = [last]) ->
  (exists last, last ∈ last_writes k h /\ Some (v, some_optional o) ∈ write k (op, r) last) ->
  m' k = Some (mkSlot v o t token) -> forgets_but k m m' -> up_to_date m h -> up_to_date m' (h ++ [(op, r)]).
Proof.
  intros Hw (last & Hl & Hw') Hm Hf Hu k' s Es. destruct (decide (k' = k)) as [->|D].
  - rewrite Hm in Es. injection Es as <-. rewrite last_writes_snoc. apply list_elem_of_bind. by exists last.
  - eapply still_written; [exact Hu| |rewrite Hw by done; by left]. destruct (Hf k' D) as [<-|E]; [done|congruence].
Qed.

Lemma same_forgets m m' : same m m' -> forgets m m'.
Proof. intros Hs k. by left. Qed.

(** A store stores, or fails and at most forgets. *)
Lemma store_outcome now size k v o secs m r m' :
  inserted now size k v o secs m r m' \/ exchanged now size k v o secs m r m' ->
  (exists t token, r = inl tt /\ m' k = Some (mkSlot v o t token) /\ forgets_but k m m') \/
  (exists e, r = inr e /\ forgets m m').
Proof.
  intros [Hi|Hx]; [destruct Hi as [t token|? Hs%same_forgets|?|?]|destruct Hx as [t token|? Hs%same_forgets|?|?]];
    first [left; by exists t, token | right; by eexists].
Qed.

Lemma inserted_up_to_date now size k v o secs m r m' h op :
  (forall k' last, write k' (op, Stored (inl tt)) last = if decide (k = k') then [Some (v, some_optional o)] else [last]) ->
  (forall k' e last, write k' (op, Stored (inr e)) last = [last]) ->
  inserted now size k v o secs m r m' \/ exchanged now size k v o secs m r m' ->
  up_to_date m h -> up_to_date m' (h ++ [(op, Stored r)]).
Proof.
  intros Hw Hw' Hi Hu.
  assert (exists last, last ∈ last_writes k h /\ Some (v, some_optional o) ∈ write k (op, Stored (inl tt)) last) as Hl.
  { pose proof (last_writes_some k h). destruct (last_writes k h) as [|last l]; [done|]. exists last. split; [by left|].
    rewrite Hw, decide_True by done. by left. }
  assert (forall k' last, k' <> k -> write k' (op, Stored (inl tt)) last = [last]) as Hk by (intros; by rewrite Hw, decide_False).
  destruct (store_outcome _ _ _ _ _ _ _ _ _ Hi) as [(t & token & -> & Hm & Hf)|(e & -> & Hf)].
  - by eapply stored_up_to_date.
  - by eapply forgets_up_to_date.
Qed.

Lemma converted_up_to_date now size k initial secs m r m' h :
  converted now size k initial secs m r m' -> up_to_date m h ->
  up_to_date m' (h ++ [(TryIntoNumeric k initial secs, Stored r)]).
Proof.
  set (op := TryIntoNumeric k initial secs). intros Hc Hu.
  assert (forall k' e last, write k' (op, Stored (inr e)) last = [last]) as Hw' by done.
  assert (forall k' last, k' <> k -> write k' (op, Stored (inl tt)) last = [last]) as Hk by (intros; cbn; by rewrite decide_False).
  assert (forall last, write k (op, Stored (inl tt)) last = [Some (U64 initial, None); as_number last]) as Hw by (intros; cbn; by rewrite decide_True).
  destruct Hc as [r m' Hno Hi|s n m' Hm Hv Hs|s b m' Hm Hv Hp Hs%same_forgets|s b n m' Hm _ Hv Hp Hs%same_forgets|s b n r m' Ha Hv Hp Hx].
  - destruct (store_outcome _ _ _ _ _ _ _ _ _ (or_introl Hi)) as [(t & token & -> & Hm & Hf)|(e & -> & Hf)]; [|by eapply forgets_up_to_date].
    eapply stored_up_to_date; [exact Hk| |exact Hm|exact Hf|exact Hu].
    pose proof (last_writes_some k h). destruct (last_writes k h) as [|last l]; [done|]. exists last.
    rewrite Hw. split; by left.
  - intros k' s' Es'. rewrite Hs in Es'. eapply still_written; [exact Hu|exact Es'|].
    destruct (decide (k' = k)) as [->|D]; [|rewrite Hk by done; by left].
    rewrite Hm in Es'. injection Es' as <-. rewrite Hw. right. unfold shown. rewrite Hv. by left.
  - by eapply forgets_up_to_date.
  - by eapply forgets_up_to_date.
  - destruct (store_outcome _ _ _ _ _ _ _ _ _ (or_intror Hx)) as [(t & token & -> & Hm & Hf)|(e & -> & Hf)]; [|by eapply forgets_up_to_date].
    eapply stored_up_to_date; [exact Hk| |exact Hm|exact Hf|exact Hu].
    exists (Some (shown s)). split; [by apply Hu, (alive_in now)|]. rewrite Hw. right. unfold shown, as_number. rewrite Hv, Hp. by left.
Qed.

Lemma allowed_up_to_date now size m op r m' h :
  allowed now size m op r m' -> up_to_date m h -> up_to_date m' (h ++ [(op, r)]).
Proof.
  intros Ha Hu. destruct Ha as [k m' Hs|k v o secs r m' Hi|k v o secs s r m' _ Hx|k v o secs token s m' _ _ Hs|k v o secs token m' _ Hs
    |k m' Hi Hk Ho|k m' Hn Hs|k initial secs r m' Hc|k rhs r m' Hc|k rhs r m' Hc|n m' He|n m' Hno].
  1, 4, 5, 7: by eapply forgets_up_to_date; [|apply same_forgets|].
  - eapply inserted_up_to_date; [done|done|by left|done].
  - eapply inserted_up_to_date; [done|done|by right|done].
  - intros k' s' Es'. destruct (decide (k = k')) as [<-|D]; [congruence|].
    eapply still_written; [exact Hu|rewrite <- Ho; [exact Es'|congruence]|]. cbn. rewrite decide_False by done. by left.
  - by eapply converted_up_to_date.
  - by eapply calculated_up_to_date.
  - by eapply calculated_up_to_date.
  - eapply forgets_up_to_date; [done| |done]. intros k. destruct (He k) as [|[? _]]; auto.
  - intros k' s' Es'. by rewrite Hno in Es'.
Qed.

Lemma allowed_hit now size m k r m' :
  allowed now size m (Get k) (Got (Some r)) m' -> exists s, alive now m k = Some s /\ m k = Some s /\ r = seen s.
Proof.
  intros Ha. inversion Ha as [? ? Hs E1 E2| | | | | | | | | | |]; subst.
  destruct (alive now m k) as [s|] eqn:Es; [|done]. cbn in *. injection E2 as <-. exists s. by rewrite (alive_in now m k s).
Qed.

Lemma allowed_got now size m k r token m' h :
  allowed now size m (Get k) (Got (Some (r, token))) m' -> up_to_date m h -> Some r ∈ last_writes k h.
Proof. intros (s & _ & Es & E)%allowed_hit Hu. unfold seen in E. injection E as -> _. by apply Hu. Qed.

(** Arithmetic on a number leaves a number with another token, alive as it was. *)
Lemma allowed_arithmetic now size m k rhs (add : bool) r m' s n :
  allowed now size m (if add then WrappingAdd k rhs else SaturatingSub k rhs) r m' ->
  alive now m k = Some s -> sl_value s = U64 n ->
  exists n' token, r = Number (inl n') /\ token <> sl_token s /\ same_but k m m' /\
    m' k = Some (mkSlot (U64 n') (sl_optional s) (sl_deadline s) token) /\
    alive now m' k = Some (mkSlot (U64 n') (sl_optional s) (sl_deadline s) token).
Proof.
  intros Ha Hal Hn.
  assert (exists f r', r = Number r' /\ calculated now f k m r' m') as (f & r' & -> & Hc).
  { destruct add; inversion Ha; subst; eauto. }
  destruct Hc as [s' n' token m' Hs' _ Hm Htok Ho|s' b m' Hs' Hb|m' Hs']; [|congruence..].
  rewrite Hal in Hs'. injection Hs' as <-. exists (f n'), token. do 4 (split; [done|]).
  unfold alive in *. rewrite Hm. cbn. destruct (m k) as [s'|]; [|done]. cbn in Hal.
  destruct (expired_slot now s') eqn:E; [done|]. injection Hal as ->. unfold expired_slot in *. cbn. by rewrite E.
Qed.

(** A [cas] with another token than that of a live slot. *)
Lemma allowed_stale now size m k v o secs token r m' s :
  allowed now size m (Cas k v o secs token) r m' -> alive now m k = Some s -> token <> sl_token s ->
  r = Stored (inr Exists) /\ same m m'.
Proof. intros Ha Hal Hne. inversion Ha; subst; try congruence. by split. Qed.

(** A conversion takes a number for present, its time over or not. *)
Lemma allowed_over now size m k initial secs r m' s n :
  allowed now size m (TryIntoNumeric k initial secs) r m' -> m k = Some s -> sl_value s = U64 n ->
  expired_slot now s = true -> r = Stored (inl tt) /\ same m m'.
Proof.
  intros Ha Hs Hn Hex. inversion Ha as [| | | | | | |? ? ? r' ? Hc| | | |]; subst.
  destruct Hc as [r' m' Hno|s' n' m' _ _ Hsame|s' b m' Hs' Hb|s' b n' m' Hs' _ Hb|s' b n' r' m' Hal Hb]; [congruence|done|..].
  - rewrite Hs in Hs'. injection Hs' as <-. congruence.
  - rewrite Hs in Hs'. injection Hs' as <-. congruence.
  - apply alive_in in Hal. rewrite Hs in Hal. injection Hal as <-. congruence.
Qed.

Lemma allowed_missing now size m k rhs r m' :
  allowed now size m (WrappingAdd k rhs) r m' -> alive now m k = None -> r = Number (inr NotFound).
Proof.
  intros Ha Hno. inversion Ha as [| | | | | | | |? ? r' ? Hc| | |]; subst. by destruct Hc; [congruence..|].
Qed.

Lemma dropping_later now now' w L : dropping cfg now w L -> now <= now' -> dropping cfg now' w L.
Proof. intros [D1 D2 D3 D4] Hle. split; try done. intros y h Hy Eh. specialize (D4 y h Hy Eh). lia. Qed.

(** Every hit of a history is on what was last written under the key. *)
Definition hits_last (ops : list Op) (rs : list Result) (h : list (Op * Result)) : Prop :=
  length rs = length ops /\
  forall i k r token, ops !! i = Some (Get k) -> rs !! i = Some (Got (Some (r, token))) ->
    Some r ∈ last_writes k (h ++ zip (take i ops) (take i rs)).

Lemma wp_play fuel evs now w L es h :
  drops cfg = true -> cache_ok integrity hash_key cfg w L es -> dropping cfg now w L -> in_order now evs ->
  up_to_date (contents_of integrity hash_key cfg w es) h ->
  wp (play (S (S (S (S fuel)))) evs) (fun rs w' => hits_last (map snd evs) rs h /\
    exists now' L' es', cache_ok integrity hash_key cfg w' L' es' /\ dropping cfg now' w' L') w.
Proof.
  intros Hdr. revert now w L es h. induction evs as [|[now' op] evs IH]; intros now w L es h Hk Hd Ho Hu.
  { apply wp_ret. split; [by split|]. by exists now, L, es. }
  destruct Ho as (Hle & Ha & Ho). cbn [play]. apply wp_bind.
  eapply wp_mono; [eapply wp_perform; [exact Hcrc|exact Hdr|exact Hk|by eapply dropping_later|exact Ha]|].
  intros r w' (L' & es' & Hk' & Hd' & Hal). apply wp_bind.
  eapply wp_mono; [eapply (IH now' w' L' es' (h ++ [(op, r)])); [done..|by eapply allowed_up_to_date]|].
  intros rs w2 [[Hlen Hh] Hrest]. apply wp_ret. split; [|done]. split; [cbn; by rewrite Hlen|].
  intros [|i] k r' token Eop Er; cbn in Eop, Er.
  - simplify_eq. cbn. rewrite app_nil_r. by eapply allowed_got.
  - specialize (Hh i k r' token Eop Er). cbn [map snd take zip zip_with]. rewrite cons_middle, app_assoc. exact Hh.
Qed.
End Histories.
