(* ===== verification/CacheStall.v ===== *)
(** * An insert that does not end

    With item integrity on, a segment begins with eight magic bytes, and an item
    as large as a segment passes the size check and fits none. Each attempt to
    reserve its space takes every free segment, each eviction gives one back,
    and an eviction that frees is no retry. *)
From S2P Require Import Prelude Packing Atomics Table TableSpec TableThms HashIface HashSeq HashProbe.
From S2P Require Import KvItem KvItemSpec TtlBuckets Eviction EvictionSpec SegState SegHeader SegHeaderSpec Segment SegmentSpec Segments.
From S2P Require Import Segcache HeapRules HeapShape HeapContents HeapDrain HeapClear HeapItems HeapEvict HeapRemove HeapReserve.
From S2P Require Import CacheLookup CacheState CacheDelete CacheReserve.

Section Stall.
Context (integrity debug_assertions : bool) (hash_key crc32 : bytes -> Z).
Context (cfg : Config) (now : Z).

#[local] Hint Extern 0 (Hashtable (Index unit)) => exact (index_hashtable hash_key) : typeclass_instances.
#[local] Hint Extern 0 (LawfulHashtable (Index unit)) => exact (index_lawful hash_key) : typeclass_instances.

Implicit Types (w : Cache) (x y : Z) (L : Layout) (es : Z -> list Entry).

Abbreviation at_rest := (at_rest integrity cfg).
Abbreviation cache_ok := (cache_ok integrity hash_key cfg).
Abbreviation dropping := (dropping cfg now).

(** A segment that is in a chain and not taken out stays in the chain of its bucket. *)
Lemma swept_stays xs w w' L L' es es' b (l l' : list Z) y :
  at_rest w L es -> at_rest w' L' es' -> swept cfg xs w w' L L' es es' ->
  chains L !! b = Some l -> chains L' !! b = Some l' -> y ∈ l -> y ∉ xs -> y ∈ l'.
Proof.
  intros Hr Hr' Hs Hb Hb' Hy Hx.
  assert (y ∈ mjoin (chains L')) as Hin.
  { assert (y ∈ mjoin (chains L)) as Hin by by eapply chain_in.
    rewrite (sw_chains _ _ _ _ _ _ _ _ Hs), elem_of_app in Hin. by destruct Hin. }
  apply list_elem_of_join in Hin as (l2 & Hy2 & [c Hc]%list_elem_of_lookup).
  destruct (chained_header integrity cfg w L es y Hr) as (h & m & Eh & _); [by eapply chain_in|].
  pose proof (sw_headers _ _ _ _ _ _ _ _ Hs y Hx) as Ee. rewrite Eh in Ee.
  destruct (header_at y w') as [h'|] eqn:Eh'; [|done]. apply (inj Some), (f_equal SegHeader.ttl) in Ee. cbn in Ee.
  destruct (sh_ttl _ _ _ _ (ar_shape _ _ _ _ _ Hr) b l y h Hb Hy Eh) as (_ & _ & E1).
  destruct (sh_ttl _ _ _ _ (ar_shape _ _ _ _ _ Hr') c l2 y h' Hc Hy2 Eh') as (_ & _ & E2).
  assert (c = b) as -> by (rewrite Ee in E2; lia). by simplify_eq.
Qed.

(** Two segments in a chain: the first can be evicted, unless it is pinned. *)
Lemma two_evictable w L es b (l : list Z) :
  at_rest w L es -> chains L !! b = Some l -> (2 <= length l)%nat ->
  (forall y h, header_at y w = Some h -> ref_count h = 0) ->
  exists i, 0 <= i < Eviction.cap (headers w) /\ evictable_at (headers w) i = true.
Proof.
  intros Hr Hb Hl Hp. destruct l as [|y [|z l]]; cbn in Hl; [lia..|].
  destruct (sh_chain _ _ _ _ (ar_shape _ _ _ _ _ Hr) b _ [] y (z :: l) Hb eq_refl) as (h & m & Eh & Em & Es & _).
  exists (y - 1). pose proof (header_range _ _ _ _ _ _ (ar_shape _ _ _ _ _ Hr) Eh) as Hy.
  destruct (sh_len _ _ _ _ (ar_shape _ _ _ _ _ Hr)) as [El _]. unfold Eviction.cap. split; [lia|].
  rewrite <- header_of_at in Eh. unfold header_of in Eh. unfold evictable_at. rewrite Eh.
  unfold evictable. rewrite (run_can_evict h m Em), Es. cbn [rest_state is_evictable].
  rewrite (Hp y h) by (by rewrite <- header_of_at). done.
Qed.

(** The cache, before an attempt to reserve: no segment is pinned, and the bucket
    has two segments, or will. *)
Record stalls b w L es (l : list Z) : Prop := {
  sl_ok : cache_ok w L es;
  sl_dropping : dropping w L;
  sl_chain : chains L !! b = Some l;
  sl_two : (2 <= length l + length (free_queue w))%nat;
  sl_policy : Eviction.policy (evict w) = PolicyRandom;
  sl_unpinned y h : header_at y w = Some h -> ref_count h = 0
}.

Context (size : Z) (Hsize : size <= segment_size cfg < first_offset integrity + size) (Hpos : 0 < size).
Context (Hpolicy : Segments.policy cfg = PolicyRandom).

(** The attempt takes the free segments. *)
Lemma stall_reserve secs w L es (l : list Z) :
  let b := Z.to_nat (get_bucket_index secs) in
  stalls b w L es l ->
  exists w1 L1 l1, reserve integrity debug_assertions cfg now b size w = Some (inr Segments.NoFreeSegments, w1) /\
    stalls b w1 L1 es l1 /\ free_queue w1 = [] /\ freed w1 = freed w.
Proof.
  intros b [Hk Hd Hb Htwo Hp Hu]. pose proof (ck_rest _ _ _ _ _ _ Hk) as Hr.
  destruct (wp_elim _ (fun r w' => reserves integrity cfg now b l size w L es r w') w
    (wp_reserve integrity debug_assertions cfg now b size Hpos (floor_bucket secs) w L es l _ Hr Hb (fun r w' He => He)))
    as (r & w1 & E & He).
  inversion He as [|y h El Eh Hroom| |Hno _ Eq|w1' Hno _ Hext Eq]; subst; try lia.
  - exfalso. pose proof (header_range _ _ _ _ _ _ (ar_shape _ _ _ _ _ Hr) Eh) as Hy.
    destruct (c_items _ _ _ _ (ar_contents _ _ _ _ _ Hr) y Hy) as (h' & d & Eh' & _ & _ & _ & Hs). simplify_eq.
    destruct (ok_end _ _ _ _ _ _ Hs) as [Ee _]. pose proof (total_esize integrity (es y)). cbn [header] in Ee. unfold end_of in Ee. lia.
  - exists w1, L, l. split; [done|]. split; [|done]. by split.
  - destruct (extended_ok integrity hash_key cfg now b l (free_queue w) w w1 L es Hk Hd Hb Hext) as (Hk1 & Hd1 & _).
    exists w1, (with_chain b (l ++ free_queue w) L), (l ++ free_queue w). split; [done|].
    destruct Hext as [_ (_ & Ef & _) _ _ _ Ea Erc]. split; [|done]. split; [done|done| | | |].
    + apply list_lookup_insert_eq. by eapply lookup_lt_Some.
    + rewrite Eq, length_app. cbn. lia.
    + unfold aside in Ea. injection Ea as -> _ _ _. done.
    + intros y h Eh. specialize (Erc y). rewrite Eh in Erc. destruct (header_at y w) as [h0|] eqn:E0; [|done].
      apply (inj Some) in Erc. rewrite Erc. by eapply Hu.
Qed.

(** The eviction gives some back. *)
Lemma stall_evict b w L es (l : list Z) :
  stalls b w L es l -> free_queue w = [] ->
  exists w2 L2 es2 l2, run_evict integrity debug_assertions hash_key cfg now w = Some (tt, w2) /\
    stalls b w2 L2 es2 l2 /\ freed w2 <> freed w.
Proof.
  intros [Hk Hd Hb Htwo Hp Hu] Eq. pose proof (ck_rest _ _ _ _ _ _ Hk) as Hr.
  destruct (wp_elim _ (fun r w' => exists xs L' es', evicts integrity cfg now r xs w w' L L' es es') w
    (wp_evict_one integrity debug_assertions cfg now hash_key w L es _ ltac:(unfold drops; by rewrite Hpolicy) Hr (dp_ranking _ _ _ _ Hd)
      (fun r xs w' L' es' He => ex_intro _ xs (ex_intro _ L' (ex_intro _ es' He))))) as (r & w2 & E & xs & L2 & es2 & [R1 R2 R3 R4 R5 R6]).
  exists w2, L2, es2.
  destruct (an_len _ _ (ar_anchored _ _ _ _ _ R1)) as [_ Ec]. destruct (an_len _ _ (ar_anchored _ _ _ _ _ Hr)) as [_ Ec0].
  destruct (lookup_lt_is_Some_2 (chains L2) b) as [l2 Hb2]; [apply lookup_lt_Some in Hb; lia|].
  exists l2. split; [unfold run_evict, mbind, m_bind; by rewrite E|].
  destruct (swept_ok integrity hash_key cfg xs w w2 L L2 es es2 Hk R1 R2) as (Hk2 & _ & _).
  unfold evictions in R6. injection R6 as E1 E2.
  assert (dropping w2 L2) as Hd2.
  { eapply dropping_swept; [exact Hr|exact R2|done| |done]. rewrite E1, E2. by rewrite (dp_evictions _ _ _ _ Hd). }
  assert (forall y h, header_at y w2 = Some h -> ref_count h = 0) as Hu2.
  { intros y h Eh. pose proof (sw_pins _ _ _ _ _ _ _ _ R2 y) as Ep. rewrite Eh in Ep.
    destruct (header_at y w) as [h0|] eqn:E0; [|done]. apply (inj Some) in Ep. unfold pins in Ep. injection Ep as -> _ _.
    by eapply Hu. }
  assert (forall ys, List.filter (fun x => negb (pinned w x)) ys = ys) as Hall.
  { assert (forall x, pinned w x = false) as Hn.
    { intros x. unfold pinned. destruct (header_at x w) as [h|] eqn:Eh; [|done]. by rewrite (Hu x h Eh). }
    induction ys as [|x ys IH]; [done|]. cbn. by rewrite Hn, IH. }
  rewrite Hall in R4. pose proof (sw_free _ _ _ _ _ _ _ _ R2) as Hst. rewrite Hall in Hst.
  assert (length l <= length xs + length l2)%nat as Hlen.
  { rewrite <- length_app. apply submseteq_length, NoDup_submseteq.
    - eapply chain_nodup; [apply (ar_shape _ _ _ _ _ Hr)|exact Hb].
    - intros y Hy. rewrite elem_of_app. destruct (decide (y ∈ xs)) as [|Hyx]; [by left|right].
      exact (swept_stays xs w w2 L L2 es es2 b l l2 y Hr R1 R2 Hb Hb2 Hy Hyx). }
  rewrite Eq in Htwo. cbn in Htwo. destruct r as [u|er].
  - split.
    + split; [done|done|done| |by rewrite R5|done].
      destruct (Hst (dp_spare _ _ _ _ Hd)) as (-> & _). rewrite Eq. cbn. lia.
    + eapply stocked_counts; [exact Hst|apply Hd|done|].
      pose proof (swept_length integrity hash_key cfg xs w w2 L L2 es es2 Hr R2) as Hlx. pose proof (sh_cap _ _ _ _ (ar_shape _ _ _ _ _ Hr)) as Hcap.
      change Location.MAX_SEGMENTS with 262142 in Hcap. lia.
  - exfalso. destruct R4 as [-> Hl]. destruct Hl as [Hl|(e & Ep & Hsel)]; [by rewrite Hpolicy in Hl|].
    destruct (two_evictable w2 L2 es2 b l2 R1 Hb2 ltac:(cbn in Hlen; lia) Hu2) as (i & Hi & Hev).
    destruct (proj1 (random_finds_any (headers w2) (map TtlBuckets.head (buckets w2)) now e
      ltac:(intros E0; rewrite E0 in Hi; unfold Eviction.cap in Hi; cbn in Hi; lia))) as (r' & e' & Es & Hr').
    { by rewrite Ep, R5. }
    rewrite Hsel in Es. injection Es as <- <-. rewrite (proj1 Hr' eq_refl i Hi) in Hev. done.
Qed.

Lemma bind_step {A B} (m : @Segments.M (Index unit) A) (k : A -> @Segments.M (Index unit) B) w a w' :
  m w = Some (a, w') -> (x ← m; k x) w = k a w'.
Proof. intros E. unfold mbind, m_bind. by rewrite E. Qed.

(** One attempt, and where it leaves the cache. *)
Lemma stall_lap secs w L es (l : list Z) :
  let b := Z.to_nat (get_bucket_index secs) in
  stalls b w L es l ->
  exists w' L' es' l', stalls b w' L' es' l' /\ freed w' <> freed w /\
    forall laps retries key value optional,
      reserve_retry integrity debug_assertions hash_key crc32 cfg now (S laps) retries key value optional secs size Main w =
      reserve_retry integrity debug_assertions hash_key crc32 cfg now laps retries key value optional secs size Main w'.
Proof.
  intros b Hs. destruct (stall_reserve secs w L es l Hs) as (w1 & L1 & l1 & E1 & Hs1 & Eq & Ef).
  destruct (stall_evict b w1 L1 es l1 Hs1 Eq) as (w2 & L2 & es2 & l2 & E2 & Hs2 & Hf).
  exists w2, L2, es2, l2. split; [done|]. split; [congruence|]. intros laps retries key value optional.
  cbn [reserve_retry]. rewrite (bind_step _ _ w _ w1 E1), (bind_step (gets freed) _ w1 _ w1 eq_refl).
  rewrite (bind_step _ _ w1 _ w2 E2), (bind_step (gets freed) _ w2 _ w2 eq_refl).
  rewrite (proj2 (Z.eqb_neq (freed w2) (freed w1))) by done. done.
Qed.

Lemma stall_laps n secs w L es (l : list Z) :
  let b := Z.to_nat (get_bucket_index secs) in
  stalls b w L es l ->
  exists w' L' es' l', stalls b w' L' es' l' /\
    forall laps retries key value optional,
      reserve_retry integrity debug_assertions hash_key crc32 cfg now (n + laps) retries key value optional secs size Main w =
      reserve_retry integrity debug_assertions hash_key crc32 cfg now laps retries key value optional secs size Main w'.
Proof.
  intros b. revert w L es l. induction n as [|n IH]; intros w L es l Hs; [by exists w, L, es, l|].
  destruct (stall_lap secs w L es l Hs) as (w1 & L1 & es1 & l1 & Hs1 & _ & E1).
  destruct (IH w1 L1 es1 l1 Hs1) as (w2 & L2 & es2 & l2 & Hs2 & E2).
  exists w2, L2, es2, l2. split; [done|]. intros laps retries key value optional. cbn [Nat.add]. by rewrite E1, E2.
Qed.
End Stall.
