(* ===== verification/CacheThms.v ===== *)
(** * Theorems about the cache

    The cache as its clients see it, under the policies that drop segments:
    every operation returns and does what the map of keys to slots allows, and
    from construction on a lookup that hits returns what was last written. *)
From S2P Require Import Prelude Packing Atomics Table TableSpec TableThms HashIface HashSeq HashProbe.
From S2P Require Import F64 KvItem KvItemSpec TtlBuckets Eviction SegState SegHeader SegHeaderSpec Segment SegmentSpec Segments SegmentsBuilder.
From S2P Require Import Segcache HeapRules HeapShape HeapContents HeapDrain HeapClear HeapItems HeapEvict HeapRemove HeapReserve HeapBuild.
From S2P Require Import CacheLookup CacheState CacheDelete CacheNumeric CacheReserve CacheAppend CacheInsert CachePublish CacheCas CacheOps CacheStall.

Section Theorems.
Context (integrity debug_assertions : bool) (hash_key crc32 : bytes -> Z) (backoff_completed : nat -> bool).

#[local] Hint Extern 0 (Hashtable (Index unit)) => exact (index_hashtable hash_key) : typeclass_instances.
#[local] Hint Extern 0 (LawfulHashtable (Index unit)) => exact (index_lawful hash_key) : typeclass_instances.

Implicit Types (w : Cache) (L : Layout) (es : Z -> list Entry) (k : bytes).

(** ** Construction *)

Lemma new_table_empty power seed t :
  new_table power seed = Some t ->
  index_inv hash_key t /\ forall k l, get_item_frequency t k l = None.
Proof.
  unfold new_table. destruct (with_choices power 2 tt) as [[tb m]|] eqn:E; [|done]. cbn [mbind option_bind].
  intros Et. injection Et as <-. destruct (index_new hash_key power 2 tt tb m E) as [Hi Hn].
  destruct seed as [seed|]; [|done].
  assert (similar (mkIndex tb m) (mkIndex tb (mkTMem (Table.buckets m) seed (world m)))) as Hs.
  { split; [done|]. split; [done|done|]. intros b i. by left. }
  split; [by eapply similar_inv|]. intros k l.
  destruct (get_item_frequency (mkIndex tb (mkTMem (Table.buckets m) seed (world m))) k l) as [f|] eqn:Ef; [|done]. exfalso.
  assert (published hash_key (mkIndex tb m) k l) as [f' Hf'].
  { apply (similar_published hash_key (mkIndex tb m) _ k l Hs). by exists f. }
  change (get_item_frequency (mkIndex tb m) k l = Some f') in Hf'. by rewrite Hn in Hf'.
Qed.

Record buildable_cache (b : Builder) : Prop := {
  bc_power : 7 <= hash_power b < 35;
  bc_segments : buildable integrity (segments_builder b)
}.

Lemma cache_built map_anon now b :
  buildable_cache b -> (forall n, map_anon n = Some (replicate (Z.to_nat n) 0)) ->
  exists cfg w, build_cache integrity map_anon now b = Some (inl (cfg, w)) /\
    policy cfg = b_policy (segments_builder b) /\ segment_size cfg = b_segment_size (segments_builder b) /\
    cache_ok integrity hash_key cfg w built_layout (fun _ => []) /\ dropping cfg now w built_layout /\
    forall k, contents_of integrity hash_key cfg w (fun _ => []) k = None.
Proof.
  intros [Hp Hb] Hmap. unfold build_cache.
  assert (exists t, new_table (hash_power b) (b_seed (segments_builder b)) = Some t) as [t Et].
  { unfold new_table, with_choices, MAX_CHOICES. rewrite (proj2 (Z.leb_le _ _)) by lia.
    rewrite (proj2 (Z.ltb_lt (hash_power b - 3) 32)) by lia. cbn. eauto. }
  rewrite Et. cbn [mbind option_bind]. destruct (new_table_empty _ _ _ Et) as [Hi Hn].
  exists (built_config (segments_builder b)), (built_world integrity now (segments_builder b) t).
  split; [by apply build_eq|]. split; [done|]. split; [done|].
  destruct (built_at_rest (LH := index_lawful hash_key) integrity now (segments_builder b) t Hb Hi Hn) as [Hr Hk].
  assert (cache_ok integrity hash_key (built_config (segments_builder b)) (built_world integrity now (segments_builder b) t)
    built_layout (fun _ => [])) as Hok.
  { split; [done| |].
    - intros y h Eh. erewrite built_header in Eh by done. case_decide; [|done]. by injection Eh as <-.
    - intros k x off e h x' off' e' h' [_ _ K _ _] _. by apply not_elem_of_nil in K. }
  split; [done|]. split.
  - split; [done|cbn; lia|done|]. intros y h Hy.
    assert (mjoin (chains built_layout) = ([] : list Z)) as E by by vm_compute.
    rewrite E in Hy. by apply not_elem_of_nil in Hy.
  - intros k. apply (contents_none integrity hash_key _ _ built_layout _ k Hok). intros x off e h [_ _ K _ _].
    by apply not_elem_of_nil in K.
Qed.

(** ** Operations *)

Section Operations.
Context (cfg : Config) (Hcrc : forall b, fits 32 (crc32 b)) (Hdrops : drops cfg = true).

(** C2. From a consistent cache every operation of [Segcache] that is asked for
    returns, leaves a consistent cache, and does what a map of keys to slots
    allows that may forget: a lookup shows the slot of its key, token included,
    unless its time is over; an insert that succeeds maps the key to what was
    given, with a deadline at most the bucket's time away, and one that fails
    says why; a [cas] does the same exactly for the token of a live item, unless
    making room evicts that item, and else says whether there is one; a deletion,
    or arithmetic, changes the one key, and arithmetic its token; a conversion
    creates a number under a key that has nothing, or makes text a number; expiry
    forgets only what is over, clearing everything. Only what stores an item may
    forget other keys. *)
Theorem cache_refines fuel now op w L es :
  (4 <= fuel)%nat -> cache_ok integrity hash_key cfg w L es -> dropping cfg now w L -> asked integrity cfg op ->
  exists r w' L' es',
    perform integrity debug_assertions hash_key crc32 backoff_completed cfg now fuel op w = Some (r, w') /\
    cache_ok integrity hash_key cfg w' L' es' /\ dropping cfg now w' L' /\
    allowed now (size_for integrity) (contents_of integrity hash_key cfg w es) op r
      (contents_of integrity hash_key cfg w' es').
Proof.
  intros Hf Hk Hd Ha. do 4 (destruct fuel as [|fuel]; [lia|]).
  destruct (wp_elim _ _ w (wp_perform integrity debug_assertions hash_key crc32 Hcrc backoff_completed cfg now w L es op fuel
    Hdrops Hk Hd Ha)) as (r & w' & E & L' & es' & ?).
  by exists r, w', L', es'.
Qed.

(** C9. Arithmetic outdates tokens: a [cas] with the token a number had before it
    was changed is refused with [Exists], and leaves the changed number, and
    every other key, as they are. *)
Theorem stale_token_refused fuel now w L es k rhs (add : bool) v o secs s n :
  (4 <= fuel)%nat -> cache_ok integrity hash_key cfg w L es -> dropping cfg now w L ->
  0 <= rhs -> asked integrity cfg (Cas k v o secs (sl_token s)) ->
  alive now (contents_of integrity hash_key cfg w es) k = Some s -> sl_value s = U64 n ->
  exists n' w1 w2 L' es',
    perform integrity debug_assertions hash_key crc32 backoff_completed cfg now fuel
      (if add then WrappingAdd k rhs else SaturatingSub k rhs) w = Some (Number (inl n'), w1) /\
    perform integrity debug_assertions hash_key crc32 backoff_completed cfg now fuel
      (Cas k v o secs (sl_token s)) w1 = Some (Stored (inr Exists), w2) /\
    cache_ok integrity hash_key cfg w2 L' es' /\
    (exists token, contents_of integrity hash_key cfg w2 es' k =
       Some (mkSlot (U64 n') (sl_optional s) (sl_deadline s) token) /\ token <> sl_token s) /\
    forall k', k' <> k -> contents_of integrity hash_key cfg w2 es' k' = contents_of integrity hash_key cfg w es k'.
Proof.
  intros Hf Hk Hd Hrhs Ha Hal Hn. do 4 (destruct fuel as [|fuel]; [lia|]).
  set (op := if add then WrappingAdd k rhs else SaturatingSub k rhs).
  assert (asked integrity cfg op) as Hop by by destruct add.
  destruct (wp_elim _ _ w (wp_perform integrity debug_assertions hash_key crc32 Hcrc backoff_completed cfg now w L es op fuel
    Hdrops Hk Hd Hop)) as (r & w1 & E1 & L1 & es1 & Hk1 & Hd1 & Hal1).
  destruct (allowed_arithmetic _ _ _ _ _ _ _ _ _ _ Hal1 Hal Hn) as (n' & token & -> & Htok & Ho & Hm & Hal').
  destruct (wp_elim _ _ w1 (wp_perform integrity debug_assertions hash_key crc32 Hcrc backoff_completed cfg now w1 L1 es1
    (Cas k v o secs (sl_token s)) fuel Hdrops Hk1 Hd1 Ha)) as (r2 & w2 & E2 & L2 & es2 & Hk2 & Hd2 & Hal2).
  destruct (allowed_stale _ _ _ _ _ _ _ _ _ _ _ Hal2 Hal') as [-> Hs]; [by apply not_eq_sym|].
  exists n', w1, w2, L2, es2. split; [exact E1|]. split; [exact E2|]. split; [done|]. split.
  - exists token. by rewrite Hs.
  - intros k' Hne. rewrite Hs. by apply Ho.
Qed.

(** C10. A number whose time is over and that is still there counts as present for
    [try_into_numeric], and as missing for what comes next: the conversion
    succeeds without creating anything, and the arithmetic it is to prepare finds
    no item. *)
Theorem expired_number_not_created fuel now w L es k initial secs rhs s n :
  (4 <= fuel)%nat -> cache_ok integrity hash_key cfg w L es -> dropping cfg now w L ->
  asked integrity cfg (TryIntoNumeric k initial secs) ->
  contents_of integrity hash_key cfg w es k = Some s -> sl_value s = U64 n -> expired_slot now s = true ->
  exists w1 w2,
    perform integrity debug_assertions hash_key crc32 backoff_completed cfg now fuel (TryIntoNumeric k initial secs) w =
      Some (Stored (inl tt), w1) /\
    perform integrity debug_assertions hash_key crc32 backoff_completed cfg now fuel (WrappingAdd k rhs) w1 =
      Some (Number (inr NotFound), w2).
Proof.
  intros Hf Hk Hd Ha Hs Hn Hex. do 4 (destruct fuel as [|fuel]; [lia|]).
  destruct (wp_elim _ _ w (wp_perform integrity debug_assertions hash_key crc32 Hcrc backoff_completed cfg now w L es
    (TryIntoNumeric k initial secs) fuel Hdrops Hk Hd Ha)) as (r & w1 & E1 & L1 & es1 & Hk1 & Hd1 & Hal1).
  destruct (allowed_over _ _ _ _ _ _ _ _ _ _ Hal1 Hs Hn Hex) as [-> Hsame].
  destruct (wp_elim _ _ w1 (wp_perform integrity debug_assertions hash_key crc32 Hcrc backoff_completed cfg now w1 L1 es1
    (WrappingAdd k rhs) fuel Hdrops Hk1 Hd1 I)) as (r2 & w2 & E2 & L2 & es2 & Hk2 & Hd2 & Hal2).
  rewrite (allowed_missing _ _ _ _ _ _ _ Hal2) in E2; [by exists w1, w2|].
  apply alive_none. right. exists s. by rewrite Hsame.
Qed.

(** C8. A lookup hits exactly when the key has an item whose time is not over. The
    item it hands out pins its segment once, whatever else was pinned, and reads
    as key, value and optional data that were stored, with the token of its slot; dropping it takes the pin
    back, and the map is the same before, between and after. *)
Theorem get_pins fuel now k update_freq w L es :
  (1 <= fuel)%nat -> cache_ok integrity hash_key cfg w L es ->
  exists r w', get_pinned integrity debug_assertions hash_key fuel cfg now k update_freq w = Some (r, w') /\
    cache_ok integrity hash_key cfg w' L es /\
    (forall k', contents_of integrity hash_key cfg w' es k' = contents_of integrity hash_key cfg w es k') /\
    match r with
    | None => alive now (contents_of integrity hash_key cfg w es) k = None /\
        forall y, header_at y w' = header_at y w
    | Some i => exists s h, alive now (contents_of integrity hash_key cfg w es) k = Some s /\
        header_at (pin_seg (item_pin i)) w = Some h /\
        (forall y, header_at y w' = if decide (y = pin_seg (item_pin i)) then Some (with_ref_count (u32 (ref_count h + 1)) h)
                                    else header_at y w) /\
        item_key integrity i w' = Some (k, w') /\ item_value integrity i w' = Some (sl_value s, w') /\
        item_optional integrity i w' = Some (some_optional (sl_optional s), w') /\ item_cas i = sl_token s /\
        exists w'', drop_item integrity i w' = Some (tt, w'') /\ forall y, header_at y w'' = header_at y w
    end.
Proof.
  intros Hf Hk. destruct fuel as [|fuel]; [lia|]. pose proof (cache_searchable integrity hash_key cfg w L es Hk) as Hs.
  eapply wp_elim, wp_get; [exact Hs|..].
  - intros w1 Hr Ha. destruct (read_ok integrity hash_key cfg w w1 L es Hk Hr) as [Hk1 Hc1].
    split; [done|]. split; [done|]. split; [by eapply none_alive|]. by destruct Hr as (t & -> & _).
  - intros w1 l x off e h m d hit Hh Ex.
    pose proof (hits_parts _ _ _ _ _ _ _ _ _ _ _ _ _ _ _ Hs Hh) as (Hs1 & Hl1 & _ & Hl2 & Hs2).
    pose proof Hh as (Hr & Hl & Ek & _). destruct (read_ok integrity hash_key cfg w w1 L es Hk Hr) as [Hk1 Hc1].
    assert (forall y, header_at y w1 = header_at y w) as Eh by by destruct Hr as (t & -> & _).
    pose proof (li_header _ _ _ _ _ _ _ _ _ _ _ _ Hl1) as Ehx.
    assert (x ∈ mjoin (chains L)) as Hx by (eapply placed_chained; [apply (ck_rest _ _ _ _ _ _ Hk)|apply Hl]).
    destruct (repinned_ok integrity hash_key cfg w1 x add_ref L es Hk1 Hx) as [Hk2 Hc2].
    { intros h0 _. by apply wrap_fits. } { by intros []. }
    split; [done|]. split; [intros k'; by rewrite Hc2|]. exists (slot_for x off e h), h.
    split; [rewrite <- Ek; by eapply hit_alive|]. split; [by rewrite <- Eh|]. split.
    { intros y. rewrite header_edit. cbn [item_pin pin_seg]. case_decide; [subst y; by rewrite Ehx|done]. }
    destruct (wp_item_reads _ _ _ _ _ _ _ _ _ _ _ _ (token_of e l (generation h)) Hl2) as (Hkey & Hv & Ho).
    destruct (wp_elim _ _ _ Hkey) as (? & ? & Ekey & -> & ->), (wp_elim _ _ _ Hv) as (? & ? & Ev & -> & ->),
      (wp_elim _ _ _ Ho) as (? & ? & Eo & -> & ->).
    rewrite Ek in Ekey. split; [exact Ekey|]. split; [exact Ev|]. split; [exact Eo|].
    split; [cbn [item_cas]; by erewrite slot_token|].
    destruct (wp_elim (drop_item integrity (mkItem (mkPin x off) (token_of e l (generation h)))) (fun _ w2 => w2 = w1)
      (edit x add_ref w1)) as ([] & w2 & Ed & ->).
    { unfold drop_item. cbn [item_pin]. by eapply wp_unpin; [apply Hl1..|]. }
    exists w1. split; [exact Ed|exact Eh].
Qed.

(** C7. The policy is [Random], one thread runs, no segment is pinned, and the
    bucket of the item has two segments, or will have, with the free ones. An
    insert of an item that fits a segment, but not behind the magic bytes a
    segment starts with when item integrity is on, passes the size check and
    never returns: every attempt ends in a cache that is consistent and where
    the next attempt goes the same way. (With no policy, or a heap of one
    segment, it answers [NoFreeSegments].) *)
Theorem full_segment_item_stalls now k v o secs w L es l :
  let e := new_entry k v (default [] o) in
  Segments.policy cfg = PolicyRandom ->
  entry_size integrity e <= segment_size cfg < first_offset integrity + entry_size integrity e ->
  stalls integrity hash_key cfg now (Z.to_nat (get_bucket_index (coarse_ttl secs))) w L es l ->
  (forall fuel, insert integrity debug_assertions hash_key crc32 backoff_completed fuel cfg now k v o secs w = None) /\
  forall n, exists w' L' es', cache_ok integrity hash_key cfg w' L' es' /\ forall laps,
    reserve_retry integrity debug_assertions hash_key crc32 cfg now (n + laps) RESERVE_RETRIES k v (default [] o)
      (coarse_ttl secs) (entry_size integrity e) Main w =
    reserve_retry integrity debug_assertions hash_key crc32 cfg now laps RESERVE_RETRIES k v (default [] o)
      (coarse_ttl secs) (entry_size integrity e) Main w'.
Proof.
  intros e Hp Hsz Hs. assert (0 < entry_size integrity e) as Hpos by (pose proof (entry_size_bound integrity e); lia).
  split.
  - intros [|fuel]; [done|]. unfold insert. cbn [insert_loop]. unfold reserve_and_define, route. rewrite Hp.
    destruct (stall_laps integrity debug_assertions hash_key crc32 cfg now _ Hsz Hpos Hp (S fuel) _ w L es l Hs)
      as (w' & _ & _ & _ & _ & E).
    specialize (E 0%nat RESERVE_RETRIES k v (default [] o)). rewrite Nat.add_0_r in E.
    unfold mbind, m_bind, mret, m_ret. change (item_size integrity (blen k) v (blen (default [] o))) with (entry_size integrity e).
    by rewrite E.
  - intros n. destruct (stall_laps integrity debug_assertions hash_key crc32 cfg now _ Hsz Hpos Hp n _ w L es l Hs)
      as (w' & L' & es' & l' & [Hk' _ _ _ _ _] & E).
    exists w', L', es'. split; [done|]. intros laps. apply E.
Qed.
End Operations.

(** C1. From construction on, whatever is asked of the cache and in whatever order,
    as long as the clock does not go back: every operation returns, and every
    lookup that hits shows what was last written under its key, by an insert, a
    [cas], a conversion or by arithmetic, and not deleted or cleared since. *)
Theorem hits_are_last_writes map_anon now b fuel evs :
  (forall x, fits 32 (crc32 x)) -> buildable_cache b -> (forall n, map_anon n = Some (replicate (Z.to_nat n) 0)) ->
  exists cfg w, build_cache integrity map_anon now b = Some (inl (cfg, w)) /\
    (drops cfg = true -> (4 <= fuel)%nat -> in_order integrity cfg now evs ->
     exists rs w', play integrity debug_assertions hash_key crc32 backoff_completed cfg fuel evs w = Some (rs, w') /\
       length rs = length evs /\
       forall i t k r token, evs !! i = Some (t, Get k) -> rs !! i = Some (Got (Some (r, token))) ->
         Some r ∈ last_writes k (zip (take i (map snd evs)) (take i rs))).
Proof.
  intros Hcrc Hb Hmap. destruct (cache_built map_anon now b Hb Hmap) as (cfg & w & E & _ & _ & Hk & Hd & Hn).
  exists cfg, w. split; [exact E|]. intros Hdr Hf Ho. do 4 (destruct fuel as [|fuel]; [lia|]).
  destruct (wp_elim _ _ w (wp_play integrity debug_assertions hash_key crc32 Hcrc backoff_completed cfg fuel evs now w built_layout
    (fun _ => []) [] Hdr Hk Hd Ho ltac:(intros k s Es; by rewrite Hn in Es))) as (rs & w' & Er & [Hlen Hh] & _).
  exists rs, w'. split; [exact Er|]. split; [by rewrite Hlen, length_map|].
  intros i t k r token Ei Er'. apply (Hh i k r token); [|done]. by rewrite list_lookup_fmap, Ei.
Qed.
End Theorems.

(** ** Three segments of 128 bytes *)
Module CacheDemo.
Import TableThms.Demo.

Definition crc (_ : bytes) : Z := 0.
Definition never (_ : nat) : bool := false.

Definition three : Builder := mkCacheBuilder 7 (F64.of_Z 0) (mkBuilder 384 128 Eviction.Fifo None).

Definition zeros (n : Z) : option bytes := Some (replicate (Z.to_nat n) 0).

Lemma three_buildable : buildable_cache true three.
Proof. split; [cbn; lia|]. split; vm_compute; intuition congruence. Qed.

Definition name : bytes := [110; 97; 109; 101].
Definition visits : bytes := [118].

Definition digits : bytes := [100].

Definition events : list (Z * Op) :=
  [ (1, Insert name (Bytes [114; 117; 115; 116]) (Some [1]) 100);
    (1, Get name);
    (2, Insert visits (U64 41) None 100);
    (2, Get visits);
    (2, WrappingAdd visits 1);
    (3, Cas visits (U64 7) None 100 67108868);
    (3, Get visits);
    (3, Cas visits (U64 7) None 100 4354685564869736494);
    (3, Get visits);
    (3, WrappingAdd name 1);
    (4, Cas name (Bytes [99; 111; 113]) None 10 67108865);
    (4, Get name);
    (4, Insert digits (Bytes [55; 55]) None 100);
    (5, Delete visits);
    (5, Get visits);
    (20, TryIntoNumeric digits 5 50);
    (20, Get digits);
    (30, Get name);
    (30, Expire);
    (92, Get digits);
    (92, TryIntoNumeric digits 5 50);
    (92, WrappingAdd digits 1);
    (93, Insert visits (Bytes (replicate 200 7)) None 100);
    (93, Clear) ].

Definition cache : Config * Cache :=
  match build_cache true zeros 0 three with
  | Some (inl c) => c
  | _ => (mkConfig 0 0 Eviction.Fifo 0 0, mkWorld [] [] [] 0 [] 0 0 (new_eviction 0 Eviction.Fifo None 0) 0 0 [] 0 (mkIndex table (mkTMem [] 0 tt)))
  end.

Lemma cache_eq : build_cache true zeros 0 three = Some (inl cache).
Proof. by vm_compute. Qed.

Definition all_bytes (b : bytes) : bool := forallb (fun x => (0 <=? x) && (x <? 256)) b.

Lemma all_bytes_ok b : all_bytes b = true -> Forall is_byte b.
Proof.
  unfold all_bytes. rewrite forallb_forall, Forall_forall. intros H x Hx%list_elem_of_In. specialize (H x Hx).
  rewrite andb_true_iff, Z.leb_le, Z.ltb_lt in H. exact H.
Qed.

Lemma insertable_looks k v o :
  all_bytes k && all_bytes o && (0 <? blen k) && (blen k <=? 255) && (blen o <=? 63) &&
  match v with
  | Bytes b => all_bytes b && (blen b <? 2 ^ 32)
  | U64 n => (0 <=? n) && (n <? 2 ^ 64)
  end = true -> insertable k v o.
Proof.
  rewrite !andb_true_iff, Z.ltb_lt, !Z.leb_le. intros [[[[[Hk Ho] ?] ?] ?] Hv].
  split; [split; [done|done|]|done|by apply all_bytes_ok..].
  destruct v as [b|n]; rewrite andb_true_iff, Z.ltb_lt in Hv; destruct Hv as [Hv ?].
  - split; [by apply all_bytes_ok|]. split; [apply blen_nonneg|done].
  - rewrite Z.leb_le in Hv. by split.
Qed.

(** Whatever is converted here fits a segment. *)
Lemma digits_storable n o : blen o <= 63 -> storable true (fst cache) (size_for true digits (U64 n) o).
Proof.
  intros Ho. right. pose proof (blen_nonneg o).
  assert (forallb (fun b => first_offset true + item_size true (blen digits) (U64 n) b <=? segment_size (fst cache)) (seqZ 0 64) = true) as Hall
    by by vm_compute.
  rewrite forallb_forall in Hall. specialize (Hall (blen o)). apply Z.leb_le, Hall, list_elem_of_In, elem_of_seqZ. lia.
Qed.

Lemma events_in_order : in_order true (fst cache) 0 events.
Proof.
  repeat (split; [lia|]; split; [|]); try exact I.
  all: cbn [asked]; split; [|first [intros n o; apply digits_storable | by vm_compute; intuition congruence]].
  all: by apply insertable_looks; vm_compute.
Qed.

Lemma cache_parts cfg w : build_cache true zeros 0 three = Some (inl (cfg, w)) -> cfg = fst cache /\ w = snd cache.
Proof.
  rewrite cache_eq. intros E. apply (f_equal (fun o => match o with Some (inl c) => c | _ => cache end)) in E.
  cbv beta iota in E. by rewrite E.
Qed.

(** What the history gives. *)
Example plays :
  fst <$> play true true hash crc never (fst cache) 4 events (snd cache) = Some
    [ Stored (inl tt); Got (Some (Bytes [114; 117; 115; 116], Some [1], 67108865)); Stored (inl tt);
      Got (Some (U64 41, None, 67108868)); Number (inl 42); Stored (inr Exists); Got (Some (U64 42, None, 4354685564869736494));
      Stored (inl tt); Got (Some (U64 7, None, 67108873)); Number (inr NotNumeric); Stored (inl tt);
      Got (Some (Bytes [99; 111; 113], None, 134217729)); Stored (inl tt); Deleted true; Got None; Stored (inl tt);
      Got (Some (U64 77, None, 201326593)); Got None; Count 1; Got None; Stored (inl tt); Number (inr NotFound);
      Stored (inr (ItemOversized 216)); Count 2 ].
Proof. by vm_compute. Qed.

(** Two items written together; the one that is converted is gone before the other. *)
Definition conversion : list (Z * Op) :=
  [ (1, Insert name (Bytes [114]) None 100); (1, Insert digits (Bytes [55; 55]) None 100); (20, TryIntoNumeric digits 5 50);
    (91, Get digits); (92, Get digits); (96, Get name); (97, Get name) ].

Example converted_ends_early :
  fst <$> play true true hash crc never (fst cache) 4 conversion (snd cache) = Some
    [ Stored (inl tt); Stored (inl tt); Stored (inl tt); Got (Some (U64 77, None, 134217729)); Got None;
      Got (Some (Bytes [114], None, 67108865)); Got None ].
Proof. by vm_compute. Qed.

Lemma hits_are_last_writes_witness :
  exists rs w', play true true hash crc never (fst cache) 4 events (snd cache) = Some (rs, w') /\
    length rs = length events /\
    forall i t k r token, events !! i = Some (t, Get k) -> rs !! i = Some (Got (Some (r, token))) ->
      Some r ∈ last_writes k (zip (take i (map snd events)) (take i rs)).
Proof.
  destruct (hits_are_last_writes true true hash crc never zeros 0 three 4 events) as (cfg & w & E & H).
  - intros x. by vm_compute.
  - exact three_buildable.
  - done.
  - destruct (cache_parts cfg w E) as [-> ->]. apply H.
    + by vm_compute.
    + lia.
    + exact events_in_order.
Defined.

(** One item, at second 1. *)
Definition first_insert (op : Op) : option (Result * Cache) :=
  perform true true hash crc never (fst cache) 1 4 op (snd cache).

Lemma first_insert_ok k v o secs :
  asked true (fst cache) (Insert k v o secs) -> fst <$> first_insert (Insert k v o secs) = Some (Stored (inl tt)) ->
  exists w L es t token, first_insert (Insert k v o secs) = Some (Stored (inl tt), w) /\
    cache_ok true hash (fst cache) w L es /\ dropping (fst cache) 1 w L /\
    contents_of true hash (fst cache) w es k = Some (mkSlot v (default [] o) t token) /\
    deadline_within 1 (coarse_ttl secs) t.
Proof.
  intros Ha Er. destruct (cache_built true hash zeros 0 three three_buildable ltac:(done)) as (cfg & w & E & _ & _ & Hk & Hd & _).
  destruct (cache_parts cfg w E) as [-> ->].
  assert (wp (perform true true hash crc never (fst cache) 1 4 (Insert k v o secs))
    (stepped true hash (fst cache) 1 (Insert k v o secs) (snd cache) (fun _ => []))
    (snd cache)) as (r & w' & Ep & L' & es' & Hk' & Hd' & Hal)%wp_elim.
  { apply (wp_perform true true hash crc ltac:(by vm_compute) never (fst cache) 1 (snd cache) built_layout _ _ 0); [by vm_compute|done| |done].
    eapply dropping_later; [exact Hd|lia]. }
  change (first_insert (Insert k v o secs) = Some (r, w')) in Ep. rewrite Ep in Er. injection Er as ->.
  assert (inserted 1 (size_for true) k v (default [] o) (coarse_ttl secs) (contents_of true hash (fst cache) (snd cache) (fun _ => []))
    (inl tt) (contents_of true hash (fst cache) w' es')) as Hi by by inversion Hal.
  inversion Hi as [t token ? Hm Ht| | |]; subst. by exists w', L', es', t, token.
Qed.

Definition loaded : Cache :=
  match first_insert (Insert name (Bytes [114; 117; 115; 116]) (Some [1]) 100) with
  | Some (_, w) => w
  | None => snd cache
  end.

Lemma loaded_ok : exists L es, cache_ok true hash (fst cache) loaded L es /\ dropping (fst cache) 1 loaded L /\
  exists t token, contents_of true hash (fst cache) loaded es name = Some (mkSlot (Bytes [114; 117; 115; 116]) [1] t token).
Proof.
  destruct (first_insert_ok name (Bytes [114; 117; 115; 116]) (Some [1]) 100) as (w & L & es & t & token & E & Hk & Hd & Hc & _).
  - apply events_in_order.
  - by vm_compute.
  - unfold loaded. rewrite E. exists L, es. split; [exact Hk|]. split; [exact Hd|]. by exists t, token.
Qed.

Lemma within_over now secs t v o token later :
  deadline_within now secs t -> now + floor (get_bucket_index secs) <= later -> expired_slot later (mkSlot v o t token) = true.
Proof. unfold deadline_within, expired_slot. cbn. destruct t; [|done]. intros. apply Z.leb_le. lia. Qed.

(** One number, at second 1. *)
Definition counting : Cache :=
  match first_insert (Insert digits (U64 41) None 100) with
  | Some (_, w) => w
  | None => snd cache
  end.

Lemma counting_ok : exists L es s, cache_ok true hash (fst cache) counting L es /\ dropping (fst cache) 1 counting L /\
  contents_of true hash (fst cache) counting es digits = Some s /\ sl_value s = U64 41 /\
  alive 2 (contents_of true hash (fst cache) counting es) digits = Some s /\ expired_slot 200 s = true.
Proof.
  destruct (first_insert_ok digits (U64 41) None 100) as (w & L & es & t & token & E & Hk & Hd & Hc & Ht).
  { split; [by apply insertable_looks; vm_compute|]. right. by vm_compute. }
  { by vm_compute. }
  unfold counting. rewrite E. exists L, es, (mkSlot (U64 41) [] t token).
  split; [exact Hk|]. split; [exact Hd|]. split; [exact Hc|]. split; [done|]. split.
  - assert (wp (perform true true hash crc never (fst cache) 2 4 (Get digits)) (stepped true hash (fst cache) 2 (Get digits) w es) w)
      as (r & w' & Ep & L' & es' & _ & _ & Hal)%wp_elim.
    { apply (wp_perform_get true true hash crc never (fst cache) 2 w L es digits 3 Hk). eapply dropping_later; [exact Hd|lia]. }
    assert (fst <$> (first_insert (Insert digits (U64 41) None 100) ≫= fun rw =>
      perform true true hash crc never (fst cache) 2 4 (Get digits) rw.2) = Some (Got (Some (U64 41, None, 67108865)))) as Eg by by vm_compute.
    rewrite E in Eg. cbn [mbind option_bind snd] in Eg. rewrite Ep in Eg. injection Eg as ->.
    apply allowed_hit in Hal as (s & Ea & Es & _). rewrite Ea. rewrite Hc in Es. by symmetry.
  - eapply within_over; [exact Ht|]. by vm_compute.
Qed.

Lemma stale_token_refused_witness : exists L es s,
  cache_ok true hash (fst cache) counting L es /\ alive 2 (contents_of true hash (fst cache) counting es) digits = Some s /\
  exists n' w1 w2 L' es',
    perform true true hash crc never (fst cache) 2 4 (WrappingAdd digits 1) counting = Some (Number (inl n'), w1) /\
    perform true true hash crc never (fst cache) 2 4 (Cas digits (U64 7) None 100 (sl_token s)) w1 = Some (Stored (inr Exists), w2) /\
    cache_ok true hash (fst cache) w2 L' es' /\
    (exists token, contents_of true hash (fst cache) w2 es' digits =
       Some (mkSlot (U64 n') (sl_optional s) (sl_deadline s) token) /\ token <> sl_token s) /\
    forall k', k' <> digits -> contents_of true hash (fst cache) w2 es' k' = contents_of true hash (fst cache) counting es k'.
Proof.
  destruct counting_ok as (L & es & s & Hk & Hd & Hc & Hv & Ha & _). exists L, es, s. split; [exact Hk|]. split; [exact Ha|].
  apply (stale_token_refused true true hash crc never (fst cache) ltac:(by vm_compute) ltac:(by vm_compute) 4 2 counting L es digits 1 true
    (U64 7) None 100 s 41); [lia|exact Hk|eapply dropping_later; [exact Hd|lia]|lia| |exact Ha|exact Hv].
  split; [by apply insertable_looks; vm_compute|]. right. by vm_compute.
Defined.

Lemma expired_number_not_created_witness : exists L es s,
  cache_ok true hash (fst cache) counting L es /\ contents_of true hash (fst cache) counting es digits = Some s /\
  exists w1 w2,
    perform true true hash crc never (fst cache) 200 4 (TryIntoNumeric digits 5 50) counting = Some (Stored (inl tt), w1) /\
    perform true true hash crc never (fst cache) 200 4 (WrappingAdd digits 1) w1 = Some (Number (inr NotFound), w2).
Proof.
  destruct counting_ok as (L & es & s & Hk & Hd & Hc & Hv & _ & Hex). exists L, es, s. split; [exact Hk|]. split; [exact Hc|].
  apply (expired_number_not_created true true hash crc never (fst cache) ltac:(by vm_compute) ltac:(by vm_compute) 4 200 counting L es digits 5 50 1 s 41);
    [lia|exact Hk|eapply dropping_later; [exact Hd|lia]| |exact Hc|exact Hv|exact Hex].
  split; [by apply insertable_looks; vm_compute|]. intros n o. apply digits_storable.
Defined.

Definition renamed : Op := Insert name (Bytes [99; 111; 113]) None 10.

Lemma cache_refines_witness : exists L es,
  cache_ok true hash (fst cache) loaded L es /\ is_Some (contents_of true hash (fst cache) loaded es name) /\
  exists r w' L' es', perform true true hash crc never (fst cache) 2 4 renamed loaded = Some (r, w') /\
    cache_ok true hash (fst cache) w' L' es' /\ dropping (fst cache) 2 w' L' /\
    allowed 2 (size_for true) (contents_of true hash (fst cache) loaded es) renamed r
      (contents_of true hash (fst cache) w' es').
Proof.
  destruct loaded_ok as (L & es & Hk & Hd & t & token & Et). exists L, es. split; [exact Hk|]. split; [by eexists|].
  apply (cache_refines true true hash crc never (fst cache)) with (L := L).
  - by vm_compute.
  - by vm_compute.
  - lia.
  - exact Hk.
  - by eapply dropping_later.
  - split; [by apply insertable_looks; vm_compute|]. right. by vm_compute.
Defined.

Lemma get_pins_witness : exists L es,
  cache_ok true hash (fst cache) loaded L es /\ is_Some (contents_of true hash (fst cache) loaded es name) /\
  exists r w', get_pinned true true hash 1 (fst cache) 2 name true loaded = Some (r, w') /\
    cache_ok true hash (fst cache) w' L es /\
    (forall k', contents_of true hash (fst cache) w' es k' = contents_of true hash (fst cache) loaded es k') /\
    match r with
    | None => alive 2 (contents_of true hash (fst cache) loaded es) name = None /\
        forall y, header_at y w' = header_at y loaded
    | Some i => exists s h, alive 2 (contents_of true hash (fst cache) loaded es) name = Some s /\
        header_at (pin_seg (item_pin i)) loaded = Some h /\
        (forall y, header_at y w' = if decide (y = pin_seg (item_pin i)) then Some (with_ref_count (u32 (ref_count h + 1)) h)
                                    else header_at y loaded) /\
        item_key true i w' = Some (name, w') /\ item_value true i w' = Some (sl_value s, w') /\
        item_optional true i w' = Some (some_optional (sl_optional s), w') /\ item_cas i = sl_token s /\
        exists w'', drop_item true i w' = Some (tt, w'') /\ forall y, header_at y w'' = header_at y loaded
    end.
Proof.
  destruct loaded_ok as (L & es & Hk & Hd & t & token & Et). exists L, es. split; [exact Hk|]. split; [by eexists|].
  apply (get_pins true true hash (fst cache) 1 2 name true loaded L es); [lia|exact Hk].
Defined.

(** The same segments under [Random]; an item of 128 bytes. *)
Definition three_random : Builder := mkCacheBuilder 7 (F64.of_Z 0) (mkBuilder 384 128 PolicyRandom None).

Definition random_cache : Config * Cache :=
  match build_cache true zeros 0 three_random with
  | Some (inl c) => c
  | _ => cache
  end.

Definition as_large : Value := Bytes (replicate 109 7).

Lemma full_segment_item_stalls_witness :
  entry_size true (new_entry name as_large []) = segment_size (fst random_cache) /\
  (forall fuel, insert true true hash crc never fuel (fst random_cache) 0 name as_large None 100 (snd random_cache) = None) /\
  forall n, exists w' L' es', cache_ok true hash (fst random_cache) w' L' es' /\ forall laps,
    reserve_retry true true hash crc (fst random_cache) 0 (n + laps) RESERVE_RETRIES name as_large []
      (coarse_ttl 100) (entry_size true (new_entry name as_large [])) Main (snd random_cache) =
    reserve_retry true true hash crc (fst random_cache) 0 laps RESERVE_RETRIES name as_large []
      (coarse_ttl 100) (entry_size true (new_entry name as_large [])) Main w'.
Proof.
  split; [by vm_compute|].
  destruct (cache_built true hash zeros 0 three_random ltac:(split; [cbn; lia|split; vm_compute; intuition congruence]) ltac:(done))
    as (cfg & w & E & _ & _ & Hk & Hd & _).
  assert (cfg = fst random_cache /\ w = snd random_cache) as [-> ->].
  { assert (build_cache true zeros 0 three_random = Some (inl random_cache)) as E0 by by vm_compute.
    rewrite E0 in E. apply (f_equal (fun o => match o with Some (inl c) => c | _ => cache end)) in E.
    cbv beta iota in E. by rewrite E. }
  apply (full_segment_item_stalls true true hash crc never (fst random_cache) 0 name as_large None 100
    (snd random_cache) built_layout (fun _ => []) []).
  - by vm_compute.
  - vm_compute. intuition congruence.
  - split; [exact Hk|exact Hd|by vm_compute|vm_compute; lia|by vm_compute|].
    intros y h Eh. unfold header_at in Eh. destruct (y <=? 0); [done|].
    assert (Forall (fun h => ref_count h = 0) (headers (snd random_cache))) as Hall by (vm_compute; repeat constructor).
    rewrite Forall_lookup in Hall. by eapply Hall.
Defined.
End CacheDemo.
