(* ===== verification/HeapThms.v ===== *)
(** * Theorems about the heap of segments

    From a heap at rest every operation of this file returns, and leaves a heap
    at rest: construction, eviction by the policies that drop segments, expiry,
    clearing, and the reservation of space. *)
From S2P Require Import Prelude Packing Atomics HashIface HashSeq TtlBuckets Eviction EvictionSpec KvItem KvItemSpec SegState SegHeader SegHeaderSpec.
From S2P Require Import Segment SegmentSpec SegmentThms Segments SegmentsBuilder HeapRules HeapShape HeapContents HeapDrain HeapClear HeapEvict HeapReserve HeapBuild.

Lemma freed_perm (f : Z -> bool) xs ys : xs ≡ₚ ys -> length (List.filter f ys) = length (List.filter f xs).
Proof. induction 1; cbn; repeat case_match; cbn; congruence. Qed.

Section Theorems.
Context (integrity debug_assertions : bool).
Context {H : Type} `{LH : LawfulHashtable H} (cfg : Config) (now : Z).
Implicit Types (w : World H) (L : Layout) (es : Z -> list Entry).

Abbreviation at_rest := (at_rest integrity cfg).
Abbreviation swept := (swept cfg).

(** C23. [SegmentsBuilder::build], for every configuration it accepts whose
    segments hold an item behind the magic bytes, makes a heap at rest: every
    segment is free or spare, no chain has one, and no segment has an item. *)
Theorem build_at_rest map_anon b (h : H) :
  buildable integrity b -> (forall n, map_anon n = Some (replicate (Z.to_nat n) 0)) ->
  ht_inv h -> (forall k l, get_item_frequency h k l = None) ->
  exists cfg w L, build integrity map_anon now b TtlBuckets.new h = Some (inl (cfg, w)) /\
    HeapClear.at_rest integrity cfg w L (fun _ => []) /\ ranking_ok cfg w /\
    (forall b l, chains L !! b = Some l -> l = []) /\
    cap cfg * segment_size cfg = b_heap_size b /\
    Z.of_nat (length (free_queue w)) + spare_count w = cap cfg /\
    spare_count w = spare_capacity cfg.
Proof.
  intros Hb Hmap Hi He. exists (built_config b), (built_world integrity now b h), built_layout.
  destruct (segments_some integrity b Hb) as [Hn En].
  pose proof (size_pos integrity b Hb). destruct (spare_small integrity b Hb) as [Hs1 Hs2].
  split; [by apply build_eq|].
  destruct (built_at_rest integrity now b h Hb Hi He) as [Hr Hk]. split; [done|]. split; [done|]. split.
  { intros c l Hc. by apply lookup_replicate in Hc as [-> _]. }
  cbn [cap segment_size built_config free_queue spare_count built_world spare_capacity].
  split; [|split; [|done]].
  - rewrite En. destruct Hb as [_ _ _ [_ Hm] _]. pose proof (Z.div_mod (b_heap_size b) (b_segment_size b) ltac:(lia)). lia.
  - rewrite length_drop. unfold queue_of. rewrite length_map, length_seq. lia.
Qed.

(** C4. An eviction under [Random], [RandomFifo], [Fifo], [Cte] or [Util] always
    returns. When the policy selects a segment it goes: it is unlinked from its
    chain, the bucket's head follows, exactly the entries of its incarnation
    leave the hashtable, it goes to the back of a queue, and no other
    segment's items change. Otherwise nothing but the ranking does. *)
Theorem evict_dropping_spec w L es :
  at_rest w L es -> ranking_ok cfg w ->
  exists r w', evict_dropping integrity debug_assertions cfg now w = Some (r, w') /\
    ranking_ok cfg w' /\ (exists L' es', at_rest w' L' es') /\
    match r with
    | inl _ => exists b l1 l2 x, selection now w = Some (Some x, evict w') /\
        chains L !! b = Some (l1 ++ x :: l2) /\ l2 <> [] /\ pinned w x = false /\
        at_rest w' (with_chain b (l1 ++ l2) L) (upd_es x [] es) /\
        free_queue w' ++ spare_queue w' ≡ₚ x :: free_queue w ++ spare_queue w /\
        (forall k l, get_item_frequency (hashtable w') k l =
           if in_segment x w l then None else get_item_frequency (hashtable w) k l) /\
        forall y, y <> x -> erase <$> header_at y w' = erase <$> header_at y w
    | inr e => e = NoEvictableSegments /\ selection now w = Some (None, evict w') /\ w' = set_evict (evict w') w
    end.
Proof.
  intros Hr Hk.
  destruct (wp_elim _ (fun r w' => ranking_ok cfg w' /\ evicted integrity cfg now r w w' L es) w
    (wp_evict_dropping integrity debug_assertions cfg now w L es _ Hr Hk
      (fun r w' Hk' _ He => conj Hk' He))) as (r & w' & E & Hk' & He).
  exists r, w'. split; [done|]. split; [done|]. destruct r as [u|e].
  - destruct He as (b & l1 & l2 & x & Hb & Hl & Hp & Hsel & [R1 R2 R3 R4 R5]).
    split; [by do 2 eexists|]. exists b, l1, l2, x. do 4 (split; [done|]). split; [done|].
    destruct R2 as [S1 S2 S3 S4 S5 S6 S7]. split.
    { rewrite S3. cbn. change (pinned (set_evict (evict w') w) x) with (pinned w x). by rewrite Hp. }
    split.
    + intros k l. rewrite S5. unfold gone. cbn. by rewrite orb_false_r.
    + intros y Hy. rewrite S6; [done|set_solver].
  - destruct He as (-> & Hsel & Ew). split; [|done]. exists L, es. rewrite Ew. by eapply at_rest_ext.
Qed.

(** C13. [expire], once a tick: it walks every chain from its oldest segment and
    takes out the ones whose time is over, up to the first that still has
    time. Those, and no others, are emptied; the count returned is of those
    freed at once, the others being left to their readers. *)
Theorem expire_spec w L es :
  at_rest w L es ->
  exists n w', expire integrity debug_assertions cfg now w = Some (n, w') /\ last_expired w' = now /\
    if last_expired w =? now then n = 0 /\ w' = set_last_expired now w
    else exists xs L' es', at_rest w' L' es' /\ swept xs w w' L L' es es' /\
      n = freed_of w xs /\
      forall c l, chains L !! c = Some l -> exists ys rest, l = ys ++ rest /\ chains L' !! c = Some rest /\
        Forall (fun x => over now w x = true) ys /\ forall y, hd_error rest = Some y -> over now w y = false.
Proof.
  intros Hr. unfold expire. set (w0 := set_last_expired now w).
  assert (at_rest w0 L es) as Hr0 by (by eapply at_rest_ext).
  unfold mbind, m_bind, gets, modify, all_buckets. fold w0. destruct (last_expired w =? now).
  { by exists 0, w0. }
  destruct (wp_elim (drain_buckets integrity debug_assertions cfg now true (seq 0 (length (buckets w))))
    (fun n w' => exists xs L' es', drained_buckets integrity cfg now true (seq 0 (length (buckets w))) xs w0 w' L L' es es' /\
       n = freed_of w0 xs) w0) as (n & w' & E & xs & L' & es' & [D1 D2 D3 D4 D5] & En).
  { destruct (an_len _ _ (ar_anchored _ _ _ _ _ Hr)) as [Eb Ec].
    apply (wp_drain_buckets integrity debug_assertions cfg now true _ w0 L es); [done|apply NoDup_seq| |].
    - intros c Hc%elem_of_seq. lia.
    - intros xs w' L' es' Hd. by exists xs, L', es'. }
  exists n, w'. split; [exact E|]. split.
  { unfold aside in D5. by injection D5. }
  exists xs, L', es'. split; [done|]. split; [by destruct D2; split|]. split; [done|].
  intros c l Hc. destruct (an_len _ _ (ar_anchored _ _ _ _ _ Hr)) as [Eb Ec].
  destruct (D3 c l Hc) as (ys & rest & -> & Hl & Hf & Hh).
  { apply elem_of_seq. apply lookup_lt_Some in Hc. lia. }
  by exists ys, rest.
Qed.

(** C12. [clear] empties the cache: afterwards nothing is published, no chain has a
    segment, and every segment is free, spare, or waiting for its readers. *)
Theorem clear_empties w L es :
  at_rest w L es ->
  exists n w' L', clear integrity debug_assertions cfg now w = Some (n, w') /\
    at_rest w' L' (fun _ => []) /\ mjoin (chains L') = [] /\ n = freed_of w (mjoin (chains L)) /\
    (forall k l, get_item_frequency (hashtable w') k l = None) /\
    (forall x, 1 <= x <= cap cfg -> x ∈ free_queue w' ++ spare_queue w' \/
       x ∈ waiting L' /\ pinned w' x = true).
Proof.
  intros Hr. unfold clear, mbind, m_bind, all_buckets, gets.
  destruct (an_len _ _ (ar_anchored _ _ _ _ _ Hr)) as [Eb Ec].
  destruct (wp_elim (drain_buckets integrity debug_assertions cfg now false (seq 0 (length (buckets w))))
    (fun n w' => exists xs L' es', drained_buckets integrity cfg now false (seq 0 (length (buckets w))) xs w w' L L' es es' /\
       n = freed_of w xs) w) as (n & w' & E & xs & L' & es' & [D1 D2 D3 D4 D5] & En).
  { apply (wp_drain_buckets integrity debug_assertions cfg now false _ w L es); [done|apply NoDup_seq| |].
    - intros c Hc%elem_of_seq. lia.
    - intros xs w' L' es' Hd. by exists xs, L', es'. }
  assert (mjoin (chains L') = []) as Hnil.
  { destruct (mjoin (chains L')) as [|x l'] eqn:Ej; [done|]. exfalso.
    assert (x ∈ mjoin (chains L')) as Hx by (rewrite Ej; by left).
    apply list_elem_of_join in Hx as (l & Hx & [c Hc]%list_elem_of_lookup).
    destruct (an_len _ _ (ar_anchored _ _ _ _ _ D1)) as [_ Ec'].
    pose proof (lookup_lt_Some _ _ _ Hc) as Hlt.
    destruct (lookup_lt_is_Some_2 (chains L) c) as [l0 Hl0]; [lia|].
    destruct (D3 c l0 Hl0) as (ys & rest & _ & Hrest & ->); [apply elem_of_seq; lia|].
    rewrite Hc in Hrest. injection Hrest as ->. by apply not_elem_of_nil in Hx. }
  assert (forall x, es' x = []) as Hes.
  { intros x. apply (ar_idle _ _ _ _ _ D1). rewrite Hnil. apply not_elem_of_nil. }
  exists n, w', L'. split; [exact E|]. split.
  { destruct D1 as [A1 A2 [A3 A4 A5] A6 A7 A8]. split; try done. split; [done| |done].
    intros x Hx. rewrite <- (Hes x). auto. }
  split; [done|]. split.
  { rewrite En. unfold freed_of.
    pose proof (sw_chains _ _ _ _ _ _ _ _ D2) as Ep. rewrite Hnil, app_nil_r in Ep. by apply Nat2Z.inj_iff, freed_perm. }
  split.
  - intros k l. destruct (get_item_frequency (hashtable w') k l) as [f|] eqn:Ef; [|done]. exfalso.
    pose proof (ar_contents _ _ _ _ _ D1) as Hc.
    destruct (c_covered _ _ _ _ Hc _ _ _ Ef) as (x & h & Hx & Eh & Hl).
    destruct (c_items _ _ _ _ Hc x Hx) as (h' & d & Eh' & _ & _ & _ & Hs). simplify_eq.
    destruct (ok_published _ _ _ _ _ _ Hs _ _ _ Ef Hl) as (p & Hp & _). rewrite Hes in Hp.
    by apply not_elem_of_nil in Hp.
  - intros x Hx. pose proof (ar_shape _ _ _ _ _ D1) as Hs.
    assert (x ∈ accounted w' L') as Hin by (rewrite (sh_ids _ _ _ _ Hs), in_ids; lia).
    unfold accounted in Hin. rewrite Hnil, (ar_held _ _ _ _ _ D1), app_assoc, elem_of_app in Hin.
    destruct Hin as [?|Hin]; [by left|]. right. split; [done|]. by apply (sh_waiting _ _ _ _ Hs).
Qed.

(** C11. [TtlBucket::reserve] always returns, and errs exactly so: a size above the
    segment size is [ItemOversized]; otherwise the range is the end of the
    chain's tail when it has room, else the start of the first free segment,
    which becomes the tail, and [NoFreeSegments] when there is none. A size
    that fits no segment behind its magic bytes moves every free segment to
    the chain before that. *)
Theorem reserve_spec w L es secs size l :
  let b := Z.to_nat (get_bucket_index secs) in
  at_rest w L es -> 0 < size -> chains L !! b = Some l ->
  exists r w', reserve integrity debug_assertions cfg now b size w = Some (r, w') /\
    reserves integrity cfg now b l size w L es r w'.
Proof.
  intros b Hr Hsz Hb.
  destruct (wp_elim _ (fun r w' => reserves integrity cfg now b l size w L es r w') w
    (wp_reserve integrity debug_assertions cfg now b size Hsz (floor_bucket secs) w L es l _ Hr Hb (fun r w' He => He)))
    as (r & w' & E & He).
  by exists r, w'.
Qed.
End Theorems.

(** ** Three segments: two in a chain, the first with two items *)
Module HeapDemo.
Import TableThms.Demo SegmentDemo.

#[local] Existing Instance demo_hashtable.
#[local] Existing Instance demo_lawful.

Definition config : Config := mkConfig 128 3 Eviction.Fifo 0 0.

Definition chained (created : Z) (m : Metadata) (hd : SegmentHeader) : SegmentHeader :=
  with_ttl 96 (with_create_at created (with_metadata (pack m) hd)).

Definition first_header : SegmentHeader := chained 10 (mkMeta (Some 2) None Sealed 0) (header src).
Definition second_header : SegmentHeader := chained 20 (mkMeta None (Some 1) Live 0) (SegHeader.new true 2).

Definition world : World (Index Heap) :=
  mkWorld [first_header; second_header; SegHeader.new true 3] [data src; fresh 128; fresh 128]
    [3] 0 [] 0 0 (new_eviction 3 Eviction.Fifo None 0) 0 0
    (<[12%nat := mkBucket 1 2 96 2 0]> TtlBuckets.new) 0 h.

Definition layout : Layout := mkLayout (<[12%nat := [1; 2]]> (replicate 1024 [])) [] [].

Definition holdings (x : Z) : list Entry := if decide (x = 1) then [counter; text] else [].

Lemma three x : 1 <= x <= 3 -> x = 1 \/ x = 2 \/ x = 3.
Proof. lia. Qed.

Lemma world_header x hd : header_at x world = Some hd ->
  (x = 1 /\ hd = first_header) \/ (x = 2 /\ hd = second_header) \/ (x = 3 /\ hd = SegHeader.new true 3).
Proof.
  unfold header_at, idx. destruct (Z.leb_spec x 0); [done|].
  destruct (Z.to_nat (x - 1)) as [|[|[|k]]] eqn:E; cbn [headers world lookup list_lookup]; [..|by destruct k];
    intros [= <-]; [left|right; left|right; right]; (split; [lia|done]).
Qed.

Lemma world_chain c l : chains layout !! c = Some l -> (c = 12%nat /\ l = [1; 2]) \/ l = [].
Proof.
  cbn [chains layout]. destruct (decide (c = 12%nat)) as [->|Hc].
  - rewrite list_lookup_insert_eq by (rewrite length_replicate; lia). intros [= <-]. by left.
  - rewrite list_lookup_insert_ne by done. intros [-> _]%lookup_replicate. by right.
Qed.

Lemma world_shape : shape config world layout (fun _ => None).
Proof.
  split.
  - by vm_compute.
  - by vm_compute.
  - assert (accounted world layout = [3; 1; 2]) as -> by by vm_compute.
    change (ids (cap config)) with [1; 2; 3]. apply (Permutation_app_comm [3] [1; 2]).
  - intros x Hx. change (x ∈ [3]) in Hx. apply list_elem_of_singleton in Hx as ->.
    exists (SegHeader.new true 3), new_free. by vm_compute.
  - intros c l l1 x l2 [[-> ->]| ->]%world_chain E; [|by destruct l1].
    destruct l1 as [|y [|z [|? ?]]]; simplify_list_eq.
    + exists first_header, (mkMeta (Some 2) None Sealed 0). by vm_compute.
    + exists second_header, (mkMeta None (Some 1) Live 0). by vm_compute.
  - intros c l x hd [[-> ->]| ->]%world_chain Hx Eh; [|by apply not_elem_of_nil in Hx].
    assert (SegHeader.ttl hd = 96) as ->.
    { apply world_header in Eh as [[_ ->]|[[_ ->]|[-> ->]]]; [done..|]. set_solver. }
    split; [lia|]. by vm_compute.
  - intros x Hx. by apply not_elem_of_nil in Hx.
  - intros x. unfold in_pool. destruct (header_at x world) as [hd|] eqn:Eh; [|done].
    by apply world_header in Eh as [[_ ->]|[[_ ->]|[_ ->]]].
  - by vm_compute.
  - by vm_compute.
Qed.

Lemma fresh_ok i : i = 1%nat \/ i = 2%nat -> seg_ok true h (new_segment true 128 i) [] 0 0.
Proof.
  intros Hi. apply seg_ok_new.
  - intros k l f [->| ->]%h_published; destruct Hi as [-> | ->]; by vm_compute.
  - change Location.MAX_SEGMENTS with 262142. lia.
  - by vm_compute.
Qed.

Lemma world_contents : contents true config world holdings.
Proof.
  split.
  - exact h_inv.
  - intros x [-> |[-> | ->]]%three.
    + exists first_header, (data src). do 4 (split; [by vm_compute|]).
      eapply (seg_ok_counters true h (header src)); [done|]. exact src_ok.
    + exists second_header, (fresh 128). do 4 (split; [by vm_compute|]).
      eapply (seg_ok_counters true h (SegHeader.new true 2)); [done|]. apply (fresh_ok 1). by left.
    + exists (SegHeader.new true 3), (fresh 128). do 4 (split; [by vm_compute|]). apply (fresh_ok 2). by right.
  - intros k l f Hf%h_published. exists 1, first_header. split; [vm_compute; intuition congruence|]. split; [done|].
    destruct Hf as [-> | ->]; by vm_compute.
Qed.

Lemma world_at_rest : HeapClear.at_rest true config world layout holdings.
Proof.
  split.
  - exact world_shape.
  - done.
  - exact world_contents.
  - split; [by vm_compute|]. intros c l Hc. pose proof (lookup_lt_Some _ _ _ Hc) as Hlt.
    cbn [chains layout] in Hlt. rewrite length_insert, length_replicate in Hlt.
    apply world_chain in Hc as Hl. cbn [buckets world]. destruct (decide (c = 12%nat)) as [->|Hne].
    + destruct Hl as [[_ ->]| ->]; [|discriminate Hc].
      exists (mkBucket 1 2 96 2 0). by vm_compute.
    + destruct Hl as [[? _]| ->]; [done|]. rewrite list_lookup_insert_ne by done.
      pose proof (new_lookup (Z.of_nat c) ltac:(lia)) as E. rewrite Nat2Z.id in E. eexists. by split; [exact E|].
  - intros x Hx. unfold holdings. case_decide; [|done]. subst. exfalso. apply Hx.
    eapply (chain_in layout 12%nat [1; 2]); [by vm_compute|by left].
  - intros x hd [[_ ->]|[[_ ->]|[_ ->]]]%world_header; done.
Qed.

Definition no_index : Index Heap := mkIndex table empty_mem.

Lemma no_index_inv : ht_inv no_index.
Proof. apply (known_inv hash no_index []); [apply wf_words_ok|..]; by vm_compute. Qed.

Lemma no_index_published k l : get_item_frequency no_index k l = None.
Proof.
  destruct (get_item_frequency no_index k l) as [f|] eqn:Ef; [|done]. exfalso.
  apply (known_published hash no_index []) in Ef as (q & Hq & _); [by apply not_elem_of_nil in Hq|..];
    [apply wf_words_ok; by vm_compute|by vm_compute..].
Qed.

Definition small : SegmentsBuilder := mkBuilder 192 64 (Eviction.Merge 8 4 2) None.

Lemma build_at_rest_witness :
  exists cfg w L, build true (fun n => Some (replicate (Z.to_nat n) 0)) 0 small TtlBuckets.new no_index = Some (inl (cfg, w)) /\
    HeapClear.at_rest true cfg w L (fun _ => []) /\ ranking_ok cfg w /\
    (forall b l, chains L !! b = Some l -> l = []) /\
    cap cfg * segment_size cfg = b_heap_size small /\
    Z.of_nat (length (free_queue w)) + spare_count w = cap cfg /\
    spare_count w = spare_capacity cfg.
Proof.
  apply (build_at_rest true 0 _ small no_index); [split; vm_compute; intuition congruence|done| |].
  - exact no_index_inv.
  - exact no_index_published.
Defined.

Lemma evict_dropping_spec_witness :
  exists r w', evict_dropping true true config 50 world = Some (r, w') /\
    ranking_ok config w' /\ (exists L' es', HeapClear.at_rest true config w' L' es') /\
    match r with
    | inl _ => exists b l1 l2 x, selection 50 world = Some (Some x, evict w') /\
        chains layout !! b = Some (l1 ++ x :: l2) /\ l2 <> [] /\ pinned world x = false /\
        HeapClear.at_rest true config w' (with_chain b (l1 ++ l2) layout) (upd_es x [] holdings) /\
        free_queue w' ++ spare_queue w' ≡ₚ x :: free_queue world ++ spare_queue world /\
        (forall k l, get_item_frequency (hashtable w') k l =
           if in_segment x world l then None else get_item_frequency (hashtable world) k l) /\
        forall y, y <> x -> erase <$> header_at y w' = erase <$> header_at y world
    | inr e => e = NoEvictableSegments /\ selection 50 world = Some (None, evict w') /\ w' = set_evict (evict w') world
    end.
Proof. apply (evict_dropping_spec true true config 50 world layout holdings world_at_rest). by vm_compute. Defined.

(** The policy selects the sealed segment. *)
Example selects_sealed : fst <$> selection 50 world = Some (Some 1).
Proof. by vm_compute. Qed.

Lemma expire_spec_witness :
  exists n w', expire true true config 110 world = Some (n, w') /\ last_expired w' = 110 /\
    if last_expired world =? 110 then n = 0 /\ w' = set_last_expired 110 world
    else exists xs L' es', HeapClear.at_rest true config w' L' es' /\ swept config xs world w' layout L' holdings es' /\
      n = freed_of world xs /\
      forall c l, chains layout !! c = Some l -> exists ys rest, l = ys ++ rest /\ chains L' !! c = Some rest /\
        Forall (fun x => over 110 world x = true) ys /\ forall y, hd_error rest = Some y -> over 110 world y = false.
Proof. apply (expire_spec true true config 110 world layout holdings world_at_rest). Defined.

(** One of the two segments is over. *)
Example expires_one : fst <$> expire true true config 110 world = Some 1.
Proof. by vm_compute. Qed.

Lemma clear_empties_witness :
  exists n w' L', clear true true config 50 world = Some (n, w') /\
    HeapClear.at_rest true config w' L' (fun _ => []) /\ mjoin (chains L') = [] /\ n = freed_of world (mjoin (chains layout)) /\
    (forall k l, get_item_frequency (hashtable w') k l = None) /\
    (forall x, 1 <= x <= cap config -> x ∈ free_queue w' ++ spare_queue w' \/
       x ∈ waiting L' /\ pinned w' x = true).
Proof. apply (clear_empties true true config 50 world layout holdings world_at_rest). Defined.

Lemma reserve_spec_witness :
  exists r w', reserve true true config 50 (Z.to_nat (get_bucket_index 100)) 124 world = Some (r, w') /\
    reserves true config 50 (Z.to_nat (get_bucket_index 100)) [1; 2] 124 world layout holdings r w'.
Proof. apply (reserve_spec true true config 50 world layout holdings 100 124 [1; 2] world_at_rest); by vm_compute. Defined.

(** 124 bytes are less than a segment and more than one holds: the free
    segment is used up for nothing. *)
Example reserves_for_nothing :
  (fun r => (r.1, free_queue r.2, head <$> (buckets r.2 !! 12%nat), tail <$> (buckets r.2 !! 12%nat))) <$>
    reserve true true config 50 (Z.to_nat (get_bucket_index 100)) 124 world =
  Some (inr NoFreeSegments, [], Some 1, Some 3).
Proof. by vm_compute. Qed.
End HeapDemo.
