(* ===== verification/Datatier.v ===== *)
(** * Byte pools

    The [datatier] crate: [Memory], [MmapFile] and [FileBackedMemory], the
    implementations of [Datapool], on the files they share. What the operating
    system answers to a call comes from a schedule: a call succeeds, fails, or
    transfers only a part; when the schedule is used up calls succeed. A panic
    and a loop that does not end are answers of their own. A mapping of a file
    is a view of its bytes: what is written to it is in the file, and [flush]
    of the mapping says so to the disk. The hash is that of the [blake3] crate:
    hashing in pieces is hashing their concatenation. The clock readings are
    arguments. *)
From S2P Require Import Prelude F64.
From stdpp Require Import gmap strings.
#[local] Open Scope Z_scope.

Definition PAGE_SIZE : Z := 4096.
Definition HEADER_SIZE : Z := 4096.
(** "PELIKAN!" *)
Definition MAGIC : bytes := [0x50; 0x45; 0x4C; 0x49; 0x4B; 0x41; 0x4E; 0x21].
Definition VERSION : Z := 0.

(** ** Calls to the operating system *)

(** [std::io::Error]: those of the source by their message. *)
Inductive Error :=
| NotFound
| AlreadyExists
| Os
| Other (message : string).

Inductive Outcome :=
| Success
| Partial (n : Z)
| Failure.

#[export] Instance outcome_eq : EqDecision Outcome.
Proof. solve_decision. Defined.

(** The files, the open file descriptions with their positions, and the
    outcomes of the calls to come. *)
Record World := mkWorld {
  files : gmap string bytes;
  fds : list (string * Z);
  outcomes : list Outcome
}.

Definition set_files x (w : World) : World := mkWorld x (fds w) (outcomes w).
Definition set_fds x (w : World) : World := mkWorld (files w) x (outcomes w).
Definition set_outcomes x (w : World) : World := mkWorld (files w) (fds w) x.

Inductive Answer (A : Type) :=
| Ok (a : A)
| Err (e : Error)
| Panic
| Endless.
Arguments Ok {A}.
Arguments Err {A}.
Arguments Panic {A}.
Arguments Endless {A}.

Definition M (A : Type) : Type := World -> Answer A * World.

#[export] Instance m_ret : MRet M := fun A a w => (Ok a, w).
#[export] Instance m_bind : MBind M := fun A B k m w =>
  match m w with
  | (Ok a, w) => k a w
  | (Err e, w) => (Err e, w)
  | (Panic, w) => (Panic, w)
  | (Endless, w) => (Endless, w)
  end.

Definition fail {A} (e : Error) : M A := fun w => (Err e, w).
Definition panic {A} : M A := fun w => (Panic, w).
Definition gets {A} (f : World -> A) : M A := fun w => (Ok (f w), w).
Definition modify (f : World -> World) : M unit := fun w => (Ok tt, f w).
Definition lift {A} (x : option A) : M A :=
  match x with
  | Some a => mret a
  | None => panic
  end.

Definition outcome : M Outcome := fun w =>
  match outcomes w with
  | [] => (Ok Success, w)
  | o :: os => (Ok o, set_outcomes os w)
  end.

Definition syscall : M unit :=
  o ← outcome;
  match o with
  | Failure => fail Os
  | _ => mret tt
  end.

(** A transfer of up to [n] bytes. *)
Definition transfer (n : Z) : M Z :=
  o ← outcome;
  match o with
  | Success => mret n
  | Partial k => mret (Z.max 0 (Z.min k n))
  | Failure => fail Os
  end.

Definition content (path : string) (w : World) : bytes := default [] (files w !! path).
Definition set_content (path : string) (b : bytes) (w : World) : World := set_files (<[path := b]> (files w)) w.

(** [File]: an index into [fds]. *)
Definition fd (f : nat) : M (string * Z) := fun w =>
  match fds w !! f with
  | Some x => (Ok x, w)
  | None => (Panic, w)
  end.

Definition set_position (f : nat) (pos : Z) : M unit :=
  '(path, _) ← fd f;
  modify (fun w => set_fds (<[f := (path, pos)]> (fds w)) w).

(** [OpenOptions::new().create_new(new).read(true).write(true).open(path)] *)
Definition open_file (new : bool) (path : string) : M nat :=
  _ ← syscall;
  found ← gets (fun w => files w !! path);
  _ ← match found with
      | None => if new then modify (set_content path []) else fail NotFound
      | Some _ => if new then fail AlreadyExists else mret tt
      end;
  n ← gets (fun w => length (fds w));
  _ ← modify (fun w => set_fds (fds w ++ [(path, 0)]) w);
  mret n.

Definition file_len (f : nat) : M Z :=
  _ ← syscall;
  '(path, _) ← fd f;
  gets (fun w => blen (content path w)).

Definition set_len (f : nat) (len : Z) : M unit :=
  _ ← syscall;
  '(path, _) ← fd f;
  modify (fun w => set_content path
    (take (Z.to_nat len) (content path w ++ replicate (Z.to_nat (len - blen (content path w))) 0)) w).

Definition seek (f : nat) (pos : Z) : M unit :=
  _ ← syscall;
  set_position f pos.

(** The bytes that a read of at most [n] delivers. *)
Definition read (f : nat) (n : Z) : M bytes :=
  '(path, pos) ← fd f;
  b ← gets (fun w => slice pos n (content path w));
  n ← transfer (blen b);
  _ ← set_position f (pos + n);
  mret (slice 0 n b).

Definition write (f : nat) (b : bytes) : M Z :=
  '(path, pos) ← fd f;
  n ← transfer (blen b);
  _ ← modify (fun w =>
        let c := content path w in
        set_content path (blit pos (slice 0 n b) (c ++ replicate (Z.to_nat (pos + n - blen c)) 0)) w);
  _ ← set_position f (pos + n);
  mret n.

Definition sync_all (f : nat) : M unit := syscall.

(** [memmap2]: a mapping of zeros, a mapping of a file, and its [flush]. *)
Definition map_anon (len : Z) : M bytes := _ ← syscall; mret (replicate (Z.to_nat len) 0).
Definition map_mut (f : nat) : M string := _ ← syscall; '(path, _) ← fd f; mret path.
Definition msync : M unit := syscall.

(** ** Slices, arithmetic, loops *)

(** [buf[start..end]] *)
Definition index (start end_ : Z) (buf : bytes) : option bytes :=
  if (start <=? end_) && (end_ <=? blen buf) then Some (slice start (end_ - start) buf) else None.

(** A write through [buf[start..end]]: [f] works on the slice in place. *)
Definition index_mut (start end_ : Z) (f : bytes -> bytes) (buf : bytes) : option bytes :=
  b ← index start end_ buf;
  Some (blit start (slice 0 (blen b) (f b)) buf).

(** [buf[i] = v] *)
Definition put (i v : Z) (buf : bytes) : option bytes :=
  if (0 <=? i) && (i <? blen buf) then Some (<[Z.to_nat i := v]> buf) else None.

(** [loop { if attempt { break } again }]: an attempt asks the system, so that
    a lap per outcome of the schedule and one more are enough when the attempt
    succeeds with the system. *)
Fixpoint retry {S} (fuel : nat) (attempt : S -> M (bool * S)) (again : M unit) (s : S) : M S :=
  match fuel with
  | O => fun w => (Endless, w)
  | Datatypes.S fuel =>
      '(done, s) ← attempt s;
      if done : bool then mret s else _ ← again; retry fuel attempt again s
  end.

Definition loop {S} (attempt : S -> M (bool * S)) (again : M unit) (s : S) : M S := fun w =>
  retry (Datatypes.S (length (outcomes w))) attempt again s w.

(** [for page in page..page + n] *)
Fixpoint for_pages {S} (n : nat) (page : Z) (body : Z -> S -> M S) (s : S) : M S :=
  match n with
  | O => mret s
  | Datatypes.S n => s ← body page s; for_pages n (page + 1) body s
  end.

(** [while offset < size { mmap[offset] = 0; offset += PAGE_SIZE }] *)
Fixpoint prefault (fuel : nat) (offset size : Z) (mmap : bytes) : option bytes :=
  match fuel with
  | O => None
  | Datatypes.S fuel =>
      if offset <? size then
        mmap ← put offset 0 mmap;
        prefault fuel (offset + PAGE_SIZE) size mmap
      else Some mmap
  end.

Definition prefault_fuel (size : Z) : nat := Z.to_nat (size / PAGE_SIZE + 2).

(** ** The interface *)

Class Datapool (P : Type) := {
  as_slice : P -> M bytes;
  (** A client's write through the slice. *)
  as_mut_slice : (bytes -> bytes) -> P -> M P;
  flush : P -> M unit
}.

Definition len `{Datapool P} (p : P) : M Z := b ← as_slice p; mret (blen b).

Section Pools.
Context (overflow_checks : bool) (blake3 : bytes -> bytes).

(** [x] as a [usize] that [+] or [*] computed. *)
Definition usize (x : Z) : M Z :=
  match checked 64 x with
  | Some x => mret x
  | None => if overflow_checks then panic else mret (u64 x)
  end.

(** [((HEADER_SIZE + data_size) as f64 / PAGE_SIZE as f64).ceil() as usize] *)
Definition pages_of (size : Z) : Z := F64.ceil_as_u64 (F64.div (F64.of_Z size) (F64.of_Z PAGE_SIZE)).

Definition total_pages (data_size : Z) : M Z := n ← usize (HEADER_SIZE + data_size); mret (pages_of n).

(** [blake3::Hasher]: what was hashed so far. *)
Definition hasher_new : bytes := [].
Definition hasher_update (hasher b : bytes) : bytes := hasher ++ b.
Definition hasher_finalize (hasher : bytes) : bytes := blake3 hasher.

(** ** The header *)

(** Readings of the clocks of [clocksource], coarse and precise. *)
Record Times := mkTimes { monotonic_s : Z; unix_s : Z; monotonic_ns : Z; unix_ns : Z }.

Record Header := mkHeader {
  checksum : bytes;
  magic : bytes;
  version : Z;
  times : Times;
  user_version : Z;
  options : Z;
  pad : bytes
}.

Definition header_new (now : Times) : Header :=
  mkHeader (replicate 32 0) MAGIC VERSION now 0 0 (replicate 4008 0).

(** The packed layout. *)
Definition as_bytes (h : Header) : bytes :=
  checksum h ++ magic h ++ le_bytes 8 (version h)
    ++ le_bytes 4 (monotonic_s (times h)) ++ le_bytes 4 (unix_s (times h))
    ++ le_bytes 8 (monotonic_ns (times h)) ++ le_bytes 8 (unix_ns (times h))
    ++ le_bytes 8 (user_version h) ++ le_bytes 8 (options h) ++ pad h.

(** [&mut *(header.as_ptr() as *mut Header)] *)
Definition header_of (b : bytes) : Header :=
  let word off n := le_value (slice off n b) in
  mkHeader (slice 0 32 b) (slice 32 8 b) (word 40 8)
    (mkTimes (word 48 4) (word 52 4) (word 56 8) (word 64 8))
    (word 72 8) (word 80 8) (slice 88 4008 b).

Definition with_checksum (c : bytes) (h : Header) : Header :=
  mkHeader c (magic h) (version h) (times h) (user_version h) (options h) (pad h).

Definition set_checksum (hash : bytes) (h : Header) : Header := with_checksum (slice 0 32 hash) h.
Definition zero_checksum (h : Header) : Header := with_checksum (replicate (length (checksum h)) 0) h.

Definition set_user_version (v : Z) (h : Header) : Header :=
  mkHeader (checksum h) (magic h) (version h) (times h) v (options h) (pad h).

Definition check_magic (h : Header) : M unit :=
  if bool_decide (magic h = MAGIC) then mret tt else fail (Other "header is not recognized").

Definition check_version (h : Header) : M unit :=
  if negb (version h =? VERSION) then fail (Other "file has incompatible version") else mret tt.

Definition check (h : Header) : M unit := _ ← check_magic h; check_version h.

(** ** [Memory] *)

Record Memory := mkMemory { mmap : bytes; size : Z }.

Definition memory_create (size : Z) : M Memory :=
  mmap ← map_anon size;
  mmap ← lift (prefault (prefault_fuel size) 0 size mmap);
  mret (mkMemory mmap size).

#[global] Instance memory_pool : Datapool Memory := {|
  as_slice m := lift (index 0 (size m) (mmap m));
  as_mut_slice f m := b ← lift (index_mut 0 (size m) f (mmap m)); mret (mkMemory b (size m));
  flush m := msync
|}.

(** ** [MmapFile] *)

Record MmapFile := mkMmapFile { mf_mmap : string; mf_start : Z; mf_end : Z; mf_user_version : Z }.

(** The bytes that the mapping shows, and a write to them. *)
Definition mapped (path : string) : M bytes := gets (content path).
Definition map_write (path : string) (f : bytes -> option bytes) : M unit :=
  b ← mapped path;
  b ← lift (f b);
  modify (set_content path b).

Definition mmap_open (path : string) (data_size version : Z) : M MmapFile :=
  pages ← total_pages data_size;
  total_size ← usize (pages * PAGE_SIZE);
  file ← open_file false path;
  n ← file_len file;
  if negb (n =? total_size) then fail (Other "filesize mismatch")
  else
    data_end ← usize (HEADER_SIZE + data_size);
    mmap ← map_mut file;
    b ← mapped mmap;
    header ← lift (index 0 HEADER_SIZE b);
    let header := header_of header in
    _ ← check header;
    if negb (user_version header =? version) then fail (Other "user version mismatch")
    else
      let header := zero_checksum header in
      let hasher := hasher_update hasher_new (as_bytes header) in
      data ← lift (index HEADER_SIZE data_end b);
      let hasher := hasher_update hasher data in
      let hash := hasher_finalize hasher in
      stored ← lift (index 0 32 b);
      hash ← lift (index 0 32 hash);
      if negb (bool_decide (stored = hash)) then fail (Other "checksum mismatch")
      else mret (mkMmapFile mmap HEADER_SIZE data_end version).

Definition mmap_create (path : string) (data_size version : Z) : M MmapFile :=
  pages ← total_pages data_size;
  total_size ← usize (pages * PAGE_SIZE);
  file ← open_file true path;
  _ ← set_len file total_size;
  mmap ← map_mut file;
  _ ← map_write mmap (prefault (prefault_fuel total_size) 0 total_size);
  _ ← msync;
  mret (mkMmapFile mmap HEADER_SIZE total_size version).

Definition mmap_flush (now : Times) (p : MmapFile) : M unit :=
  _ ← msync;
  let header := set_user_version (mf_user_version p) (header_new now) in
  let hasher := hasher_update hasher_new (as_bytes header) in
  n ← gets (fun w => blen (content (mf_mmap p) w));
  let data_pages := (n - HEADER_SIZE) / PAGE_SIZE in
  hasher ← for_pages (Z.to_nat data_pages) 0 (fun page hasher =>
    let start := page * PAGE_SIZE + HEADER_SIZE in
    let end_ := start + PAGE_SIZE in
    b ← mapped (mf_mmap p);
    b ← lift (index start end_ b);
    mret (hasher_update hasher b)) hasher;
  let header := set_checksum (hasher_finalize hasher) header in
  _ ← map_write (mf_mmap p) (fun b => Some (blit 0 (as_bytes header) b));
  msync.

#[global] Instance mmap_pool (now : Times) : Datapool MmapFile := {|
  as_slice p := b ← mapped (mf_mmap p); lift (index (mf_start p) (mf_end p) b);
  as_mut_slice f p := _ ← map_write (mf_mmap p) (index_mut (mf_start p) (mf_end p) f); mret p;
  flush := mmap_flush now
|}.

(** ** [FileBackedMemory] *)

Record FileBackedMemory := mkBacked {
  memory : Memory;
  header : bytes;
  file : nat;
  data_start : Z;
  data_end : Z;
  fb_user_version : Z
}.

(** One read of the header into the buffer. *)
Definition read_header (f : nat) (buf : bytes) : M (bool * bytes) :=
  b ← read f PAGE_SIZE;
  mret (blen b =? PAGE_SIZE, blit 0 b buf).

(** One read of a page into the memory, hashed when it is complete. *)
Definition read_page (f : nat) (page : Z) (s : Memory * bytes) : M (bool * (Memory * bytes)) :=
  let '(memory, hasher) := s in
  let start := page * PAGE_SIZE in
  let end_ := start + PAGE_SIZE in
  slot ← as_slice memory;
  _ ← lift (index start end_ slot);
  b ← read f PAGE_SIZE;
  memory ← as_mut_slice (blit start b) memory;
  if blen b =? PAGE_SIZE then
    m ← as_slice memory;
    d ← lift (index start end_ m);
    mret (true, (memory, hasher_update hasher d))
  else mret (false, (memory, hasher)).

Definition backed_open (path : string) (data_size version : Z) : M FileBackedMemory :=
  pages ← total_pages data_size;
  total_size ← usize (pages * PAGE_SIZE);
  data_end ← usize (HEADER_SIZE + data_size);
  file ← open_file false path;
  n ← file_len file;
  if negb (n =? total_size) then fail (Other "filesize mismatch")
  else
    let data_pages := (data_end - HEADER_SIZE) / PAGE_SIZE in
    memory ← memory_create data_size;
    _ ← seek file 0;
    header ← loop (read_header file) (seek file 0) (replicate (Z.to_nat HEADER_SIZE) 0);
    let header := header_of header in
    _ ← check header;
    if negb (user_version header =? version) then fail (Other "user version mismatch")
    else
      let file_checksum := checksum header in
      let header := zero_checksum header in
      let hasher := hasher_update hasher_new (as_bytes header) in
      _ ← seek file HEADER_SIZE;
      '(memory, hasher) ← for_pages (Z.to_nat data_pages) 0 (fun page s =>
        loop (read_page file page) (seek file (HEADER_SIZE + page * PAGE_SIZE)) s) (memory, hasher);
      let hash := hasher_finalize hasher in
      hash ← lift (index 0 32 hash);
      if negb (bool_decide (file_checksum = hash)) then fail (Other "checksum mismatch")
      else mret (mkBacked memory (as_bytes header) file HEADER_SIZE data_end version).

Definition write_zeros (f : nat) (s : unit) : M (bool * unit) :=
  n ← write f (replicate (Z.to_nat PAGE_SIZE) 0);
  mret (n =? PAGE_SIZE, tt).

Definition backed_create (path : string) (data_size version : Z) : M FileBackedMemory :=
  pages ← total_pages data_size;
  total_size ← usize (pages * PAGE_SIZE);
  data_end ← usize (pages * PAGE_SIZE);
  file ← open_file true path;
  _ ← set_len file total_size;
  _ ← for_pages (Z.to_nat pages) 0 (fun page => loop (write_zeros file) (seek file (page * PAGE_SIZE))) tt;
  _ ← sync_all file;
  memory ← memory_create data_size;
  mret (mkBacked memory (replicate (Z.to_nat HEADER_SIZE) 0) file HEADER_SIZE data_end version).

(** One write of a page of the memory, hashed when it is complete. *)
Definition write_page (p : FileBackedMemory) (page : Z) (hasher : bytes) : M (bool * bytes) :=
  let start := page * PAGE_SIZE in
  let end_ := start + PAGE_SIZE in
  m ← as_slice (memory p);
  b ← lift (index start end_ m);
  n ← write (file p) b;
  if n =? PAGE_SIZE then mret (true, hasher_update hasher b) else mret (false, hasher).

Definition write_header (f : nat) (h : Header) (s : unit) : M (bool * unit) :=
  n ← write f (as_bytes h);
  mret (n =? HEADER_SIZE, tt).

Definition backed_flush (now : Times) (p : FileBackedMemory) : M unit :=
  let header := set_user_version (fb_user_version p) (header_new now) in
  let hasher := hasher_update hasher_new (as_bytes header) in
  let data_pages := (data_end p - data_start p) / PAGE_SIZE in
  _ ← seek (file p) HEADER_SIZE;
  hasher ← for_pages (Z.to_nat data_pages) 0 (fun page =>
    loop (write_page p page) (seek (file p) (HEADER_SIZE + page * PAGE_SIZE))) hasher;
  let header := set_checksum (hasher_finalize hasher) header in
  _ ← seek (file p) 0;
  _ ← loop (write_header (file p) header) (seek (file p) 0) tt;
  sync_all (file p).

#[global] Instance backed_pool (now : Times) : Datapool FileBackedMemory := {|
  as_slice p := as_slice (memory p);
  as_mut_slice f p :=
    m ← as_mut_slice f (memory p);
    mret (mkBacked m (header p) (file p) (data_start p) (data_end p) (fb_user_version p));
  flush := backed_flush now
|}.

(** The times of the last header that was read. *)
Definition backed_header (p : FileBackedMemory) : Header := header_of (header p).
Definition backed_times (p : FileBackedMemory) : Times := times (backed_header p).
End Pools.
