(* ===== verification/DatatierSpec.v ===== *)
(** * Byte pools: specifications

    Rules for programs over the files, with the partial transfers and failures
    of the schedule, and what the operations of the pools do to them. *)
From stdpp Require Import gmap strings.
From S2P Require Import Prelude F64 Datatier.
#[local] Open Scope Z_scope.

(** ** Rules *)

(** [m] neither panics nor loops; [Q] holds of a result, [E] of an error. *)
Definition wp {A} (m : M A) (Q : A -> World -> Prop) (E : Error -> World -> Prop) (w : World) : Prop :=
  match m w with
  | (Ok a, w) => Q a w
  | (Err e, w) => E e w
  | _ => False
  end.

Lemma io_elim {A} (m : M A) Q E w :
  wp m Q E w -> (exists a w', m w = (Ok a, w') /\ Q a w') \/ (exists e w', m w = (Err e, w') /\ E e w').
Proof. unfold wp. destruct (m w) as [[a|e| |] w']; [left|right|done..]; eauto. Qed.

Section Rules.
Implicit Types (w : World) (E : Error -> World -> Prop).

Lemma io_ret {A} (a : A) Q E w : Q a w -> wp (mret a) Q E w.
Proof. done. Qed.

Lemma wp_fail {A} e (Q : A -> _) E w : E e w -> wp (fail e) Q E w.
Proof. done. Qed.

Lemma io_bind {A B} (m : M A) (k : A -> M B) Q E w :
  wp m (fun a => wp (k a) Q E) E w -> wp (m ≫= k) Q E w.
Proof. unfold wp, mbind, m_bind. by destruct (m w) as [[| | |] ?]. Qed.

Lemma io_mono {A} (m : M A) (P Q : A -> World -> Prop) (D E : Error -> World -> Prop) w :
  wp m P D w -> (forall a w', P a w' -> Q a w') -> (forall e w', D e w' -> E e w') -> wp m Q E w.
Proof. unfold wp. destruct (m w) as [[| | |] ?]; auto. Qed.

Lemma io_lift {A} (x : option A) a Q E w : x = Some a -> Q a w -> wp (lift x) Q E w.
Proof. by intros ->. Qed.

Lemma io_gets {A} (f : World -> A) Q E w : Q (f w) w -> wp (gets f) Q E w.
Proof. done. Qed.

Lemma io_modify f Q E w : Q tt (f w) -> wp (modify f) Q E w.
Proof. done. Qed.

(** A call of the system uses up an outcome; it fails only if the schedule says so. *)
Lemma wp_outcome {A} (k : Outcome -> M A) Q E w :
  (forall o os, (o = Success /\ os = outcomes w \/ outcomes w = o :: os) -> wp (k o) Q E (set_outcomes os w)) ->
  wp (outcome ≫= k) Q E w.
Proof.
  intros H. unfold wp at 1, mbind, m_bind, outcome. destruct (outcomes w) as [|o os] eqn:Eo.
  - specialize (H Success [] (or_introl (conj eq_refl eq_refl))).
    assert (set_outcomes [] w = w) as Ew by (destruct w; cbn in *; by subst). rewrite Ew in H. exact H.
  - exact (H o os (or_intror eq_refl)).
Qed.

Lemma wp_syscall Q E w :
  (forall os, os `suffix_of` outcomes w -> Q tt (set_outcomes os w)) ->
  (forall os, os `suffix_of` outcomes w -> Failure ∈ outcomes w -> E Os (set_outcomes os w)) ->
  wp syscall Q E w.
Proof.
  intros HQ HE. apply wp_outcome. intros o os Ho.
  assert (os `suffix_of` outcomes w) as Hs.
  { destruct Ho as [[_ ->]| ->]; [done|]. by apply suffix_cons_r. }
  destruct o; [by apply io_ret, HQ..|]. apply wp_fail, HE; [done|].
  destruct Ho as [[? _]| ->]; [done|]. by left.
Qed.

(** A transfer that is not complete has used up an outcome. *)
Lemma wp_transfer n Q E w :
  0 <= n ->
  (forall k os, os `suffix_of` outcomes w -> 0 <= k <= n -> k = n \/ (length os < length (outcomes w))%nat ->
    Q k (set_outcomes os w)) ->
  (forall os, os `suffix_of` outcomes w -> Failure ∈ outcomes w -> E Os (set_outcomes os w)) ->
  wp (transfer n) Q E w.
Proof.
  intros Hn HQ HE. apply wp_outcome. intros o os Ho.
  assert (os `suffix_of` outcomes w) as Hs.
  { destruct Ho as [[_ ->]| ->]; [done|]. by apply suffix_cons_r. }
  destruct o.
  - apply io_ret, HQ; [done|lia|by left].
  - apply io_ret, HQ; [done|lia|]. right. destruct Ho as [[? _]| ->]; [done|]. cbn. lia.
  - apply wp_fail, HE; [done|]. destruct Ho as [[? _]| ->]; [done|]. by left.
Qed.

Lemma wp_retry {S} (attempt : S -> M (bool * S)) again Q E (I : S -> World -> Prop) fuel s w :
  (forall s w, I s w -> wp (attempt s) (fun '(done, s') w' =>
     if done : bool then Q s' w'
     else (length (outcomes w') < length (outcomes w))%nat /\
       wp again (fun _ w'' => (length (outcomes w'') <= length (outcomes w'))%nat /\ I s' w'') E w') E w) ->
  I s w -> (length (outcomes w) < fuel)%nat -> wp (retry fuel attempt again s) Q E w.
Proof.
  intros Ha. revert s w. induction fuel as [|fuel IH]; intros s w Hi Hf; [lia|]. cbn [retry].
  apply io_bind. eapply io_mono; [by apply Ha| |done]. intros [[] s'] w'; [done|].
  intros [Hl Hg]. apply io_bind. eapply io_mono; [exact Hg| |done]. cbn beta. intros _ w'' [Hl' Hi'].
  apply IH; [done|lia].
Qed.

Lemma wp_loop {S} (attempt : S -> M (bool * S)) again Q E (I : S -> World -> Prop) s w :
  I s w ->
  (forall s w, I s w -> wp (attempt s) (fun '(done, s') w' =>
     if done : bool then Q s' w'
     else (length (outcomes w') < length (outcomes w))%nat /\
       wp again (fun _ w'' => (length (outcomes w'') <= length (outcomes w'))%nat /\ I s' w'') E w') E w) ->
  wp (loop attempt again s) Q E w.
Proof. intros Hi Ha. unfold loop. eapply (wp_retry _ _ _ _ I); [exact Ha|exact Hi|lia]. Qed.

Lemma wp_for_pages {S} (body : Z -> S -> M S) (I : Z -> S -> World -> Prop) Q E n page s w :
  I page s w ->
  (forall i s w, page <= i < page + Z.of_nat n -> I i s w -> wp (body i s) (fun s' => I (i + 1) s') E w) ->
  (forall s w, I (page + Z.of_nat n) s w -> Q s w) ->
  wp (for_pages n page body s) Q E w.
Proof.
  revert page s w. induction n as [|n IH]; intros page s w Hi Hb HQ; cbn [for_pages].
  - apply io_ret, HQ. by rewrite Z.add_0_r.
  - apply io_bind. eapply io_mono; [apply Hb; [lia|exact Hi]| |done]. intros s' w' Hi'. apply IH; [done|..].
    + intros i s1 w1 Hr. apply Hb. lia.
    + intros s1 w1. replace (page + 1 + Z.of_nat n) with (page + Z.of_nat (Datatypes.S n)) by lia. apply HQ.
Qed.
End Rules.

(** ** Panics *)

Definition panics {A} (m : M A) (w : World) : Prop := exists w', m w = (Panic, w').

Lemma panics_bind {A B} (m : M A) (k : A -> M B) w :
  wp m (fun a w' => panics (k a) w') (fun _ _ => False) w -> panics (m ≫= k) w.
Proof. unfold wp, panics, mbind, m_bind. by destruct (m w) as [[| | |] ?]. Qed.

Lemma panics_now {A B} (m : M A) (k : A -> M B) w : panics m w -> panics (m ≫= k) w.
Proof. unfold panics, mbind, m_bind. intros [w' ->]. by exists w'. Qed.

Lemma for_pages_add {S} (body : Z -> S -> M S) a b page s w :
  for_pages (a + b) page body s w = (for_pages a page body s ≫= for_pages b (page + Z.of_nat a) body) w.
Proof.
  revert page s w. induction a as [|a IH]; intros page s w; cbn [for_pages Nat.add].
  - unfold mbind, m_bind, mret, m_ret. by rewrite Z.add_0_r.
  - unfold mbind, m_bind at 1. destruct (body page s w) as [[s'| | |] w'] eqn:Eb;
      unfold mbind, m_bind; rewrite Eb; [|done..].
    rewrite IH. unfold mbind, m_bind. by replace (page + 1 + Z.of_nat a) with (page + Z.of_nat (Datatypes.S a)) by lia.
Qed.

(** ** Slices *)

Lemma index_some start n buf : 0 <= start -> 0 <= n -> start + n <= blen buf -> index start (start + n) buf = Some (slice start n buf).
Proof.
  intros. unfold index. rewrite (proj2 (Z.leb_le start _)), (proj2 (Z.leb_le _ (blen buf))) by lia.
  cbn. by rewrite Z.add_simpl_l.
Qed.

Lemma blit_whole a b : blen a = blen b -> blit 0 a b = a.
Proof.
  intros H. rewrite blit_in by lia. unfold blen in H. cbn. rewrite drop_ge by lia. by rewrite app_nil_r.
Qed.

Lemma index_mut_whole n (f : bytes -> bytes) b : blen b = n -> blen (f b) = n -> index_mut 0 n f b = Some (f b).
Proof.
  intros Hb Hf. unfold index_mut. pose proof (blen_nonneg b).
  assert (index 0 n b = Some b) as ->.
  { change n with (0 + n). rewrite index_some by lia. by rewrite slice_full. }
  cbn. rewrite slice_full by lia. by rewrite blit_whole by lia.
Qed.

Lemma blit_nil off (b c : bytes) : 0 <= off <= blen c -> blit off (slice 0 0 b) c = c.
Proof.
  intros H. change (slice 0 0 b) with ([] : bytes). rewrite blit_in by (rewrite ?blen_nil; lia). cbn. rewrite Nat.add_0_r. by rewrite take_drop.
Qed.

(** Two writes of prefixes of [b] at one place. *)
Lemma blit_prefixes off (b c : bytes) k k' :
  0 <= off -> off + blen b <= blen c -> 0 <= k <= blen b -> 0 <= k' <= blen b ->
  blit off (slice 0 k' b) (blit off (slice 0 k b) c) = blit off (slice 0 (Z.max k k') b) c.
Proof.
  intros Ho Hb Hk Hk'. apply list_eq. intros i. rewrite !lookup_blit by (rewrite ?blen_blit, ?blen_slice; lia).
  assert (forall j, slice 0 j b = take (Z.to_nat j) b) as Et by done. rewrite !Et, !length_take. unfold blen in *.
  repeat case_decide; try lia; try done; rewrite !lookup_take_lt by lia; done.
Qed.

Lemma blit_over off (b c : bytes) k :
  0 <= off -> off + blen b <= blen c -> 0 <= k <= blen b -> blit off b (blit off (slice 0 k b) c) = blit off b c.
Proof.
  intros Ho Hb Hk. pose proof (blit_prefixes off b c k (blen b)) as H. rewrite Z.max_r in H by lia.
  rewrite (slice_full (blen b) b) in H by done. apply H; lia.
Qed.

(** A memory pool of [n] bytes. *)
Record mem_ok (n : Z) (m : Memory) : Prop := { mo_size : size m = n; mo_len : blen (mmap m) = n }.

Lemma wp_memory_slice n m Q E w : mem_ok n m -> Q (mmap m) w -> wp (as_slice m) Q E w.
Proof.
  intros [Hs Hl] HQ. pose proof (blen_nonneg (mmap m)). apply (io_lift _ (mmap m)); [|done].
  rewrite Hs. change n with (0 + n). rewrite index_some by lia. by rewrite slice_full.
Qed.

Lemma wp_memory_write n f m (Q : Memory -> World -> Prop) E w :
  mem_ok n m -> blen (f (mmap m)) = n -> Q (mkMemory (f (mmap m)) n) w -> wp (as_mut_slice f m) Q E w.
Proof.
  intros [Hs Hl] Hf HQ. apply io_bind, (io_lift _ (f (mmap m))).
  - rewrite Hs. by apply index_mut_whole.
  - rewrite Hs. by apply io_ret.
Qed.

(** ** Files *)

Lemma suffix_failure (os os0 : list Outcome) : os `suffix_of` os0 -> Failure ∈ os -> Failure ∈ os0.
Proof. intros [k ->] H. apply elem_of_app. by right. Qed.

(** Programs that leave every file but [path] alone, with the position of [f]
    and the rest of the schedule [os0] as they may be. *)
Section Files.
Context (fs : gmap string bytes) (ds : list (string * Z)) (path : string) (f : nat) (Hf : (f < length ds)%nat).
Context (os0 : list Outcome).
Implicit Types (c b : bytes) (pos n : Z) (os : list Outcome).

Definition st c pos os : World := mkWorld (<[path := c]> fs) (<[f := (path, pos)]> ds) os.

Lemma content_st c pos os : content path (st c pos os) = c.
Proof. unfold content, st. cbn. by rewrite lookup_insert_eq. Qed.

Lemma set_content_st c c' pos os : set_content path c' (st c pos os) = st c' pos os.
Proof. unfold set_content, st, set_files. cbn. by rewrite insert_insert_eq. Qed.

Lemma wp_fd c pos os (Q : string * Z -> World -> Prop) E : Q (path, pos) (st c pos os) -> wp (fd f) Q E (st c pos os).
Proof. intros HQ. unfold wp, fd, st. cbn. by rewrite list_lookup_insert_eq. Qed.

Lemma wp_set_position c pos pos' os (Q : unit -> World -> Prop) E : Q tt (st c pos' os) -> wp (set_position f pos') Q E (st c pos os).
Proof.
  intros HQ. apply io_bind, wp_fd. cbn beta match. apply io_modify. unfold set_fds, st. cbn.
  by rewrite list_insert_insert_eq.
Qed.

Section Errors.
Context (E : Error -> World -> Prop) (J : bytes -> Prop).
Context (HE : forall c pos os, J c -> os `suffix_of` os0 -> Failure ∈ os0 -> E Os (st c pos os)).

Lemma wp_call c pos os (Q : unit -> World -> Prop) :
  J c -> os `suffix_of` os0 -> (forall os', os' `suffix_of` os -> os' `suffix_of` os0 -> Q tt (st c pos os')) ->
  wp syscall Q E (st c pos os).
Proof.
  intros Hj Hs HQ. apply wp_syscall; intros os' Ho; cbn in *.
  - apply HQ; [done|]. by etrans.
  - intros Hx. apply HE; [done|by etrans|by eapply suffix_failure].
Qed.

Lemma wp_seek c pos pos' os (Q : unit -> World -> Prop) :
  J c -> os `suffix_of` os0 -> (forall os', os' `suffix_of` os -> os' `suffix_of` os0 -> Q tt (st c pos' os')) ->
  wp (seek f pos') Q E (st c pos os).
Proof.
  intros Hj Hs HQ. apply io_bind, wp_call; [done..|]. intros os' Ho Ho'. by apply wp_set_position, HQ.
Qed.

Lemma wp_read c pos n os (Q : bytes -> World -> Prop) :
  J c -> os `suffix_of` os0 -> 0 <= pos -> 0 <= n -> pos + n <= blen c ->
  (forall k os', os' `suffix_of` os0 -> 0 <= k <= n -> k = n \/ (length os' < length os)%nat ->
    Q (slice pos k c) (st c (pos + k) os')) ->
  wp (read f n) Q E (st c pos os).
Proof.
  intros Hj Hs Hp Hn Hb HQ. apply io_bind, wp_fd. cbn beta match. apply io_bind, io_gets. rewrite content_st.
  rewrite blen_slice by done. apply io_bind, wp_transfer; [done|..]; cbn [outcomes st]; intros.
  - apply io_bind, wp_set_position. apply io_ret. rewrite slice_slice by lia. rewrite Z.add_0_r.
    apply HQ; [by etrans|done..].
  - apply HE; [done|by etrans|by eapply suffix_failure].
Qed.

Lemma wp_write c pos b os (Q : Z -> World -> Prop) :
  J c -> os `suffix_of` os0 -> 0 <= pos -> pos + blen b <= blen c ->
  (forall k os', os' `suffix_of` os0 -> 0 <= k <= blen b -> k = blen b \/ (length os' < length os)%nat ->
    Q k (st (blit pos (slice 0 k b) c) (pos + k) os')) ->
  wp (write f b) Q E (st c pos os).
Proof.
  intros Hj Hs Hp Hb HQ. pose proof (blen_nonneg b). apply io_bind, wp_fd. cbn beta match.
  apply io_bind, wp_transfer; [done|..]; cbn [outcomes st].
  - intros k os' Ho Hk Hl. apply io_bind, io_modify. change (set_outcomes os' (st c pos os)) with (st c pos os').
    rewrite content_st, set_content_st. replace (Z.to_nat _) with 0%nat by lia. rewrite app_nil_r.
    apply io_bind, wp_set_position, io_ret, HQ; [by etrans|done..].
  - intros os' Ho Hx. apply HE; [done|by etrans|by eapply suffix_failure].
Qed.

(** The loops: a transfer that is repeated until it is complete. *)
Lemma wp_read_header c os buf (Q : bytes -> World -> Prop) :
  J c -> os `suffix_of` os0 -> HEADER_SIZE <= blen c -> blen buf = HEADER_SIZE ->
  (forall pos os', os' `suffix_of` os0 -> Q (slice 0 HEADER_SIZE c) (st c pos os')) ->
  wp (loop (read_header f) (seek f 0) buf) Q E (st c 0 os).
Proof.
  intros Hj Hs Hc Hb HQ. unfold HEADER_SIZE in *.
  apply (wp_loop _ _ _ _ (fun buf w => blen buf = 4096 /\ exists os, os `suffix_of` os0 /\ w = st c 0 os)); [eauto|].
  clear Hs Hb buf os. intros buf w [Hb (os & Hs & ->)]. unfold read_header.
  apply io_bind, wp_read; [done..|unfold PAGE_SIZE; lia| |]; [unfold PAGE_SIZE; lia|].
  unfold PAGE_SIZE. intros k os' Ho Hk Hl. apply io_ret. rewrite blen_slice by lia.
  destruct (Z.eqb_spec k 4096) as [->|Hne].
  - rewrite blit_whole by (rewrite blen_slice; lia). by apply HQ.
  - destruct Hl as [?|Hl]; [lia|]. split; [done|]. apply wp_seek; [done..|]. intros os1 H1 H2. split.
    + by apply suffix_length.
    + split; [by rewrite blen_blit|]. eauto.
Qed.

(** Page [page] of the file, behind its header, goes into the memory. *)
Lemma wp_read_page c os n page m hasher (Q : Memory * bytes -> World -> Prop) :
  J c -> os `suffix_of` os0 -> 0 <= page -> HEADER_SIZE + n <= blen c -> mem_ok n m -> (page + 1) * PAGE_SIZE <= n ->
  (forall m' os', os' `suffix_of` os0 -> mem_ok n m' ->
    let b := slice (HEADER_SIZE + page * PAGE_SIZE) PAGE_SIZE c in
    mmap m' = blit (page * PAGE_SIZE) b (mmap m) ->
    Q (m', hasher ++ b) (st c (HEADER_SIZE + (page + 1) * PAGE_SIZE) os')) ->
  wp (loop (read_page f page) (seek f (HEADER_SIZE + page * PAGE_SIZE)) (m, hasher)) Q E (st c (HEADER_SIZE + page * PAGE_SIZE) os).
Proof.
  unfold HEADER_SIZE, PAGE_SIZE. intros Hj Hs Hp Hc Hm Hn HQ. set (o := page * 4096) in *.
  set (b := slice (4096 + o) 4096 c) in *. assert (blen b = 4096) as Hb by (apply blen_slice; lia).
  apply (wp_loop _ _ _ _ (fun s w => exists m1 os, s = (m1, hasher) /\ mem_ok n m1 /\
    blit o b (mmap m1) = blit o b (mmap m) /\ os `suffix_of` os0 /\ w = st c (4096 + o) os)); [by exists m, os|].
  clear Hs os. intros s w (m1 & os & -> & Hm1 & Eb & Hs & ->). unfold read_page, PAGE_SIZE. fold o.
  apply io_bind, (wp_memory_slice n); [done|]. pose proof (mo_len _ _ Hm1) as Hl1.
  apply io_bind. eapply io_lift; [by apply index_some; lia|]. cbn beta. apply io_bind, wp_read; [done..|lia|lia|lia|].
  intros k os' Ho Hk Hl. assert (blen (slice (4096 + o) k c) = k) as Ek by (apply blen_slice; lia).
  apply io_bind, (wp_memory_write n); [done|by rewrite blen_blit|]. cbn beta. rewrite Ek.
  destruct (Z.eqb_spec k 4096) as [->|Hne].
  - fold b. apply io_bind, (wp_memory_slice n); [split; [done|by rewrite <- Hl1; apply blen_blit]|]. cbn [mmap].
    apply io_bind. eapply io_lift.
    { apply index_some; [lia..|]. rewrite blen_blit. lia. }
    cbn beta. apply io_ret. rewrite slice_blit_eq by lia. unfold hasher_update.
    replace (4096 + o + 4096) with (4096 + (page + 1) * 4096) by lia. apply HQ; [done| |done].
    split; [done|]. cbn [mmap]. by rewrite blen_blit.
  - destruct Hl as [?|Hl]; [lia|]. apply io_ret. split; [done|]. apply wp_seek; [done..|]. intros os1 H1 H2. split.
    + by apply suffix_length.
    + exists (mkMemory (blit o (slice (4096 + o) k c) (mmap m1)) n), os1. split; [done|]. split; [|split; [|done]].
      * split; [done|]. cbn [mmap]. by rewrite blen_blit.
      * cbn [mmap]. rewrite <- Eb.
        assert (slice (4096 + o) k c = slice 0 k b) as -> by (unfold b; rewrite slice_slice by lia; by rewrite Z.add_0_r).
        apply blit_over; lia.
Qed.

(** A buffer goes to the file at [off], however often the transfer is cut short. *)
Lemma wp_write_all {S} c off b os (attempt : S -> M (bool * S)) (s s' : S) (Q : S -> World -> Prop) :
  (forall Q' w, wp (write f b) (fun n => Q' (if n =? blen b then (true, s') else (false, s))) E w -> wp (attempt s) Q' E w) ->
  (forall k, 0 <= k <= blen b -> J (blit off (slice 0 k b) c)) ->
  os `suffix_of` os0 -> 0 <= off -> off + blen b <= blen c ->
  (forall os', os' `suffix_of` os0 -> Q s' (st (blit off b c) (off + blen b) os')) ->
  wp (loop attempt (seek f off) s) Q E (st c off os).
Proof.
  intros Ha Hj Hs Ho Hb HQ. pose proof (blen_nonneg b).
  apply (wp_loop _ _ _ _ (fun s1 w => exists k os, s1 = s /\ 0 <= k <= blen b /\ os `suffix_of` os0 /\ w = st (blit off (slice 0 k b) c) off os)).
  { exists 0, os. split; [done|]. split; [lia|]. split; [done|]. f_equal. symmetry. apply blit_nil. lia. }
  clear Hs os. intros s1 w (k & os & -> & Hk & Hs & ->). apply Ha.
  apply wp_write; [by apply Hj|done|done|by rewrite blen_blit|]. intros k' os' Ho' Hk' Hl.
  rewrite blit_prefixes by lia. destruct (Z.eqb_spec k' (blen b)) as [->|Hne].
  - rewrite Z.max_r by lia. rewrite slice_full by done. by apply HQ.
  - destruct Hl as [?|Hl]; [lia|]. split; [done|]. apply wp_seek; [apply Hj; lia|done|]. intros os1 H1 H2. split.
    + by apply suffix_length.
    + exists (Z.max k k'), os1. split; [done|]. split; [lia|]. done.
Qed.
End Errors.
End Files.

(** ** Sizes *)

(** Sizes for which the page count, computed in [f64], is exact: below 8 PiB. *)
Definition sizable (n : Z) : Prop := 0 <= n < 2 ^ 53 - 4096.

(** The length of the file of a pool of [n] bytes. *)
Definition total (n : Z) : Z := (HEADER_SIZE + n + 4095) / PAGE_SIZE * PAGE_SIZE.

Lemma total_bounds n : sizable n -> HEADER_SIZE + n <= total n < 2 ^ 54.
Proof. unfold sizable, total, HEADER_SIZE, PAGE_SIZE. intros. pow2. dm. Qed.

Lemma total_pages_eq checks n w :
  sizable n -> total_pages checks n w = (Ok (total n / PAGE_SIZE), w).
Proof.
  intros Hn. pose proof (total_bounds n Hn) as Ht. unfold sizable in Hn. unfold total_pages, usize, checked, HEADER_SIZE in *.
  rewrite (proj2 (Z.leb_le 0 _)), (proj2 (Z.ltb_lt _ (2 ^ 64))) by (pow2; lia). cbn [andb].
  unfold mbind, m_bind, mret, m_ret, pages_of, PAGE_SIZE. rewrite F64.ceil_quotient by lia.
  unfold total, HEADER_SIZE, PAGE_SIZE. by rewrite Z.div_mul by done.
Qed.

Lemma wp_total_pages checks n (Q : Z -> World -> Prop) E w : sizable n -> Q (total n / PAGE_SIZE) w -> wp (total_pages checks n) Q E w.
Proof. intros Hn HQ. unfold wp. by rewrite total_pages_eq. Qed.

Lemma wp_usize checks n (Q : Z -> World -> Prop) E w : fits 64 n -> Q n w -> wp (usize checks n) Q E w.
Proof.
  intros [H1 H2] HQ. unfold usize, checked. rewrite (proj2 (Z.leb_le _ _)), (proj2 (Z.ltb_lt _ _)) by done. done.
Qed.

Lemma total_div n : total n / PAGE_SIZE * PAGE_SIZE = total n.
Proof. unfold total. by rewrite Z.div_mul by done. Qed.

(** The two sizes of a pool are words. *)
Lemma wp_total_size checks n (Q : Z -> World -> Prop) E w :
  sizable n -> Q (total n) w -> wp (usize checks (total n / PAGE_SIZE * PAGE_SIZE)) Q E w.
Proof.
  intros Hn HQ. rewrite total_div. apply wp_usize; [|done]. pose proof (total_bounds n Hn). unfold sizable, HEADER_SIZE, fits in *.
  pow2. lia.
Qed.

Lemma wp_data_end checks n (Q : Z -> World -> Prop) E w :
  sizable n -> Q (HEADER_SIZE + n) w -> wp (usize checks (HEADER_SIZE + n)) Q E w.
Proof. intros Hn HQ. apply wp_usize; [|done]. unfold sizable, HEADER_SIZE, fits in *. pow2. lia. Qed.

(** ** Zeroed memory *)

Definition zeros (n : Z) : bytes := replicate (Z.to_nat n) 0.

Lemma blen_zeros n : 0 <= n -> blen (zeros n) = n.
Proof. intros. unfold zeros. rewrite blen_replicate. lia. Qed.

Lemma prefault_zeros fuel o n :
  0 <= o -> 0 <= n -> n - o <= PAGE_SIZE * (Z.of_nat fuel - 1) -> (0 < fuel)%nat -> prefault fuel o n (zeros n) = Some (zeros n).
Proof.
  revert o. induction fuel as [|fuel IH]; intros o Ho Hn Hf Hp; [lia|]. cbn [prefault].
  destruct (Z.ltb_spec o n) as [Hlt|]; [|done]. unfold put. rewrite blen_zeros by done.
  rewrite (proj2 (Z.leb_le _ _)), (proj2 (Z.ltb_lt _ _)) by done. cbn [andb mbind option_bind].
  unfold zeros at 1. rewrite insert_replicate. apply IH; unfold PAGE_SIZE in *; lia.
Qed.

Lemma prefault_created n : 0 <= n -> prefault (prefault_fuel n) 0 n (zeros n) = Some (zeros n).
Proof.
  intros Hn. assert (0 <= n / 4096) by dm. apply prefault_zeros; unfold prefault_fuel, PAGE_SIZE in *; [done|done| |lia].
  rewrite Z2Nat.id by lia. dm.
Qed.

Lemma wp_memory_create n (Q : Memory -> World -> Prop) E w :
  0 <= n -> wp syscall (fun _ => Q (mkMemory (zeros n) n)) E w -> wp (memory_create n) Q E w.
Proof.
  intros Hn Hw. apply io_bind, io_bind. eapply io_mono; [exact Hw| |done]. intros [] w' HQ. apply io_ret.
  apply io_bind. eapply io_lift; [by apply prefault_created|]. by apply io_ret.
Qed.

Lemma mem_ok_zeros n : 0 <= n -> mem_ok n (mkMemory (zeros n) n).
Proof. intros. split; [done|]. by apply blen_zeros. Qed.

(** ** Opening *)

Section Hash.
Context (overflow_checks : bool) (blake3 : bytes -> bytes).
Context (Hblake : forall b, length (blake3 b) = 32%nat /\ Forall is_byte (blake3 b)).
Implicit Types (path : string) (b d : bytes) (v n : Z) (w : World).

(** What [open] makes of the bytes [b] of a file, when it reads [d] of them as data. *)
Definition judged v (h : Header) (sum : bytes) : option Error :=
  if negb (bool_decide (magic h = MAGIC)) then Some (Other "header is not recognized")
  else if negb (version h =? VERSION) then Some (Other "file has incompatible version")
  else if negb (user_version h =? v) then Some (Other "user version mismatch")
  else if negb (bool_decide (checksum h = sum)) then Some (Other "checksum mismatch")
  else None.

Definition verdict v b d : option Error :=
  let h := header_of (slice 0 HEADER_SIZE b) in judged v h (blake3 (as_bytes (zero_checksum h) ++ d)).

(** What it answers to [path], reading the data of [b] that [data] says. *)
Definition answer path n v (data : bytes -> bytes) w : option Error :=
  match files w !! path with
  | None => Some NotFound
  | Some b => if negb (blen b =? total n) then Some (Other "filesize mismatch") else verdict v b (data b)
  end.

(** The data that [MmapFile] and [FileBackedMemory] read: all of it, and its whole pages. *)
Definition all_data n b : bytes := slice HEADER_SIZE n b.
Definition page_data n b : bytes := slice HEADER_SIZE (n / PAGE_SIZE * PAGE_SIZE) b.

(** Errors of [open]: of the system, or what the file deserves. *)
Definition refused path n v data w (e : Error) w' : Prop :=
  files w' = files w /\ (e = Os /\ Failure ∈ outcomes w \/ answer path n v data w = Some e).

Lemma index_hash b : index 0 32 (blake3 b) = Some (blake3 b).
Proof.
  assert (blen (blake3 b) = 32) as Hl by (unfold blen; rewrite (proj1 (Hblake b)); done).
  change 32 with (0 + 32) at 1. rewrite index_some by lia. by rewrite slice_full.
Qed.

(** A file that exists is opened at position 0, its descriptor the next one. *)
Lemma wp_open_existing path (Q : nat -> World -> Prop) E w :
  (files w !! path = None -> forall os, os `suffix_of` outcomes w -> E NotFound (set_outcomes os w)) ->
  (forall os, os `suffix_of` outcomes w -> Failure ∈ outcomes w -> E Os (set_outcomes os w)) ->
  (forall b os, files w !! path = Some b -> os `suffix_of` outcomes w ->
    Q (length (fds w)) (st (files w) (fds w ++ [(path, 0)]) path (length (fds w)) b 0 os)) ->
  wp (open_file false path) Q E w.
Proof.
  intros Hn He HQ. apply io_bind, wp_syscall; [|done]. intros os Ho. apply io_bind, io_gets.
  cbn [files set_outcomes]. destruct (files w !! path) as [b|] eqn:Eb.
  - apply io_bind, io_ret, io_bind, io_gets, io_bind, io_modify, io_ret. cbn [fds set_outcomes].
    specialize (HQ b os eq_refl Ho). unfold st in HQ. rewrite insert_id in HQ by done.
    rewrite list_insert_id in HQ; [exact HQ|]. by apply list_lookup_middle.
  - apply io_bind, wp_fail. by apply Hn.
Qed.

(** The checks of a header, before the checksum. *)
Lemma wp_checked {A} (k : M A) b h sum v path n data w w' (Q : A -> World -> Prop) :
  files w !! path = Some b -> blen b = total n -> files w' = files w ->
  h = header_of (slice 0 HEADER_SIZE b) -> sum = blake3 (as_bytes (zero_checksum h) ++ data b) ->
  ((checksum h <> sum -> answer path n v data w = Some (Other "checksum mismatch")) ->
   (checksum h = sum -> answer path n v data w = None) -> wp k Q (refused path n v data w) w') ->
  wp (_ ← check h; if negb (user_version h =? v) then fail (Other "user version mismatch") else k) Q
    (refused path n v data w) w'.
Proof.
  intros Eb El Ew Eh Es Hk. assert (answer path n v data w = judged v h sum) as Ea.
  { unfold answer. rewrite Eb, (proj2 (Z.eqb_eq _ _) El), Es, Eh. cbn [negb]. reflexivity. }
  rewrite Ea in Hk. unfold judged in Ea, Hk. clear Eh Es.
  assert (forall e, answer path n v data w = Some e -> refused path n v data w e w') as Hr by (split; [done|by right]).
  apply io_bind. unfold check. apply io_bind. unfold check_magic, check_version.
  case_bool_decide; cbn [negb] in *; [apply io_ret|by apply wp_fail, Hr].
  destruct (version h =? VERSION); cbn [negb] in *; [apply io_ret|by apply wp_fail, Hr].
  destruct (user_version h =? v); cbn [negb] in *; [|by apply wp_fail, Hr].
  apply Hk; intros Hc.
  - by rewrite bool_decide_false.
  - by rewrite bool_decide_true.
Qed.

Lemma header_checksum b : checksum (header_of (slice 0 HEADER_SIZE b)) = slice 0 32 b.
Proof. change (slice 0 32 (slice 0 HEADER_SIZE b) = slice 0 32 b). unfold HEADER_SIZE. by rewrite slice_slice by lia. Qed.

Lemma hashed (a b : bytes) : hasher_finalize blake3 (hasher_update (hasher_update hasher_new a) b) = blake3 (a ++ b).
Proof. done. Qed.

(** The comparison of the checksums. *)
Lemma wp_compared {A} (p : A) path n v data (stored sum : bytes) w w' (Q : A -> World -> Prop) :
  files w' = files w -> (stored <> sum -> answer path n v data w = Some (Other "checksum mismatch")) ->
  (stored = sum -> answer path n v data w = None) -> (answer path n v data w = None -> Q p w') ->
  wp (if negb (bool_decide (stored = sum)) then fail (Other "checksum mismatch") else mret p) Q (refused path n v data w) w'.
Proof.
  intros Ew Hne Heq HQ. case_bool_decide; cbn [negb]; [by apply io_ret, HQ, Heq|].
  apply wp_fail. split; [done|]. right. by apply Hne.
Qed.

Lemma wp_mmap_open path n v w :
  sizable n ->
  wp (mmap_open overflow_checks blake3 path n v)
    (fun p w' => files w' = files w /\ outcomes w' `suffix_of` outcomes w /\ answer path n v (all_data n) w = None /\
       p = mkMmapFile path HEADER_SIZE (HEADER_SIZE + n) v)
    (refused path n v (all_data n) w) w.
Proof.
  intros Hn. assert (0 <= n) as Hn0 by apply Hn. pose proof (total_bounds n Hn) as Ht. unfold mmap_open. apply io_bind, wp_total_pages; [done|].
  apply io_bind, wp_total_size; [done|]. apply io_bind, wp_open_existing.
  - intros Ef os Ho. split; [done|]. right. unfold answer. by rewrite Ef.
  - intros os Ho Hx. split; [done|]. by left.
  - intros b os Ef Ho. set (fs := files w) in *. set (f := length (fds w)). set (ds := fds w ++ [(path, 0)]).
    assert (f < length ds)%nat as Hf by (unfold ds, f; rewrite length_app; cbn; lia).
    assert (forall c pos os, c = b -> os `suffix_of` outcomes w -> Failure ∈ outcomes w ->
      refused path n v (all_data n) w Os (st fs ds path f c pos os)) as HE.
    { intros ? pos os1 -> H1 H2. split; [cbn; by rewrite insert_id|]. by left. }
    assert (forall pos os, files (st fs ds path f b pos os) = fs) as Hst by (intros; cbn; by rewrite insert_id).
    apply io_bind. unfold file_len. apply io_bind, (wp_call fs ds path f (outcomes w) _ _ HE); [done..|].
    intros os1 _ H1. apply io_bind, wp_fd; [done|]. cbn beta match. apply io_gets. rewrite content_st.
    destruct (Z.eqb_spec (blen b) (total n)) as [El|Hne]; cbn [negb].
    2:{ apply wp_fail. split; [by rewrite Hst|]. right. unfold answer. fold fs. rewrite Ef.
        by rewrite (proj2 (Z.eqb_neq _ _) Hne). }
    apply io_bind, wp_data_end; [done|]. apply io_bind. unfold map_mut. apply io_bind, (wp_call fs ds path f (outcomes w) _ _ HE); [done..|].
    intros os2 _ H2. apply io_bind, wp_fd; [done|]. cbn beta match. apply io_ret, io_bind, io_gets. rewrite content_st.
    apply io_bind. eapply io_lift; [apply (index_some 0 HEADER_SIZE); unfold HEADER_SIZE in *; lia|].
    eapply (wp_checked _ b); [done|done|by rewrite Hst|reflexivity|reflexivity|]. intros Hbad Hgood.
    apply io_bind. eapply io_lift; [apply index_some; unfold HEADER_SIZE in *; lia|].
    apply io_bind. eapply io_lift; [apply (index_some 0 32); unfold HEADER_SIZE in *; lia|].
    apply io_bind. eapply io_lift; [apply index_hash|].
    apply wp_compared; [by rewrite Hst|..].
    + intros Hc. apply Hbad. rewrite header_checksum. rewrite hashed in Hc. exact Hc.
    + intros Hc. apply Hgood. rewrite header_checksum. rewrite hashed in Hc. exact Hc.
    + intros Ha. split; [by rewrite Hst|]. done.
Qed.

Lemma blit_zeros (a p : bytes) k : blen p <= k -> blit (blen a) p (a ++ zeros k) = (a ++ p) ++ zeros (k - blen p).
Proof.
  intros Hk. pose proof (blen_nonneg a). pose proof (blen_nonneg p).
  rewrite blit_in by (rewrite ?blen_app, ?blen_zeros; lia). rewrite <- app_assoc. unfold blen, zeros in *. f_equal; [|f_equal].
  - rewrite Nat2Z.id. apply take_app_length.
  - rewrite drop_app_ge by lia. rewrite drop_replicate. f_equal. lia.
Qed.

Definition page_count n : Z := n / PAGE_SIZE.

(** What [FileBackedMemory::open] makes of a file that it accepts. *)
Record backed_by path n v b (p : FileBackedMemory) w : Prop := {
  bb_file : exists pos, fds w !! file p = Some (path, pos);
  bb_memory : mem_ok n (memory p);
  bb_start : data_start p = HEADER_SIZE;
  bb_end : data_end p = HEADER_SIZE + n;
  bb_version : fb_user_version p = v;
  bb_header : header p = as_bytes (zero_checksum (header_of (slice 0 HEADER_SIZE b)));
  bb_data : mmap (memory p) = page_data n b ++ zeros (n - page_count n * PAGE_SIZE)
}.

Lemma wp_backed_open path n v w :
  sizable n ->
  wp (backed_open overflow_checks blake3 path n v)
    (fun p w' => files w' = files w /\ outcomes w' `suffix_of` outcomes w /\ answer path n v (page_data n) w = None /\
       exists b, files w !! path = Some b /\ blen b = total n /\ backed_by path n v b p w')
    (refused path n v (page_data n) w) w.
Proof.
  intros Hn. assert (0 <= n) as Hn0 by apply Hn. pose proof (total_bounds n Hn) as Ht. unfold backed_open.
  apply io_bind, wp_total_pages; [done|]. apply io_bind, wp_total_size; [done|]. apply io_bind, wp_data_end; [done|].
  apply io_bind, wp_open_existing.
  - intros Ef os Ho. split; [done|]. right. unfold answer. by rewrite Ef.
  - intros os Ho Hx. split; [done|]. by left.
  - intros b os Ef Ho. set (fs := files w) in *. set (f := length (fds w)). set (ds := fds w ++ [(path, 0)]).
    assert (f < length ds)%nat as Hf by (unfold ds, f; rewrite length_app; cbn; lia).
    assert (forall c pos os, c = b -> os `suffix_of` outcomes w -> Failure ∈ outcomes w ->
      refused path n v (page_data n) w Os (st fs ds path f c pos os)) as HE.
    { intros ? pos os1 -> H1 H2. split; [cbn; by rewrite insert_id|]. by left. }
    assert (forall pos os, files (st fs ds path f b pos os) = fs) as Hst by (intros; cbn; by rewrite insert_id).
    apply io_bind. unfold file_len. apply io_bind, (wp_call fs ds path f (outcomes w) _ _ HE); [done..|].
    intros os1 _ H1. apply io_bind, wp_fd; [done|]. cbn beta match. apply io_gets. rewrite content_st.
    destruct (Z.eqb_spec (blen b) (total n)) as [El|Hne]; cbn [negb].
    2:{ apply wp_fail. split; [by rewrite Hst|]. right. unfold answer. fold fs. rewrite Ef.
        by rewrite (proj2 (Z.eqb_neq _ _) Hne). }
    rewrite Z.add_simpl_l. cbv zeta. fold (page_count n).
    assert (page_count n * 4096 <= n /\ 0 <= page_count n) as [Hc1 Hc2] by (unfold page_count, PAGE_SIZE; dm).
    apply io_bind, wp_memory_create; [done|]. apply (wp_call fs ds path f (outcomes w) _ _ HE); [done..|]. intros os2 _ H2.
    apply io_bind, (wp_seek fs ds path f Hf (outcomes w) _ _ HE); [done..|]. intros os3 _ H3.
    apply io_bind, (wp_read_header fs ds path f Hf (outcomes w) _ _ HE);
      [done|done|lia|by apply (blen_replicate (Z.to_nat HEADER_SIZE))|]. intros pos os4 H4.
    eapply (wp_checked _ b); [done|done|by rewrite Hst|reflexivity|reflexivity|]. intros Hbad Hgood.
    apply io_bind, (wp_seek fs ds path f Hf (outcomes w) _ _ HE); [done..|]. intros os5 _ H5.
    set (h := zero_checksum (header_of (slice 0 HEADER_SIZE b))) in *.
    apply io_bind.
    apply (wp_for_pages _ (fun i s w1 => exists m os, s = (m, as_bytes h ++ slice HEADER_SIZE (i * PAGE_SIZE) b) /\ mem_ok n m /\
      mmap m = slice HEADER_SIZE (i * PAGE_SIZE) b ++ zeros (n - i * PAGE_SIZE) /\ os `suffix_of` outcomes w /\
      w1 = st fs ds path f b (HEADER_SIZE + i * PAGE_SIZE) os)).
    + exists (mkMemory (zeros n) n), os5. split; [|split; [by apply mem_ok_zeros|split; [|done]]].
      * unfold hasher_update, hasher_new. cbn [app]. f_equal. change (slice HEADER_SIZE (0 * PAGE_SIZE) b) with ([] : bytes).
        by rewrite app_nil_r.
      * cbn [mmap]. rewrite Z.mul_0_l, Z.sub_0_r. done.
    + intros i s w1 Hi (m & os6 & -> & Hm & Em & H6 & ->).
      unfold HEADER_SIZE, PAGE_SIZE in *.
      apply (wp_read_page fs ds path f Hf (outcomes w) _ _ HE _ _ n); [done|done|lia|unfold HEADER_SIZE; lia|done|unfold PAGE_SIZE; lia|].
      unfold HEADER_SIZE, PAGE_SIZE. cbv zeta. intros m' os7 H7 Hm' Em'. exists m', os7. split; [|split; [done|split; [|done]]].
      * f_equal. rewrite <- app_assoc. f_equal. rewrite <- slice_app_slice by lia. f_equal. lia.
      * assert (blen (slice 4096 (i * 4096) b) = i * 4096) as El1 by (apply blen_slice; lia).
        assert (blen (slice (4096 + i * 4096) 4096 b) = 4096) as El2 by (apply blen_slice; lia).
        rewrite Em', Em. rewrite <- El1 at 1. rewrite blit_zeros by lia. rewrite El2, <- slice_app_slice by lia.
        f_equal; f_equal; lia.
    + rewrite Z.add_0_l, Z2Nat.id by done. intros s w1 (m & os6 & -> & Hm & Em & H6 & ->). cbn beta match.
      apply io_bind. eapply io_lift; [apply index_hash|].
      apply wp_compared; [by rewrite Hst|exact Hbad|exact Hgood|].
      intros Ha. split; [by rewrite Hst|]. split; [done|]. split; [done|]. exists b. split; [done|]. split; [done|]. split; try done.
      exists (HEADER_SIZE + page_count n * PAGE_SIZE). cbn [fds st file]. by rewrite list_lookup_insert_eq.
Qed.

(** ** Flushing *)

Definition shaped (h : Header) : Prop := blen (checksum h) = 32 /\ blen (magic h) = 8 /\ blen (pad h) = 4008.

Lemma blen_as_bytes h : shaped h -> blen (as_bytes h) = HEADER_SIZE.
Proof.
  intros (Hc & Hm & Hp). unfold as_bytes. rewrite !blen_app, !blen_le_bytes, Hc, Hm, Hp. done.
Qed.

(** The header that a flush writes, but for its checksum. *)
Definition flushed_header now v : Header := set_user_version v (header_new now).

Lemma flushed_shaped now v : shaped (flushed_header now v).
Proof. split; [|split]; [done..|]. apply (blen_replicate 4008). Qed.

Definition seal now v d : Header := set_checksum (blake3 (as_bytes (flushed_header now v) ++ d)) (flushed_header now v).

Lemma seal_shaped now v d : shaped (seal now v d).
Proof.
  destruct (flushed_shaped now v) as (_ & Hm & Hp). split; [|by split].
  unfold seal, set_checksum, with_checksum. cbn [checksum]. apply blen_slice; [done..|].
  unfold blen. rewrite (proj1 (Hblake _)). done.
Qed.

(** The bytes of a file after a flush of [d]. *)
Definition sealed now v d : bytes := as_bytes (seal now v d) ++ d.

Lemma blen_sealed now v d : blen (sealed now v d) = HEADER_SIZE + blen d.
Proof. unfold sealed. by rewrite blen_app, (blen_as_bytes _ (seal_shaped _ _ _)). Qed.

Lemma sealed_eq now v d c :
  blen c = HEADER_SIZE + blen d -> slice HEADER_SIZE (blen d) c = d -> blit 0 (as_bytes (seal now v d)) c = sealed now v d.
Proof.
  intros Hl Hd. pose proof (blen_as_bytes _ (seal_shaped now v d)) as Hs. pose proof (blen_nonneg d).
  rewrite blit_in by lia. unfold sealed. change (take (Z.to_nat 0) c) with ([] : bytes). cbn [app]. f_equal. rewrite <- Hd at 2.
  unfold slice. rewrite take_ge by (rewrite length_drop; unfold blen in *; lia). f_equal. unfold blen in *. lia.
Qed.

Lemma bytes_seal now v d : Forall is_byte (as_bytes (seal now v d)).
Proof.
  unfold as_bytes. repeat apply Forall_app_2; auto with bytes_len.
  - cbn. apply Forall_slice, Hblake.
  - cbn. unfold MAGIC. repeat constructor; done.
  - apply Forall_replicate. done.
Qed.

(** What a flush of [d] into [c] may have left behind when it did not get to its
    end: the old header, or the new data. *)
Definition torn c d c' : Prop :=
  blen c' = blen c /\ (Forall is_byte c -> Forall is_byte d -> Forall is_byte c') /\
  (slice 0 HEADER_SIZE c' = slice 0 HEADER_SIZE c \/ slice HEADER_SIZE (blen d) c' = d).

Lemma torn_refl c d : torn c d c.
Proof. split; [done|]. split; [done|by left]. Qed.

Section Flush.
Context (fs : gmap string bytes) (ds : list (string * Z)) (path : string) (f : nat) (Hf : (f < length ds)%nat).
Context (os0 : list Outcome) (p : FileBackedMemory) (c d : bytes) (n len : Z) (Hn : 0 <= n).
Context (Hfile : file p = f) (Hmem : mem_ok len (memory p)) (Hlen : n * PAGE_SIZE <= len).
Context (Hd : slice 0 (n * PAGE_SIZE) (mmap (memory p)) = d) (Hc : HEADER_SIZE + n * PAGE_SIZE <= blen c).
Context (E : Error -> World -> Prop).
Context (HE : forall c' pos os, torn c d c' -> os `suffix_of` os0 -> Failure ∈ os0 -> E Os (st fs ds path f c' pos os)).

Lemma blen_pool : blen d = n * PAGE_SIZE.
Proof using Hd Hmem Hlen Hn. rewrite <- Hd. clear - Hmem Hlen Hn. pose proof (mo_len _ _ Hmem). unfold PAGE_SIZE in *. apply blen_slice; lia. Qed.

Lemma pool_page i : 0 <= i < n -> slice (i * PAGE_SIZE) PAGE_SIZE (mmap (memory p)) = slice (i * PAGE_SIZE) PAGE_SIZE d.
Proof using Hd. intros. rewrite <- Hd. clear Hf Hfile Hn Hlen Hc. unfold PAGE_SIZE in *. by rewrite slice_slice by lia. Qed.

Lemma wp_write_pages hasher os (Q : bytes -> World -> Prop) :
  os `suffix_of` os0 ->
  (forall c' os', os' `suffix_of` os0 -> torn c d c' -> slice HEADER_SIZE (blen d) c' = d ->
    Q (hasher ++ d) (st fs ds path f c' (HEADER_SIZE + n * PAGE_SIZE) os')) ->
  wp (for_pages (Z.to_nat n) 0 (fun page =>
    loop (write_page p page) (seek (file p) (HEADER_SIZE + page * PAGE_SIZE))) hasher) Q E (st fs ds path f c HEADER_SIZE os).
Proof using Hf Hn Hfile Hmem Hlen Hd Hc HE.
  intros Hs HQ. pose proof blen_pool as Hl.
  apply (wp_for_pages _ (fun i h w => exists c1 os, h = hasher ++ slice 0 (i * PAGE_SIZE) d /\ torn c d c1 /\
    slice 0 HEADER_SIZE c1 = slice 0 HEADER_SIZE c /\ slice HEADER_SIZE (i * PAGE_SIZE) c1 = slice 0 (i * PAGE_SIZE) d /\
    os `suffix_of` os0 /\ w = st fs ds path f c1 (HEADER_SIZE + i * PAGE_SIZE) os)).
  - exists c, os. split; [|split; [apply torn_refl|done]]. change (slice 0 (0 * PAGE_SIZE) d) with ([] : bytes). by rewrite app_nil_r.
  - intros i h w Hi (c1 & os1 & -> & [Hl1 [Hb1 _]] & Hh1 & Hd1 & Hs1 & ->). unfold HEADER_SIZE, PAGE_SIZE in *.
    set (b := slice (i * 4096) 4096 d). assert (blen b = 4096) as Hb by (apply blen_slice; lia). rewrite Hfile.
    apply (wp_write_all fs ds path f Hf os0 E (torn c d) HE c1 _ b _ _ _ (hasher ++ slice 0 ((i + 1) * 4096) d)).
    + intros Q' w Hw. unfold write_page. apply io_bind, (wp_memory_slice len); [done|].
      pose proof (mo_len _ _ Hmem). pose proof (pool_page i) as Hpage. unfold PAGE_SIZE in Hpage.
      apply io_bind. eapply io_lift; [unfold PAGE_SIZE; apply index_some; lia|]. unfold PAGE_SIZE. rewrite Hpage by lia. fold b. rewrite Hfile.
      apply io_bind. eapply io_mono; [exact Hw| |done]. cbn beta. intros k w' HQ'. rewrite Hb in HQ'.
      destruct (k =? 4096); [|done]. apply io_ret. unfold hasher_update. rewrite <- app_assoc.
      replace (slice 0 (i * 4096) d ++ b) with (slice 0 ((i + 1) * 4096) d); [done|].
      unfold b. change (i * 4096) with (0 + i * 4096) at 2. rewrite <- slice_app_slice by lia. f_equal. lia.
    + intros k Hk. split; [by rewrite blen_blit|]. split; [|left].
      { intros Hcb Hdb. apply Forall_blit; [by apply Forall_slice, Forall_slice|by apply Hb1]. }
      unfold HEADER_SIZE. rewrite <- Hh1.
      apply slice_blit_before; rewrite ?blen_slice; lia.
    + done.
    + lia.
    + lia.
    + intros os2 Hs2. exists (blit (4096 + i * 4096) b c1), os2.
      assert (slice 0 4096 (blit (4096 + i * 4096) b c1) = slice 0 4096 c) as Hh2 by (rewrite <- Hh1; apply slice_blit_before; lia).
      split; [done|]. split; [|split; [exact Hh2|split; [|split; [done|]]]].
      * split; [by rewrite blen_blit|]. split; [|by left]. intros Hcb Hdb. apply Forall_blit; [by apply Forall_slice|by apply Hb1].
      * replace ((i + 1) * 4096) with (i * 4096 + 4096) by lia. rewrite !slice_app_slice by lia. f_equal.
        -- rewrite <- Hd1. apply slice_blit_before; lia.
        -- by rewrite slice_blit_eq by lia.
      * rewrite Hb. f_equal. lia.
  - rewrite Z.add_0_l, Z2Nat.id by done. intros h w (c1 & os1 & -> & Ht1 & _ & Hd1 & Hs1 & ->).
    rewrite slice_full by lia. apply HQ; [done..|]. rewrite Hl, Hd1. apply slice_full. lia.
Qed.

Lemma wp_backed_flush now pos os (Q : unit -> World -> Prop) :
  data_start p = HEADER_SIZE -> data_end p = HEADER_SIZE + n * PAGE_SIZE -> blen c = HEADER_SIZE + n * PAGE_SIZE ->
  os `suffix_of` os0 ->
  (forall pos' os', os' `suffix_of` os0 -> Q tt (st fs ds path f (sealed now (fb_user_version p) d) pos' os')) ->
  wp (backed_flush blake3 now p) Q E (st fs ds path f c pos os).
Proof using Hf Hn Hfile Hmem Hlen Hd Hc HE Hblake.
  intros Hstart Hend Hce Hs HQ. pose proof blen_pool as Hl. pose proof (blen_nonneg d). unfold backed_flush. cbv zeta.
  pose proof (torn_refl c d) as Hj.
  apply io_bind. rewrite Hfile at 1. apply (wp_seek fs ds path f Hf os0 E (torn c d) HE); [done..|]. intros os1 _ H1.
  replace ((data_end p - data_start p) / PAGE_SIZE) with n.
  2:{ rewrite Hend, Hstart. unfold PAGE_SIZE. rewrite Z.add_simpl_l. by rewrite Z.div_mul. }
  apply io_bind, wp_write_pages; [done|]. intros c1 os2 H2 Hj1 Hd1. pose proof Hj1 as [Hl1 [Hb1 _]].
  change (hasher_update hasher_new (as_bytes (set_user_version (fb_user_version p) (header_new now))))
    with (as_bytes (flushed_header now (fb_user_version p))).
  change (set_checksum _ _) with (seal now (fb_user_version p) d).
  unfold HEADER_SIZE in *.
  pose proof (blen_as_bytes _ (seal_shaped now (fb_user_version p) d)) as Hh. unfold HEADER_SIZE in Hh.
  apply io_bind. rewrite Hfile. apply (wp_seek fs ds path f Hf os0 E (torn c d) HE); [done..|]. intros os3 _ H3.
  apply io_bind, (wp_write_all fs ds path f Hf os0 E (torn c d) HE c1 0 (as_bytes (seal now (fb_user_version p) d)) os3 _ tt tt).
  - intros Q' w Hw. unfold write_header. apply io_bind. eapply io_mono; [exact Hw| |done]. cbn beta. intros k w' HQ'.
    rewrite Hh in HQ'. apply io_ret. unfold HEADER_SIZE. by destruct (k =? 4096).
  - intros k Hk. split; [by rewrite blen_blit|]. split; [intros; apply Forall_blit; auto; apply Forall_slice, bytes_seal|]. right. unfold HEADER_SIZE.
    rewrite slice_blit_after by (rewrite ?blen_slice; lia). exact Hd1.
  - done.
  - done.
  - lia.
  - intros os4 H4. rewrite sealed_eq by (unfold HEADER_SIZE; (lia || done)).
    apply (wp_call fs ds path f os0 E (torn c d) HE); [|done|].
    + split; [rewrite blen_sealed; unfold HEADER_SIZE; lia|]. split; [intros; apply Forall_app_2; [apply bytes_seal|done]|]. right. unfold sealed.
      pose proof (blen_as_bytes _ (seal_shaped now (fb_user_version p) d)) as Hx. rewrite slice_app_r by lia.
      rewrite Hx, Z.sub_diag. by apply slice_full.
    + intros os5 _ H5. by apply HQ.
Qed.
End Flush.

(** A mapped pool is flushed in place. *)
Lemma wp_mmap_flush now p c d n fs ds os (Q : unit -> World -> Prop) E :
  0 <= n -> fs !! mf_mmap p = Some c -> blen c = HEADER_SIZE + n * PAGE_SIZE -> slice HEADER_SIZE (n * PAGE_SIZE) c = d ->
  (forall os', os' `suffix_of` os ->
    Q tt (mkWorld (<[mf_mmap p := sealed now (mf_user_version p) d]> fs) ds os')) ->
  (forall c' os', os' `suffix_of` os -> Failure ∈ os -> c' = c \/ c' = sealed now (mf_user_version p) d ->
    E Os (mkWorld (<[mf_mmap p := c']> fs) ds os')) ->
  wp (mmap_flush blake3 now p) Q E (mkWorld fs ds os).
Proof.
  intros Hn Ef Hc Hd HQ HE. unfold mmap_flush.
  assert (blen d = n * PAGE_SIZE) as Hl by (rewrite <- Hd; unfold HEADER_SIZE, PAGE_SIZE in *; apply blen_slice; lia).
  apply io_bind, wp_syscall; cbn [outcomes]; unfold set_outcomes; cbn [files fds].
  2:{ intros os1 H1 Hx. specialize (HE c os1 H1 Hx (or_introl eq_refl)). rewrite insert_id in HE by done. exact HE. }
  intros os1 H1. apply io_bind, io_gets. unfold content at 1. cbn [files]. rewrite Ef. cbn [default]. unfold id. rewrite Hc, Z.add_simpl_l.
  replace (n * PAGE_SIZE / PAGE_SIZE) with n by (unfold PAGE_SIZE; by rewrite Z.div_mul).
  change (hasher_update hasher_new _) with (as_bytes (flushed_header now (mf_user_version p))).
  apply io_bind. apply (wp_for_pages _ (fun i h w => h = as_bytes (flushed_header now (mf_user_version p)) ++ slice 0 (i * PAGE_SIZE) d /\
    w = mkWorld fs ds os1)).
  - split; [|done]. change (slice 0 (0 * PAGE_SIZE) d) with ([] : bytes). by rewrite app_nil_r.
  - intros i h w Hi [-> ->]. apply io_bind, io_gets. unfold content. cbn [files]. rewrite Ef. cbn [default]. unfold id, HEADER_SIZE, PAGE_SIZE in *.
    apply io_bind. eapply io_lift; [apply index_some; lia|]. apply io_ret. split; [|done]. unfold hasher_update.
    rewrite <- app_assoc. f_equal. replace ((i + 1) * 4096) with (i * 4096 + 4096) by lia. rewrite slice_app_slice by lia. f_equal.
    rewrite <- Hd, slice_slice by lia. f_equal. lia.
  - rewrite Z.add_0_l, Z2Nat.id by done. intros h w [-> ->]. rewrite slice_full by done.
    change (set_checksum _ _) with (seal now (mf_user_version p) d).
    apply io_bind. unfold map_write. apply io_bind, io_gets. unfold content. cbn [files]. rewrite Ef. cbn [default]. unfold id.
    apply io_bind. eapply io_lift; [reflexivity|]. apply io_modify. rewrite sealed_eq by (rewrite Hl; done).
    apply wp_syscall; unfold set_content, set_files, set_outcomes; cbn [files fds outcomes].
    + intros os2 H2. apply HQ. by etrans.
    + intros os2 H2 Hx. apply HE; [by etrans|by eapply suffix_failure|by right].
Qed.

(** ** Creating *)

Lemma zeros_extend (n : Z) : 0 <= n -> take (Z.to_nat n) (([] : bytes) ++ replicate (Z.to_nat (n - blen [])) 0) = zeros n.
Proof. intros. cbn [app]. rewrite blen_nil, Z.sub_0_r. unfold zeros. rewrite take_ge; [done|]. by rewrite length_replicate. Qed.

(** A path that is taken is refused; one that is free is a file, whatever happens next. *)
Lemma wp_open_new path (Q : nat -> World -> Prop) E w :
  (is_Some (files w !! path) -> forall os, os `suffix_of` outcomes w -> E AlreadyExists (set_outcomes os w)) ->
  (forall os, os `suffix_of` outcomes w -> Failure ∈ outcomes w -> E Os (set_outcomes os w)) ->
  (forall os, files w !! path = None -> os `suffix_of` outcomes w ->
    Q (length (fds w)) (st (files w) (fds w ++ [(path, 0)]) path (length (fds w)) [] 0 os)) ->
  wp (open_file true path) Q E w.
Proof.
  intros Hn He HQ. apply io_bind, wp_syscall; [|done]. intros os Ho. apply io_bind, io_gets.
  cbn [files set_outcomes]. destruct (files w !! path) as [b|] eqn:Eb.
  - apply io_bind, wp_fail. by apply Hn.
  - apply io_bind, io_modify, io_bind, io_gets, io_bind, io_modify, io_ret. cbn [fds set_outcomes set_content set_files].
    specialize (HQ os eq_refl Ho). unfold st in HQ. rewrite (list_insert_id (fds w ++ _)) in HQ by (by apply list_lookup_middle). exact HQ.
Qed.

(** Errors of [create]: the path is taken, or the system's, which leave the file. *)
Definition not_created path w (e : Error) w' : Prop :=
  e = AlreadyExists /\ is_Some (files w !! path) /\ files w' = files w \/
  e = Os /\ Failure ∈ outcomes w /\ (files w' = files w \/ exists c, files w' = <[path := c]> (files w)).

Lemma wp_set_len fs ds path f os0 (Hf : (f < length ds)%nat) (E : Error -> World -> Prop) c pos len os (Q : unit -> World -> Prop) :
  (forall c pos os, os `suffix_of` os0 -> Failure ∈ os0 -> E Os (st fs ds path f c pos os)) -> os `suffix_of` os0 ->
  (forall os', os' `suffix_of` os0 ->
    Q tt (st fs ds path f (take (Z.to_nat len) (c ++ replicate (Z.to_nat (len - blen c)) 0)) pos os')) ->
  wp (set_len f len) Q E (st fs ds path f c pos os).
Proof.
  intros HE Hs HQ. apply io_bind, (wp_call fs ds path f os0 E (fun _ => True)); [by auto|done|done|]. intros os1 _ H1.
  apply io_bind, wp_fd; [done|]. cbn beta match. apply io_modify. rewrite content_st, set_content_st. by apply HQ.
Qed.

Lemma wp_mmap_create path n v w :
  sizable n ->
  wp (mmap_create overflow_checks path n v)
    (fun p w' => files w !! path = None /\ files w' = <[path := zeros (total n)]> (files w) /\ outcomes w' `suffix_of` outcomes w /\
       p = mkMmapFile path HEADER_SIZE (total n) v)
    (not_created path w) w.
Proof.
  intros Hn. pose proof (total_bounds n Hn) as Ht. assert (0 <= total n) by (destruct Hn; unfold HEADER_SIZE in *; lia).
  unfold mmap_create. apply io_bind, wp_total_pages; [done|]. apply io_bind, wp_total_size; [done|]. apply io_bind, wp_open_new.
  - intros Ef os Ho. left. by split.
  - intros os Ho Hx. right. split; [done|]. split; [done|]. by left.
  - intros os Ef Ho. set (fs := files w) in *. set (f := length (fds w)). set (ds := fds w ++ [(path, 0)]).
    assert (f < length ds)%nat as Hf by (unfold ds, f; rewrite length_app; cbn; lia).
    assert (forall c pos os, os `suffix_of` outcomes w -> Failure ∈ outcomes w ->
      not_created path w Os (st fs ds path f c pos os)) as HE.
    { intros c pos os1 H1 H2. right. split; [done|]. split; [done|]. right. by exists c. }
    apply io_bind, (wp_set_len fs ds path f (outcomes w)); [done..|]. intros os1 H1. rewrite zeros_extend by done.
    apply io_bind. unfold map_mut. apply io_bind, (wp_call fs ds path f (outcomes w) _ (fun _ => True)); [by auto|done|done|].
    intros os2 _ H2. apply io_bind, wp_fd; [done|]. cbn beta match. apply io_ret.
    apply io_bind. unfold map_write. apply io_bind, io_gets. rewrite content_st. apply io_bind.
    eapply io_lift; [by apply prefault_created|]. apply io_modify. rewrite set_content_st.
    apply io_bind, (wp_call fs ds path f (outcomes w) _ (fun _ => True)); [by auto|done|done|]. intros os3 _ H3. by apply io_ret.
Qed.

Lemma blit_zeros_zeros off k n : 0 <= off -> 0 <= k -> off + k <= n -> blit off (zeros k) (zeros n) = zeros n.
Proof.
  intros. assert (zeros n = zeros off ++ zeros (n - off)) as En.
  { unfold zeros. rewrite <- replicate_add. f_equal. lia. }
  rewrite En. rewrite <- (blen_zeros off) at 1 by lia. rewrite blit_zeros by (rewrite blen_zeros; lia).
  rewrite blen_zeros, <- app_assoc by lia. f_equal. unfold zeros. rewrite <- replicate_add. f_equal. lia.
Qed.

Lemma slice_zeros k n : 0 <= k <= n -> slice 0 k (zeros n) = zeros k.
Proof. intros. unfold slice, zeros. rewrite drop_0, take_replicate. f_equal. lia. Qed.

(** A pool that was just created. *)
Record fresh_backed path n v (p : FileBackedMemory) w : Prop := {
  fr_file : exists pos, fds w !! file p = Some (path, pos);
  fr_memory : memory p = mkMemory (zeros n) n;
  fr_start : data_start p = HEADER_SIZE;
  fr_end : data_end p = total n;
  fr_version : fb_user_version p = v;
  fr_header : header p = zeros HEADER_SIZE
}.

Lemma wp_write_zeros fs ds path f os0 (Hf : (f < length ds)%nat) (E : Error -> World -> Prop) m pages os (Q : unit -> World -> Prop) :
  (forall c pos os, os `suffix_of` os0 -> Failure ∈ os0 -> E Os (st fs ds path f c pos os)) -> os `suffix_of` os0 ->
  0 <= pages -> pages * PAGE_SIZE <= m ->
  (forall pos' os', os' `suffix_of` os0 -> Q tt (st fs ds path f (zeros m) pos' os')) ->
  wp (for_pages (Z.to_nat pages) 0 (fun page => loop (write_zeros f) (seek f (page * PAGE_SIZE))) tt) Q E
    (st fs ds path f (zeros m) 0 os).
Proof.
  intros HE Hs Hp Hm HQ. unfold PAGE_SIZE in *.
  apply (wp_for_pages _ (fun i _ w => exists os, os `suffix_of` os0 /\ w = st fs ds path f (zeros m) (i * 4096) os)).
  - by exists os.
  - intros i [] w Hi (os1 & H1 & ->). assert (blen (zeros 4096) = 4096) as Hz by (by apply blen_zeros).
    assert (forall k, 0 <= k <= 4096 -> blit (i * 4096) (slice 0 k (zeros 4096)) (zeros m) = zeros m) as Hb.
    { intros k Hk. rewrite slice_zeros by done. apply blit_zeros_zeros; lia. }
    apply (wp_write_all fs ds path f Hf os0 E (fun _ => True) ltac:(auto) (zeros m) _ (zeros 4096) _ _ tt tt).
    + intros Q' w Hw. unfold write_zeros, PAGE_SIZE. apply io_bind. eapply io_mono; [exact Hw| |done].
      cbn beta. intros k w' HQ'. rewrite Hz in HQ'. apply io_ret. by destruct (k =? 4096).
    + done.
    + done.
    + lia.
    + rewrite Hz, blen_zeros; lia.
    + intros os2 H2. exists os2. split; [done|]. rewrite Hz.
      specialize (Hb 4096 ltac:(lia)). rewrite (slice_full 4096) in Hb by done. rewrite Hb. f_equal. lia.
  - intros [] w (os1 & H1 & ->). by apply HQ.
Qed.

Lemma wp_backed_create path n v w :
  sizable n ->
  wp (backed_create overflow_checks path n v)
    (fun p w' => files w !! path = None /\ files w' = <[path := zeros (total n)]> (files w) /\ outcomes w' `suffix_of` outcomes w /\
       fresh_backed path n v p w')
    (not_created path w) w.
Proof.
  intros Hn. pose proof (total_bounds n Hn) as Ht. assert (0 <= n) as Hn0 by apply Hn.
  assert (0 <= total n) by (unfold HEADER_SIZE in *; lia).
  unfold backed_create. apply io_bind, wp_total_pages; [done|]. do 2 (apply io_bind, wp_total_size; [done|]). apply io_bind, wp_open_new.
  - intros Ef os Ho. left. by split.
  - intros os Ho Hx. right. split; [done|]. split; [done|]. by left.
  - intros os Ef Ho. set (fs := files w) in *. set (f := length (fds w)). set (ds := fds w ++ [(path, 0)]).
    assert (f < length ds)%nat as Hf by (unfold ds, f; rewrite length_app; cbn; lia).
    assert (forall c pos os, os `suffix_of` outcomes w -> Failure ∈ outcomes w ->
      not_created path w Os (st fs ds path f c pos os)) as HE.
    { intros c pos os1 H1 H2. right. split; [done|]. split; [done|]. right. by exists c. }
    apply io_bind, (wp_set_len fs ds path f (outcomes w)); [done..|]. intros os1 H1. rewrite zeros_extend by done.
    apply io_bind, (wp_write_zeros fs ds path f (outcomes w)); [done|done|done|by apply Z.div_pos|by rewrite total_div|]. intros pos os2 H2.
    apply io_bind, (wp_call fs ds path f (outcomes w) _ (fun _ => True)); [by auto|done|done|]. intros os3 _ H3.
    apply io_bind, wp_memory_create; [done|]. apply (wp_call fs ds path f (outcomes w) _ (fun _ => True)); [by auto|done|done|].
    intros os4 _ H4. apply io_ret. split; [done|]. split; [done|]. split; [done|]. split; try done.
    exists pos. cbn [fds st file]. by rewrite list_lookup_insert_eq.
Qed.

(** ** Headers as bytes *)

(** Everything behind the checksum. *)
Definition rest (h : Header) : bytes :=
  magic h ++ le_bytes 8 (version h)
    ++ le_bytes 4 (monotonic_s (times h)) ++ le_bytes 4 (unix_s (times h))
    ++ le_bytes 8 (monotonic_ns (times h)) ++ le_bytes 8 (unix_ns (times h))
    ++ le_bytes 8 (user_version h) ++ le_bytes 8 (options h) ++ pad h.

Lemma as_bytes_rest h : as_bytes h = checksum h ++ rest h.
Proof. done. Qed.

Lemma field_bytes (n : nat) m off b :
  m = Z.of_nat n -> Forall is_byte b -> 0 <= off -> off + m <= blen b -> le_bytes n (le_value (slice off m b)) = slice off m b.
Proof.
  intros -> Hb Ho Hl. assert (length (slice off (Z.of_nat n) b) = n) as E by (rewrite length_slice by lia; lia).
  rewrite <- E at 1. apply le_bytes_le_value. by apply Forall_slice.
Qed.

Lemma rest_header_of b : Forall is_byte b -> blen b = HEADER_SIZE -> rest (header_of b) = slice 32 4064 b.
Proof.
  intros Hb Hl. unfold HEADER_SIZE in Hl. unfold rest, header_of.
  cbn [magic version times monotonic_s unix_s monotonic_ns unix_ns user_version options pad].
  rewrite !field_bytes by (done || lia). rewrite <- !slice_app_slice by lia. done.
Qed.

Lemma zeroed_header b : Forall is_byte b -> blen b = HEADER_SIZE -> as_bytes (zero_checksum (header_of b)) = zeros 32 ++ slice 32 4064 b.
Proof.
  intros Hb Hl. rewrite as_bytes_rest. change (rest (zero_checksum (header_of b))) with (rest (header_of b)).
  rewrite rest_header_of by done. f_equal. unfold zero_checksum, with_checksum, header_of, zeros. cbn [checksum].
  rewrite length_slice; [done|done|done|]. rewrite Hl. done.
Qed.

(** What the checksum of a file is the hash of: all its bytes, with zeros for the checksum. *)
Definition hashed_bytes b : bytes := zeros 32 ++ drop 32 b.

Lemma hashed_file b d m :
  Forall is_byte b -> HEADER_SIZE <= blen b -> m = blen b - HEADER_SIZE -> d = slice HEADER_SIZE m b ->
  as_bytes (zero_checksum (header_of (slice 0 HEADER_SIZE b))) ++ d = hashed_bytes b.
Proof.
  intros Hb Hl -> ->. rewrite zeroed_header; [|by apply Forall_slice|by apply blen_slice]. unfold HEADER_SIZE in *.
  unfold hashed_bytes. rewrite <- app_assoc. f_equal. rewrite slice_slice by lia. change (0 + 32) with 32.
  rewrite <- (slice_app_slice 32 4064) by lia. unfold slice. change (Z.to_nat 32) with 32%nat. apply take_ge.
  rewrite length_drop. unfold blen in *. lia.
Qed.

Lemma header_rest b h :
  Forall is_byte b -> blen b = HEADER_SIZE -> shaped h -> slice 32 4064 b = rest h ->
  magic (header_of b) = magic h /\ (fits 64 (version h) -> version (header_of b) = version h) /\
  (fits 64 (user_version h) -> user_version (header_of b) = user_version h).
Proof.
  intros Hb Hl (Hc & Hm & Hp) Hr. rewrite <- rest_header_of in Hr by done.
  assert (shaped (header_of b)) as (_ & Hm' & _).
  { unfold HEADER_SIZE in Hl. split; [|split]; apply blen_slice; lia. }
  assert (forall off, 0 <= off -> off + 8 <= 4096 -> fits 64 (le_value (slice off 8 b))) as Hf.
  { intros off ? ?. unfold HEADER_SIZE in Hl. pose proof (le_value_bounds (slice off 8 b) ltac:(by apply Forall_slice)) as H1.
    rewrite length_slice in H1 by lia. exact H1. }
  assert (forall x y, fits 64 x -> fits 64 y -> le_bytes 8 x = le_bytes 8 y -> x = y) as Hinj.
  { intros x y ? ? E. rewrite <- (le_value_le_bytes 8 x), <- (le_value_le_bytes 8 y) by done. by rewrite E. }
  unfold rest in Hr. apply app_inj_1 in Hr as [Em Hr]; [|unfold blen in *; lia].
  apply app_inj_1 in Hr as [Ev Hr]; [|by rewrite !length_le_bytes]. do 4 (apply app_inj_1 in Hr as [_ Hr]; [|by rewrite !length_le_bytes]).
  apply app_inj_1 in Hr as [Eu _]; [|by rewrite !length_le_bytes].
  split; [done|]. split; intros Hx; apply Hinj; try done; by apply Hf.
Qed.

(** Data is accepted behind the header of a flush if it hashes to its checksum. *)
Lemma verdict_of_seal now v d d' :
  fits 64 v ->
  verdict v (sealed now v d) d' =
    if bool_decide (blake3 (as_bytes (flushed_header now v) ++ d) = blake3 (as_bytes (flushed_header now v) ++ d'))
    then None else Some (Other "checksum mismatch").
Proof.
  intros Hv. set (b := as_bytes (seal now v d)). pose proof (blen_as_bytes _ (seal_shaped now v d)) as Hl. fold b in Hl.
  assert (slice 0 HEADER_SIZE (sealed now v d) = b) as E.
  { unfold sealed. fold b. rewrite slice_app_l by (rewrite ?Hl; done). by apply slice_full. }
  assert (blen (checksum (seal now v d)) = 32) as Hc by apply seal_shaped.
  assert (slice 32 4064 b = rest (seal now v d)) as Hr.
  { unfold b. rewrite as_bytes_rest, slice_app_r by lia. rewrite Hc. apply slice_full.
    unfold b in Hl. rewrite as_bytes_rest, blen_app, Hc in Hl. unfold HEADER_SIZE in Hl. lia. }
  assert (checksum (header_of b) = blake3 (as_bytes (flushed_header now v) ++ d)) as Ec.
  { change (slice 0 32 b = blake3 (as_bytes (flushed_header now v) ++ d)). unfold b. rewrite as_bytes_rest.
    rewrite slice_app_l by lia. rewrite slice_full by lia. unfold seal, set_checksum, with_checksum. cbn [checksum].
    apply slice_full. unfold blen. by rewrite (proj1 (Hblake _)). }
  destruct (header_rest b (seal now v d)) as (Em & Ev & Eu); [apply bytes_seal|done|apply seal_shaped|done|].
  unfold verdict. rewrite E. cbv zeta. unfold judged. rewrite Em, Ev, Eu, Ec by done.
  rewrite zeroed_header by (apply bytes_seal || done). rewrite Hr.
  change (magic (seal now v d)) with MAGIC. change (version (seal now v d)) with VERSION. change (user_version (seal now v d)) with v.
  change (zeros 32 ++ rest (seal now v d)) with (as_bytes (flushed_header now v)).
  rewrite (bool_decide_true (MAGIC = MAGIC)), !Z.eqb_refl by done. cbn [negb]. by case_bool_decide.
Qed.

(** What was flushed is accepted. *)
Lemma verdict_sealed now v d : fits 64 v -> verdict v (sealed now v d) d = None.
Proof. intros Hv. rewrite verdict_of_seal by done. by rewrite bool_decide_true. Qed.

Lemma accepted_sum v b d m :
  Forall is_byte b -> HEADER_SIZE <= blen b -> m = blen b - HEADER_SIZE -> d = slice HEADER_SIZE m b -> verdict v b d = None ->
  slice 0 32 b = blake3 (hashed_bytes b).
Proof.
  intros Hb Hl Hm Hd. unfold verdict, judged. cbv zeta. rewrite (hashed_file b d m Hb Hl Hm Hd), header_checksum.
  do 3 (match goal with |- context [if ?c then _ else _] => destruct c; [done|] end).
  by case_bool_decide.
Qed.
End Hash.
