(* ===== verification/DatatierThms.v ===== *)
(** * Theorems about byte pools

    The pools behind their common interface, and what a client that creates,
    writes, flushes and opens them can rely on. *)
From stdpp Require Import gmap strings.
From S2P Require Import Prelude Datatier DatatierSpec.
#[local] Open Scope Z_scope.

(** A whole number of pages. *)
Definition whole (n : Z) : Prop := n mod PAGE_SIZE = 0.

Lemma whole_pages n : whole n -> n / PAGE_SIZE * PAGE_SIZE = n.
Proof. unfold whole, PAGE_SIZE. intros. dm. Qed.

Lemma whole_total n : whole n -> total n = HEADER_SIZE + n.
Proof. unfold whole, total, PAGE_SIZE, HEADER_SIZE. intros. dm. Qed.

Section Client.
Context (overflow_checks : bool) (blake3 : bytes -> bytes).
Context (Hblake : forall b, length (blake3 b) = 32%nat /\ Forall is_byte (blake3 b)).
Implicit Types (path : string) (b c d : bytes) (v n : Z) (w : World).

(** ** Pools of either kind on a file *)

Inductive Pool :=
| Mapped (p : MmapFile)
| Backed (p : FileBackedMemory).

Definition any_pool (now : Times) : Datapool Pool := {|
  as_slice p :=
    match p with
    | Mapped p => as_slice (Datapool := mmap_pool blake3 now) p
    | Backed p => as_slice (Datapool := backed_pool blake3 now) p
    end;
  as_mut_slice f p :=
    match p with
    | Mapped p => p ← as_mut_slice (Datapool := mmap_pool blake3 now) f p; mret (Mapped p)
    | Backed p => p ← as_mut_slice (Datapool := backed_pool blake3 now) f p; mret (Backed p)
    end;
  flush p :=
    match p with
    | Mapped p => flush (Datapool := mmap_pool blake3 now) p
    | Backed p => flush (Datapool := backed_pool blake3 now) p
    end
|}.

Definition pool_open (backed : bool) path n v : M Pool :=
  if backed then p ← backed_open overflow_checks blake3 path n v; mret (Backed p)
  else p ← mmap_open overflow_checks blake3 path n v; mret (Mapped p).

Definition pool_create (backed : bool) path n v : M Pool :=
  if backed then p ← backed_create overflow_checks path n v; mret (Backed p)
  else p ← mmap_create overflow_checks path n v; mret (Mapped p).

(** [p] is on the file at [path], of the size of [d], and shows [d]. *)
Record attached path v d (p : Pool) w : Prop := {
  at_file : exists c, files w !! path = Some c /\ blen c = HEADER_SIZE + blen d /\
    match p with Mapped _ => slice HEADER_SIZE (blen d) c = d | Backed _ => True end;
  at_pool :
    match p with
    | Mapped p => p = mkMmapFile path HEADER_SIZE (HEADER_SIZE + blen d) v
    | Backed p => (exists pos, fds w !! file p = Some (path, pos)) /\ mem_ok (blen d) (memory p) /\ mmap (memory p) = d /\
        data_start p = HEADER_SIZE /\ data_end p = HEADER_SIZE + blen d /\ fb_user_version p = v
    end
}.

Lemma wp_pool_slice now path v d p w (Q : bytes -> World -> Prop) E :
  attached path v d p w -> Q d w -> wp (as_slice (Datapool := any_pool now) p) Q E w.
Proof.
  intros [(c & Ec & Hl & Hs) Hp] HQ. destruct p as [p|p]; cbn [as_slice any_pool].
  - subst p. apply io_bind, io_gets. unfold content. cbn [mf_mmap]. rewrite Ec. cbn [default]. unfold id. cbn [mf_start mf_end].
    eapply io_lift; [|exact HQ]. pose proof (blen_nonneg d). rewrite index_some by (unfold HEADER_SIZE in *; lia). by f_equal.
  - destruct Hp as (_ & Hm & Em & _). apply (wp_memory_slice (blen d)); [done|]. by rewrite Em.
Qed.

Lemma wp_pool_update now path v d f p w (Q : Pool -> World -> Prop) E :
  attached path v d p w -> blen (f d) = blen d ->
  (forall p' w', outcomes w' = outcomes w -> attached path v (f d) p' w' -> Q p' w') ->
  wp (as_mut_slice (Datapool := any_pool now) f p) Q E w.
Proof.
  intros [(c & Ec & Hl & Hs) Hp] Hf HQ. pose proof (blen_nonneg d). destruct p as [p|p]; cbn [as_mut_slice any_pool].
  - subst p. apply io_bind, io_bind. unfold map_write. apply io_bind, io_gets. unfold content. cbn [mf_mmap]. rewrite Ec.
    cbn [default]. unfold id. cbn [mf_start mf_end]. apply io_bind. eapply io_lift.
    { unfold index_mut. rewrite index_some by (unfold HEADER_SIZE in *; lia). cbn [mbind option_bind]. rewrite Hs.
      rewrite slice_full by done. reflexivity. }
    apply io_modify, io_ret, io_ret. apply HQ; [done|]. split; [|by rewrite Hf].
    exists (blit HEADER_SIZE (f d) c). unfold set_content, set_files. cbn [files]. rewrite lookup_insert_eq, blen_blit, Hf.
    split; [done|]. split; [done|]. unfold HEADER_SIZE in *. apply slice_blit_eq; lia.
  - destruct Hp as (Hfd & Hm & Em & H1 & H2 & H3). apply io_bind, io_bind, (wp_memory_write (blen d)); [done|by rewrite Em|].
    apply io_ret, io_ret, HQ; [done|]. split; [exists c; by rewrite Hf|]. cbn [file memory data_start data_end fb_user_version].
    rewrite Hf, Em. split; [done|]. split; [by split|]. done.
Qed.

(** What is in the file after a flush that the system did not let finish. *)
Definition half_flushed (p : Pool) now v c d c' : Prop :=
  match p with
  | Mapped _ => c' = c \/ c' = sealed blake3 now v d
  | Backed _ => torn c d c'
  end.

Lemma wp_pool_flush now path v d p w (Q : unit -> World -> Prop) E :
  attached path v d p w -> whole (blen d) ->
  (forall w', outcomes w' `suffix_of` outcomes w -> files w' = <[path := sealed blake3 now v d]> (files w) -> Q tt w') ->
  (forall c c' w', Failure ∈ outcomes w -> files w !! path = Some c -> files w' = <[path := c']> (files w) -> blen c' = blen c ->
    half_flushed p now v c d c' -> E Os w') ->
  wp (flush (Datapool := any_pool now) p) Q E w.
Proof using Hblake.
  intros [(c & Ec & Hl & Hs) Hp] Hw HQ HE. pose proof (blen_nonneg d). pose proof (whole_pages _ Hw) as Hn.
  destruct w as [fs ds os]. cbn [files fds outcomes] in *. destruct p as [p|p]; cbn [flush any_pool].
  - subst p. apply (wp_mmap_flush blake3 Hblake now _ c d (blen d / PAGE_SIZE));
      cbn [mf_mmap mf_user_version]; rewrite ?Hn; [unfold PAGE_SIZE; dm|done..| |].
    + intros os' Ho. by apply HQ.
    + intros c' os' Ho Hx Hc. apply (HE c c'); [done..| |done]. destruct Hc as [->| ->]; [done|]. by rewrite (blen_sealed blake3 Hblake).
  - destruct Hp as ((pos & Hfd) & Hm & Em & H1 & H2 & H3).
    assert (mkWorld fs ds os = st fs ds path (file p) c pos os) as ->.
    { unfold st. rewrite insert_id by done. by rewrite list_insert_id. }
    apply (wp_backed_flush blake3 Hblake fs ds path (file p) (lookup_lt_Some _ _ _ Hfd) os p c d (blen d / PAGE_SIZE) (blen d));
      rewrite ?Hn, ?H3; [unfold PAGE_SIZE; dm|done..| |lia| |done|done|done|done|].
    + rewrite Em. by apply slice_full.
    + intros c' pos' os' Ht Ho Hx. apply (HE c c'); [done..|apply Ht|done].
    + intros pos' os' Ho. by apply HQ.
Qed.

(** The data that an open of each kind reads and shows. *)
Definition data_read (backed : bool) n b : bytes := if backed then page_data n b else all_data n b.
Definition data_shown (backed : bool) n b : bytes :=
  if backed then page_data n b ++ zeros (n - page_count n * PAGE_SIZE) else all_data n b.

Lemma whole_read backed n b : whole n -> data_read backed n b = all_data n b.
Proof. intros Hw. destruct backed; [|done]. unfold data_read, page_data. by rewrite whole_pages. Qed.

Lemma wp_pool_open backed path n v w (Q : Pool -> World -> Prop) (E : Error -> World -> Prop) :
  sizable n ->
  (forall b p w', files w !! path = Some b -> blen b = total n -> verdict blake3 v b (data_read backed n b) = None ->
    files w' = files w -> outcomes w' `suffix_of` outcomes w ->
    match p with
    | Mapped p => backed = false /\ p = mkMmapFile path HEADER_SIZE (HEADER_SIZE + n) v
    | Backed p => backed = true /\ backed_by path n v b p w'
    end -> Q p w') ->
  (forall e w', refused blake3 path n v (data_read backed n) w e w' -> E e w') ->
  wp (pool_open backed path n v) Q E w.
Proof using Hblake.
  intros Hn HQ HE. assert (forall data, answer blake3 path n v data w = None -> exists b, files w !! path = Some b /\
    blen b = total n /\ verdict blake3 v b (data b) = None) as Ha.
  { intros data. unfold answer. destruct (files w !! path) as [b|]; [|done]. destruct (Z.eqb_spec (blen b) (total n)); [|done].
    cbn [negb]. eauto. }
  destruct backed; apply io_bind.
  - eapply io_mono; [by apply wp_backed_open| |exact HE]. cbn beta.
    intros p w' (Hf & Ho & (b & Eb & Hl & Hv)%Ha & b' & Eb' & _ & Hb). rewrite Eb in Eb'. injection Eb' as <-.
    by apply io_ret, (HQ b).
  - eapply io_mono; [by apply wp_mmap_open| |exact HE]. cbn beta.
    intros p w' (Hf & Ho & (b & Eb & Hl & Hv)%Ha & ->). by apply io_ret, (HQ b).
Qed.

(** What opens shows the data of the file, in whole pages. *)
Lemma opened_attached backed path n v b p w w' :
  sizable n -> whole n -> files w !! path = Some b -> blen b = total n -> files w' = files w ->
  match p with
  | Mapped p => backed = false /\ p = mkMmapFile path HEADER_SIZE (HEADER_SIZE + n) v
  | Backed p => backed = true /\ backed_by path n v b p w'
  end -> attached path v (all_data n b) p w'.
Proof.
  intros [Hn _] Hw Eb Hl Hf Hp. rewrite whole_total in Hl by done.
  assert (blen (all_data n b) = n) as Ed by (unfold all_data, HEADER_SIZE in *; apply blen_slice; lia).
  split; rewrite Ed.
  - exists b. rewrite Hf. split; [done|]. split; [done|]. by destruct p.
  - destruct p as [p|p]; destruct Hp as [_ Hp]; [done|]. destruct Hp as [? ? ? ? ? _ Em]. split; [done|]. split; [done|].
    split; [|done]. rewrite Em. unfold page_count. rewrite whole_pages by done. rewrite Z.sub_diag, app_nil_r.
    unfold page_data. by rewrite whole_pages.
Qed.

Lemma wp_pool_create backed path n v w (Q : Pool -> World -> Prop) (E : Error -> World -> Prop) :
  sizable n -> whole n ->
  (forall p w', files w !! path = None -> outcomes w' `suffix_of` outcomes w -> attached path v (zeros n) p w' -> Q p w') ->
  (forall e w', not_created path w e w' -> E e w') ->
  wp (pool_create backed path n v) Q E w.
Proof.
  intros Hn Hw HQ HE. pose proof (whole_total n Hw) as Ht. assert (0 <= n) as Hn0 by apply Hn.
  assert (blen (zeros n) = n) as Hz by by apply blen_zeros. assert (0 <= total n) by (unfold HEADER_SIZE in Ht; lia).
  destruct backed; apply io_bind.
  - eapply io_mono; [by apply wp_backed_create| |exact HE]. cbn beta. intros p w' (Ef & Hf & Ho & [Hfd Hm H1 H2 H3 _]).
    apply io_ret, HQ; [done..|]. split; rewrite Hz.
    + exists (zeros (total n)). rewrite Hf, lookup_insert_eq, blen_zeros by done. done.
    + split; [done|]. rewrite Hm. split; [by apply mem_ok_zeros|]. split; [done|]. by rewrite <- Ht.
  - eapply io_mono; [by apply wp_mmap_create| |exact HE]. cbn beta. intros p w' (Ef & Hf & Ho & ->).
    apply io_ret, HQ; [done..|]. split; rewrite Hz.
    + exists (zeros (total n)). rewrite Hf, lookup_insert_eq, blen_zeros by done. split; [done|]. split; [done|].
      rewrite Ht. replace (zeros (HEADER_SIZE + n)) with (zeros HEADER_SIZE ++ zeros n).
      * rewrite slice_app_r by (rewrite blen_zeros; done). rewrite blen_zeros, Z.sub_diag by done. by apply slice_full.
      * unfold zeros. rewrite <- replicate_add. f_equal. unfold HEADER_SIZE. lia.
    + by rewrite <- Ht.
Qed.

(** ** Clients *)

(** One life of a pool: it is opened as one kind or the other, written to, and
    flushed. *)
Record Session := mkSession { backed : bool; at_ : Times; update : bytes -> bytes }.

Definition write_and_flush (s : Session) (p : Pool) : M unit :=
  p ← as_mut_slice (Datapool := any_pool (at_ s)) (update s) p;
  flush (Datapool := any_pool (at_ s)) p.

Fixpoint sessions path n v (l : list Session) : M unit :=
  match l with
  | [] => mret tt
  | s :: l => p ← pool_open (backed s) path n v; _ ← write_and_flush s p; sessions path n v l
  end.

Definition read_back (kind : bool) path n v : M bytes :=
  p ← pool_open kind path n v;
  as_slice (Datapool := any_pool (mkTimes 0 0 0 0)) p.

Definition lifetime path n v (first : Session) (l : list Session) (kind : bool) : M bytes :=
  p ← pool_create (backed first) path n v;
  _ ← write_and_flush first p;
  _ ← sessions path n v l;
  read_back kind path n v.

Definition keeps_length (s : Session) : Prop := forall d, blen (update s d) = blen d.

Lemma foldl_keeps l d : Forall keeps_length l -> blen (foldl (fun d s => update s d) d l) = blen d.
Proof. intros Hl. revert d. induction Hl as [|s l Hk Hl IH]; intros d; cbn [foldl]; [done|]. by rewrite IH, Hk. Qed.

Definition reliable w : Prop := Failure ∉ outcomes w.

Lemma reliable_later w w' : reliable w -> outcomes w' `suffix_of` outcomes w -> reliable w'.
Proof. intros Hr Hs Hx. apply Hr. by eapply suffix_failure. Qed.

Lemma sealed_data now v d n : blen d = n -> all_data n (sealed blake3 now v d) = d.
Proof using Hblake.
  intros Hd. unfold all_data, sealed. pose proof (blen_as_bytes _ (seal_shaped blake3 Hblake now v d)) as Hl. pose proof (blen_nonneg d).
  rewrite slice_app_r by (rewrite Hl; done). rewrite Hl, Z.sub_diag. by apply slice_full.
Qed.

Lemma sealed_answer backed path n v now d w :
  whole n -> fits 64 v -> blen d = n -> files w !! path = Some (sealed blake3 now v d) ->
  answer blake3 path n v (data_read backed n) w = None.
Proof using Hblake.
  intros Hw Hv Hd Ef. unfold answer. rewrite Ef, (blen_sealed blake3 Hblake), whole_total, Hd, Z.eqb_refl by done. cbn [negb].
  rewrite whole_read, sealed_data by done. by apply verdict_sealed.
Qed.

Lemma reliable_opens backed path n v w now d (Q : Pool -> World -> Prop) E :
  sizable n -> whole n -> fits 64 v -> reliable w -> blen d = n -> files w !! path = Some (sealed blake3 now v d) ->
  (forall p w', files w' = files w -> reliable w' -> attached path v d p w' -> Q p w') ->
  wp (pool_open backed path n v) Q E w.
Proof using Hblake.
  intros Hn Hw Hv Hr Hd Ef HQ. apply wp_pool_open; [done|..].
  - intros b p w' Eb Hl Hver Hf Ho Hp. rewrite Ef in Eb. injection Eb as <-.
    apply HQ; [done|by eapply reliable_later|]. rewrite <- (sealed_data now v d n Hd). by eapply opened_attached.
  - intros e w' [_ [[_ Hx]|Ha]]; [done|]. exfalso. rewrite (sealed_answer backed path n v now d) in Ha by done. done.
Qed.

Lemma wp_write_and_flush s path n v d p w (Q : unit -> World -> Prop) E :
  keeps_length s -> whole n -> reliable w -> blen d = n -> attached path v d p w ->
  (forall w', reliable w' -> files w' !! path = Some (sealed blake3 (at_ s) v (update s d)) -> Q tt w') ->
  wp (write_and_flush s p) Q E w.
Proof using Hblake.
  intros Hk Hw Hr Hd Hp HQ. apply io_bind, (wp_pool_update _ path v d); [done|apply Hk|]. intros p' w1 Ho Hp'.
  assert (reliable w1) as Hr1 by (unfold reliable; by rewrite Ho).
  apply (wp_pool_flush _ path v (update s d)); [done|by rewrite Hk, Hd|..].
  - intros w2 Ho2 Hf2. apply HQ; [by eapply reliable_later|]. by rewrite Hf2, lookup_insert_eq.
  - intros c c' w2 Hx. by destruct Hr1.
Qed.

Lemma wp_sessions path n v l now d w (Q : unit -> World -> Prop) E :
  sizable n -> whole n -> fits 64 v -> Forall keeps_length l -> reliable w -> blen d = n ->
  files w !! path = Some (sealed blake3 now v d) ->
  (forall now' w', reliable w' ->
     files w' !! path = Some (sealed blake3 now' v (foldl (fun d s => update s d) d l)) -> Q tt w') ->
  wp (sessions path n v l) Q E w.
Proof using Hblake.
  intros Hn Hw Hv Hl. revert now d w. induction Hl as [|s l Hk Hl IH]; intros now d w Hr Hd Ef HQ; cbn [sessions].
  - by apply io_ret, (HQ now).
  - apply io_bind, (reliable_opens _ _ _ _ _ now d); [done..|]. intros p w1 Hf1 Hr1 Hp.
    apply io_bind, (wp_write_and_flush s path n v d); [done..|]. intros w2 Hr2 Ef2.
    apply (IH (at_ s) (update s d)); [done|by rewrite Hk|done|]. cbn [foldl] in HQ. exact HQ.
Qed.

(** C14. A pool is created on a free path, written to and flushed; then, any number
    of times, opened as either kind of pool on the file, written to and flushed.
    However the system cuts the transfers of data short, as long as no call
    fails, none of this errs, panics or loops, and whoever opens the file next,
    as either kind, is shown all the writes. *)
Theorem pools_persist path n v first l kind w :
  sizable n -> whole n -> fits 64 v -> Forall keeps_length (first :: l) -> reliable w -> files w !! path = None ->
  exists w', lifetime path n v first l kind w = (Ok (foldl (fun d s => update s d) (zeros n) (first :: l)), w').
Proof using Hblake.
  intros Hn Hw Hv [Hk Hl]%Forall_cons Hr Ef. assert (blen (zeros n) = n) as Hz by (apply blen_zeros, Hn).
  destruct (io_elim (lifetime path n v first l kind) (fun x _ => x = foldl (fun d s => update s d) (zeros n) (first :: l))
    (fun _ _ => False) w) as [(x & w' & E & ->)|(e & w' & _ & [])]; [|by exists w'].
  apply io_bind, wp_pool_create; [done..| |].
  2:{ intros e w' [(_ & [? Hs] & _)|(_ & Hx & _)]; [by rewrite Ef in Hs|done]. }
  intros p w1 _ Ho1 Hp. assert (reliable w1) as Hr1 by by eapply reliable_later.
  apply io_bind, (wp_write_and_flush first path n v (zeros n)); [done..|]. intros w2 Hr2 Ef2.
  apply io_bind, (wp_sessions path n v l (at_ first) (update first (zeros n))); [done..|by rewrite Hk|done|].
  intros now3 w3 Hr3 Ef3. assert (blen (foldl (fun d s => update s d) (update first (zeros n)) l) = n) as Hlen.
  { by rewrite foldl_keeps, Hk. }
  apply io_bind, (reliable_opens _ _ _ _ _ now3 (foldl (fun d s => update s d) (update first (zeros n)) l)); [done..|].
  intros p4 w4 _ _ Hp4. by eapply wp_pool_slice.
Qed.

(** C16. Opening ends with a pool or an error, never in a panic or a loop, and leaves
    every file as it was. It succeeds only on a file of the expected length
    whose magic, version, user version and checksum are right, and shows its
    data (the memory pool what is in whole pages, and zeros); an error is the
    system's, or the first of these that is wrong. *)
Theorem pool_open_verdict path n v kind w :
  sizable n ->
  exists r w', pool_open kind path n v w = (r, w') /\ files w' = files w /\
    match r with
    | Ok p => exists b, files w !! path = Some b /\ blen b = total n /\ verdict blake3 v b (data_read kind n b) = None /\
        forall now, as_slice (Datapool := any_pool now) p w' = (Ok (data_shown kind n b), w')
    | Err e => e = Os /\ Failure ∈ outcomes w \/ answer blake3 path n v (data_read kind n) w = Some e
    | _ => False
    end.
Proof using Hblake.
  intros Hn. assert (0 <= n) as Hn0 by apply Hn. pose proof (total_bounds n Hn) as Ht.
  destruct (io_elim (pool_open kind path n v) (fun p w' => files w' = files w /\ exists b, files w !! path = Some b /\ blen b = total n /\
      verdict blake3 v b (data_read kind n b) = None /\
      forall now, as_slice (Datapool := any_pool now) p w' = (Ok (data_shown kind n b), w'))
    (refused blake3 path n v (data_read kind n) w) w) as [(p & w' & E & Hf & HQ)|(e & w' & E & Hf & He)].
  - apply wp_pool_open; [done| |done]. intros b p w' Eb Hl Hv Hf Ho Hp. split; [done|]. exists b. split; [done|]. split; [done|].
    split; [done|]. intros now. destruct p as [p|p]; destruct Hp as [-> Hp]; cbn [as_slice any_pool].
    + subst p. change (lift (index HEADER_SIZE (HEADER_SIZE + n) (content path w')) w' = (Ok (all_data n b), w')).
      unfold content. rewrite Hf, Eb. change (default [] (Some b)) with b. rewrite index_some by (unfold HEADER_SIZE in *; lia). done.
    + destruct Hp as [_ [Hs Hm] _ _ _ _ Ed]. cbn [as_slice backed_pool memory_pool]. rewrite Hs. change n with (0 + n) at 1.
      rewrite index_some by lia. rewrite slice_full, Ed by done. done.
  - by exists (Ok p), w'.
  - by exists (Err e), w'.
Qed.

(** ** Interruptions and tampering *)

(** Two byte strings with one hash. *)
Definition collide (x y : bytes) : Prop := x <> y /\ blake3 x = blake3 y.

Lemma same_hash x y : blake3 x = blake3 y -> x = y \/ collide x y.
Proof. intros. destruct (decide (x = y)); [by left|by right]. Qed.

Lemma opened_sum backed n v b :
  sizable n -> whole n -> Forall is_byte b -> blen b = total n -> verdict blake3 v b (data_read backed n b) = None ->
  slice 0 32 b = blake3 (hashed_bytes b).
Proof.
  intros [Hn _] Hw Hb Hl. rewrite whole_total in Hl by done. rewrite whole_read by done.
  apply (accepted_sum blake3 v b _ n); [done|lia|lia|done].
Qed.

Lemma hashed_inj b c : slice 0 32 b = slice 0 32 c -> hashed_bytes b = hashed_bytes c -> b = c.
Proof.
  intros Hs Hh%app_inj_1; [|done]. destruct Hh as [_ Hd]. change (take 32 b = take 32 c) in Hs.
  by rewrite <- (take_drop 32 b), <- (take_drop 32 c), Hd, Hs.
Qed.

(** C32. The checksum is over every byte of the file but its own: two files of whole
    pages that open under one checksum, as pools of any kind, are the same, or
    the two strings that were hashed are a collision of the hash. *)
Theorem tampering_detected path n v kind1 kind2 w1 w2 p1 p2 w1' w2' b1 b2 :
  sizable n -> whole n -> files w1 !! path = Some b1 -> files w2 !! path = Some b2 ->
  Forall is_byte b1 -> Forall is_byte b2 -> slice 0 32 b1 = slice 0 32 b2 ->
  pool_open kind1 path n v w1 = (Ok p1, w1') -> pool_open kind2 path n v w2 = (Ok p2, w2') ->
  b1 = b2 \/ collide (hashed_bytes b1) (hashed_bytes b2).
Proof using Hblake.
  intros Hn Hw E1 E2 Hb1 Hb2 Hs O1 O2.
  assert (forall kind w p w' b, files w !! path = Some b -> Forall is_byte b -> pool_open kind path n v w = (Ok p, w') ->
    slice 0 32 b = blake3 (hashed_bytes b)) as Hsum.
  { clear -Hn Hw Hblake. intros kind w p w' b Eb Hb O.
    destruct (io_elim (pool_open kind path n v) (fun _ _ => slice 0 32 b = blake3 (hashed_bytes b)) (fun _ _ => True) w)
      as [(? & ? & _ & ?)|(e & ? & O' & _)]; [|done|by rewrite O in O'].
    apply wp_pool_open; [done| |done]. intros b' p' w1 Eb' Hl Hv _ _ _. rewrite Eb in Eb'. injection Eb' as <-.
    by apply (opened_sum kind n v). }
  rewrite (Hsum _ _ _ _ _ E1 Hb1 O1), (Hsum _ _ _ _ _ E2 Hb2 O2) in Hs.
  destruct (same_hash _ _ Hs) as [Hh|Hc]; [left|by right]. apply hashed_inj; [|done].
  by rewrite (Hsum _ _ _ _ _ E1 Hb1 O1), (Hsum _ _ _ _ _ E2 Hb2 O2).
Qed.

Lemma torn_opens kind n v c d c' :
  sizable n -> whole n -> blen d = n -> blen c = HEADER_SIZE + n -> Forall is_byte c -> Forall is_byte d ->
  verdict blake3 v c (all_data n c) = None -> torn c d c' -> verdict blake3 v c' (data_read kind n c') = None ->
  all_data n c' = d \/ all_data n c' = all_data n c \/ collide (hashed_bytes c') (hashed_bytes c).
Proof using Hblake.
  intros Hn Hw Hd Hc Hcb Hdb Hold (Hl & Hb & Ht) Hnew. destruct Ht as [Hh|Ht]; [|left; by rewrite <- Ht, Hd at 1].
  right. assert (slice 0 32 c' = slice 0 32 c) as Hs.
  { rewrite <- (header_checksum c'), <- (header_checksum c). by rewrite Hh. }
  pose proof (opened_sum false n v c Hn Hw Hcb ltac:(by rewrite whole_total) Hold) as H1.
  pose proof (opened_sum kind n v c' Hn Hw (Hb Hcb Hdb) ltac:(by rewrite whole_total, Hl) Hnew) as H2.
  destruct (same_hash (hashed_bytes c') (hashed_bytes c)) as [He|]; [by rewrite <- H1, <- H2|left|by right].
  by rewrite (hashed_inj c' c).
Qed.

(** C15. A flush of a memory pool that the system interrupts anywhere, in the middle of
    a page or of the header, leaves a file that shows, to whoever manages to
    open it, all of the new data or all of the old: no mixture of the two is
    accepted, unless its bytes collide with those of the old file under the hash. *)
Theorem interrupted_flush path n v now p c d w :
  sizable n -> whole n -> attached path v d (Backed p) w -> blen d = n -> files w !! path = Some c ->
  Forall is_byte c -> Forall is_byte d -> verdict blake3 v c (all_data n c) = None ->
  exists r w' c', flush (Datapool := any_pool now) (Backed p) w = (r, w') /\ (r = Ok tt \/ r = Err Os /\ Failure ∈ outcomes w) /\
    files w' = <[path := c']> (files w) /\
    forall kind w1 q w2, files w1 = files w' -> pool_open kind path n v w1 = (Ok q, w2) ->
      exists x, as_slice (Datapool := any_pool now) q w2 = (Ok x, w2) /\
        (x = d \/ r <> Ok tt /\ (x = all_data n c \/ collide (hashed_bytes c') (hashed_bytes c))).
Proof using Hblake.
  intros Hn Hw Hp Hd Ec Hcb Hdb Hold. pose proof Hp as [(c0 & Ec0 & Hlc & _) _]. rewrite Ec in Ec0. injection Ec0 as <-.
  rewrite Hd in Hlc.
  assert (forall c' kind w' w1 q w2, files w' = <[path := c']> (files w) -> files w1 = files w' -> pool_open kind path n v w1 = (Ok q, w2) ->
    as_slice (Datapool := any_pool now) q w2 = (Ok (all_data n c'), w2) /\ verdict blake3 v c' (data_read kind n c') = None) as Hopen.
  { intros c' kind w' w1 q w2 Hf' Hf1 O.
    destruct (io_elim (pool_open kind path n v) (fun q w2 => as_slice (Datapool := any_pool now) q w2 = (Ok (all_data n c'), w2) /\
      verdict blake3 v c' (data_read kind n c') = None) (fun _ _ => True) w1) as [(? & ? & O' & HQ)|(e & ? & O' & _)].
    - apply wp_pool_open; [done| |done]. intros b p' w3 Eb Hl Hver Hf3 _ Hp3.
      rewrite Hf1, Hf', lookup_insert_eq in Eb. injection Eb as <-. split; [|done].
      destruct (io_elim (as_slice (Datapool := any_pool now) p') (fun x w4 => x = all_data n c' /\ w4 = w3) (fun _ _ => False) w3)
        as [(x & w4 & -> & -> & ->)|(? & ? & _ & [])]; [|done].
      eapply wp_pool_slice; [|done]. eapply (opened_attached kind path n v c'); [done|done| |done|exact Hf3|exact Hp3].
      by rewrite Hf1, Hf', lookup_insert_eq.
    - rewrite O in O'. by injection O' as <- <-.
    - by rewrite O in O'. }
  destruct (io_elim (flush (Datapool := any_pool now) (Backed p)) (fun _ w' => files w' = <[path := sealed blake3 now v d]> (files w))
    (fun e w' => e = Os /\ Failure ∈ outcomes w /\ exists c', files w' = <[path := c']> (files w) /\ torn c d c') w)
    as [([] & w' & Ef & Hf)|(e & w' & Ef & -> & Hx & c' & Hf & Ht)].
  - apply (wp_pool_flush now path v d); [done|by rewrite Hd|done|]. intros c0 c' w' Hx Ec0 Hf' _ Ht.
    rewrite Ec in Ec0. injection Ec0 as <-. eauto.
  - exists (Ok tt), w', (sealed blake3 now v d). split; [done|]. split; [by left|]. split; [done|]. intros kind w1 q w2 Hf1 O.
    eexists. split; [by eapply Hopen|]. left. by apply sealed_data.
  - exists (Err Os), w', c'. split; [done|]. split; [by right|]. split; [done|]. intros kind w1 q w2 Hf1 O.
    destruct (Hopen _ _ _ _ _ _ Hf Hf1 O) as [Hs Hnew]. eexists. split; [exact Hs|].
    destruct (torn_opens kind n v c d c') as [?|Ho]; [done..|by left|]. right. split; [done|exact Ho].
Qed.

(** ** Sizes that are not whole pages *)

Lemma odd_pages n : sizable n -> ~ whole n ->
  total n = HEADER_SIZE + (page_count n + 1) * PAGE_SIZE /\ page_count n * PAGE_SIZE < n < (page_count n + 1) * PAGE_SIZE /\ 0 <= page_count n.
Proof. unfold sizable, whole, total, page_count, HEADER_SIZE, PAGE_SIZE. intros. dm. Qed.

(** What an open reads of the whole last page that a flush wrote. *)
Lemma odd_data n now v d : slice HEADER_SIZE n (sealed blake3 now v d) = slice 0 n d.
Proof using Hblake.
  unfold sealed. pose proof (blen_as_bytes _ (seal_shaped blake3 Hblake now v d)) as Hh.
  rewrite slice_app_r by (rewrite Hh; done). by rewrite Hh, Z.sub_diag.
Qed.

Lemma odd_answer path n v now d w :
  fits 64 v -> files w !! path = Some (sealed blake3 now v d) -> HEADER_SIZE + blen d = total n ->
  answer blake3 path n v (all_data n) w =
    if bool_decide (blake3 (as_bytes (flushed_header now v) ++ d) = blake3 (as_bytes (flushed_header now v) ++ slice 0 n d))
    then None else Some (Other "checksum mismatch").
Proof using Hblake.
  intros Hv Ef Hd. unfold answer. rewrite Ef, (blen_sealed blake3 Hblake), Hd, Z.eqb_refl. cbn [negb].
  unfold all_data. rewrite odd_data. by apply verdict_of_seal.
Qed.

Lemma odd_size n : sizable n -> ~ whole n ->
  exists m, HEADER_SIZE + m = total n /\ whole m /\ n < m /\ zeros (total n) = zeros HEADER_SIZE ++ zeros m.
Proof.
  intros Hn Hw. destruct (odd_pages n Hn Hw) as (Ht & Hlt & Hp). exists ((page_count n + 1) * PAGE_SIZE). rewrite Ht.
  split; [done|]. split; [by apply Z.mod_mul|]. split; [lia|].
  unfold zeros. rewrite <- replicate_add. f_equal. unfold HEADER_SIZE, PAGE_SIZE. lia.
Qed.

Lemma wp_odd_mapped path n v s w (Q : bytes -> World -> Prop) (E : Error -> World -> Prop) :
  sizable n -> ~ whole n -> fits 64 v -> keeps_length s -> backed s = false -> reliable w -> files w !! path = None ->
  (forall d w' x, blen d = total n - HEADER_SIZE -> reliable w' ->
     blake3 (as_bytes (flushed_header (at_ s) v) ++ d) = blake3 (as_bytes (flushed_header (at_ s) v) ++ slice 0 n d) -> Q x w') ->
  (forall w', E (Other "checksum mismatch") w') ->
  wp (lifetime path n v s [] false) Q E w.
Proof using Hblake.
  intros Hn Hw Hv Hk Hs Hr Ef HQ HE. destruct (odd_size n Hn Hw) as (m & Ht & Hwm & Hlt & Ez). assert (0 <= n) as Hn0 by apply Hn.
  assert (blen (zeros m) = m) as Hz by (apply blen_zeros; lia). assert (0 <= total n) by (unfold HEADER_SIZE in *; lia).
  apply io_bind. unfold pool_create. rewrite Hs. apply io_bind. eapply io_mono; [by apply wp_mmap_create|cbn beta|].
  2:{ intros e w' [(_ & [? Hx] & _)|(_ & Hx & _)]; [by rewrite Ef in Hx|done]. }
  intros p w1 (_ & Hf1 & Ho1 & ->). apply io_ret. assert (reliable w1) as Hr1 by by eapply reliable_later.
  apply io_bind, (wp_write_and_flush s path m v (zeros m)); [done..| |].
  { split; rewrite Hz; [|by rewrite Ht]. exists (zeros (total n)). rewrite Hf1, lookup_insert_eq, blen_zeros by done.
    split; [done|]. split; [done|]. rewrite Ez, slice_app_r by (rewrite blen_zeros; done).
    rewrite blen_zeros, Z.sub_diag by done. by apply slice_full. }
  intros w2 Hr2 Ef2. assert (HEADER_SIZE + blen (update s (zeros m)) = total n) as Hd by by rewrite Hk, Hz.
  pose proof (odd_answer path n v (at_ s) (update s (zeros m)) w2 Hv Ef2 Hd) as Ha.
  apply io_bind, io_ret, io_bind. apply wp_pool_open; [done|..].
  - intros b p w3 Eb Hl Hver Hf Ho Hp'. rewrite Ef2 in Eb. injection Eb as <-.
    unfold data_read, all_data in Hver. rewrite odd_data, (verdict_of_seal blake3 Hblake) in Hver by done.
    case_bool_decide as Hc; [|done]. destruct p as [p|p]; destruct Hp' as [Hp1 Hp']; [|done]. subst p.
    change (wp (lift (index HEADER_SIZE (HEADER_SIZE + n) (content path w3))) Q E w3).
    unfold content. rewrite Hf, Ef2. change (default [] (Some ?b)) with b. eapply io_lift.
    { apply index_some; [done|done|]. rewrite (blen_sealed blake3 Hblake). lia. }
    apply (HQ (update s (zeros m))); [lia|by eapply reliable_later|done].
  - intros e w' [_ [[_ Hx]|Ha']]; [done|]. change (answer blake3 path n v (all_data n) w2 = Some e) in Ha'. rewrite Ha in Ha'. case_bool_decide; [done|].
    injection Ha' as <-. apply HE.
Qed.

Lemma odd_backed_panics path n v now p w :
  sizable n -> ~ whole n -> reliable w -> files w !! path = Some (zeros (total n)) ->
  (exists pos, fds w !! file p = Some (path, pos)) -> mem_ok n (memory p) -> data_start p = HEADER_SIZE -> data_end p = total n ->
  panics (backed_flush blake3 now p) w.
Proof using Hblake.
  intros Hn Hw Hr Ef (pos & Hfd) Hm Hst He. destruct (odd_pages n Hn Hw) as (Ht & Hlt & Hp). unfold backed_flush. cbv zeta.
  destruct w as [fs ds os]. cbn [files fds outcomes] in *. assert (0 <= total n) as Ht0 by (unfold HEADER_SIZE, PAGE_SIZE in *; lia).
  assert (mkWorld fs ds os = st fs ds path (file p) (zeros (total n)) pos os) as ->.
  { unfold st. rewrite insert_id by done. by rewrite list_insert_id. }
  pose proof (lookup_lt_Some _ _ _ Hfd) as Hf.
  assert (forall (J : bytes -> Prop) c' pos' os', J c' -> os' `suffix_of` os -> Failure ∈ os -> (fun (_ : Error) (_ : World) => False) Os (st fs ds path (file p) c' pos' os')) as HE.
  { intros J c' pos' os' _ _ Hx. by apply Hr. }
  apply panics_bind, (wp_seek fs ds path (file p) Hf os _ (fun _ => True) (HE _)); [done..|]. intros os1 _ H1.
  replace ((data_end p - data_start p) / PAGE_SIZE) with (page_count n + 1).
  2:{ rewrite He, Hst, Ht, Z.add_simpl_l. unfold PAGE_SIZE. by rewrite Z.div_mul. }
  apply panics_now. unfold panics. replace (Z.to_nat (page_count n + 1)) with (Z.to_nat (page_count n) + 1)%nat by lia.
  rewrite for_pages_add. apply panics_bind.
  apply (wp_write_pages fs ds path (file p) Hf os p (zeros (total n)) (slice 0 (page_count n * PAGE_SIZE) (mmap (memory p))) (page_count n) n);
    [done|done|done|lia|done|rewrite blen_zeros by done; rewrite Ht; unfold PAGE_SIZE in *; lia|by apply HE|done|].
  intros c' os2 _ _ _. rewrite Z2Nat.id, Z.add_0_l by done. cbn [for_pages]. apply panics_now. unfold loop, panics. cbn [retry].
  apply panics_now. unfold write_page. apply panics_bind, (wp_memory_slice n); [done|]. apply panics_now.
  exists (st fs ds path (file p) c' (HEADER_SIZE + page_count n * PAGE_SIZE) os2). unfold index, lift.
  rewrite (mo_len _ _ Hm). rewrite (proj2 (Z.leb_gt _ n)) by (unfold PAGE_SIZE in *; lia). by rewrite andb_false_r.
Qed.

(** C31. A size that is not a whole number of pages, which [create] accepts, does not
    survive a flush. The flush of a memory pool panics: it writes out the last
    page of the file from a memory that does not reach to its end. A mapped pool
    flushes, but its checksum is over the whole last page, and that of [open]
    over the data up to the size: [open] answers a checksum mismatch, unless the
    two strings collide under the hash. *)
Theorem odd_sizes_are_lost path n v s w :
  sizable n -> ~ whole n -> fits 64 v -> keeps_length s -> reliable w -> files w !! path = None ->
  exists r w', lifetime path n v s [] false w = (r, w') /\
    if backed s then r = Panic
    else r = Err (Other "checksum mismatch") \/
      exists d, blen d = total n - HEADER_SIZE /\
        collide (as_bytes (flushed_header (at_ s) v) ++ d) (as_bytes (flushed_header (at_ s) v) ++ slice 0 n d).
Proof using Hblake.
  intros Hn Hw Hv Hk Hr Ef. assert (0 <= n) as Hn0 by apply Hn. destruct (odd_pages n Hn Hw) as (Ht & Hlt & Hp).
  destruct (backed s) eqn:Eb.
  - assert (panics (lifetime path n v s [] false) w) as [w' E]; [|by exists Panic, w'].
    apply panics_bind. unfold pool_create. rewrite Eb. apply io_bind. eapply io_mono; [by apply wp_backed_create|cbn beta|].
    2:{ intros e w' [(_ & [? Hx] & _)|(_ & Hx & _)]; [by rewrite Ef in Hx|done]. }
    intros p w1 (_ & Hf1 & Ho1 & [Hfd Hm H1 H2 H3 _]). apply io_ret. apply panics_now. unfold write_and_flush. cbn [as_mut_slice any_pool].
    apply panics_bind, io_bind, io_bind, (wp_memory_write n);
      [rewrite Hm; by apply mem_ok_zeros|rewrite Hk, Hm; by apply blen_zeros|].
    apply io_ret, io_ret. cbn [flush any_pool backed_pool]. apply (odd_backed_panics path n v); try done.
    + by eapply reliable_later.
    + by rewrite Hf1, lookup_insert_eq.
    + split; [done|]. cbn [memory mmap]. rewrite Hk, Hm. by apply blen_zeros.
  - destruct (io_elim (lifetime path n v s [] false)
      (fun _ _ => exists d, blen d = total n - HEADER_SIZE /\
        collide (as_bytes (flushed_header (at_ s) v) ++ d) (as_bytes (flushed_header (at_ s) v) ++ slice 0 n d))
      (fun e _ => e = Other "checksum mismatch") w) as [(x & w' & E & HQ)|(e & w' & E & ->)].
    + apply wp_odd_mapped; [done..| |done]. intros d w' _ Hd _ Hh. exists d. split; [done|]. split; [|done].
      intros [_ Hx]%app_inj_1; [|done]. apply (f_equal blen) in Hx. rewrite blen_slice in Hx by lia. unfold PAGE_SIZE in *. lia.
    + exists (Ok x), w'. split; [done|]. by right.
    + eexists _, w'. split; [done|]. by left.
Qed.
End Client.

(** ** Instances

    Under a toy hash, the sum of the bytes, 32 times. *)
Module PoolDemo.
Definition toy (b : bytes) : bytes := replicate 32 (foldl (fun h x => (h + x) mod 256) 0 b).

Lemma toy_ok b : length (toy b) = 32%nat /\ Forall is_byte (toy b).
Proof.
  split; [done|]. apply Forall_replicate. unfold is_byte.
  enough (forall h, 0 <= h < 256 -> 0 <= foldl (fun h x => (h + x) mod 256) h b < 256) by (apply H; lia).
  induction b as [|x b IH]; intros h Hh; cbn [foldl]; [done|]. apply IH. by apply Z.mod_pos_bound.
Qed.

Definition now : Times := mkTimes 5 1000 5000000000 1000000000000.
Definition overwrite (bs d : bytes) : bytes := blit 0 bs d.
Definition backed_life (bs : bytes) : Session := mkSession true now (overwrite bs).
Definition mapped_life (bs : bytes) : Session := mkSession false now (overwrite bs).

Lemma overwrite_keeps k bs : keeps_length (mkSession k now (overwrite bs)).
Proof. intros d. apply blen_blit. Qed.

(** No file, and a system that cuts transfers short. *)
Definition empty_world : World := mkWorld ∅ [] [Success; Success; Partial 1000; Success; Partial 0; Success; Success; Partial 4095].

Lemma empty_reliable : reliable empty_world.
Proof. unfold reliable, empty_world. cbn. by apply (bool_decide_unpack _). Qed.

Lemma page_sizable n : 0 <= n <= 2 ^ 20 -> sizable n.
Proof. unfold sizable. pow2. lia. Qed.

(** The model runs: two bytes written through the memory pool, the second
    overwritten through the mapping, read back by the memory pool. *)
Example pool_runs :
  match lifetime false toy "cache" 4096 7 (backed_life [1; 2]) [mapped_life [1; 3; 4]] true empty_world with
  | (Ok d, w) => bool_decide (slice 0 5 d = [1; 3; 4; 0; 0] /\ blen d = 4096 /\ outcomes w = [])
  | _ => false
  end = true.
Proof. by vm_compute. Qed.

Example odd_runs :
  fst (lifetime false toy "cache" 100 7 (backed_life [1; 2]) [] false empty_world) = Panic /\
  fst (lifetime false (fun b => replicate 32 (blen b mod 256)) "cache" 100 7 (mapped_life [1; 2]) [] false empty_world)
    = Err (Other "checksum mismatch").
Proof. by vm_compute. Qed.

Lemma pools_persist_witness :
  exists w', lifetime true toy "cache" 4096 7 (backed_life [1; 2]) [mapped_life [1; 3; 4]] true empty_world =
    (Ok (foldl (fun d s => update s d) (zeros 4096) [backed_life [1; 2]; mapped_life [1; 3; 4]]), w').
Proof.
  apply (pools_persist true toy toy_ok "cache" 4096 7 (backed_life [1; 2]) [mapped_life [1; 3; 4]] true empty_world);
    [by apply page_sizable|done|done| |apply empty_reliable|done].
  repeat constructor; apply overwrite_keeps.
Defined.

Definition stored (d : bytes) : World := mkWorld {["cache" := sealed toy now 7 d]} [] [].

Lemma pool_open_verdict_witness :
  exists r w', pool_open true toy true "cache" 4096 7 empty_world = (r, w') /\ files w' = files empty_world /\
    match r with
    | Ok p => exists b, files empty_world !! "cache" = Some b /\ blen b = total 4096 /\ verdict toy 7 b (data_read true 4096 b) = None /\
        forall now, as_slice (Datapool := any_pool toy now) p w' = (Ok (data_shown true 4096 b), w')
    | Err e => e = Os /\ Failure ∈ outcomes empty_world \/ answer toy "cache" 4096 7 (data_read true 4096) empty_world = Some e
    | _ => False
    end.
Proof. apply (pool_open_verdict true toy toy_ok "cache" 4096 7 true empty_world). by apply page_sizable. Defined.

Lemma stored_file d : files (stored d) !! "cache"%string = Some (sealed toy now 7 d).
Proof. apply lookup_singleton_eq. Qed.

(** Two files of one checksum: the toy hash has collisions. *)
Definition data_a : bytes := overwrite [1; 2] (zeros 4096).
Definition data_b : bytes := overwrite [2; 1] (zeros 4096).

Lemma stored_bytes d : Forall is_byte d -> Forall is_byte (sealed toy now 7 d).
Proof. intros. apply Forall_app_2; [apply (bytes_seal toy toy_ok)|done]. Qed.

Lemma overwrite_bytes bs n : Forall is_byte bs -> Forall is_byte (overwrite bs (zeros n)).
Proof. intros. apply Forall_blit; [done|]. by apply Forall_replicate. Qed.

Lemma page_ok : sizable 4096 /\ whole 4096.
Proof. split; [by apply page_sizable|done]. Qed.

Lemma same_sums : slice 0 32 (sealed toy now 7 data_a) = slice 0 32 (sealed toy now 7 data_b).
Proof. by vm_compute. Qed.

Lemma data_a_bytes : Forall is_byte data_a.
Proof. apply overwrite_bytes. repeat constructor; done. Qed.

Lemma data_b_bytes : Forall is_byte data_b.
Proof. apply overwrite_bytes. repeat constructor; done. Qed.

Lemma stored_opens kind d : blen d = 4096 -> exists p w', pool_open true toy kind "cache" 4096 7 (stored d) = (Ok p, w').
Proof.
  intros Hd. destruct (io_elim (pool_open true toy kind "cache" 4096 7) (fun _ _ => True) (fun _ _ => False) (stored d))
    as [(p & w' & E & _)|(? & ? & _ & [])]; [|by exists p, w'].
  apply (reliable_opens true toy toy_ok kind "cache" 4096 7 _ now d); [apply page_ok|apply page_ok|done| |done|apply stored_file|done].
  apply not_elem_of_nil.
Qed.

Lemma tampering_detected_witness :
  sealed toy now 7 data_a = sealed toy now 7 data_b \/
  collide toy (hashed_bytes (sealed toy now 7 data_a)) (hashed_bytes (sealed toy now 7 data_b)).
Proof.
  assert (blen data_a = 4096 /\ blen data_b = 4096) as [La Lb] by by vm_compute.
  destruct (stored_opens false data_a La) as (p1 & w1 & E1), (stored_opens true data_b Lb) as (p2 & w2 & E2).
  exact (tampering_detected true toy toy_ok "cache" 4096 7 false true (stored data_a) (stored data_b) p1 p2 w1 w2
    (sealed toy now 7 data_a) (sealed toy now 7 data_b) (proj1 page_ok) (proj2 page_ok) (stored_file _) (stored_file _)
    (stored_bytes _ data_a_bytes) (stored_bytes _ data_b_bytes) same_sums E1 E2).
Defined.

(** A flush that fails in the second write. *)
Definition old_data : bytes := zeros 4096.
Definition open_pool : FileBackedMemory := mkBacked (mkMemory data_a 4096) (zeros 4096) 0 4096 8192 7.
Definition failing_world : World :=
  mkWorld {["cache" := sealed toy now 7 old_data]} [("cache", 0)] [Success; Partial 1; Success; Failure].

Lemma open_pool_attached : attached "cache" 7 data_a (Backed open_pool) failing_world.
Proof.
  assert (blen data_a = 4096) as Hd by by vm_compute.
  split; [|cbn [file memory data_start data_end fb_user_version open_pool mmap]].
  - exists (sealed toy now 7 old_data). split; [done|]. split; [|done]. rewrite (blen_sealed toy toy_ok), Hd. done.
  - split; [by exists 0|]. rewrite Hd. split; [by split|]. done.
Qed.

Lemma interrupted_flush_witness :
  exists r w' c', flush (Datapool := any_pool toy now) (Backed open_pool) failing_world = (r, w') /\
    (r = Ok tt \/ r = Err Os /\ Failure ∈ outcomes failing_world) /\
    files w' = <["cache" := c']> (files failing_world) /\
    forall kind w1 q w2, files w1 = files w' -> pool_open true toy kind "cache" 4096 7 w1 = (Ok q, w2) ->
      exists x, as_slice (Datapool := any_pool toy now) q w2 = (Ok x, w2) /\
        (x = data_a \/ r <> Ok tt /\ (x = all_data 4096 (sealed toy now 7 old_data) \/
           collide toy (hashed_bytes c') (hashed_bytes (sealed toy now 7 old_data)))).
Proof.
  apply (interrupted_flush true toy toy_ok "cache" 4096 7 now open_pool (sealed toy now 7 old_data) data_a failing_world);
    [by apply page_sizable|done|apply open_pool_attached|by vm_compute|done| | |].
  - apply stored_bytes. by apply Forall_replicate.
  - apply data_a_bytes.
  - rewrite (sealed_data toy toy_ok) by (by vm_compute). by apply verdict_sealed; [apply toy_ok|].
Defined.

Lemma odd_sizes_are_lost_witness :
  exists r w', lifetime true toy "cache" 100 7 (mapped_life [1; 2]) [] false empty_world = (r, w') /\
    (r = Err (Other "checksum mismatch") \/
      exists d, blen d = total 100 - HEADER_SIZE /\
        collide toy (as_bytes (flushed_header now 7) ++ d) (as_bytes (flushed_header now 7) ++ slice 0 100 d)).
Proof.
  apply (odd_sizes_are_lost true toy toy_ok "cache" 100 7 (mapped_life [1; 2]) empty_world);
    [by apply page_sizable|done|done|apply overwrite_keeps|apply empty_reliable|done].
Defined.
End PoolDemo.
